(** * QuadRay scene manager (engine.cpp): list building, tiling and scheduling

    A shallow embedding of the parts of [rt_SceneThread] and [rt_Scene]
    that prepare the per-frame lists of the rendering backend:
    - [rt_SceneThread::insert] with its three sorting phases,
    - [rt_SceneThread::ssort] and [rt_SceneThread::lsort],
    - [rt_SceneThread::filter],
    - [rt_SceneThread::tiling] with [RT_UPDATE_TILES_BOUNDS],
    - [rt_SceneThread::stile],
    - the tile-grid assembly of [rt_Scene::render],
    - [rt_Scene::update_slice] and the sequential stand-ins
      [update_scene] and [render_scene] for the thread pool.

    Pointers are integers ([Z], 0 is [RT_NULL]); list elements live in a
    finite map from addresses to [rt_ELEM] records; a dereference outside
    that map is a [Fault]; loops run on fuel. *)

From Stdlib Require Import ZArith Lia Bool List String.
From stdpp Require Import base option list gmap.

Local Open Scope Z_scope.

(** ** Memory: rt_ELEM records, pointer cells and the per-frame arena *)

Module Mem.

(** [rt_ELEM]: a list element with its link, the stored order value (or
    packed tile / sub-list pointer), the backend descriptor (or, while a
    list is built, an array node's sub-list head with the node type in
    the two low bits) and the object the element was made for. *)
Record ELEM : Type := mkELEM { next : Z; data : Z; simd : Z; temp : Z }.

Definition set_next (v : Z) (e : ELEM) : ELEM := mkELEM v (data e) (simd e) (temp e).
Definition set_data (v : Z) (e : ELEM) : ELEM := mkELEM (next e) v (simd e) (temp e).
Definition set_simd (v : Z) (e : ELEM) : ELEM := mkELEM (next e) (data e) v (temp e).
Definition set_temp (v : Z) (e : ELEM) : ELEM := mkELEM (next e) (data e) (simd e) v.

(** The pointer-sized variables that are no field of an element. *)
Inductive var : Type :=
| Local (n : Z)          (* a local list head such as [lst] in ssort/lsort *)
| LstP (srf i : Z)       (* srf->s_srf->lst_p[i] *)
| MscP (srf i : Z)       (* srf->s_srf->msc_p[i] *)
| Tile (t : Z).          (* scene->tiles[t] *)

#[global] Instance var_eq_dec : EqDecision var.
Proof. solve_decision. Defined.

Definition var_code (v : var) : Z * Z * Z :=
  match v with
  | Local n => (0, n, 0)
  | LstP s i => (1, s, i)
  | MscP s i => (2, s, i)
  | Tile t => (3, t, 0)
  end.
Definition var_decode (c : Z * Z * Z) : var :=
  match c with
  | (0, n, _) => Local n
  | (1, s, i) => LstP s i
  | (2, s, i) => MscP s i
  | (_, t, _) => Tile t
  end.

#[global] Instance var_countable : Countable var.
Proof. apply (inj_countable' var_code var_decode). intros []; reflexivity. Defined.

(** The store: the elements allocated so far, the variables outside
    them, and the arena's allocation pointer. *)
Record state : Type := mkState { elems : gmap Z ELEM; slots : gmap var Z; brk : Z }.

(** A value of type [rt_ELEM **]: where a list head is stored. *)
Inductive loc : Type :=
| Slot (c : var)    (* a variable outside every element *)
| NextOf (a : Z)    (* &a->next *)
| DataOf (a : Z)    (* &a->data *)
| SimdOf (a : Z).   (* &a->simd *)

Inductive result (A : Type) : Type :=
| Ok (a : A) (s : state)
| Thrown (msg : string)   (* throw rt_Exception(msg) *)
| Fault                   (* dereference of a pointer that is no live element, object or cell *)
| Timeout.                (* the fuel of a loop ran out *)
Arguments Ok {A} a s.
Arguments Thrown {A} msg.
Arguments Fault {A}.
Arguments Timeout {A}.

Definition M (A : Type) : Type := state -> result A.

Definition ret {A} (a : A) : M A := fun s => Ok a s.
Definition bind {A B} (m : M A) (f : A -> M B) : M B :=
  fun s => match m s with
           | Ok a s' => f a s'
           | Thrown msg => Thrown msg
           | Fault => Fault
           | Timeout => Timeout
           end.
Definition throw {A} (msg : string) : M A := fun _ => Thrown msg.
Definition fault {A} : M A := fun _ => Fault.
Definition timeout {A} : M A := fun _ => Timeout.

#[global] Instance M_ret : MRet M := @ret.
#[global] Instance M_bind : MBind M := fun A B f m => bind m f.

(** Field reads and writes through an element pointer. *)
Definition rd (f : ELEM -> Z) (a : Z) : M Z :=
  fun s => match elems s !! a with
           | Some e => Ok (f e) s
           | None => Fault
           end.
Definition wr (f : Z -> ELEM -> ELEM) (a : Z) (v : Z) : M unit :=
  fun s => match elems s !! a with
           | Some e => Ok tt (mkState (<[a := f v e]> (elems s)) (slots s) (brk s))
           | None => Fault
           end.

(** [*ptr] and [*ptr = v]. *)
Definition load (p : loc) : M Z :=
  match p with
  | Slot c => fun s => match slots s !! c with Some v => Ok v s | None => Fault end
  | NextOf a => rd next a
  | DataOf a => rd data a
  | SimdOf a => rd simd a
  end.
Definition store (p : loc) (v : Z) : M unit :=
  match p with
  | Slot c => fun s => match slots s !! c with
                       | Some _ => Ok tt (mkState (elems s) (<[c := v]> (slots s)) (brk s))
                       | None => Fault
                       end
  | NextOf a => wr set_next a v
  | DataOf a => wr set_data a v
  | SimdOf a => wr set_simd a v
  end.

(** Modelled from the spec: [rt_Heap::alloc] is not part of the sources
    at hand.  Per the spec's per-thread arena ("owns all Elements ...
    allocated during one frame; reset (not individually freed) at frame
    end", capacity assumed sufficient) it is a bump allocator: it hands
    out the current allocation pointer and advances it by the size of an
    [rt_ELEM] (four pointer-sized fields, 16 bytes for RT_POINTER=32).
    The fresh element's fields read as 0 until the caller sets them. *)
Definition sizeof_ELEM : Z := 16.
Definition alloc : M Z :=
  fun s => Ok (brk s)
              (mkState (<[brk s := mkELEM 0 0 0 0]> (elems s)) (slots s) (brk s + sizeof_ELEM)).

(** [(rt_cell)p & ~0x3] and [(rt_cell)p & 0x3]. *)
Definition untag (v : Z) : Z := Z.land v (Z.lnot 3).
Definition tagof (v : Z) : Z := Z.land v 3.

End Mem.

(** ** The object hierarchy as the engine reads it *)

Module Engine.
Import Mem.

(** The classes of [rt_Object::tag] that the engine's tests
    [RT_IS_CAMERA], [RT_IS_LIGHT], [RT_IS_ARRAY] and [RT_IS_SURFACE]
    tell apart (the macros are declared outside the sources at hand;
    all surface tags PL, CL, SP, CN, PB, HB fall in [SURFACE]). *)
Inductive kind : Type := CAMERA | LIGHT | ARRAY | SURFACE.

(** The fields of an object that the list builder reads: [parent],
    [trnode] and [bvnode] are object pointers (0 when absent; a
    surface's [trnode] may be the surface itself), [s_srf] and [s_lgt]
    are the backend descriptors. *)
Record Object : Type := mkObject
  { tag : kind; parent : Z; trnode : Z; bvnode : Z; s_srf : Z; s_lgt : Z }.

Definition RT_IS_LIGHT (o : Object) : bool :=
  match tag o with LIGHT => true | _ => false end.
Definition RT_IS_ARRAY (o : Object) : bool :=
  match tag o with ARRAY => true | _ => false end.
Definition RT_IS_SURFACE (o : Object) : bool :=
  match tag o with SURFACE => true | _ => false end.

Section Insert.

(** The scene as seen by one [rt_SceneThread]: the objects by address,
    [scene->slist], whether the sorting part of [insert] is compiled in
    and switched on ([RT_OPTS_INSERT], a flag of [scene->opts] defined
    outside the sources at hand), and the order predicate [bbox_sort]
    of rtgeom (1 "don't swap", 2 "do swap", 3 "neutral",
    4 "unsortable"), called as [bbox_sort obj nd1 nd2]. *)
Variable objs : gmap Z Object.
Variable slist : Z.
Variable opt_insert : bool.
Variable bbox_sort : Z -> Z -> Z -> Z.

Definition deref (p : Z) : M Object :=
  fun s => match objs !! p with Some o => Ok o s | None => Fault end.

(** [for (; par != RT_NULL; par = par->parent) if (par == arr[i]) ...] *)
Fixpoint search_parent (fuel : nat) (par target : Z) : M bool :=
  if par =? 0 then mret false
  else if par =? target then mret true
  else match fuel with
       | O => timeout
       | S f => o ← deref par; search_parent f (parent o) target
       end.

(** The loop [for (i = 0; i < 2 && k < 0; i++)] over the two nodes
    followed by the check [k == -1]. *)
Definition branch_order (fuel : nat) (arr0 arr1 : Z) : M Z :=
  a1 ← deref arr1;
  f0 ← search_parent fuel (parent a1) arr0;
  if f0 : bool then mret 0
  else a0 ← deref arr0;
       f1 ← search_parent fuel (parent a0) arr1;
       if f1 : bool then mret 1
       else throw "trnode/bvnode are not on the same branch".

(** [arr[k]] for the two-element array [arr]. *)
Definition sel (arr : Z * Z) (k : Z) : Z := if k =? 0 then fst arr else snd arr.

(** The nodes a surface belongs to, as [insert] determines them for the
    requester [obj]: [arr[0]] the trnode, [arr[1]] the bvnode. *)
Definition nodes_of (obj srf : Z) : M (Z * Z) :=
  s ← deref srf;
  let arr0 := if negb (trnode s =? 0) && negb (trnode s =? srf) then trnode s else 0 in
  arr1 ← (if negb (bvnode s =? 0)
          then o ← deref obj; mret (if RT_IS_SURFACE o then bvnode s else 0)
          else mret 0);
  mret (arr0, arr1).

Definition count_nodes (arr : Z * Z) : Z :=
  (if fst arr =? 0 then 0 else 1) + (if snd arr =? 0 then 0 else 1).

(** The index [k] of the outer-most node, -1 when there is none. *)
Definition outer_most (fuel : nat) (arr : Z * Z) : M Z :=
  if count_nodes arr =? 2 then
    if fst arr =? snd arr then mret 1
    else branch_order fuel (fst arr) (snd arr)
  else if negb (fst arr =? 0) then mret 0
  else if negb (snd arr =? 0) then mret 1
  else mret (-1).

(** The search for existing node elements:
    [for (i = 0; nxt != RT_NULL && i < n; nxt = nxt->next)]; on a match
    the insertion point moves to the node's sub-list and the loop's
    increment then steps over the sub-list's first element. *)
Fixpoint search_nodes (fuel : nat) (arr : Z * Z) (n i k : Z) (ptr : loc) (nxt : Z)
  : M (Z * Z * loc) :=
  if (nxt =? 0) || negb (i <? n) then mret (i, k, ptr)
  else match fuel with
       | O => timeout
       | S f =>
         t ← rd temp nxt;
         sm ← rd simd nxt;
         if (sel arr k =? t) && (tagof sm =? k) then
           v ← load (SimdOf nxt);
           nn ← rd next (untag v);
           search_nodes f arr n (i + 1) (1 - k) (SimdOf nxt) nn
         else
           nn ← rd next nxt;
           search_nodes f arr n i k ptr nn
       end.

(** [for (; i < n; i++, k = 1 - k)]: new node elements from outer-most
    to inner-most; [cnt] is [n - i]. *)
Fixpoint alloc_nodes (cnt : nat) (arr : Z * Z) (k : Z) (ptr : loc) (org : option loc)
  : M (loc * option loc) :=
  match cnt with
  | O => mret (ptr, org)
  | S c =>
    nxt ← alloc;
    wr set_data nxt 0;;
    wr set_simd nxt k;;
    wr set_temp nxt (sel arr k);;
    v ← load ptr;
    wr set_next nxt (untag v);;
    v' ← load ptr;
    store ptr (Z.lor nxt (tagof v'));;
    alloc_nodes c arr (1 - k) (SimdOf nxt)
                (match org with None => Some ptr | Some _ => org end)
  end.

(** [data = bbox_sort(obj, a->temp, b->temp)] for element pointers. *)
Definition order_of (obj a b : Z) : M Z :=
  ta ← rd temp a; tb ← rd temp b; mret (bbox_sort obj ta tb).

(** Phase 1: push [elm] through the list for as long as possible.
    Returns the final [prv] and [state]. *)
Fixpoint phase1 (fuel : nat) (obj : Z) (ptr : loc) (elm prv state nxt : Z) : M (Z * Z) :=
  if nxt =? 0 then mret (prv, state)
  else match fuel with
       | O => timeout
       | S f =>
         op ← order_of obj elm nxt;
         if (op =? 2) || (op =? 3) then
           let op' := if op =? 2 then 1 else op in
           nn ← rd next nxt;
           wr set_next elm nn;;
           (if negb (prv =? 0) then
              (if negb (state =? 0) then wr set_data prv state
               else d ← order_of obj prv nxt; wr set_data prv d);;
              wr set_next prv nxt
            else
              v ← load ptr; store ptr (Z.lor nxt (tagof v)));;
           st ← rd data nxt;
           wr set_data nxt op';;
           wr set_next nxt elm;;
           en ← rd next elm;
           phase1 f obj ptr elm nxt st en
         else
           wr set_data elm op;;
           mret (prv, 0)
       end.

(** Phase 2: [for (end = elm; end->data == 1 || end->data == 4; end = end->next);] *)
Fixpoint phase2 (fuel : nat) (end_ : Z) : M Z :=
  d ← rd data end_;
  if (d =? 1) || (d =? 4) then
    match fuel with
    | O => timeout
    | S f => nn ← rd next end_; phase2 f nn
    end
  else mret end_.

(** [for (ipt = end; ipt->next != cur; ipt = ipt->next);] *)
Fixpoint find_prev (fuel : nat) (ipt cur : Z) : M Z :=
  nn ← rd next ipt;
  if nn =? cur then mret ipt
  else match fuel with
       | O => timeout
       | S f => find_prev f nn cur
       end.

(** [if (p->data == 0) { cur = p->next; p->data = bbox_sort(obj, p->temp, cur->temp); }] *)
Definition repair (obj p : Z) : M unit :=
  d ← rd data p;
  if d =? 0 then
    cur ← rd next p; o ← order_of obj p cur; wr set_data p o
  else mret tt.

(** The comb: [for (jpt = tlp; jpt != nxt; jpt = jpt->next)], the order
    of the tail element [cur] against each element of the
    strict-order-chain from [tlp->next] up to [nxt].  Returns [mv] and
    the local [state]. *)
Fixpoint comb_scan (fuel : nat) (obj tlp nxt cur state jpt : Z) : M (bool * Z) :=
  if jpt =? nxt then mret (false, state)
  else match fuel with
       | O => timeout
       | S f =>
         jel ← rd next jpt;
         cn ← rd next cur;
         cd ← rd data cur;
         tn ← rd next tlp;
         op ← (if (cn =? jel) && negb (cd =? 0) then mret cd
               else if (tn =? jel) && negb (state =? 0) then mret state
               else order_of obj cur jel);
         state' ← (if cn =? jel then wr set_data cur op;; mret state
                   else if tn =? jel then mret op
                   else mret state);
         if (op =? 1) || (op =? 4) then mret (true, state')
         else jn ← rd next jpt; comb_scan f obj tlp nxt cur state' jn
       end.

(** [while (cur != end)]: run through the tail from [tlp] backwards,
    combing out the elements that move along with [nxt].  Returns
    [tlp], [gr] and the last [ipt]. *)
Fixpoint comb_tail (fuel : nat) (obj end_ nxt tlp cur state : Z) (gr : bool) (ipt0 : Z)
  : M (Z * bool * Z) :=
  if cur =? end_ then mret (tlp, gr, ipt0)
  else match fuel with
       | O => timeout
       | S f =>
         ipt ← find_prev fuel end_ cur;
         iel ← rd next ipt;
         '(mv, state1) ← comb_scan fuel obj tlp nxt cur state tlp;
         if mv : bool then
           if cur =? tlp then
             comb_tail f obj end_ nxt ipt ipt state1 true ipt
           else
             cur' ← rd next tlp;
             wr set_data iel state1;;
             state2 ← rd data ipt;
             wr set_data ipt 0;;
             ien ← rd next iel;
             wr set_next ipt ien;;
             wr set_next iel cur';;
             wr set_data tlp 0;;
             wr set_next tlp iel;;
             comb_tail f obj end_ nxt tlp ipt state2 true ipt
         else
           repair obj iel;;
           comb_tail f obj end_ nxt tlp ipt 0 gr ipt
       end.

(** Phase 3: move the elements from behind [elm]'s strict-order-chain
    right in front of [elm] as the computed order value dictates.
    Returns the final [tlp]. *)
Fixpoint phase3 (fuel : nat) (obj : Z) (ptr : loc) (elm end_ prv state tlp nxt : Z) : M Z :=
  if nxt =? 0 then mret tlp
  else match fuel with
       | O => timeout
       | S f =>
         op ← order_of obj elm nxt;
         if op =? 2 then
           '(tlp1, gr) ← (if negb (tlp =? end_) then
                            '(tlp', gr, ipt) ← comb_tail fuel obj end_ nxt tlp tlp 0 false 0;
                            repair obj ipt;;
                            mret (tlp', gr)
                          else mret (tlp, false));
           let state1 := if gr : bool then 0 else state in
           cur ← rd next tlp1;
           (if negb (prv =? 0) then
              (if negb (state1 =? 0) then wr set_data prv state1
               else d ← order_of obj prv cur; wr set_data prv d);;
              wr set_next prv cur
            else
              v ← load ptr; store ptr (Z.lor cur (tagof v)));;
           cur2 ← rd next nxt;
           wr set_data tlp1 0;;
           wr set_next tlp1 cur2;;
           st ← rd data nxt;
           wr set_data nxt 1;;
           wr set_next nxt elm;;
           phase3 f obj ptr elm end_ nxt st tlp1 cur2
         else
           nd ← rd data nxt;
           '(state1, tlp1) ← (if negb (nd =? 1) && negb (nd =? 4) then
                                repair obj tlp;;
                                mret (0, nxt)
                              else mret (state, tlp));
           nn ← rd next nxt;
           phase3 f obj ptr elm end_ prv state1 tlp1 nn
       end.

(** The sorting part of [insert]: the list at [ptr] with the new
    element [elm] linked in as its head. *)
Definition sort (fuel : nat) (obj : Z) (ptr : loc) (elm : Z) : M Z :=
  nxt ← rd next elm;
  '(prv, state) ← phase1 fuel obj ptr elm 0 0 nxt;
  end_ ← phase2 fuel elm;
  en ← rd next end_;
  tlp ← phase3 fuel obj ptr elm end_ prv state end_ en;
  cur ← rd next tlp;
  td ← rd data tlp;
  (if (td =? 0) && negb (cur =? 0) then
     o ← order_of obj tlp cur; wr set_data tlp o
   else mret tt);;
  mret elm.

(** [rt_SceneThread::insert(obj, ptr, srf)]. *)
Definition insert (fuel : nat) (obj : Z) (ptr : loc) (srf : Z) : M Z :=
  elm0 ← (if srf =? 0 then
            o ← deref obj;
            if RT_IS_LIGHT o then
              elm ← alloc;
              wr set_data elm slist;;
              wr set_simd elm (s_lgt o);;
              wr set_temp elm obj;;
              v ← load ptr;
              wr set_next elm v;;
              store ptr elm;;
              mret elm
            else mret 0
          else mret 0);
  if srf =? 0 then mret elm0
  else
    elm ← alloc;
    wr set_data elm 0;;
    wr set_simd elm 0;;
    wr set_temp elm srf;;
    arr ← nodes_of obj srf;
    let n := count_nodes arr in
    k ← outer_most fuel arr;
    v ← load ptr;
    '(i, k, ptr) ← search_nodes fuel arr n 0 k ptr (untag v);
    '(ptr, org) ← alloc_nodes (Z.to_nat (n - i)) arr k ptr None;
    v ← load ptr;
    wr set_next elm (untag v);;
    v ← load ptr;
    store ptr (Z.lor elm (tagof v));;
    '(ptr, elm) ← (match org with
                   | Some o => v ← load o; mret (o, untag v)
                   | None => mret (ptr, elm)
                   end);
    if opt_insert then sort fuel obj ptr elm
    else mret elm.

(** The loop of [ssort] over the scene's surfaces when the sides are
    not told apart: [insert(obj, ptr, ref)] for each [ref] of the
    surface list, in list order. *)
Fixpoint insert_each (fuel : nat) (obj : Z) (ptr : loc) (srfs : list Z) : M unit :=
  match srfs with
  | [] => mret tt
  | ref :: rest => insert fuel obj ptr ref;; insert_each fuel obj ptr rest
  end.

(** [rt_SceneThread::filter(obj, ptr)]: the loop over the list that
    starts at [nxt], with the recursive call on an array node's
    sub-list inlined as a nested run of the same loop ([ptr] is
    [&nxt->simd] there, never null).  Returns the last leaf element. *)
Fixpoint filter_loop (fuel : nat) (nxt elm : Z) : M Z :=
  if nxt =? 0 then mret elm
  else match fuel with
       | O => timeout
       | S f =>
         t ← rd temp nxt;
         nd ← deref t;
         if RT_IS_SURFACE nd then
           wr set_data nxt 0;;
           wr set_simd nxt (s_srf nd);;
           nn ← rd next nxt;
           filter_loop f nn nxt
         else if RT_IS_ARRAY nd then
           v ← load (SimdOf nxt);
           elm' ← filter_loop f (untag v) 0;
           nn ← rd next nxt;
           wr set_next elm' nn;;
           v1 ← load (SimdOf nxt);
           wr set_data nxt (Z.lor elm' (tagof v1));;
           v2 ← load (SimdOf nxt);
           wr set_next nxt (untag v2);;
           wr set_simd nxt (s_srf nd);;
           en ← rd next elm';
           filter_loop f en elm'
         else
           nn ← rd next nxt;
           filter_loop f nn elm
       end.

Definition filter (fuel : nat) (obj : Z) (ptr : option loc) : M Z :=
  match ptr with
  | None => mret 0
  | Some p => v ← load p; filter_loop fuel (untag v) 0
  end.

End Insert.

End Engine.

(** ** Tiling: projected bounding-box edges in the tilebuffer *)

Module Tiling.
Import Mem.

(** The operations on [rt_real] (single-precision floats) that the
    tiling code uses.  They are left abstract: every statement below
    holds whatever the arithmetic does, rounding included. *)
Record FloatOps : Type := mkFloatOps
  { real : Type;
    r_zero : real;                      (* 0.0f *)
    r_one : real;                       (* 1.0f *)
    r_mone : real;                      (* -1.0f *)
    r_add : real -> real -> real;
    r_sub : real -> real -> real;
    r_mul : real -> real -> real;
    r_div : real -> real -> real;
    RT_FABS : real -> real;
    RT_SQRT : real -> real;
    r_leb : real -> real -> bool;       (* a <= b *)
    r_ltb : real -> real -> bool;       (* a < b *)
    r_eqb : real -> real -> bool;       (* a == b *)
    RT_FLOOR : real -> Z;               (* floor, as rt_cell *)
    r_of_cell : Z -> real;              (* rt_cell to rt_real *)
    RT_LINE_THRESHOLD : real;
    RT_TILE_THRESHOLD : real;
    RT_CLIP_THRESHOLD : real }.

(** The per-thread arrays [txmin] and [txmax], [tiles_in_col] entries
    each; an index outside an array is a fault ([None]). *)
Record bounds : Type := mkBounds { txmin : list Z; txmax : list Z }.

Definition get (l : list Z) (i : Z) : option Z :=
  if i <? 0 then None else l !! Z.to_nat i.
Definition put (l : list Z) (i : Z) (v : Z) : option (list Z) :=
  if i <? 0 then None
  else if Nat.ltb (Z.to_nat i) (length l) then Some (<[Z.to_nat i := v]> l)
  else None.

Definition RT_MAX (a b : Z) : Z := if a >? b then a else b.
Definition RT_MIN (a b : Z) : Z := if a <? b then a else b.

(** [RT_UPDATE_TILES_BOUNDS(cy, x1, x2)] with the inclusive bounds
    [xmin], [xmax] of its caller. *)
Definition RT_UPDATE_TILES_BOUNDS (xmin xmax cy x1 x2 : Z) (tb : bounds) : option bounds :=
  let lo := if x1 <? x2 then x1 else x2 in
  let hi := if x1 <? x2 then x2 else x1 in
  mn ← get (txmin tb) cy;
  tmin ← (if mn >? lo then put (txmin tb) cy (RT_MAX lo xmin) else Some (txmin tb));
  mx ← get (txmax tb) cy;
  tmax ← (if mx <? hi then put (txmax tb) cy (RT_MIN hi xmax) else Some (txmax tb));
  Some (mkBounds tmin tmax).

Section Tiling.

Variable F : FloatOps.
Local Abbreviation R := (real F).

(** [scene->tiles_in_row], [scene->tiles_in_col], and whether the
    extended tiling of [RT_OPTS_TILING_EXT1] is compiled in and set. *)
Variable tiles_in_row tiles_in_col : Z.
Variable opt_tiling_ext1 : bool.

(** [rt], [xx], [yy] of a line from its deltas. *)
Definition slope (dx dy : R) : R * R * R :=
  if r_leb F (RT_FABS F dx) (RT_LINE_THRESHOLD F) && r_leb F (RT_FABS F dy) (RT_LINE_THRESHOLD F)
  then (r_zero F, if r_ltb F dx (r_zero F) then r_mone F else r_one F, r_one F)
  else if r_leb F (RT_FABS F dx) (RT_LINE_THRESHOLD F) || r_leb F (RT_FABS F dy) (RT_LINE_THRESHOLD F)
  then (r_zero F, dx, dy)
  else (r_div F dx dy, dx, dy).

(** The lines [n1[i]], [n2[i]] to process: the edge itself, or the
    edge with margins and its two parallels. *)
Definition lines (p1 p2 : R * R) (xx yy : R) : list ((R * R) * (R * R)) :=
  if opt_tiling_ext1 then
    let px := r_div F (RT_TILE_THRESHOLD F) (RT_SQRT F (r_add F (r_mul F xx xx) (r_mul F yy yy))) in
    let xx := r_mul F xx px in
    let yy := r_mul F yy px in
    let n10 := (r_sub F (fst p1) xx, r_sub F (snd p1) yy) in
    let n20 := (r_add F (fst p2) xx, r_add F (snd p2) yy) in
    [ (n10, n20);
      ((r_sub F (fst n10) yy, r_add F (snd n10) xx), (r_sub F (fst n20) yy, r_add F (snd n20) xx));
      ((r_add F (fst n10) yy, r_sub F (snd n10) xx), (r_add F (fst n20) yy, r_sub F (snd n20) xx)) ]
  else [ (p1, p2) ].

(** [for (t = y; ...; t++) RT_UPDATE_TILES_BOUNDS(t, x1, x2);] over [cnt] rows. *)
Fixpoint span_rows (cnt : nat) (t x1 x2 : Z) (tb : bounds) : option bounds :=
  match cnt with
  | O => Some tb
  | S c => tb' ← RT_UPDATE_TILES_BOUNDS 0 (tiles_in_row - 1) t x1 x2 tb;
           span_rows c (t + 1) x1 x2 tb'
  end.

(** The walk of a regular line:
    [for (t = y1; t <= y2; t++) { px = px + rt; x2 = RT_FLOOR(px); ...; x1 = x2; }].
    Returns the last [x1]. *)
Fixpoint walk_rows (cnt : nat) (t : Z) (px rt : R) (x1 : Z) (tb : bounds) : option (Z * bounds) :=
  match cnt with
  | O => Some (x1, tb)
  | S c => let px := r_add F px rt in
           let x2 := RT_FLOOR F px in
           tb' ← RT_UPDATE_TILES_BOUNDS 0 (tiles_in_row - 1) t x1 x2 tb;
           walk_rows c (t + 1) px rt x2 tb'
  end.

(** One pass of the loop [for (i = 0; i < n; i++)] of [tiling]. *)
Definition tile_line (rt : R) (n1 n2 : R * R) (tb : bounds) : option bounds :=
  let xmin := 0 in
  let ymin := 0 in
  let xmax := tiles_in_row - 1 in
  let ymax := tiles_in_col - 1 in
  let x1 := RT_FLOOR F (fst n1) in
  let y1 := RT_FLOOR F (snd n1) in
  let x2 := RT_FLOOR F (fst n2) in
  let y2 := RT_FLOOR F (snd n2) in
  if (y1 >? ymax) || (y2 <? ymin) then Some tb
  else if ((x1 =? x2) || (y1 =? y2) || r_eqb F rt (r_zero F))
          || ((x1 <? xmin) && (x2 <? xmin))
          || ((x1 >? xmax) && (x2 >? xmax)) then
    let y1 := if y1 <? ymin then ymin else y1 in
    let y2 := if y2 >? ymax then ymax else y2 in
    span_rows (Z.to_nat (y2 - y1 + 1)) y1 x1 x2 tb
  else
    let y1 := if y1 <? ymin then ymin else y1 + 1 in
    let y2 := if y2 >? ymax then ymax else y2 - 1 in
    let px := r_add F (fst n1) (r_mul F (r_sub F (r_of_cell F y1) (snd n1)) rt) in
    let x2 := RT_FLOOR F px in
    tb1 ← (if y1 >? ymin then RT_UPDATE_TILES_BOUNDS xmin xmax (y1 - 1) x1 x2 tb else Some tb);
    let x1 := x2 in
    '(x1, tb2) ← walk_rows (Z.to_nat (y2 - y1 + 1)) y1 px rt x1 tb1;
    if y2 <? ymax then
      RT_UPDATE_TILES_BOUNDS xmin xmax (y2 + 1) x1 (RT_FLOOR F (fst n2)) tb2
    else Some tb2.

Fixpoint tile_lines (rt : R) (ls : list ((R * R) * (R * R))) (tb : bounds) : option bounds :=
  match ls with
  | [] => Some tb
  | (n1, n2) :: ls' => tb' ← tile_line rt n1 n2 tb; tile_lines rt ls' tb'
  end.

(** [rt_SceneThread::tiling(p1, p2)] on the X and Y of the two points. *)
Definition tiling (p1 p2 : R * R) (tb : bounds) : option bounds :=
  let '(p1, p2) := if r_ltb F (snd p2) (snd p1) then (p2, p1) else (p1, p2) in
  let dx := r_sub F (fst p2) (fst p1) in
  let dy := r_sub F (snd p2) (snd p1) in
  let '(rt, xx, yy) := slope dx dy in
  tile_lines rt (lines p1 p2 xx yy) tb.

(** *** stile: projection, near-plane clipping and the tile list *)

(** [rt_VERT]: the four components of [pos]; [pos[RT_W]] holds the tag
    (-1.0f behind, 0.0f near, +1.0f in front of the screen plane). *)
Record VERT : Type := mkVERT { pos_X : R; pos_Y : R; pos_Z : R; pos_W : R }.

Definition set_X (x : R) (v : VERT) : VERT := mkVERT x (pos_Y v) (pos_Z v) (pos_W v).
Definition set_Y (x : R) (v : VERT) : VERT := mkVERT (pos_X v) x (pos_Z v) (pos_W v).
Definition set_Z (x : R) (v : VERT) : VERT := mkVERT (pos_X v) (pos_Y v) x (pos_W v).
Definition set_W (x : R) (v : VERT) : VERT := mkVERT (pos_X v) (pos_Y v) (pos_Z v) x.

Definition vec3 : Type := R * R * R.
Definition vsub (a b : vec3) : vec3 :=
  let '(ax, ay, az) := a in let '(bx, by_, bz) := b in
  (r_sub F ax bx, r_sub F ay by_, r_sub F az bz).
Definition vadd (a b : vec3) : vec3 :=
  let '(ax, ay, az) := a in let '(bx, by_, bz) := b in
  (r_add F ax bx, r_add F ay by_, r_add F az bz).
Definition vscale (a : vec3) (d : R) : vec3 :=
  let '(ax, ay, az) := a in (r_mul F ax d, r_mul F ay d, r_mul F az d).
Definition vdivs (a : vec3) (d : R) : vec3 :=
  let '(ax, ay, az) := a in (r_div F ax d, r_div F ay d, r_div F az d).
(** [RT_VECTOR_DOT]. *)
Definition RT_VECTOR_DOT (a b : vec3) : R :=
  let '(ax, ay, az) := a in let '(bx, by_, bz) := b in
  r_add F (r_add F (r_mul F ax bx) (r_mul F ay by_)) (r_mul F az bz).

(** What [stile] reads of the scene and of its camera. *)
Variable org pos nrm dir htl vtl : vec3.
Variable pov : R.
(** Whether tiling is compiled in and set ([RT_OPTS_TILING]). *)
Variable opt_tiling : bool.

(** What [stile] reads of an [rt_Surface]: its address, its backend
    descriptor, the bounding-box vertices and the edges as index pairs. *)
Record Surface : Type := mkSurface
  { srf : Z; s_srf : Z; verts : list vec3; edges : list (Z * Z) }.

Definition vrt_at (vrt : list vec3) (k : Z) : option vec3 :=
  if k <? 0 then None else vrt !! Z.to_nat k.

(** The scratch buffer [verts] of the thread, by index; [memset] gives
    it zeroed entries for the indices it covers, an index outside reads
    as [None]. *)
Definition zero_VERT : VERT := mkVERT (r_zero F) (r_zero F) (r_zero F) (r_zero F).
Definition memset_verts (cnt : Z) : gmap Z VERT :=
  list_to_map (map (fun k => (Z.of_nat k, zero_VERT)) (seq 0 (Z.to_nat cnt))).
Definition upd (vs : gmap Z VERT) (k : Z) (f : VERT -> VERT) : option (gmap Z VERT) :=
  v ← vs !! k; Some (<[k := f v]> vs).

(** One pass of [for (k = 0; k < srf->verts_num; k++)]: project the
    vertex [k] at position [p]. *)
Definition project_vertex (k : Z) (p : vec3) (st : gmap Z VERT * Z) : option (gmap Z VERT * Z) :=
  let '(vs, verts_num) := st in
  let dot := RT_VECTOR_DOT (vsub p org) nrm in
  vs ← upd vs k (set_Z dot);
  vs ← upd vs k (set_W (r_mone F));
  if r_leb F (r_zero F) dot || r_leb F (RT_FABS F dot) (RT_CLIP_THRESHOLD F) then
    let vec := vsub p pos in
    let dot := r_div F (RT_VECTOR_DOT vec nrm) pov in
    let vec := vsub (vdivs vec dot) dir in
    vs ← upd vs k (set_X (RT_VECTOR_DOT vec htl));
    vs ← upd vs k (set_Y (RT_VECTOR_DOT vec vtl));
    vs ← upd vs k (set_W (r_one F));
    vk ← vs !! k;
    if r_ltb F (pos_Z vk) (r_zero F) then
      vs ← upd vs verts_num (set_X (pos_X vk));
      vs ← upd vs verts_num (set_Y (pos_Y vk));
      vs ← upd vs k (set_W (r_zero F));
      Some (vs, verts_num + 1)
    else Some (vs, verts_num)
  else Some (vs, verts_num).

Fixpoint project_vertices (k : Z) (vrt : list vec3) (st : gmap Z VERT * Z)
  : option (gmap Z VERT * Z) :=
  match vrt with
  | [] => Some st
  | p :: vrt' => st' ← project_vertex k p st; project_vertices (k + 1) vrt' st'
  end.

Definition sel (p : Z * Z) (i : Z) : Z := if i =? 0 then fst p else snd p.
Definition set_sel (p : Z * Z) (i : Z) (v : Z) : Z * Z :=
  if i =? 0 then (v, snd p) else (fst p, v).

(** The crossing of an edge with the screen plane: the vertex
    synthesized for the behind end [i] of the edge, [j] being the other
    end, with the interpolation factor [zed[j] / (zed[j] - zed[i])]. *)
Definition crossing (pi pj : vec3) (zi zj : R) : vec3 :=
  let dot := r_div F zj (r_sub F zj zi) in
  vadd (vscale (vsub pi pj) dot) (vsub pj org).

(** One pass of the inner [for (i = 0; i < 2; i++)] of the edge loop. *)
Definition clip_end (vrt : list vec3) (tag zed : R * R) (i : Z)
           (st : gmap Z VERT * Z * (Z * Z)) : option (gmap Z VERT * Z * (Z * Z)) :=
  let '(vs, verts_num, ndx) := st in
  if r_leb F (r_zero F) (if i =? 0 then fst tag else snd tag) then Some st
  else
    let j := 1 - i in
    pi ← vrt_at vrt (sel ndx i);
    pj ← vrt_at vrt (sel ndx j);
    let vec := crossing pi pj (if i =? 0 then fst zed else snd zed)
                              (if j =? 0 then fst zed else snd zed) in
    vs ← upd vs verts_num (set_X (RT_VECTOR_DOT vec htl));
    vs ← upd vs verts_num (set_Y (RT_VECTOR_DOT vec vtl));
    Some (vs, verts_num + 1, set_sel ndx i verts_num).

(** One pass of [for (k = 0; k < srf->edges_num; k++)] up to the call
    of [tiling]: the scratch buffer, [verts_num], and the two indices
    [ndx[0]], [ndx[1]] whose positions are handed to [tiling] ([None]
    when the edge is skipped). *)
Definition clip_edge (vrt : list vec3) (e : Z * Z) (st : gmap Z VERT * Z)
  : option (gmap Z VERT * Z * option (Z * Z)) :=
  let '(vs, verts_num) := st in
  v0 ← vs !! fst e;
  v1 ← vs !! snd e;
  let zed := (pos_Z v0, pos_Z v1) in
  let tag := (pos_W v0, pos_W v1) in
  if r_leb F (fst tag) (r_zero F) && r_leb F (snd tag) (r_zero F) then Some (vs, verts_num, None)
  else
    st0 ← clip_end vrt tag zed 0 (vs, verts_num, e);
    '(vs, verts_num, ndx) ← clip_end vrt tag zed 1 st0;
    Some (vs, verts_num, Some ndx).

(** [tiling(verts[a].pos, verts[b].pos)]. *)
Definition tiling_at (vs : gmap Z VERT) (a b : Z) (tb : bounds) : option bounds :=
  va ← vs !! a;
  vb ← vs !! b;
  tiling (pos_X va, pos_Y va) (pos_X vb, pos_Y vb) tb.

(** The edge loop.  Besides the scratch buffer, [verts_num] and the
    bounds it returns, as a ghost value, the index pairs handed to
    [tiling], in call order. *)
Fixpoint tile_edges (vrt : list vec3) (es : list (Z * Z))
         (st : gmap Z VERT * Z * bounds * list (Z * Z))
  : option (gmap Z VERT * Z * bounds * list (Z * Z)) :=
  match es with
  | [] => Some st
  | e :: es' =>
    let '(vs, verts_num, tb, calls) := st in
    '(vs, verts_num, call) ← clip_edge vrt e (vs, verts_num);
    match call with
    | None => tile_edges vrt es' (vs, verts_num, tb, calls)
    | Some (a, b) =>
      tb ← tiling_at vs a b tb;
      tile_edges vrt es' (vs, verts_num, tb, calls ++ [(a, b)])
    end
  end.

(** [for (j = i + 1; j < verts_num; j++) tiling(verts[i].pos, verts[j].pos);] *)
Fixpoint tile_pairs_from (cnt : nat) (vs : gmap Z VERT) (i j : Z) (st : bounds * list (Z * Z))
  : option (bounds * list (Z * Z)) :=
  match cnt with
  | O => Some st
  | S c => tb ← tiling_at vs i j (fst st);
           tile_pairs_from c vs i (j + 1) (tb, snd st ++ [(i, j)])
  end.

(** [for (i = srf->verts_num; i < verts_num - 1; i++)]. *)
Fixpoint tile_pairs (cnt : nat) (vs : gmap Z VERT) (verts_num i : Z) (st : bounds * list (Z * Z))
  : option (bounds * list (Z * Z)) :=
  match cnt with
  | O => Some st
  | S c => st' ← tile_pairs_from (Z.to_nat (verts_num - (i + 1))) vs i (i + 1) st;
           tile_pairs c vs verts_num (i + 1) st'
  end.

(** [for (i = 0; i < scene->tiles_in_col; i++) { txmin[i] = lo; txmax[i] = hi; }] *)
Fixpoint set_rows (cnt : nat) (i lo hi : Z) (tb : bounds) : option bounds :=
  match cnt with
  | O => Some tb
  | S c => tmin ← put (txmin tb) i lo;
           tmax ← put (txmax tb) i hi;
           set_rows c (i + 1) lo hi (mkBounds tmin tmax)
  end.

(** The branch [verts_num != 0] of [stile]: the bounds of the projected
    bounding box and (ghost) the index pairs handed to [tiling]. *)
Definition project_bbox (sf : Surface) (tb : bounds) : option (bounds * list (Z * Z)) :=
  let n := Z.of_nat (length (verts sf)) in
  tb ← set_rows (Z.to_nat tiles_in_col) 0 tiles_in_row (-1) tb;
  let vs := memset_verts (2 * n + Z.of_nat (length (edges sf))) in
  '(vs, verts_num) ← project_vertices 0 (verts sf) (vs, n);
  '(vs, verts_num, tb, calls) ← tile_edges (verts sf) (edges sf) (vs, verts_num, tb, []);
  tile_pairs (Z.to_nat (verts_num - 1 - n)) vs verts_num n (tb, calls).

(** The branch [verts_num == 0]: mark all tiles. *)
Definition mark_all (tb : bounds) : option bounds :=
  set_rows (Z.to_nat tiles_in_col) 0 0 (tiles_in_row - 1) tb.

Definition lift {A} (o : option A) : M A :=
  fun s => match o with Some a => Ok a s | None => Fault end.

(** [for (j = txmin[i]; j <= txmax[i]; j++)]: one element per marked
    tile of the row [i], appended at [ptr]. *)
Fixpoint fill_row (cnt : nat) (sf : Surface) (i j : Z) (ptr : loc) : M loc :=
  match cnt with
  | O => mret ptr
  | S c =>
    elm ← alloc;
    wr set_data elm (Z.lor (Z.shiftl i 16) j);;
    wr set_simd elm (s_srf sf);;
    wr set_temp elm (srf sf);;
    store ptr elm;;
    fill_row c sf i (j + 1) (NextOf elm)
  end.

Fixpoint fill_rows (cnt : nat) (sf : Surface) (i : Z) (tb : bounds) (ptr : loc) : M loc :=
  match cnt with
  | O => mret ptr
  | S c =>
    lo ← lift (get (txmin tb) i);
    hi ← lift (get (txmax tb) i);
    ptr' ← fill_row (Z.to_nat (hi - lo + 1)) sf i lo ptr;
    fill_rows c sf (i + 1) tb ptr'
  end.

(** [rt_SceneThread::stile(srf)], on the thread's [txmin]/[txmax];
    returns them as the call leaves them. *)
Definition stile (sf : Surface) (tb : bounds) : M bounds :=
  store (Slot (MscP (srf sf) 0)) 0;;
  if negb opt_tiling then mret tb
  else
    tb' ← (if negb (Z.of_nat (length (verts sf)) =? 0)
           then r ← lift (project_bbox sf tb); mret (fst r)
           else lift (mark_all tb));
    ptr ← fill_rows (Z.to_nat tiles_in_col) sf 0 tb' (Slot (MscP (srf sf) 0));
    store ptr 0;;
    mret tb'.

End Tiling.

End Tiling.

(** ** The tile grid: screen tiling in rt_Scene::render *)

Module Grid.
Import Mem Engine.

Section Grid.

Variable objs : gmap Z Object.
Variable tiles_in_row tiles_in_col : Z.

Definition deref (p : Z) : M Object :=
  fun s => match objs !! p with Some o => Ok o s | None => Fault end.

(** [memset(tiles, 0, ...)] over the [tiles_in_row * tiles_in_col] heads. *)
Definition clear_tiles : M unit :=
  fun s => Ok tt (mkState (elems s)
                          (foldr (fun t m => <[Tile (Z.of_nat t) := 0]> m) (slots s)
                                 (seq 0 (Z.to_nat (tiles_in_row * tiles_in_col))))
                          (brk s)).

(** The exact copy of the reversed [slist]: each copy is inserted as
    the head of the list [stail]. *)
Fixpoint reverse_copy (fuel : nat) (nxt stail : Z) : M Z :=
  if nxt =? 0 then mret stail
  else match fuel with
       | O => timeout
       | S f =>
         elm ← alloc;
         d ← rd data nxt;
         wr set_data elm d;;
         sm ← rd simd nxt;
         wr set_simd elm sm;;
         t ← rd temp nxt;
         wr set_temp elm t;;
         wr set_next elm stail;;
         nn ← rd next nxt;
         reverse_copy f nn elm
       end.

(** [(rt_word)tls->data >> 16] and [(rt_word)tls->data & 0xFFFF]. *)
Definition tile_row (d : Z) : Z := Z.shiftr (d mod 2 ^ 32) 16.
Definition tile_col (d : Z) : Z := Z.land (d mod 2 ^ 32) 65535.

(** The two loops [for (; tls != RT_NULL; tls = nxt)] over the tile
    list of the surface [srf]: [trnode] is [srf->trnode] when the
    surface belongs to a transform node other than itself, 0 for the
    plain loop. *)
Fixpoint merge_tiles (fuel : nat) (trnode tls : Z) : M unit :=
  if tls =? 0 then mret tt
  else match fuel with
       | O => timeout
       | S f =>
         d ← rd data tls;
         let i := tile_row d in
         let j := tile_col d in
         nxt ← rd next tls;
         wr set_data tls 0;;
         let tline := i * tiles_in_row in
         let tile := Slot (Tile (tline + j)) in
         (if negb (trnode =? 0) then
            trn ← load tile;
            same ← (if trn =? 0 then mret false
                    else t ← rd temp trn; mret (t =? trnode));
            if same : bool then
              tn ← rd next trn;
              wr set_next tls tn;;
              wr set_next trn tls
            else
              h ← load tile;
              wr set_next tls h;;
              store tile tls;;
              arr ← deref trnode;
              trn ← alloc;
              wr set_data trn tls;;
              wr set_simd trn (s_srf arr);;
              wr set_temp trn trnode;;
              h' ← load tile;
              wr set_next trn h';;
              store tile trn
          else
            h ← load tile;
            wr set_next tls h;;
            store tile tls);;
         merge_tiles f trnode nxt
       end.

(** [for (elm = stail; elm != RT_NULL; elm = elm->next)]. *)
Fixpoint assemble_loop (fuel : nat) (elm : Z) : M unit :=
  if elm =? 0 then mret tt
  else match fuel with
       | O => timeout
       | S f =>
         t ← rd temp elm;
         obj ← deref t;
         (if RT_IS_ARRAY obj then mret tt
          else
            tls ← load (Slot (MscP t 0));
            if negb (trnode obj =? 0) && negb (trnode obj =? t)
            then merge_tiles fuel (trnode obj) tls
            else merge_tiles fuel 0 tls);;
         nn ← rd next elm;
         assemble_loop f nn
       end.

(** The screen tiling of [rt_Scene::render] when [RT_OPTS_TILING] is
    set: clear the grid, copy [slist] reversed, merge the tile list of
    every surface of the copy into the grid. *)
Definition assemble (fuel : nat) (slist : Z) : M unit :=
  clear_tiles;;
  stail ← reverse_copy fuel slist 0;
  assemble_loop fuel stail.

End Grid.

End Grid.

(** ** The multi-threaded update: rt_Scene::update_slice *)

Module Sched.

Section Slice.

(** [thnum], the state the update works on, and what one pass of each
    phase does for a surface: [srf->update(..)] and
    [tharr[index]->stile(srf)] in phase 1; [ssort], [lsort] and
    [update0] in phase 2. *)
Variable thnum : Z.
Variable world : Type.
Variable update_stile : Z -> Z -> world -> world.
Variable sort_update0 : Z -> Z -> world -> world.

(** [for (srf = srf_head, i = 0; srf != RT_NULL; srf = srf->next, i++)]
    over the scene's surfaces in list order; [i % thnum] is C's
    remainder.  (The counter cannot overflow before the number of
    surfaces does.) *)
Fixpoint slice_loop (body : Z -> Z -> world -> world) (index : Z)
         (srfs : list Z) (i : Z) (w : world) : world :=
  match srfs with
  | [] => w
  | srf :: rest =>
    slice_loop body index rest (i + 1)
               (if negb (Z.rem i thnum =? index) then w else body index srf w)
  end.

Definition update_slice (srf_head : list Z) (index phase : Z) (w : world) : world :=
  if phase =? 1 then slice_loop update_stile index srf_head 0 w
  else if phase =? 2 then slice_loop sort_update0 index srf_head 0 w
  else w.

End Slice.

End Sched.

(** ** The sequential stand-in for the thread pool *)

Module Pool.

Section Pool.

(** The state the slices work on and [scn->update_slice(i, phase)]
    (for [render_scene]: [scn->render_slice(i, phase)]). *)
Variable world : Type.
Variable slice : Z -> Z -> world -> world.

(** [for (i = 0; i < thnum; i++) scn->update_slice(i, phase);] from
    [i] on, [cnt] passes to go. *)
Fixpoint run_slices (cnt : nat) (i phase : Z) (w : world) : world :=
  match cnt with
  | O => w
  | S c => run_slices c (i + 1) phase (slice i phase w)
  end.

(** The local stubs [update_scene] and [render_scene], used when the
    platform provides no threading functions. *)
Definition update_scene (thnum phase : Z) (w : world) : world :=
  run_slices (Z.to_nat thnum) 0 phase w.
Definition render_scene (thnum phase : Z) (w : world) : world :=
  run_slices (Z.to_nat thnum) 0 phase w.

End Pool.

End Pool.

(** ** The per-object lists: rt_SceneThread::ssort and lsort *)

Module Lists.
Import Mem Engine.

Section Lists.

(** The scene as [ssort] and [lsort] read it: the objects, the lists
    [scene->slist] and [scene->llist], the option word [scene->opts]
    with the values of the [RT_OPTS_*] flags and of the [RT_PROP_*]
    masks (all defined outside the sources at hand),
    [(rt_word)srf->s_srf->mat_p[i]] as [mat_p srf i], the predicates
    [bbox_sort], [bbox_side], [cbox_side] (on the light in place of its
    position) and [bbox_shad] of rtgeom, and the lists [srf_head] and
    [lgt_head] in the order of their [next] links.  The logging under
    [g_print], which reads the lists and changes nothing, is left out. *)
Variable objs : gmap Z Object.
Variable slist llist : Z.
Variable opts : Z.
Variable RT_OPTS_INSERT RT_OPTS_2SIDED RT_OPTS_RENDER RT_OPTS_SHADOW : Z.
Variable RT_PROP_REFLECT RT_PROP_OPAQUE : Z.
Variable mat_p : Z -> Z -> Z.
Variable bbox_sort : Z -> Z -> Z -> Z.
Variable bbox_side : Z -> Z -> Z.
Variable cbox_side : Z -> Z -> Z.
Variable bbox_shad : Z -> Z -> Z -> Z.
Variable srf_head lgt_head : list Z.

(** [(scene->opts & flag) != 0]; a flag whose value is 0 is never set. *)
Definition opt (flag : Z) : bool := negb (Z.land opts flag =? 0).

(** Whether [insert] goes on to sort: its early return is compiled as
    conditional only for [RT_OPTS_INSERT == 1]. *)
Definition sorting : bool := (RT_OPTS_INSERT =? 1) && opt RT_OPTS_INSERT.

Definition insert (fuel : nat) (obj : Z) (ptr : loc) (srf : Z) : M Z :=
  Engine.insert objs slist sorting bbox_sort fuel obj ptr srf.
Definition filter (fuel : nat) (obj : Z) (ptr : option loc) : M Z :=
  Engine.filter objs fuel obj ptr.

(** A local variable comes into being with its initial value. *)
Definition local (c : var) (v : Z) : M unit :=
  fun s => Ok tt (mkState (elems s) (<[c := v]> (slots s)) (brk s)).

(** The filter calls at the end of a list's construction: [pto] and
    [pti] only when two-sidedness is compiled in. *)
Definition filter_all (fuel : nat) (obj : Z) (pto pti ptr : option loc) : M unit :=
  if opt RT_OPTS_INSERT then
    (if negb (RT_OPTS_2SIDED =? 0) then
       filter fuel obj pto;; filter fuel obj pti;; mret tt
     else mret tt);;
    filter fuel obj ptr;;
    mret tt
  else mret tt.

(** One pass of [for (ref = scene->srf_head; ref != RT_NULL; ref = ref->next)]
    of [ssort]; [srf] tells whether [obj] is a surface. *)
Definition ssort_ref (fuel : nat) (obj : Z) (srf : bool) (pto pti ptr : loc) (ref : Z) : M unit :=
  if opt RT_OPTS_2SIDED && srf then
    let c := bbox_side obj ref in
    (if negb (Z.land c 2 =? 0) then insert fuel obj pto ref;; mret tt else mret tt);;
    (if negb (Z.land c 1 =? 0) then insert fuel obj pti ref;; mret tt else mret tt)
  else insert fuel obj ptr ref;; mret tt.

Fixpoint ssort_loop (fuel : nat) (obj : Z) (srf : bool) (pto pti ptr : loc) (refs : list Z)
  : M unit :=
  match refs with
  | [] => mret tt
  | ref :: rest => ssort_ref fuel obj srf pto pti ptr ref;;
                   ssort_loop fuel obj srf pto pti ptr rest
  end.

(** The end of [ssort] and [lsort]: the list is returned, or, for a
    surface without two-sidedness, stored as the list of both sides. *)
Definition hand_over (srf : bool) (pto pti ptr : loc) : M Z :=
  lst ← load ptr;
  if negb srf then mret lst
  else if negb (opt RT_OPTS_2SIDED) then store pto lst;; store pti lst;; mret 0
  else mret lst.

(** [rt_SceneThread::ssort(obj)]; [lst] is the variable [Local 0]. *)
Definition ssort (fuel : nat) (obj : Z) : M Z :=
  o ← deref objs obj;
  let srf := RT_IS_SURFACE o in
  let pto := Slot (LstP obj 1) in
  let pti := Slot (LstP obj 3) in
  done ← (if srf then
            if opt RT_OPTS_RENDER
               && (negb (Z.land (mat_p obj 1) RT_PROP_REFLECT =? 0)
                   || negb (Z.land (mat_p obj 3) RT_PROP_REFLECT =? 0)
                   || (Z.land (mat_p obj 1) RT_PROP_OPAQUE =? 0)
                   || (Z.land (mat_p obj 3) RT_PROP_OPAQUE =? 0))
            then store pto 0;; store pti 0;; mret false
            else store pto slist;; store pti slist;; mret true
          else mret false);
  if done : bool then mret 0
  else
    local (Local 0) 0;;
    let ptr := Slot (Local 0) in
    ssort_loop fuel obj srf pto pti ptr srf_head;;
    filter_all fuel obj (if srf then Some pto else None) (if srf then Some pti else None)
               (Some ptr);;
    hand_over srf pto pti ptr.

(** [insert(lgt, p, RT_NULL)] for one side: the address of the [data]
    field of the list's new head is kept and the field cleared. *)
Definition side_light (fuel : nat) (lgt : Z) (p : loc) : M (option loc) :=
  insert fuel lgt p 0;;
  v ← load p;
  store (DataOf v) 0;;
  mret (Some (DataOf v)).

(** One pass of [for (shw = scene->srf_head; shw != RT_NULL; shw = shw->next)]. *)
Definition shadow_ref (fuel : nat) (obj lgt : Z) (psr pso psi : option loc) (shw : Z) : M unit :=
  if bbox_shad lgt shw obj =? 0 then mret tt
  else if opt RT_OPTS_2SIDED then
    let c := bbox_side obj shw in
    (match pso with
     | Some p => if negb (Z.land c 2 =? 0) then insert fuel lgt p shw;; mret tt else mret tt
     | None => mret tt
     end);;
    (match psi with
     | Some p => if negb (Z.land c 1 =? 0) then insert fuel lgt p shw;; mret tt else mret tt
     | None => mret tt
     end)
  else match psr with
       | Some p => insert fuel lgt p shw;; mret tt
       | None => fault
       end.

Fixpoint shadow_loop (fuel : nat) (obj lgt : Z) (psr pso psi : option loc) (shws : list Z)
  : M unit :=
  match shws with
  | [] => mret tt
  | shw :: rest => shadow_ref fuel obj lgt psr pso psi shw;;
                   shadow_loop fuel obj lgt psr pso psi rest
  end.

(** One pass of [for (lgt = scene->lgt_head; lgt != RT_NULL; lgt = lgt->next)]
    of [lsort]. *)
Definition lsort_light (fuel : nat) (obj : Z) (srf : bool) (pto pti ptr : loc) (lgt : Z) : M unit :=
  '(psr, pso, psi) ←
    (if opt RT_OPTS_2SIDED && srf then
       let c := cbox_side lgt obj in
       pso ← (if negb (Z.land c 2 =? 0) then side_light fuel lgt pto else mret None);
       psi ← (if negb (Z.land c 1 =? 0) then side_light fuel lgt pti else mret None);
       mret (None, pso, psi)
     else
       insert fuel lgt ptr 0;;
       v ← load ptr;
       mret (Some (DataOf v), None, None));
  if (RT_OPTS_SHADOW =? 0) || negb srf then mret tt
  else
    (match psr with Some p => store p 0 | None => mret tt end);;
    shadow_loop fuel obj lgt psr pso psi srf_head;;
    filter_all fuel lgt pso psi psr.

Fixpoint lsort_loop (fuel : nat) (obj : Z) (srf : bool) (pto pti ptr : loc) (lgts : list Z)
  : M unit :=
  match lgts with
  | [] => mret tt
  | lgt :: rest => lsort_light fuel obj srf pto pti ptr lgt;;
                   lsort_loop fuel obj srf pto pti ptr rest
  end.

(** [rt_SceneThread::lsort(obj)]; [lst] is the variable [Local 0]. *)
Definition lsort (fuel : nat) (obj : Z) : M Z :=
  o ← deref objs obj;
  let srf := RT_IS_SURFACE o in
  let pto := Slot (LstP obj 0) in
  let pti := Slot (LstP obj 2) in
  done ← (if srf then
            if opt RT_OPTS_SHADOW
            then store pto 0;; store pti 0;; mret false
            else store pto llist;; store pti llist;; mret true
          else mret false);
  if done : bool then mret 0
  else
    local (Local 0) 0;;
    let ptr := Slot (Local 0) in
    lsort_loop fuel obj srf pto pti ptr lgt_head;;
    hand_over srf pto pti ptr.

End Lists.

End Lists.

(** * Properties *)

(** ** Reasoning about the store monad *)

Module MemFacts.
Import Mem.

Lemma bind_unfold {A B} (m : M A) (f : A -> M B) (s : state) :
  (m ≫= f) s = match m s with
               | Ok a s' => f a s'
               | Thrown msg => Thrown msg
               | Fault => Fault
               | Timeout => Timeout
               end.
Proof. reflexivity. Qed.

Lemma bind_ok {A B} (m : M A) (f : A -> M B) (s s' : state) (a : A) :
  m s = Ok a s' -> (m ≫= f) s = f a s'.
Proof. intros H. rewrite bind_unfold, H. reflexivity. Qed.

Lemma ret_unfold {A} (a : A) (s : state) : (mret a : M A) s = Ok a s.
Proof. reflexivity. Qed.

(** A computation that never throws. *)
Definition nothrow {A} (m : M A) : Prop := forall s msg, m s <> Thrown msg.

Lemma nothrow_ret {A} (a : A) : nothrow (mret a : M A).
Proof. intros s msg. discriminate. Qed.

Lemma nothrow_bind {A B} (m : M A) (f : A -> M B) :
  nothrow m -> (forall a, nothrow (f a)) -> nothrow (m ≫= f).
Proof.
  intros Hm Hf s msg. rewrite bind_unfold.
  destruct (m s) as [a s'| msg' | |] eqn:E; try discriminate.
  - apply Hf.
  - exfalso. exact (Hm s msg' E).
Qed.

Lemma nothrow_rd f a : nothrow (rd f a).
Proof. intros s msg. unfold rd. destruct (elems s !! a); discriminate. Qed.

Lemma nothrow_wr f a v : nothrow (wr f a v).
Proof. intros s msg. unfold wr. destruct (elems s !! a); discriminate. Qed.

Lemma nothrow_load p : nothrow (load p).
Proof.
  destruct p; simpl; try apply nothrow_rd.
  intros s msg. destruct (slots s !! c); discriminate.
Qed.

Lemma nothrow_store p v : nothrow (store p v).
Proof.
  destruct p; simpl; try apply nothrow_wr.
  intros s msg. destruct (slots s !! c); discriminate.
Qed.

Lemma nothrow_alloc : nothrow alloc.
Proof. intros s msg. discriminate. Qed.

Lemma nothrow_timeout {A} : nothrow (@timeout A).
Proof. intros s msg. discriminate. Qed.

Lemma rd_eq (f : ELEM -> Z) (a : Z) (s : state) (e : ELEM) :
  elems s !! a = Some e -> rd f a s = Ok (f e) s.
Proof. intros H. unfold rd. rewrite H. reflexivity. Qed.

Lemma wr_eq (f : Z -> ELEM -> ELEM) (a v : Z) (s : state) (e : ELEM) :
  elems s !! a = Some e ->
  wr f a v s = Ok tt (mkState (<[a := f v e]> (elems s)) (slots s) (brk s)).
Proof. intros H. unfold wr. rewrite H. reflexivity. Qed.

Lemma load_slot_eq (c : var) (s : state) (v : Z) :
  slots s !! c = Some v -> load (Slot c) s = Ok v s.
Proof. intros H. cbn [load]. rewrite H. reflexivity. Qed.

Lemma store_slot_eq (c : var) (v : Z) (s : state) :
  is_Some (slots s !! c) ->
  store (Slot c) v s = Ok tt (mkState (elems s) (<[c := v]> (slots s)) (brk s)).
Proof. intros [w H]. cbn [store]. rewrite H. reflexivity. Qed.

(** A new element with its three fields set. *)
Lemma new_elem {A} (d sm t : Z) (k : Z -> M A) (s : state) :
  (elm ← alloc; wr set_data elm d;; wr set_simd elm sm;; wr set_temp elm t;; k elm) s =
  k (brk s) (mkState (<[brk s := mkELEM 0 d sm t]> (elems s)) (slots s) (brk s + sizeof_ELEM)).
Proof.
  rewrite bind_unfold. unfold alloc at 1.
  rewrite bind_unfold. erewrite wr_eq by (cbn [elems]; apply lookup_insert_eq).
  cbn [elems slots brk]. rewrite insert_insert_eq.
  rewrite bind_unfold. erewrite wr_eq by (cbn [elems]; apply lookup_insert_eq).
  cbn [elems slots brk]. rewrite insert_insert_eq.
  rewrite bind_unfold. erewrite wr_eq by (cbn [elems]; apply lookup_insert_eq).
  cbn [elems slots brk]. rewrite insert_insert_eq.
  reflexivity.
Qed.

End MemFacts.

(** ** Linked lists in the store *)

Module ListFacts.
Import Mem MemFacts.

(** The elements [l], linked through [next] from the pointer [p] on;
    the last one's [next] is [q] (0 for a whole list). *)
Fixpoint lseg (h : gmap Z ELEM) (p : Z) (l : list Z) (q : Z) : Prop :=
  match l with
  | [] => p = q
  | a :: l' => p = a /\ a <> 0 /\ exists e, h !! a = Some e /\ lseg h (next e) l' q
  end.

(** The objects of a list, read off its elements from [p] on. *)
Fixpoint read_temps (fuel : nat) (h : gmap Z ELEM) (p : Z) : option (list Z) :=
  if p =? 0 then Some []
  else match fuel with
       | O => None
       | S f => e ← h !! p; l ← read_temps f h (next e); Some (temp e :: l)
       end.

Definition aligned (a : Z) : Prop := Z.land a 3 = 0.

Lemma untag_aligned (a : Z) : aligned a -> untag a = a.
Proof.
  unfold aligned, untag. intros H. apply Z.bits_inj'. intros n Hn.
  rewrite Z.land_spec, Z.lnot_spec by lia.
  destruct (Z.testbit a n) eqn:Ea; [|reflexivity]. cbn [andb].
  assert (Hb : Z.testbit (Z.land a 3) n = false) by (rewrite H; apply Z.bits_0).
  rewrite Z.land_spec, Ea in Hb. cbn [andb] in Hb. rewrite Hb. reflexivity.
Qed.

Lemma tagof_aligned (a : Z) : aligned a -> tagof a = 0.
Proof. intros H. exact H. Qed.

Lemma untag_lor (a v : Z) : aligned a -> untag (Z.lor a (tagof v)) = a.
Proof.
  unfold aligned, untag, tagof. intros H. apply Z.bits_inj'. intros n Hn.
  rewrite Z.land_spec, Z.lnot_spec, Z.lor_spec, Z.land_spec by lia.
  assert (Hb : Z.testbit (Z.land a 3) n = false) by (rewrite H; apply Z.bits_0).
  rewrite Z.land_spec in Hb.
  destruct (Z.testbit a n), (Z.testbit v n), (Z.testbit 3 n); cbn in *; congruence.
Qed.

Lemma tagof_lor (a v : Z) : aligned a -> tagof (Z.lor a (tagof v)) = tagof v.
Proof.
  unfold aligned, tagof. intros H. apply Z.bits_inj'. intros n Hn.
  rewrite !Z.land_spec, Z.lor_spec, Z.land_spec.
  assert (Hb : Z.testbit (Z.land a 3) n = false) by (rewrite H; apply Z.bits_0).
  rewrite Z.land_spec in Hb.
  destruct (Z.testbit a n), (Z.testbit v n), (Z.testbit 3 n); cbn in *; congruence.
Qed.

Lemma aligned_0 : aligned 0.
Proof. reflexivity. Qed.

Lemma aligned_add16 (a : Z) : aligned a -> aligned (a + sizeof_ELEM).
Proof.
  unfold aligned, sizeof_ELEM. intros H.
  change 3 with (Z.ones 2) in *. rewrite Z.land_ones in * by lia.
  rewrite <- Z.add_mod_idemp_l by lia. rewrite H. reflexivity.
Qed.

Section Lseg.

Implicit Types (h : gmap Z ELEM) (l : list Z).

Lemma lseg_app h p l1 l2 q :
  lseg h p (l1 ++ l2) q <-> exists m, lseg h p l1 m /\ lseg h m l2 q.
Proof.
  revert p. induction l1 as [|a l1 IH]; intros p; cbn [lseg app].
  - split.
    + intros H. exists p. split; [reflexivity | exact H].
    + intros [m [-> H]]. exact H.
  - split.
    + intros [-> [Ha [e [He H]]]]. apply IH in H. destruct H as [m [H1 H2]].
      exists m. split; [|exact H2]. split; [reflexivity|]. split; [exact Ha|].
      exists e. split; assumption.
    + intros [m [[-> [Ha [e [He H1]]]] H2]].
      split; [reflexivity|]. split; [exact Ha|]. exists e. split; [exact He|].
      apply IH. exists m. split; assumption.
Qed.

(** A segment only depends on the [next] fields of its elements. *)
Lemma lseg_frame h h' p l q :
  (forall a e, In a l -> h !! a = Some e -> exists e', h' !! a = Some e' /\ next e' = next e) ->
  lseg h p l q -> lseg h' p l q.
Proof.
  revert p. induction l as [|a l IH]; intros p Hf; cbn [lseg]; [auto|].
  intros [-> [Ha [e [He H]]]].
  destruct (Hf a e (or_introl eq_refl) He) as [e' [He' Hn]].
  split; [reflexivity|]. split; [exact Ha|]. exists e'. split; [exact He'|].
  rewrite Hn. apply IH; [|exact H].
  intros b eb Hb. apply Hf. right. exact Hb.
Qed.

Lemma lseg_insert_notin h p l q a e :
  ~ In a l -> lseg h p l q -> lseg (<[a := e]> h) p l q.
Proof.
  intros Hn. apply lseg_frame. intros b eb Hb Heb.
  exists eb. split; [|reflexivity].
  rewrite lookup_insert_ne; [exact Heb|]. intros ->. contradiction.
Qed.

Lemma lseg_insert_next h p l q a e e0 :
  h !! a = Some e0 -> next e = next e0 -> lseg h p l q -> lseg (<[a := e]> h) p l q.
Proof.
  intros H0 Hn. apply lseg_frame. intros b eb Hb Heb.
  destruct (decide (a = b)) as [->|Hne].
  - exists e. rewrite lookup_insert_eq. split; [reflexivity|]. congruence.
  - exists eb. rewrite lookup_insert_ne by exact Hne. split; [exact Heb | reflexivity].
Qed.

Lemma lseg_nonzero h p l q a : lseg h p l q -> In a l -> a <> 0.
Proof.
  revert p. induction l as [|b l IH]; intros p; cbn [lseg In]; [tauto|].
  intros [-> [Hb [e [He H]]]] [->|Hin]; [exact Hb|]. eapply IH; eassumption.
Qed.

Lemma lseg_dom h p l q a : lseg h p l q -> In a l -> is_Some (h !! a).
Proof.
  revert p. induction l as [|b l IH]; intros p; cbn [lseg In]; [tauto|].
  intros [-> [Hb [e [He H]]]] [->|Hin]; [eexists; exact He|]. eapply IH; eassumption.
Qed.

Lemma lseg_snoc h p l q a e :
  lseg h p l a -> a <> 0 -> h !! a = Some e -> next e = q -> lseg h p (l ++ [a]) q.
Proof.
  intros H Ha He Hn. apply lseg_app. exists a. split; [exact H|].
  cbn [lseg]. split; [reflexivity|]. split; [exact Ha|]. exists e. split; assumption.
Qed.

Lemma lseg_functional h p l1 l2 :
  lseg h p l1 0 -> lseg h p l2 0 -> l1 = l2.
Proof.
  revert p l2. induction l1 as [|a l1 IH]; intros p l2; cbn [lseg].
  - intros ->. destruct l2 as [|b l2]; [reflexivity|]. cbn [lseg]. intros [<- [Hb _]]. congruence.
  - intros [-> [Ha [e [He H1]]]]. destruct l2 as [|b l2]; cbn [lseg].
    + intros ->. congruence.
    + intros [<- [_ [e' [He' H2]]]]. f_equal. rewrite He in He'. injection He' as <-.
      eapply IH; eassumption.
Qed.

End Lseg.

Lemma lseg_set_last (h : gmap Z ELEM) (p : Z) (l : list Z) (a q v : Z) (e : ELEM) :
  lseg h p (l ++ [a]) q -> ~ In a l -> h !! a = Some e ->
  lseg (<[a := set_next v e]> h) p (l ++ [a]) v.
Proof.
  intros H Hn He. apply lseg_app in H. destruct H as [m [H1 H2]].
  cbn [lseg] in H2. destruct H2 as [-> [Ha _]].
  apply lseg_app. exists a. split.
  - apply lseg_insert_notin; assumption.
  - cbn [lseg]. split; [reflexivity|]. split; [exact Ha|].
    eexists. rewrite lookup_insert_eq. split; reflexivity.
Qed.

Lemma hd_app_snoc (l : list Z) (a b : Z) : hd b (l ++ [a]) = hd a l.
Proof. destruct l; reflexivity. Qed.

End ListFacts.

(** ** update_slice: the static partition of the surfaces *)

Module SchedSpec.
Import Sched.

(** The positions of the surface list that the worker [index] owns:
    those [p] below [n] with [p mod thnum = index]. *)
Definition positions (thnum index : Z) (n : nat) : list nat :=
  List.filter (fun p => Z.of_nat p mod thnum =? index) (seq 0 n).

Section Facts.

Variable thnum : Z.
Variable world : Type.
Variable body : Z -> Z -> world -> world.

Lemma fold_left_ext_in {A B} (f g : A -> B -> A) (l : list B) (a : A) :
  (forall x y, In y l -> f x y = g x y) -> fold_left f l a = fold_left g l a.
Proof.
  revert a. induction l as [|y l IH]; intros a H; [reflexivity|].
  cbn [fold_left]. rewrite H by (left; reflexivity).
  apply IH. intros x z Hz. apply H. right. exact Hz.
Qed.

Lemma slice_loop_from (index : Z) (srfs : list Z) (i : nat) (w : world) :
  0 < thnum ->
  slice_loop thnum world body index srfs (Z.of_nat i) w =
  fold_left (fun w p => body index (nth (p - i) srfs 0) w)
            (List.filter (fun p => Z.of_nat p mod thnum =? index) (seq i (length srfs))) w.
Proof.
  intros Hth. revert i w.
  induction srfs as [|srf rest IH]; intros i w; [reflexivity|].
  cbn [slice_loop length seq List.filter].
  replace (Z.of_nat i + 1) with (Z.of_nat (S i)) by lia.
  rewrite IH.
  rewrite Z.rem_mod_nonneg by lia.
  assert (Hshift : forall w',
    fold_left (fun w p => body index (nth (p - S i) rest 0) w)
      (List.filter (fun p => Z.of_nat p mod thnum =? index) (seq (S i) (length rest))) w' =
    fold_left (fun w p => body index (nth (p - i) (srf :: rest) 0) w)
      (List.filter (fun p => Z.of_nat p mod thnum =? index) (seq (S i) (length rest))) w').
  { intros w'. apply fold_left_ext_in. intros x p Hp.
    apply filter_In in Hp. destruct Hp as [Hp _]. apply in_seq in Hp.
    replace (p - i)%nat with (S (p - S i)) by lia. reflexivity. }
  destruct (Z.of_nat i mod thnum =? index) eqn:E; cbn [negb fold_left].
  - replace (i - i)%nat with 0%nat by lia. cbn [nth]. apply Hshift.
  - apply Hshift.
Qed.

Lemma positions_in (index : Z) (n p : nat) :
  In p (positions thnum index n) <-> (p < n)%nat /\ Z.of_nat p mod thnum = index.
Proof.
  unfold positions. rewrite filter_In, in_seq, Z.eqb_eq. lia.
Qed.

Lemma positions_NoDup (index : Z) (n : nat) : List.NoDup (positions thnum index n).
Proof. unfold positions. apply List.NoDup_filter, seq_NoDup. Qed.

End Facts.

(** C8: for either update phase and every worker count [thnum >= 1],
    [update_slice index phase] runs the phase's per-surface work on
    exactly the surfaces whose position [p] in the scene's surface list
    has [p % thnum = index], in list order; no worker takes a position
    twice, and every position of the list belongs to exactly one of the
    workers [0 .. thnum-1]. *)
Theorem update_slice_partition
  (thnum : Z) (world : Type) (update_stile sort_update0 : Z -> Z -> world -> world)
  (srf_head : list Z) (phase : Z) :
  1 <= thnum -> phase = 1 \/ phase = 2 ->
  (forall index w,
     update_slice thnum world update_stile sort_update0 srf_head index phase w =
     fold_left (fun w p => (if phase =? 1 then update_stile else sort_update0)
                             index (nth p srf_head 0) w)
               (positions thnum index (length srf_head)) w)
  /\ (forall index, List.NoDup (positions thnum index (length srf_head)))
  /\ (forall p, (p < length srf_head)%nat ->
        exists index, 0 <= index < thnum
          /\ In p (positions thnum index (length srf_head))
          /\ forall index', In p (positions thnum index' (length srf_head)) -> index' = index).
Proof.
  intros Hth Hph. split; [|split].
  - intros index w. unfold update_slice, positions.
    destruct Hph as [-> | ->]; cbn [Z.eqb Pos.eqb].
    + change 0 with (Z.of_nat 0).
      rewrite (slice_loop_from thnum world update_stile index srf_head 0 w) by lia.
      apply fold_left_ext_in. intros x p _. rewrite Nat.sub_0_r. reflexivity.
    + change 0 with (Z.of_nat 0).
      rewrite (slice_loop_from thnum world sort_update0 index srf_head 0 w) by lia.
      apply fold_left_ext_in. intros x p _. rewrite Nat.sub_0_r. reflexivity.
  - intros index. apply positions_NoDup.
  - intros p Hp. exists (Z.of_nat p mod thnum). split; [|split].
    + apply Z.mod_pos_bound. lia.
    + apply positions_in. split; [exact Hp | reflexivity].
    + intros index' Hin. apply positions_in in Hin. destruct Hin as [_ H]. symmetry. exact H.
Qed.

(** Two workers over three surfaces, each pass logging its surface. *)
Lemma update_slice_partition_witness :
  let log := fun (index srf : Z) (w : list Z) => w ++ [srf] in
  (1 <= 2 /\ (1 = 1 \/ 1 = 2))
  /\ ((forall index w,
        update_slice 2 (list Z) log log [10; 20; 30] index 1 w =
        fold_left (fun w p => (if 1 =? 1 then log else log) index (nth p [10; 20; 30] 0) w)
                  (positions 2 index 3) w)
      /\ (forall index, List.NoDup (positions 2 index 3))
      /\ (forall p, (p < 3)%nat ->
            exists index, 0 <= index < 2
              /\ In p (positions 2 index 3)
              /\ forall index', In p (positions 2 index' 3) -> index' = index)).
Proof.
  intros log. split; [split; [lia | left; reflexivity] |].
  apply (update_slice_partition 2 (list Z) log log [10; 20; 30] 1); [lia | left; reflexivity].
Defined.

End SchedSpec.

(** ** insert: the early return and the node order *)

Module InsertSpec.
Import Mem Engine MemFacts.

Section Facts.

Variable objs : gmap Z Object.
Variable slist : Z.
Variable opt_insert : bool.
Variable bbox_sort : Z -> Z -> Z -> Z.

Local Abbreviation insert := (Engine.insert objs slist opt_insert bbox_sort).

Ltac nothrow_step :=
  match goal with
  | |- nothrow (mbind _ _) => apply nothrow_bind; [|intros]
  | |- nothrow (_ ≫= _) => apply nothrow_bind; [|intros]
  | |- nothrow (mret _) => apply nothrow_ret
  | |- nothrow (rd _ _) => apply nothrow_rd
  | |- nothrow (wr _ _ _) => apply nothrow_wr
  | |- nothrow (load _) => apply nothrow_load
  | |- nothrow (store _ _) => apply nothrow_store
  | |- nothrow alloc => apply nothrow_alloc
  | |- nothrow timeout => apply nothrow_timeout
  | |- nothrow (if ?b then _ else _) => destruct b
  | |- nothrow (match ?x with (_, _) => _ end) => destruct x
  | |- nothrow (let '(_, _) := ?x in _) => destruct x
  | |- nothrow (match ?x with Some _ => _ | None => _ end) => destruct x
  | H : _ |- _ => apply H
  end.

Lemma nothrow_deref p : nothrow (deref objs p).
Proof. intros s msg. unfold deref. destruct (objs !! p); discriminate. Qed.

Lemma nothrow_order_of obj a b : nothrow (order_of bbox_sort obj a b).
Proof. unfold order_of. repeat nothrow_step. Qed.

Lemma nothrow_repair obj p : nothrow (repair bbox_sort obj p).
Proof. unfold repair. repeat first [apply nothrow_order_of | nothrow_step]. Qed.

Lemma nothrow_search_nodes fuel arr n i k ptr nxt :
  nothrow (search_nodes fuel arr n i k ptr nxt).
Proof.
  revert i k ptr nxt. induction fuel as [|f IH]; intros i k ptr nxt; cbn [search_nodes];
    repeat nothrow_step.
Qed.

Lemma nothrow_alloc_nodes cnt arr k ptr org : nothrow (alloc_nodes cnt arr k ptr org).
Proof.
  revert k ptr org. induction cnt as [|c IH]; intros k ptr org; cbn [alloc_nodes];
    repeat nothrow_step.
Qed.

Lemma nothrow_phase1 fuel obj ptr elm prv state nxt :
  nothrow (phase1 bbox_sort fuel obj ptr elm prv state nxt).
Proof.
  revert prv state nxt. induction fuel as [|f IH]; intros prv state nxt; cbn [phase1];
    repeat first [apply nothrow_order_of | nothrow_step].
Qed.

Lemma nothrow_phase2 fuel end_ : nothrow (phase2 fuel end_).
Proof.
  revert end_. induction fuel as [|f IH]; intros end_; cbn [phase2]; repeat nothrow_step.
Qed.

Lemma nothrow_find_prev fuel ipt cur : nothrow (find_prev fuel ipt cur).
Proof.
  revert ipt. induction fuel as [|f IH]; intros ipt; cbn [find_prev]; repeat nothrow_step.
Qed.

Lemma nothrow_comb_scan fuel obj tlp nxt cur state jpt :
  nothrow (comb_scan bbox_sort fuel obj tlp nxt cur state jpt).
Proof.
  revert state jpt. induction fuel as [|f IH]; intros state jpt; cbn [comb_scan];
    repeat first [apply nothrow_order_of | nothrow_step].
Qed.

Lemma nothrow_comb_tail fuel obj end_ nxt tlp cur state gr ipt0 :
  nothrow (comb_tail bbox_sort fuel obj end_ nxt tlp cur state gr ipt0).
Proof.
  revert tlp cur state gr ipt0.
  induction fuel as [|f IH]; intros tlp cur state gr ipt0; cbn [comb_tail];
    repeat first [apply nothrow_find_prev | apply nothrow_comb_scan
                 | apply nothrow_repair | nothrow_step].
Qed.

Lemma nothrow_phase3 fuel obj ptr elm end_ prv state tlp nxt :
  nothrow (phase3 bbox_sort fuel obj ptr elm end_ prv state tlp nxt).
Proof.
  revert prv state tlp nxt.
  induction fuel as [|f IH]; intros prv state tlp nxt; cbn [phase3];
    repeat first [apply nothrow_order_of | apply nothrow_comb_tail
                 | apply nothrow_repair | nothrow_step].
Qed.

Lemma nothrow_sort fuel obj ptr elm : nothrow (sort bbox_sort fuel obj ptr elm).
Proof.
  unfold sort.
  repeat first [apply nothrow_order_of | apply nothrow_phase1 | apply nothrow_phase2
               | apply nothrow_phase3 | nothrow_step].
Qed.

(** [reaches par t]: the walk [for (; par != RT_NULL; par = par->parent)]
    from [par] comes across [t]. *)
Inductive reaches : Z -> Z -> Prop :=
| reaches_here (p : Z) : p <> 0 -> reaches p p
| reaches_up (p t : Z) (o : Object) :
    p <> 0 -> p <> t -> objs !! p = Some o -> reaches (parent o) t -> reaches p t.

(** [finite_chain n par]: the parents from [par] on end in [RT_NULL]
    after at most [n] objects. *)
Inductive finite_chain : nat -> Z -> Prop :=
| chain_null (n : nat) : finite_chain n 0
| chain_step (n : nat) (p : Z) (o : Object) :
    p <> 0 -> objs !! p = Some o -> finite_chain n (parent o) -> finite_chain (S n) p.


Definition not_same_branch : string := "trnode/bvnode are not on the same branch".

(** C10: a call [insert(obj, ptr, NULL)] for an object that is no
    light allocates nothing, leaves the store (the list at [ptr]
    included) as it was, and returns null. *)
Theorem insert_null_not_light (fuel : nat) (obj : Z) (ptr : loc) (s : state) (o : Object) :
  objs !! obj = Some o -> RT_IS_LIGHT o = false ->
  insert fuel obj ptr 0 s = Ok 0 s.
Proof.
  intros Ho Hl. unfold Engine.insert. cbn [Z.eqb].
  rewrite bind_unfold. rewrite bind_unfold. unfold deref at 1. rewrite Ho, Hl.
  reflexivity.
Qed.

Lemma search_parent_spec (fuel : nat) (par target : Z) (s : state) :
  finite_chain fuel par ->
  exists b, search_parent objs fuel par target s = Ok b s /\ (b = true <-> reaches par target).
Proof.
  intros Hc. induction Hc as [n | n p o Hp Ho Hc IH].
  - exists false. split.
    + destruct n; reflexivity.
    + split; [discriminate|]. intros H. inversion H; congruence.
  - cbn [search_parent].
    destruct (p =? 0) eqn:E0; [lia|].
    destruct (p =? target) eqn:Et.
    + exists true. split; [reflexivity|]. split; [|reflexivity].
      intros _. apply Z.eqb_eq in Et. subst. apply reaches_here. exact Hp.
    + destruct IH as [b [Hb Hiff]]. exists b. split.
      * rewrite bind_unfold. unfold deref. rewrite Ho. exact Hb.
      * rewrite Hiff. split.
        -- intros H. eapply reaches_up; eauto. lia.
        -- intros H. inversion H; subst; [lia|]. congruence.
Qed.


Lemma outer_most_two (fuel : nat) (T B : Z) (oT oB : Object) (s : state) :
  T <> 0 -> B <> 0 ->
  objs !! T = Some oT -> objs !! B = Some oB ->
  finite_chain fuel (parent oT) -> finite_chain fuel (parent oB) ->
  (T = B -> outer_most objs fuel (T, B) s = Ok 1 s)
  /\ (T <> B ->
      (reaches (parent oB) T -> outer_most objs fuel (T, B) s = Ok 0 s)
      /\ (~ reaches (parent oB) T -> reaches (parent oT) B ->
          outer_most objs fuel (T, B) s = Ok 1 s)
      /\ (~ reaches (parent oB) T -> ~ reaches (parent oT) B ->
          outer_most objs fuel (T, B) s = Thrown not_same_branch)).
Proof.
  intros HT HB HoT HoB HcT HcB.
  unfold outer_most, count_nodes. cbn [fst snd].
  destruct (T =? 0) eqn:ET; [lia|]. destruct (B =? 0) eqn:EB; [lia|].
  cbn [Z.add Z.eqb Pos.add Pos.eqb].
  split.
  - intros ->. rewrite !Z.eqb_refl. reflexivity.
  - intros Hne. destruct (T =? B) eqn:ETB; [lia|]. rewrite ?Z.eqb_refl.
    destruct (search_parent_spec fuel (parent oB) T s HcB) as [b0 [Hb0 Hi0]].
    destruct (search_parent_spec fuel (parent oT) B s HcT) as [b1 [Hb1 Hi1]].
    assert (Hbo : branch_order objs fuel T B s =
                  if b0 then Ok 0 s else if b1 then Ok 1 s else Thrown not_same_branch).
    { unfold branch_order.
      rewrite bind_unfold. unfold deref at 1. rewrite HoB.
      rewrite bind_unfold, Hb0. destruct b0; [reflexivity|].
      rewrite bind_unfold. unfold deref at 1. rewrite HoT.
      rewrite bind_unfold, Hb1. destruct b1; reflexivity. }
    rewrite Hbo.
    split; [|split].
    + intros Hr. apply Hi0 in Hr. subst b0. reflexivity.
    + intros Hn Hr. destruct b0; [exfalso; apply Hn, Hi0; reflexivity|].
      apply Hi1 in Hr. subst b1. reflexivity.
    + intros Hn0 Hn1. destruct b0; [exfalso; apply Hn0, Hi0; reflexivity|].
      destruct b1; [exfalso; apply Hn1, Hi1; reflexivity|]. reflexivity.
Qed.

Lemma insert_throws_at_outer_most (fuel : nat) (obj : Z) (ptr : loc) (srf : Z)
      (s : state) (o sf : Object) :
  srf <> 0 -> objs !! obj = Some o -> objs !! srf = Some sf ->
  exists s3, forall msg,
    insert fuel obj ptr srf s = Thrown msg <->
    outer_most objs fuel
      (if negb (trnode sf =? 0) && negb (trnode sf =? srf) then trnode sf else 0,
       if negb (bvnode sf =? 0) then (if RT_IS_SURFACE o then bvnode sf else 0) else 0) s3
    = Thrown msg.
Proof.
  intros Hsrf Ho Hsf.
  unfold Engine.insert.
  destruct (srf =? 0) eqn:E; [lia|].
  rewrite bind_unfold, ret_unfold.
  rewrite bind_unfold. unfold alloc at 1.
  rewrite bind_unfold. unfold wr at 1. cbn [elems slots brk]. rewrite lookup_insert_eq.
  rewrite bind_unfold. unfold wr at 1. cbn [elems slots brk]. rewrite lookup_insert_eq.
  rewrite bind_unfold. unfold wr at 1. cbn [elems slots brk]. rewrite lookup_insert_eq.
  match goal with |- context [mbind _ _ ?s3] => exists s3 end.
  intros msg.
  rewrite bind_unfold.
  unfold nodes_of at 1. rewrite bind_unfold. unfold deref at 1. rewrite Hsf.
  rewrite bind_unfold.
  match goal with |- context [nodes_of] => fail 1 | _ => idtac end.
  assert (Harr1 : forall s',
    (if negb (bvnode sf =? 0)
     then o0 ← deref objs obj; mret (if RT_IS_SURFACE o0 then bvnode sf else 0)
     else mret 0) s' =
    Ok (if negb (bvnode sf =? 0) then (if RT_IS_SURFACE o then bvnode sf else 0) else 0) s').
  { intros s'. destruct (negb (bvnode sf =? 0)); [|reflexivity].
    rewrite bind_unfold. unfold deref. rewrite Ho. reflexivity. }
  rewrite Harr1. rewrite ret_unfold.
  rewrite bind_unfold.
  match goal with |- context [outer_most objs fuel ?a ?s3] =>
    destruct (outer_most objs fuel a s3) as [k s4 | msg' | |] eqn:EO end.
  - split; [|discriminate]. intros H. exfalso. revert H.
    match goal with |- ?m s4 = _ -> _ => assert (Hn : nothrow m); [|apply Hn] end.
    repeat first [apply nothrow_search_nodes | apply nothrow_alloc_nodes
                 | apply nothrow_sort | nothrow_step].
  - reflexivity.
  - split; discriminate.
  - split; discriminate.
Qed.

(** With at most one node there is nothing to check. *)
Lemma outer_most_single (fuel : nat) (a : Z) (s : state) :
  exists k, outer_most objs fuel (a, 0) s = Ok k s.
Proof.
  unfold outer_most, count_nodes. cbn [fst snd]. change (0 =? 0) with true. cbv iota.
  destruct (a =? 0); cbn [negb Z.add Z.eqb]; eexists; reflexivity.
Qed.

(** C4, amended: when the requester is a surface and the candidate has
    a trnode (other than itself) and a bvnode, [insert] throws the
    exception "trnode/bvnode are not on the same branch", and no other,
    exactly when the two are distinct arrays and neither is found among
    the other's parents; when one array serves as both, nothing is
    thrown and the bvnode (index 1) is taken as the outer-most node.
    When the requester is no surface (a camera, a light, an array) the
    candidate's bvnode is left out of the nodes whatever it is, and
    [insert] throws nothing. *)
Theorem insert_branch_check (fuel : nat) (obj : Z) (ptr : loc) (srf : Z) (s : state)
        (o sf : Object) :
  srf <> 0 -> objs !! obj = Some o -> objs !! srf = Some sf ->
  (RT_IS_SURFACE o = true ->
   forall oT oB : Object,
     trnode sf <> 0 -> trnode sf <> srf -> bvnode sf <> 0 ->
     objs !! trnode sf = Some oT -> objs !! bvnode sf = Some oB ->
     finite_chain fuel (parent oT) -> finite_chain fuel (parent oB) ->
     (trnode sf <> bvnode sf ->
        (insert fuel obj ptr srf s = Thrown not_same_branch <->
         ~ reaches (parent oB) (trnode sf) /\ ~ reaches (parent oT) (bvnode sf))
        /\ (forall msg, insert fuel obj ptr srf s = Thrown msg -> msg = not_same_branch))
     /\ (trnode sf = bvnode sf ->
         outer_most objs fuel (trnode sf, bvnode sf) s = Ok 1 s
         /\ forall msg, insert fuel obj ptr srf s <> Thrown msg))
  /\ (RT_IS_SURFACE o = false ->
      (forall s0, nodes_of objs obj srf s0
                  = Ok (if negb (trnode sf =? 0) && negb (trnode sf =? srf)
                        then trnode sf else 0, 0) s0)
      /\ forall msg, insert fuel obj ptr srf s <> Thrown msg).
Proof.
  intros Hsrf Ho Hsf.
  destruct (insert_throws_at_outer_most fuel obj ptr srf s o sf Hsrf Ho Hsf) as [s3 Hthrow].
  split.
  - intros Hos oT oB HT HTs HB HoT HoB HcT HcB.
    revert Hthrow. rewrite Hos.
    destruct (trnode sf =? 0) eqn:E1; [lia|].
    destruct (trnode sf =? srf) eqn:E2; [lia|].
    destruct (bvnode sf =? 0) eqn:E3; [lia|].
    cbn [negb andb]. intros Hthrow.
    destruct (outer_most_two fuel (trnode sf) (bvnode sf) oT oB s3 HT HB HoT HoB HcT HcB)
      as [Hsame Hdiff].
    split.
    + intros Hne. destruct (Hdiff Hne) as [H0 [H1 H2]].
      assert (Hdec : forall msg, outer_most objs fuel (trnode sf, bvnode sf) s3 = Thrown msg ->
                     msg = not_same_branch
                     /\ ~ reaches (parent oB) (trnode sf) /\ ~ reaches (parent oT) (bvnode sf)).
      { intros msg Hm.
        destruct (search_parent_spec fuel (parent oB) (trnode sf) s3 HcB) as [b0 [_ Hi0]].
        destruct (search_parent_spec fuel (parent oT) (bvnode sf) s3 HcT) as [b1 [_ Hi1]].
        destruct b0.
        - rewrite H0 in Hm by (apply Hi0; reflexivity). discriminate.
        - assert (Hn0 : ~ reaches (parent oB) (trnode sf)).
          { intros Hr. apply Hi0 in Hr. discriminate. }
          destruct b1.
          + rewrite H1 in Hm by (try apply Hi1; auto). discriminate.
          + assert (Hn1 : ~ reaches (parent oT) (bvnode sf)).
            { intros Hr. apply Hi1 in Hr. discriminate. }
            rewrite H2 in Hm by assumption. split; [congruence | split; assumption]. }
      split.
      * rewrite Hthrow. split.
        -- intros Hm. apply Hdec in Hm. tauto.
        -- intros [Hn0 Hn1]. apply H2; assumption.
      * intros msg Hm. apply Hthrow, Hdec in Hm. tauto.
    + intros He. split.
      * destruct (outer_most_two fuel (trnode sf) (bvnode sf) oT oB s HT HB HoT HoB HcT HcB)
          as [Hsame' _]. apply Hsame'. exact He.
      * intros msg Hm. apply Hthrow in Hm. rewrite Hsame in Hm by exact He. discriminate.
  - intros Hos. split.
    + intros s0. unfold nodes_of. rewrite bind_unfold. unfold deref at 1. rewrite Hsf.
      rewrite bind_unfold.
      destruct (negb (bvnode sf =? 0)); [|reflexivity].
      rewrite bind_unfold. unfold deref at 1. rewrite Ho, ret_unfold, Hos. reflexivity.
    + intros msg Hm. apply Hthrow in Hm. rewrite Hos in Hm.
      assert (E0 : (if negb (bvnode sf =? 0) then 0 else 0) = 0)
        by (clear; destruct (bvnode sf =? 0); reflexivity).
      rewrite E0 in Hm.
      destruct (outer_most_single fuel
                  (if negb (trnode sf =? 0) && negb (trnode sf =? srf) then trnode sf else 0) s3)
        as [k Hk].
      rewrite Hk in Hm. discriminate.
Qed.


End Facts.

(** A small scene: a camera, two surfaces, and three arrays of which
    [20] is a child of [10] and [30] stands alone. *)
Definition demo_objs : gmap Z Object :=
  list_to_map
    [ (100, mkObject CAMERA 0 0 0 0 0);
      (10, mkObject ARRAY 0 0 0 1000 0);
      (20, mkObject ARRAY 10 0 0 2000 0);
      (30, mkObject ARRAY 0 0 0 3000 0);
      (1, mkObject SURFACE 20 10 20 1100 0);
      (2, mkObject SURFACE 30 10 30 1200 0);
      (3, mkObject SURFACE 0 0 0 1300 0) ].
Definition demo_sort (obj a b : Z) : Z := 3.
Definition demo_state : state := mkState ∅ {[ Local 0 := 0 ]} 4096.

Lemma insert_null_not_light_witness :
  demo_objs !! 100 = Some (mkObject CAMERA 0 0 0 0 0)
  /\ RT_IS_LIGHT (mkObject CAMERA 0 0 0 0 0) = false
  /\ insert demo_objs 0 true demo_sort 8 100 (Slot (Local 0)) 0 demo_state = Ok 0 demo_state.
Proof.
  split; [reflexivity | split; [reflexivity |]].
  apply (insert_null_not_light demo_objs 0 true demo_sort 8 100 (Slot (Local 0)) demo_state
           (mkObject CAMERA 0 0 0 0 0)); reflexivity.
Defined.

Lemma demo_no_parent (t : Z) : ~ reaches demo_objs 0 t.
Proof. intros H. inversion H; congruence. Qed.

(** The scene of [demo_objs] with a light. *)
Definition lit_demo_objs : gmap Z Object := <[200 := mkObject LIGHT 0 0 0 0 2200]> demo_objs.

Lemma insert_branch_check_witness :
  let s := demo_state in
  let sf := mkObject SURFACE 20 10 20 1100 0 in
  let oT := mkObject ARRAY 0 0 0 1000 0 in
  let oB := mkObject ARRAY 10 0 0 2000 0 in
  ((trnode sf <> bvnode sf ->
      (insert demo_objs 0 true demo_sort 8 3 (Slot (Local 0)) 1 s = Thrown not_same_branch <->
       ~ reaches demo_objs (parent oB) (trnode sf) /\ ~ reaches demo_objs (parent oT) (bvnode sf))
      /\ (forall msg, insert demo_objs 0 true demo_sort 8 3 (Slot (Local 0)) 1 s = Thrown msg ->
                      msg = not_same_branch))
   /\ (trnode sf = bvnode sf ->
       outer_most demo_objs 8 (trnode sf, bvnode sf) s = Ok 1 s
       /\ forall msg, insert demo_objs 0 true demo_sort 8 3 (Slot (Local 0)) 1 s <> Thrown msg))
  /\ ((forall s0, nodes_of lit_demo_objs 200 2 s0 = Ok (10, 0) s0)
      /\ forall msg, insert lit_demo_objs 0 true demo_sort 8 200 (Slot (Local 0)) 2 s
                     <> Thrown msg).
Proof.
  intros s sf oT oB. split.
  - apply (proj1 (insert_branch_check demo_objs 0 true demo_sort 8 3 (Slot (Local 0)) 1 s
                    (mkObject SURFACE 0 0 0 1300 0) sf ltac:(lia) eq_refl eq_refl)
                 eq_refl oT oB);
      try reflexivity; try (cbn; lia).
    + apply chain_null.
    + apply (chain_step demo_objs 7 10 oT); [lia | reflexivity | apply chain_null].
  - apply (proj2 (insert_branch_check lit_demo_objs 0 true demo_sort 8 200 (Slot (Local 0)) 2 s
                    (mkObject LIGHT 0 0 0 0 2200) (mkObject SURFACE 30 10 30 1200 0)
                    ltac:(lia) eq_refl eq_refl) eq_refl).
Defined.

(** C4 as stated fails when the requester is no surface: for the camera
    as requester and a candidate whose trnode [10] and bvnode [30] are
    not among each other's parents, [insert] throws nothing. *)
Lemma insert_branch_check_counterexample :
  ~ (insert demo_objs 0 true demo_sort 8 100 (Slot (Local 0)) 2 demo_state
       = Thrown not_same_branch
     <-> ~ reaches demo_objs 0 10 /\ ~ reaches demo_objs 0 30).
Proof.
  intros [_ H].
  assert (E : match insert demo_objs 0 true demo_sort 8 100 (Slot (Local 0)) 2 demo_state with
              | Ok _ _ => true
              | _ => false
              end = true) by (vm_compute; reflexivity).
  rewrite H in E; [discriminate|].
  split; apply demo_no_parent.
Qed.

End InsertSpec.

(** ** tiling: the per-row column bounds *)

Module TilingSpec.
Import Mem Tiling.

Section Facts.

Variable F : FloatOps.
Variable tiles_in_row tiles_in_col : Z.
Variable opt_tiling_ext1 : bool.
Hypothesis Hrow : 1 <= tiles_in_row.
Hypothesis Hcol : 0 <= tiles_in_col.

(** The arrays have an entry per tile row, [txmin] stays within
    [0, tiles_in_row] and [txmax] within [-1, tiles_in_row - 1]: what
    the reset in [stile] establishes. *)
Definition rows_ok (tb : bounds) : Prop :=
  length (txmin tb) = Z.to_nat tiles_in_col /\ length (txmax tb) = Z.to_nat tiles_in_col.
Definition bounded (tb : bounds) : Prop :=
  Forall (fun v => 0 <= v <= tiles_in_row) (txmin tb)
  /\ Forall (fun v => -1 <= v <= tiles_in_row - 1) (txmax tb).

(** Every entry of [tb'] is the entry of [tb] or a column within
    [0, tiles_in_row - 1]. *)
Definition clamped (tb tb' : bounds) : Prop :=
  (forall r v, txmin tb' !! r = Some v ->
               txmin tb !! r = Some v \/ 0 <= v <= tiles_in_row - 1)
  /\ (forall r v, txmax tb' !! r = Some v ->
                  txmax tb !! r = Some v \/ 0 <= v <= tiles_in_row - 1).

Lemma clamped_refl tb : clamped tb tb.
Proof. split; intros r v H; left; exact H. Qed.

Lemma clamped_trans tb1 tb2 tb3 : clamped tb1 tb2 -> clamped tb2 tb3 -> clamped tb1 tb3.
Proof.
  intros [A1 B1] [A2 B2]. split; intros r v H.
  - destruct (A2 r v H) as [H'|H']; [apply A1; exact H' | right; exact H'].
  - destruct (B2 r v H) as [H'|H']; [apply B1; exact H' | right; exact H'].
Qed.

Lemma get_in_range (l : list Z) (i : Z) :
  0 <= i < Z.of_nat (length l) -> exists v, get l i = Some v /\ In v l.
Proof.
  intros Hi. unfold get. destruct (i <? 0) eqn:E; [lia|].
  destruct (l !! Z.to_nat i) as [v|] eqn:El.
  - exists v. split; [reflexivity|]. apply list_elem_of_In. eapply list_elem_of_lookup_2. exact El.
  - apply lookup_ge_None in El. lia.
Qed.

Lemma put_in_range (l : list Z) (i v : Z) :
  0 <= i < Z.of_nat (length l) -> put l i v = Some (<[Z.to_nat i := v]> l).
Proof.
  intros Hi. unfold put. destruct (i <? 0) eqn:E; [lia|].
  destruct (Nat.ltb (Z.to_nat i) (length l)) eqn:E2; [reflexivity|].
  apply Nat.ltb_ge in E2. lia.
Qed.

Lemma Forall_insert_Z (P : Z -> Prop) (l : list Z) (i : nat) (v : Z) :
  Forall P l -> P v -> Forall P (<[i := v]> l).
Proof. intros Hl Hv. apply Forall_insert; assumption. Qed.

Lemma lookup_insert_cases (l : list Z) (i r : nat) (v w : Z) :
  <[i := v]> l !! r = Some w -> l !! r = Some w \/ w = v.
Proof.
  intros H. destruct (decide (i = r)) as [->|Hne].
  - destruct (decide (r < length l)%nat) as [Hlt|Hge].
    + rewrite list_lookup_insert_eq in H by exact Hlt. right. congruence.
    + rewrite list_insert_ge in H by lia. left. exact H.
  - rewrite list_lookup_insert_ne in H by exact Hne. left. exact H.
Qed.

Definition good (tb : bounds) : Prop := rows_ok tb /\ bounded tb.

Lemma update_good (cy x1 x2 : Z) (tb : bounds) :
  good tb -> 0 <= cy < tiles_in_col ->
  exists tb', RT_UPDATE_TILES_BOUNDS 0 (tiles_in_row - 1) cy x1 x2 tb = Some tb'
              /\ good tb' /\ clamped tb tb'.
Proof.
  intros [[L1 L2] [B1 B2]] Hcy. unfold RT_UPDATE_TILES_BOUNDS.
  set (lo := if x1 <? x2 then x1 else x2).
  set (hi := if x1 <? x2 then x2 else x1).
  destruct (get_in_range (txmin tb) cy) as [mn [Hmn Hin1]]; [lia|].
  destruct (get_in_range (txmax tb) cy) as [mx [Hmx Hin2]]; [lia|].
  rewrite Hmn. cbn [mbind option_bind].
  assert (Hmnb : 0 <= mn <= tiles_in_row).
  { rewrite Forall_forall in B1. apply B1. apply list_elem_of_In. exact Hin1. }
  assert (Hmxb : -1 <= mx <= tiles_in_row - 1).
  { rewrite Forall_forall in B2. apply B2. apply list_elem_of_In. exact Hin2. }
  assert (Hmin : exists tmin,
    (if mn >? lo then put (txmin tb) cy (RT_MAX lo 0) else Some (txmin tb)) = Some tmin
    /\ length tmin = Z.to_nat tiles_in_col
    /\ Forall (fun v => 0 <= v <= tiles_in_row) tmin
    /\ (forall r v, tmin !! r = Some v ->
                    txmin tb !! r = Some v \/ 0 <= v <= tiles_in_row - 1)).
  { destruct (mn >? lo) eqn:E.
    - rewrite put_in_range by lia. eexists. split; [reflexivity|].
      assert (Hv : 0 <= RT_MAX lo 0 <= tiles_in_row - 1).
      { unfold RT_MAX. destruct (lo >? 0) eqn:E0; lia. }
      split; [rewrite length_insert; exact L1|]. split.
      + apply Forall_insert_Z; [exact B1 | lia].
      + intros r v Hr. apply lookup_insert_cases in Hr. destruct Hr as [Hr| ->]; [left; exact Hr | right; exact Hv].
    - exists (txmin tb). split; [reflexivity|]. split; [exact L1|]. split; [exact B1|].
      intros r v Hr. left. exact Hr. }
  destruct Hmin as [tmin [-> [Lm [Bm Cm]]]]. cbn [mbind option_bind].
  rewrite Hmx. cbn [mbind option_bind].
  assert (Hmax : exists tmax,
    (if mx <? hi then put (txmax tb) cy (RT_MIN hi (tiles_in_row - 1)) else Some (txmax tb)) = Some tmax
    /\ length tmax = Z.to_nat tiles_in_col
    /\ Forall (fun v => -1 <= v <= tiles_in_row - 1) tmax
    /\ (forall r v, tmax !! r = Some v ->
                    txmax tb !! r = Some v \/ 0 <= v <= tiles_in_row - 1)).
  { destruct (mx <? hi) eqn:E.
    - rewrite put_in_range by lia. eexists. split; [reflexivity|].
      assert (Hv : 0 <= RT_MIN hi (tiles_in_row - 1) <= tiles_in_row - 1).
      { unfold RT_MIN. destruct (hi <? tiles_in_row - 1) eqn:E0; lia. }
      split; [rewrite length_insert; exact L2|]. split.
      + apply Forall_insert_Z; [exact B2 | lia].
      + intros r v Hr. apply lookup_insert_cases in Hr. destruct Hr as [Hr| ->]; [left; exact Hr | right; exact Hv].
    - exists (txmax tb). split; [reflexivity|]. split; [exact L2|]. split; [exact B2|].
      intros r v Hr. left. exact Hr. }
  destruct Hmax as [tmax [-> [LM [BM CM]]]]. cbn [mbind option_bind].
  eexists. split; [reflexivity|].
  split; [split; split; assumption|]. split; assumption.
Qed.


Lemma span_rows_good (cnt : nat) (t x1 x2 : Z) (tb : bounds) :
  good tb -> 0 <= t -> t + Z.of_nat cnt <= tiles_in_col ->
  exists tb', span_rows tiles_in_row cnt t x1 x2 tb = Some tb' /\ good tb' /\ clamped tb tb'.
Proof.
  revert t tb. induction cnt as [|c IH]; intros t tb Hg Ht Hc.
  - exists tb. split; [reflexivity|]. split; [exact Hg | apply clamped_refl].
  - cbn [span_rows].
    destruct (update_good t x1 x2 tb Hg) as [tb1 [-> [Hg1 Hc1]]]; [lia|].
    cbn [mbind option_bind].
    destruct (IH (t + 1) tb1 Hg1) as [tb2 [-> [Hg2 Hc2]]]; [lia | lia |].
    exists tb2. split; [reflexivity|]. split; [exact Hg2|].
    eapply clamped_trans; eassumption.
Qed.

Lemma walk_rows_good (cnt : nat) (t : Z) (px rt : real F) (x1 : Z) (tb : bounds) :
  good tb -> 0 <= t -> t + Z.of_nat cnt <= tiles_in_col ->
  exists x tb', walk_rows F tiles_in_row cnt t px rt x1 tb = Some (x, tb')
                /\ good tb' /\ clamped tb tb'.
Proof.
  revert t px x1 tb. induction cnt as [|c IH]; intros t px x1 tb Hg Ht Hc.
  - exists x1, tb. split; [reflexivity|]. split; [exact Hg | apply clamped_refl].
  - cbn [walk_rows].
    destruct (update_good t x1 (RT_FLOOR F (r_add F px rt)) tb Hg) as [tb1 [-> [Hg1 Hc1]]]; [lia|].
    cbn [mbind option_bind].
    destruct (IH (t + 1) (r_add F px rt) (RT_FLOOR F (r_add F px rt)) tb1 Hg1)
      as [x [tb2 [-> [Hg2 Hc2]]]]; [lia | lia |].
    exists x, tb2. split; [reflexivity|]. split; [exact Hg2|].
    eapply clamped_trans; eassumption.
Qed.

Lemma tile_line_good (rt : real F) (n1 n2 : real F * real F) (tb : bounds) :
  good tb ->
  exists tb', tile_line F tiles_in_row tiles_in_col rt n1 n2 tb = Some tb'
              /\ good tb' /\ clamped tb tb'.
Proof.
  intros Hg. unfold tile_line.
  set (x1 := RT_FLOOR F (fst n1)). set (y1 := RT_FLOOR F (snd n1)).
  set (x2 := RT_FLOOR F (fst n2)). set (y2 := RT_FLOOR F (snd n2)).
  destruct ((y1 >? tiles_in_col - 1) || (y2 <? 0)) eqn:Erej.
  { exists tb. split; [reflexivity|]. split; [exact Hg | apply clamped_refl]. }
  apply orb_false_iff in Erej. destruct Erej as [Ey1 Ey2].
  assert (Hy1 : y1 <= tiles_in_col - 1) by lia.
  assert (Hy2 : 0 <= y2) by lia.
  match goal with |- context [if ?c then _ else _] => destruct c end.
  - destruct (y1 <? 0) eqn:Ea; destruct (y2 >? tiles_in_col - 1) eqn:Eb;
      apply span_rows_good; try exact Hg; lia.
  - set (y1' := if y1 <? 0 then 0 else y1 + 1).
    set (y2' := if y2 >? tiles_in_col - 1 then tiles_in_col - 1 else y2 - 1).
    assert (Hy1' : 0 <= y1' <= tiles_in_col).
    { unfold y1'. destruct (y1 <? 0) eqn:Ea; lia. }
    assert (Hy2' : -1 <= y2' <= tiles_in_col - 1).
    { unfold y2'. destruct (y2 >? tiles_in_col - 1) eqn:Eb; lia. }
    set (px := r_add F (fst n1) (r_mul F (r_sub F (r_of_cell F y1') (snd n1)) rt)).
    assert (H1 : exists tb1,
      (if y1' >? 0 then RT_UPDATE_TILES_BOUNDS 0 (tiles_in_row - 1) (y1' - 1) x1 (RT_FLOOR F px) tb
       else Some tb) = Some tb1 /\ good tb1 /\ clamped tb tb1).
    { destruct (y1' >? 0) eqn:E.
      - apply update_good; [exact Hg | lia].
      - exists tb. split; [reflexivity|]. split; [exact Hg | apply clamped_refl]. }
    destruct H1 as [tb1 [-> [Hg1 Hc1]]]. cbn [mbind option_bind].
    destruct (walk_rows_good (Z.to_nat (y2' - y1' + 1)) y1' px rt (RT_FLOOR F px) tb1 Hg1)
      as [x [tb2 [-> [Hg2 Hc2]]]]; [lia | lia |].
    cbn [mbind option_bind].
    destruct (y2' <? tiles_in_col - 1) eqn:E.
    + destruct (update_good (y2' + 1) x x2 tb2 Hg2) as [tb3 [-> [Hg3 Hc3]]]; [lia|].
      exists tb3. split; [reflexivity|]. split; [exact Hg3|].
      eapply clamped_trans; [|exact Hc3]. eapply clamped_trans; eassumption.
    + exists tb2. split; [reflexivity|]. split; [exact Hg2|].
      eapply clamped_trans; eassumption.
Qed.

Lemma tile_line_reject (rt : real F) (n1 n2 : real F * real F) (tb : bounds) :
  (RT_FLOOR F (snd n1) > tiles_in_col - 1 /\ RT_FLOOR F (snd n2) > tiles_in_col - 1)
  \/ (RT_FLOOR F (snd n1) < 0 /\ RT_FLOOR F (snd n2) < 0) ->
  tile_line F tiles_in_row tiles_in_col rt n1 n2 tb = Some tb.
Proof.
  intros H. unfold tile_line.
  destruct ((RT_FLOOR F (snd n1) >? tiles_in_col - 1) || (RT_FLOOR F (snd n2) <? 0)) eqn:E;
    [reflexivity|].
  apply orb_false_iff in E. lia.
Qed.

Lemma tile_lines_good (rt : real F) (ls : list ((real F * real F) * (real F * real F)))
      (tb : bounds) :
  good tb ->
  exists tb', tile_lines F tiles_in_row tiles_in_col rt ls tb = Some tb'
              /\ good tb' /\ clamped tb tb'.
Proof.
  revert tb. induction ls as [|[n1 n2] ls IH]; intros tb Hg.
  - exists tb. split; [reflexivity|]. split; [exact Hg | apply clamped_refl].
  - cbn [tile_lines].
    destruct (tile_line_good rt n1 n2 tb Hg) as [tb1 [-> [Hg1 Hc1]]].
    cbn [mbind option_bind].
    destruct (IH tb1 Hg1) as [tb2 [-> [Hg2 Hc2]]].
    exists tb2. split; [reflexivity|]. split; [exact Hg2|].
    eapply clamped_trans; eassumption.
Qed.

Lemma tiling_good (p1 p2 : real F * real F) (tb : bounds) :
  good tb ->
  exists tb', tiling F tiles_in_row tiles_in_col opt_tiling_ext1 p1 p2 tb = Some tb'
              /\ good tb' /\ clamped tb tb'.
Proof.
  intros Hg. unfold tiling.
  destruct (if r_ltb F (snd p2) (snd p1) then (p2, p1) else (p1, p2)) as [q1 q2].
  destruct (slope F (r_sub F (fst q2) (fst q1)) (r_sub F (snd q2) (snd q1))) as [[rt xx] yy].
  apply tile_lines_good. exact Hg.
Qed.

Lemma set_rows_spec (cnt : nat) (i lo hi : Z) (tb : bounds) :
  0 <= i -> Z.of_nat (length (txmin tb)) = i + Z.of_nat cnt ->
  length (txmax tb) = length (txmin tb) ->
  exists tb', set_rows cnt i lo hi tb = Some tb'
    /\ txmin tb' = take (Z.to_nat i) (txmin tb) ++ replicate cnt lo
    /\ txmax tb' = take (Z.to_nat i) (txmax tb) ++ replicate cnt hi.
Proof.
  revert i tb. induction cnt as [|c IH]; intros i tb Hi Hl1 Hl2.
  - exists tb. split; [reflexivity|]. cbn [replicate]. rewrite !app_nil_r.
    rewrite !take_ge by lia. split; reflexivity.
  - cbn [set_rows].
    rewrite put_in_range by lia. cbn [mbind option_bind].
    rewrite put_in_range by lia. cbn [mbind option_bind].
    destruct (IH (i + 1) (mkBounds (<[Z.to_nat i := lo]> (txmin tb)) (<[Z.to_nat i := hi]> (txmax tb))))
      as [tb' [-> [E1 E2]]].
    + lia.
    + cbn [txmin]. rewrite length_insert. lia.
    + cbn [txmin txmax]. rewrite !length_insert. exact Hl2.
    + exists tb'. split; [reflexivity|]. cbn [txmin txmax] in E1, E2.
      replace (Z.to_nat (i + 1)) with (S (Z.to_nat i)) in E1, E2 by lia.
      rewrite E1, E2.
      split.
      * erewrite take_S_r; [|apply list_lookup_insert_eq; lia].
        rewrite take_insert_ge by lia. rewrite <- app_assoc. reflexivity.
      * erewrite take_S_r; [|apply list_lookup_insert_eq; lia].
        rewrite take_insert_ge by lia. rewrite <- app_assoc. reflexivity.
Qed.

(** The reset at the start of [stile] establishes the invariant. *)
Lemma reset_good (tb : bounds) :
  rows_ok tb ->
  exists tb', set_rows (Z.to_nat tiles_in_col) 0 tiles_in_row (-1) tb = Some tb' /\ good tb'.
Proof.
  intros [L1 L2].
  destruct (set_rows_spec (Z.to_nat tiles_in_col) 0 tiles_in_row (-1) tb) as [tb' [E [E1 E2]]];
    [lia | lia | congruence |].
  exists tb'. split; [exact E|]. change (Z.to_nat 0) with 0%nat in E1, E2. rewrite take_0 in E1, E2. cbn [app] in E1, E2.
  unfold good, rows_ok, bounded. rewrite E1, E2, !length_replicate.
  split; [split; reflexivity|].
  split; apply Forall_replicate; lia.
Qed.

(** C6: under the invariant that the reset of [stile] establishes
    ([txmin] within [0, tiles_in_row], [txmax] within
    [-1, tiles_in_row - 1], one entry per tile row) a call of [tiling]
    accesses the arrays only at rows [0 .. tiles_in_col - 1] (it returns
    [Some], an access outside being [None]), keeps the invariant, and
    every entry it has changed is a column within
    [0, tiles_in_row - 1]; a line whose two floored end rows are both
    above or both below the row range leaves the arrays as they are. *)
Theorem tiling_bounds_clamped (p1 p2 : real F * real F) (tb : bounds) :
  rows_ok tb -> bounded tb ->
  (exists tb', tiling F tiles_in_row tiles_in_col opt_tiling_ext1 p1 p2 tb = Some tb'
               /\ rows_ok tb' /\ bounded tb' /\ clamped tb tb')
  /\ (forall (rt : real F) (n1 n2 : real F * real F),
        (RT_FLOOR F (snd n1) > tiles_in_col - 1 /\ RT_FLOOR F (snd n2) > tiles_in_col - 1)
        \/ (RT_FLOOR F (snd n1) < 0 /\ RT_FLOOR F (snd n2) < 0) ->
        tile_line F tiles_in_row tiles_in_col rt n1 n2 tb = Some tb).
Proof.
  intros Hr Hb. split.
  - destruct (tiling_good p1 p2 tb (conj Hr Hb)) as [tb' [E [[Hr' Hb'] Hc]]].
    exists tb'. repeat split; try assumption; apply Hr' || apply Hb' || apply Hc.
  - intros rt n1 n2 H. apply tile_line_reject. exact H.
Qed.

End Facts.

(** An instance of the float operations on integers, to run the code on. *)
Definition int_float : FloatOps :=
  mkFloatOps Z 0 1 (-1) Z.add Z.sub Z.mul Z.div Z.abs Z.sqrt Z.leb Z.ltb Z.eqb
             (fun x => x) (fun x => x) 0 1 0.

Lemma tiling_bounds_clamped_witness :
  let tb := mkBounds [4; 4; 4; 4] [-1; -1; -1; -1] in
  (1 <= 4 /\ 0 <= 4 /\ rows_ok 4 tb /\ bounded 4 tb)
  /\ ((exists tb', tiling int_float 4 4 false (0, 0) (3, 3) tb = Some tb'
                   /\ rows_ok 4 tb' /\ bounded 4 tb' /\ clamped 4 tb tb')
      /\ (forall (rt : real int_float) (n1 n2 : real int_float * real int_float),
            (RT_FLOOR int_float (snd n1) > 4 - 1 /\ RT_FLOOR int_float (snd n2) > 4 - 1)
            \/ (RT_FLOOR int_float (snd n1) < 0 /\ RT_FLOOR int_float (snd n2) < 0) ->
            tile_line int_float 4 4 rt n1 n2 tb = Some tb)).
Proof.
  intros tb.
  assert (Hr : rows_ok 4 tb) by (split; reflexivity).
  assert (Hb : bounded 4 tb).
  { split; repeat constructor; lia. }
  split; [split; [lia | split; [lia | split; assumption]] |].
  apply (tiling_bounds_clamped int_float 4 4 false); [lia | lia | exact Hr | exact Hb].
Defined.

End TilingSpec.

(** ** stile: near-plane clipping of the bounding-box edges *)

Module ClipSpec.
Import Mem Tiling TilingSpec.

Section Clip.

Variable F : FloatOps.
Variable tiles_in_row tiles_in_col : Z.
Variable opt_tiling_ext1 : bool.
Variable org pos nrm dir htl vtl : vec3 F.
Variable pov : real F.

(** What the code relies on for its three tags: -1.0f <= 0.0f,
    0.0f <= 0.0f, 0.0f <= 1.0f, and neither 1.0f <= 0.0f nor
    0.0f <= -1.0f. *)
Definition tag_order : Prop :=
  r_leb F (r_mone F) (r_zero F) = true
  /\ r_leb F (r_zero F) (r_zero F) = true
  /\ r_leb F (r_zero F) (r_one F) = true
  /\ r_leb F (r_one F) (r_zero F) = false
  /\ r_leb F (r_zero F) (r_mone F) = false.

(** The vertex index [x] handed to [tiling] is one generated by
    [stile] (at or past the surface's own [verts_num]) or a vertex of
    the surface whose tag passed the test [tag >= 0.0f]. *)
Definition fresh_or_front (vs : gmap Z (VERT F)) (n x : Z) : Prop :=
  n <= x \/ exists v, vs !! x = Some v /\ r_leb F (r_zero F) (pos_W F v) = true.

Local Abbreviation clip_edge := (Tiling.clip_edge F org htl vtl).
Local Abbreviation clip_end := (Tiling.clip_end F org htl vtl).

Lemma upd_some (vs : gmap Z (VERT F)) (k : Z) (f : VERT F -> VERT F) (v : VERT F) :
  vs !! k = Some v -> upd F vs k f = Some (<[k := f v]> vs).
Proof. intros H. unfold upd. rewrite H. reflexivity. Qed.

Lemma upd_inv (vs vs' : gmap Z (VERT F)) (k : Z) (f : VERT F -> VERT F) :
  upd F vs k f = Some vs' -> exists v, vs !! k = Some v /\ vs' = <[k := f v]> vs.
Proof.
  unfold upd. destruct (vs !! k) as [v|]; [|discriminate].
  intros H. injection H as <-. exists v. split; reflexivity.
Qed.

(** One end of an edge: kept when its tag passes [tag >= 0.0f],
    otherwise replaced by the fresh index [verts_num]; the scratch
    buffer changes at [verts_num] only. *)
Lemma clip_end_inv (vrt : list (vec3 F)) (tag zed : real F * real F) (i : Z)
      (vs vs' : gmap Z (VERT F)) (vn vn' : Z) (ndx ndx' : Z * Z) :
  clip_end vrt tag zed i (vs, vn, ndx) = Some (vs', vn', ndx') ->
  (r_leb F (r_zero F) (if i =? 0 then fst tag else snd tag) = true
   /\ vs' = vs /\ vn' = vn /\ ndx' = ndx)
  \/ (r_leb F (r_zero F) (if i =? 0 then fst tag else snd tag) = false
      /\ vn' = vn + 1 /\ ndx' = set_sel ndx i vn
      /\ forall x, x <> vn -> vs' !! x = vs !! x).
Proof.
  unfold Tiling.clip_end.
  destruct (r_leb F (r_zero F) (if i =? 0 then fst tag else snd tag)) eqn:E.
  - intros H. injection H as <- <- <-. left. repeat split; reflexivity.
  - intros H. right. split; [reflexivity|].
    destruct (vrt_at F vrt (Tiling.sel ndx i)) as [pi|]; [|discriminate].
    cbn [mbind option_bind] in H.
    destruct (vrt_at F vrt (Tiling.sel ndx (1 - i))) as [pj|]; [|discriminate].
    cbn [mbind option_bind] in H.
    match type of H with context [upd F vs vn ?f] =>
      destruct (upd F vs vn f) as [vs1|] eqn:E1; [|discriminate] end.
    cbn [mbind option_bind] in H.
    match type of H with context [upd F vs1 vn ?f] =>
      destruct (upd F vs1 vn f) as [vs2|] eqn:E2; [|discriminate] end.
    cbn [mbind option_bind] in H. injection H as <- <- <-.
    split; [reflexivity|]. split; [reflexivity|].
    intros x Hx.
    apply upd_inv in E1. destruct E1 as [v1 [_ ->]].
    apply upd_inv in E2. destruct E2 as [v2 [_ ->]].
    rewrite !lookup_insert_ne by congruence. reflexivity.
Qed.

Lemma clip_edge_skip (vrt : list (vec3 F)) (e : Z * Z) (vs : gmap Z (VERT F)) (vn : Z)
      (v0 v1 : VERT F) :
  tag_order ->
  vs !! fst e = Some v0 -> vs !! snd e = Some v1 ->
  pos_W F v0 = r_mone F \/ pos_W F v0 = r_zero F ->
  pos_W F v1 = r_mone F \/ pos_W F v1 = r_zero F ->
  clip_edge vrt e (vs, vn) = Some (vs, vn, None).
Proof.
  intros [L1 [L2 _]] H0 H1 T0 T1. unfold Tiling.clip_edge.
  rewrite H0. cbn [mbind option_bind]. rewrite H1. cbn [mbind option_bind fst snd].
  assert (E0 : r_leb F (pos_W F v0) (r_zero F) = true) by (destruct T0 as [-> | ->]; assumption).
  assert (E1 : r_leb F (pos_W F v1) (r_zero F) = true) by (destruct T1 as [-> | ->]; assumption).
  rewrite E0, E1. reflexivity.
Qed.

(** The vertex synthesized on an edge from the behind end at [pi] to
    the front end at [pj]. *)
Definition clipped (pi pj : vec3 F) (zi zj : real F) (v : VERT F) : VERT F :=
  let c := crossing F org pi pj zi zj in
  set_Y F (RT_VECTOR_DOT F c vtl) (set_X F (RT_VECTOR_DOT F c htl) v).

Lemma clip_edge_first (vrt : list (vec3 F)) (e : Z * Z) (vs : gmap Z (VERT F)) (vn : Z)
      (v0 v1 vnew : VERT F) (p0 p1 : vec3 F) :
  tag_order ->
  vs !! fst e = Some v0 -> vs !! snd e = Some v1 ->
  pos_W F v0 = r_mone F -> pos_W F v1 = r_one F ->
  vrt_at F vrt (fst e) = Some p0 -> vrt_at F vrt (snd e) = Some p1 ->
  vs !! vn = Some vnew ->
  clip_edge vrt e (vs, vn) =
  Some (<[vn := clipped p0 p1 (pos_Z F v0) (pos_Z F v1) vnew]> vs, vn + 1, Some (vn, snd e)).
Proof.
  intros [L1 [L2 [L3 [L4 L5]]]] H0 H1 T0 T1 P0 P1 Hn. unfold Tiling.clip_edge.
  rewrite H0. cbn [mbind option_bind]. rewrite H1. cbn [mbind option_bind fst snd].
  rewrite T0, T1, L1, L4. cbn [andb].
  unfold Tiling.clip_end at 2. cbn [Z.eqb fst snd]. rewrite L5.
  unfold Tiling.sel. change (1 - 0) with 1. change (1 - 1) with 0. cbn [Z.eqb fst snd]. rewrite P0, P1.
  cbn [mbind option_bind].
  rewrite (upd_some _ _ _ vnew Hn). cbn [mbind option_bind].
  erewrite upd_some by apply lookup_insert_eq. cbn [mbind option_bind].
  unfold Tiling.clip_end. cbn [Z.eqb fst snd]. rewrite L3.
  rewrite insert_insert_eq. unfold set_sel. cbn [Z.eqb fst snd]. reflexivity.
Qed.

Lemma clip_edge_second (vrt : list (vec3 F)) (e : Z * Z) (vs : gmap Z (VERT F)) (vn : Z)
      (v0 v1 vnew : VERT F) (p0 p1 : vec3 F) :
  tag_order ->
  vs !! fst e = Some v0 -> vs !! snd e = Some v1 ->
  pos_W F v0 = r_one F -> pos_W F v1 = r_mone F ->
  vrt_at F vrt (fst e) = Some p0 -> vrt_at F vrt (snd e) = Some p1 ->
  vs !! vn = Some vnew ->
  clip_edge vrt e (vs, vn) =
  Some (<[vn := clipped p1 p0 (pos_Z F v1) (pos_Z F v0) vnew]> vs, vn + 1, Some (fst e, vn)).
Proof.
  intros [L1 [L2 [L3 [L4 L5]]]] H0 H1 T0 T1 P0 P1 Hn. unfold Tiling.clip_edge.
  rewrite H0. cbn [mbind option_bind]. rewrite H1. cbn [mbind option_bind fst snd].
  rewrite T0, T1, L4. cbn [andb].
  unfold Tiling.clip_end at 2. cbn [Z.eqb fst snd]. rewrite L3.
  cbn [mbind option_bind].
  unfold Tiling.clip_end. cbn [Z.eqb fst snd]. rewrite L5.
  unfold Tiling.sel. change (1 - 0) with 1. change (1 - 1) with 0. cbn [Z.eqb fst snd]. rewrite P0, P1.
  cbn [mbind option_bind].
  rewrite (upd_some _ _ _ vnew Hn). cbn [mbind option_bind].
  erewrite upd_some by apply lookup_insert_eq. cbn [mbind option_bind].
  rewrite insert_insert_eq. unfold set_sel. cbn [Z.eqb fst snd]. reflexivity.
Qed.

(** The indices an edge hands to [tiling], and what it leaves alone. *)
Lemma clip_edge_inv (vrt : list (vec3 F)) (e : Z * Z) (vs vs' : gmap Z (VERT F))
      (vn vn' : Z) (call : option (Z * Z)) (n : Z) :
  clip_edge vrt e (vs, vn) = Some (vs', vn', call) ->
  n <= vn ->
  vn <= vn'
  /\ (forall x, x < n -> vs' !! x = vs !! x)
  /\ (forall a b, call = Some (a, b) -> fresh_or_front vs n a /\ fresh_or_front vs n b).
Proof.
  unfold Tiling.clip_edge. intros H Hn.
  destruct (vs !! fst e) as [v0|] eqn:H0; [|discriminate]. cbn [mbind option_bind] in H.
  destruct (vs !! snd e) as [v1|] eqn:H1; [|discriminate]. cbn [mbind option_bind fst snd] in H.
  destruct (r_leb F (pos_W F v0) (r_zero F) && r_leb F (pos_W F v1) (r_zero F)).
  { injection H as <- <- <-. split; [lia|]. split; [reflexivity|]. discriminate. }
  match type of H with context [clip_end vrt ?tag ?zed 0 (vs, vn, e)] =>
    destruct (clip_end vrt tag zed 0 (vs, vn, e)) as [[[vs1 vn1] ndx1]|] eqn:E0; [|discriminate]
  end.
  cbn [mbind option_bind] in H.
  match type of H with context [clip_end vrt ?tag ?zed 1 (vs1, vn1, ndx1)] =>
    destruct (clip_end vrt tag zed 1 (vs1, vn1, ndx1)) as [[[vs2 vn2] ndx2]|] eqn:E1; [|discriminate]
  end.
  cbn [mbind option_bind] in H. injection H as <- <- <-.
  apply clip_end_inv in E0. apply clip_end_inv in E1.
  cbn [Z.eqb fst snd] in E0, E1. change (1 =? 0) with false in E1. cbv iota in E1.
  assert (K0 : fresh_or_front vs n (fst ndx1) /\ snd ndx1 = snd e /\ vn <= vn1
               /\ forall x, x < n -> vs1 !! x = vs !! x).
  { destruct E0 as [[T [-> [-> ->]]] | [T [-> [-> Hx]]]].
    - split; [right; exists v0; split; assumption|]. split; [reflexivity|]. split; [lia|]. reflexivity.
    - unfold set_sel. cbn [Z.eqb fst snd]. split; [left; exact Hn|]. split; [reflexivity|].
      split; [lia|]. intros x Hlt. apply Hx. lia. }
  destruct K0 as [A0 [S0 [Hle0 Hx0]]].
  assert (K1 : fresh_or_front vs n (snd ndx2) /\ fst ndx2 = fst ndx1 /\ vn1 <= vn2
               /\ forall x, x < n -> vs2 !! x = vs1 !! x).
  { destruct E1 as [[T [-> [-> ->]]] | [T [-> [-> Hx]]]].
    - split; [right; exists v1; rewrite S0; split; assumption|]. split; [reflexivity|].
      split; [lia|]. reflexivity.
    - unfold set_sel. change (1 =? 0) with false. cbn [fst snd].
      split; [left; lia|]. split; [reflexivity|]. split; [lia|].
      intros x Hlt. apply Hx. lia. }
  destruct K1 as [A1 [S1 [Hle1 Hx1]]].
  split; [lia|]. split.
  - intros x Hlt. rewrite Hx1, Hx0 by exact Hlt. reflexivity.
  - intros a b Hab. injection Hab as ->. cbn [fst snd] in *. rewrite S1.
    split; assumption.
Qed.

Local Abbreviation tiling_at := (Tiling.tiling_at F tiles_in_row tiles_in_col opt_tiling_ext1).
Local Abbreviation tile_edges :=
  (Tiling.tile_edges F tiles_in_row tiles_in_col opt_tiling_ext1 org htl vtl).
Local Abbreviation tile_pairs_from :=
  (Tiling.tile_pairs_from F tiles_in_row tiles_in_col opt_tiling_ext1).
Local Abbreviation tile_pairs := (Tiling.tile_pairs F tiles_in_row tiles_in_col opt_tiling_ext1).
Local Abbreviation project_bbox :=
  (Tiling.project_bbox F tiles_in_row tiles_in_col opt_tiling_ext1 org pos nrm dir htl vtl pov).

Definition calls_ok (vs : gmap Z (VERT F)) (n : Z) (calls : list (Z * Z)) : Prop :=
  Forall (fun c => fresh_or_front vs n (fst c) /\ fresh_or_front vs n (snd c)) calls.

Lemma fresh_or_front_agree (vs vs' : gmap Z (VERT F)) (n x : Z) :
  (forall y, y < n -> vs' !! y = vs !! y) ->
  fresh_or_front vs' n x -> fresh_or_front vs n x.
Proof.
  intros Hag [H | [v [Hv Ht]]]; [left; exact H|].
  destruct (Z_lt_le_dec x n) as [Hlt | Hge]; [|left; exact Hge].
  right. exists v. rewrite <- Hag by exact Hlt. split; assumption.
Qed.

Lemma tile_edges_calls (vrt : list (vec3 F)) (es : list (Z * Z)) (n : Z)
      (vs vs' : gmap Z (VERT F)) (vn vn' : Z) (tb tb' : bounds) (calls calls' : list (Z * Z)) :
  tile_edges vrt es (vs, vn, tb, calls) = Some (vs', vn', tb', calls') ->
  n <= vn -> calls_ok vs n calls ->
  n <= vn' /\ (forall x, x < n -> vs' !! x = vs !! x) /\ calls_ok vs n calls'.
Proof.
  revert vs vn tb calls. induction es as [|e es IH]; intros vs vn tb calls H Hn Hc.
  - cbn [Tiling.tile_edges] in H. injection H as <- <- <- <-.
    split; [exact Hn|]. split; [reflexivity | exact Hc].
  - cbn [Tiling.tile_edges] in H.
    destruct (clip_edge vrt e (vs, vn)) as [[[vs1 vn1] call]|] eqn:E; [|discriminate].
    cbn [mbind option_bind] in H.
    destruct (clip_edge_inv vrt e vs vs1 vn vn1 call n E Hn) as [Hle [Hag Hcall]].
    assert (Hc1 : calls_ok vs1 n calls).
    { unfold calls_ok in *. rewrite Forall_forall in *. intros c Hin.
      destruct (Hc c Hin) as [Ha Hb].
      split; (eapply fresh_or_front_agree; [|eassumption]);
        intros y Hy; symmetry; apply Hag; exact Hy. }
    destruct call as [[a b]|].
    + destruct (tiling_at vs1 a b tb) as [tb1|]; [|discriminate].
      cbn [mbind option_bind] in H.
      destruct (IH vs1 vn1 tb1 (calls ++ [(a, b)]) H) as [Hn' [Hag' Hc']].
      * lia.
      * unfold calls_ok. apply Forall_app. split; [exact Hc1|].
        constructor; [|constructor]. cbn [fst snd].
        destruct (Hcall a b eq_refl) as [Ha Hb].
        split; (eapply fresh_or_front_agree; [|eassumption]);
          intros y Hy; symmetry; apply Hag; exact Hy.
      * split; [exact Hn'|]. split.
        -- intros x Hx. rewrite Hag', Hag by exact Hx. reflexivity.
        -- unfold calls_ok in *. rewrite Forall_forall in *. intros c Hin.
           destruct (Hc' c Hin) as [Ha Hb].
           split; (eapply fresh_or_front_agree; [|eassumption]); exact Hag.
    + destruct (IH vs1 vn1 tb calls H) as [Hn' [Hag' Hc']]; [lia | exact Hc1 |].
      split; [exact Hn'|]. split.
      * intros x Hx. rewrite Hag', Hag by exact Hx. reflexivity.
      * unfold calls_ok in *. rewrite Forall_forall in *. intros c Hin.
        destruct (Hc' c Hin) as [Ha Hb].
        split; (eapply fresh_or_front_agree; [|eassumption]); exact Hag.
Qed.

Lemma tile_pairs_from_calls (cnt : nat) (vs : gmap Z (VERT F)) (n i j : Z)
      (st st' : bounds * list (Z * Z)) :
  tile_pairs_from cnt vs i j st = Some st' ->
  n <= i -> n <= j -> calls_ok vs n (snd st) -> calls_ok vs n (snd st').
Proof.
  revert j st. induction cnt as [|c IH]; intros j st H Hi Hj Hc.
  - cbn [Tiling.tile_pairs_from] in H. injection H as <-. exact Hc.
  - cbn [Tiling.tile_pairs_from] in H.
    destruct (tiling_at vs i j (fst st)) as [tb1|]; [|discriminate].
    cbn [mbind option_bind] in H.
    apply (IH (j + 1) _ H Hi); [lia|]. cbn [snd].
    unfold calls_ok. apply Forall_app. split; [exact Hc|].
    constructor; [|constructor]. cbn [fst snd]. split; left; assumption.
Qed.

Lemma tile_pairs_calls (cnt : nat) (vs : gmap Z (VERT F)) (n vn i : Z)
      (st st' : bounds * list (Z * Z)) :
  tile_pairs cnt vs vn i st = Some st' ->
  n <= i -> calls_ok vs n (snd st) -> calls_ok vs n (snd st').
Proof.
  revert i st. induction cnt as [|c IH]; intros i st H Hi Hc.
  - cbn [Tiling.tile_pairs] in H. injection H as <-. exact Hc.
  - cbn [Tiling.tile_pairs] in H.
    destruct (tile_pairs_from (Z.to_nat (vn - (i + 1))) vs i (i + 1) st) as [st1|] eqn:E;
      [|discriminate].
    cbn [mbind option_bind] in H.
    apply (IH (i + 1) st1 H); [lia|].
    eapply tile_pairs_from_calls; [exact E | lia | lia | exact Hc].
Qed.

Lemma project_vertices_num (vrt : list (vec3 F)) (k : Z) (st st' : gmap Z (VERT F) * Z) :
  Tiling.project_vertices F org pos nrm dir htl vtl pov k vrt st = Some st' -> snd st <= snd st'.
Proof.
  revert k st. induction vrt as [|p vrt IH]; intros k st H.
  - cbn [Tiling.project_vertices] in H. injection H as <-. lia.
  - cbn [Tiling.project_vertices] in H.
    destruct (Tiling.project_vertex F org pos nrm dir htl vtl pov k p st) as [st1|] eqn:E;
      [|discriminate].
    cbn [mbind option_bind] in H. apply IH in H.
    assert (snd st <= snd st1); [|lia].
    clear H. unfold Tiling.project_vertex in E. destruct st as [vs vn].
    repeat match type of E with
           | (match ?x with Some _ => _ | None => _ end) = Some _ =>
             destruct x; [|discriminate]; cbn [mbind option_bind] in E
           | (mbind _ ?x) = Some _ =>
             destruct x; [|discriminate]; cbn [mbind option_bind] in E
           | (if ?b then _ else _) = Some _ => destruct b
           | Some _ = Some _ => injection E as <-; cbn [snd]; lia
           end.
Qed.

(** The synthesized vertex written out: the point on the edge from the
    front end [(xj, yj, zj)] towards the behind end [(xi, yi, zi)] at
    the factor [t = zed_j / (zed_j - zed_i)], taken relative to [org]
    and projected on [htl] and [vtl]. *)
Lemma clipped_interpolates (xi yi zi xj yj zj : real F) (zed_i zed_j : real F) (v : VERT F) :
  clipped (xi, yi, zi) (xj, yj, zj) zed_i zed_j v
  = let t := r_div F zed_j (r_sub F zed_j zed_i) in
    let '(ox, oy, oz) := org in
    let c := (r_add F (r_mul F (r_sub F xi xj) t) (r_sub F xj ox),
              r_add F (r_mul F (r_sub F yi yj) t) (r_sub F yj oy),
              r_add F (r_mul F (r_sub F zi zj) t) (r_sub F zj oz)) in
    mkVERT F (RT_VECTOR_DOT F c htl) (RT_VECTOR_DOT F c vtl) (pos_Z F v) (pos_W F v).
Proof.
  unfold clipped, crossing, vadd, vscale, vsub, set_X, set_Y.
  destruct org as [[ox oy] oz]. reflexivity.
Qed.

(** C7: in [stile],
    - an edge whose two ends are both tagged behind or near the screen
      plane hands nothing to [tiling] and changes nothing;
    - an edge with one end behind and the other in front hands to
      [tiling] the front end and, in place of the behind end, the new
      vertex [verts_num]; with [i] the behind and [j] the front end its
      X and Y are the dot products with [htl] and [vtl] of the point
      [c] whose every coordinate is
      [(p_i - p_j) * t + (p_j - org)] for the factor
      [t = zed_j / (zed_j - zed_i)], in the float operations of the
      code;
    - every index handed to [tiling] for a surface is a vertex that
      [stile] generated or one of the surface's vertices whose tag
      passed [tag >= 0.0f], never one tagged behind. *)
Theorem stile_clipping :
  tag_order ->
  (forall vrt e vs vn v0 v1,
      vs !! fst e = Some v0 -> vs !! snd e = Some v1 ->
      pos_W F v0 = r_mone F \/ pos_W F v0 = r_zero F ->
      pos_W F v1 = r_mone F \/ pos_W F v1 = r_zero F ->
      clip_edge vrt e (vs, vn) = Some (vs, vn, None))
  /\ (forall vrt e vs vn v0 v1 vnew xa ya za xb yb zb,
        vs !! fst e = Some v0 -> vs !! snd e = Some v1 ->
        vrt_at F vrt (fst e) = Some (xa, ya, za) ->
        vrt_at F vrt (snd e) = Some (xb, yb, zb) ->
        vs !! vn = Some vnew ->
        let '(ox, oy, oz) := org in
        (pos_W F v0 = r_mone F -> pos_W F v1 = r_one F ->
         let t := r_div F (pos_Z F v1) (r_sub F (pos_Z F v1) (pos_Z F v0)) in
         let c := (r_add F (r_mul F (r_sub F xa xb) t) (r_sub F xb ox),
                   r_add F (r_mul F (r_sub F ya yb) t) (r_sub F yb oy),
                   r_add F (r_mul F (r_sub F za zb) t) (r_sub F zb oz)) in
         clip_edge vrt e (vs, vn) =
         Some (<[vn := mkVERT F (RT_VECTOR_DOT F c htl) (RT_VECTOR_DOT F c vtl)
                              (pos_Z F vnew) (pos_W F vnew)]> vs,
               vn + 1, Some (vn, snd e)))
        /\ (pos_W F v0 = r_one F -> pos_W F v1 = r_mone F ->
            let t := r_div F (pos_Z F v0) (r_sub F (pos_Z F v0) (pos_Z F v1)) in
            let c := (r_add F (r_mul F (r_sub F xb xa) t) (r_sub F xa ox),
                      r_add F (r_mul F (r_sub F yb ya) t) (r_sub F ya oy),
                      r_add F (r_mul F (r_sub F zb za) t) (r_sub F za oz)) in
            clip_edge vrt e (vs, vn) =
            Some (<[vn := mkVERT F (RT_VECTOR_DOT F c htl) (RT_VECTOR_DOT F c vtl)
                                 (pos_Z F vnew) (pos_W F vnew)]> vs,
                  vn + 1, Some (fst e, vn))))
  /\ (forall sf tb tb' calls,
        project_bbox sf tb = Some (tb', calls) ->
        exists vs vn,
          Tiling.project_vertices F org pos nrm dir htl vtl pov 0 (verts F sf)
            (memset_verts F (2 * Z.of_nat (length (verts F sf)) + Z.of_nat (length (edges F sf))),
             Z.of_nat (length (verts F sf))) = Some (vs, vn)
          /\ (forall a b, In (a, b) calls ->
                (forall x v, x = a \/ x = b -> x < Z.of_nat (length (verts F sf)) ->
                             vs !! x = Some v -> pos_W F v <> r_mone F)
                /\ fresh_or_front vs (Z.of_nat (length (verts F sf))) a
                /\ fresh_or_front vs (Z.of_nat (length (verts F sf))) b)).
Proof.
  intros Hlaws. split; [|split].
  - intros. eapply clip_edge_skip; eassumption.
  - intros vrt e vs vn v0 v1 vnew xa ya za xb yb zb H0 H1 P0 P1 Hn.
    pose proof (clipped_interpolates xa ya za xb yb zb (pos_Z F v0) (pos_Z F v1) vnew) as Ca.
    pose proof (clipped_interpolates xb yb zb xa ya za (pos_Z F v1) (pos_Z F v0) vnew) as Cb.
    destruct org as [[ox oy] oz] eqn:Eorg. cbv zeta in Ca, Cb |- *. split.
    + intros T0 T1. rewrite <- Ca, <- Eorg. eapply clip_edge_first; eassumption.
    + intros T0 T1. rewrite <- Cb, <- Eorg. eapply clip_edge_second; eassumption.
  - intros sf tb tb' calls H. unfold Tiling.project_bbox in H.
    destruct (set_rows (Z.to_nat tiles_in_col) 0 tiles_in_row (-1) tb) as [tb0|]; [|discriminate].
    cbn [mbind option_bind] in H.
    match type of H with context [Tiling.project_vertices F _ _ _ _ _ _ _ 0 _ ?st] =>
      destruct (Tiling.project_vertices F org pos nrm dir htl vtl pov 0 (verts F sf) st)
        as [[vs vn]|] eqn:EV; [|discriminate]
    end.
    cbn [mbind option_bind] in H.
    exists vs, vn. split; [reflexivity|].
    apply project_vertices_num in EV. cbn [snd] in EV.
    destruct (tile_edges (verts F sf) (edges F sf) (vs, vn, tb0, []))
      as [[[[vs1 vn1] tb1] calls1]|] eqn:EE; [|discriminate].
    cbn [mbind option_bind] in H.
    destruct (tile_edges_calls _ _ (Z.of_nat (length (verts F sf))) _ _ _ _ _ _ _ _ EE EV)
      as [Hn1 [Hag Hc1]]; [constructor|].
    assert (Hc : calls_ok vs (Z.of_nat (length (verts F sf))) calls).
    { assert (Hc2 : calls_ok vs1 (Z.of_nat (length (verts F sf))) calls).
      { change calls with (snd (tb', calls)).
        eapply tile_pairs_calls; [exact H | lia |]. cbn [snd].
        unfold calls_ok in *. rewrite Forall_forall in *. intros c Hin.
        destruct (Hc1 c Hin) as [Ha Hb].
        split; (eapply fresh_or_front_agree; [|eassumption]);
          intros y Hy; symmetry; apply Hag; exact Hy. }
      unfold calls_ok in *. rewrite Forall_forall in *. intros c Hin.
      destruct (Hc2 c Hin) as [Ha Hb].
      split; (eapply fresh_or_front_agree; [|eassumption]); exact Hag. }
    intros a b Hin. unfold calls_ok in Hc. rewrite Forall_forall in Hc.
    destruct (Hc (a, b)) as [Ha Hb]; [apply list_elem_of_In; exact Hin|]. cbn [fst snd] in Ha, Hb.
    split; [|split; assumption].
    destruct Hlaws as [_ [_ [_ [_ L5]]]].
    intros x v Hx Hlt Hv Hbehind.
    assert (Hf : fresh_or_front vs (Z.of_nat (length (verts F sf))) x)
      by (destruct Hx as [-> | ->]; assumption).
    destruct Hf as [Hge | [v' [Hv' Ht]]]; [lia|].
    rewrite Hv in Hv'. injection Hv' as <-. rewrite Hbehind, L5 in Ht. discriminate.
Qed.

End Clip.

Definition int_zero3 : vec3 int_float := (0, 0, 0).

(** A triangle with one vertex behind the screen plane [z = 0] of a
    camera at [z = -1] looking along [z], run on the integer
    instance. *)
Definition demo_surface : Surface int_float :=
  mkSurface int_float 64 640 [(1, 1, 2); (3, 1, 2); (2, 2, -2)] [(0, 1); (1, 2); (2, 0)].

Lemma stile_clipping_witness :
  tag_order int_float
  /\ exists tb' calls,
      Tiling.project_bbox int_float 4 4 false (0, 0, 0) (0, 0, -1) (0, 0, 1) (0, 0, 1)
        (1, 0, 0) (0, 1, 0) 1 demo_surface (mkBounds [0; 0; 0; 0] [0; 0; 0; 0])
      = Some (tb', calls)
      /\ calls <> []
      /\ forall a b, In (a, b) calls -> a <> 2 /\ b <> 2.
Proof.
  assert (L : tag_order int_float) by (repeat split; reflexivity).
  split; [exact L|].
  destruct (Tiling.project_bbox int_float 4 4 false (0, 0, 0) (0, 0, -1) (0, 0, 1) (0, 0, 1)
        (1, 0, 0) (0, 1, 0) 1 demo_surface (mkBounds [0; 0; 0; 0] [0; 0; 0; 0]))
    as [[tb' calls]|] eqn:E; [|vm_compute in E; discriminate].
  exists tb', calls. split; [reflexivity|].
  split; [vm_compute in E; injection E as _ <-; discriminate|].
  destruct (stile_clipping int_float 4 4 false (0, 0, 0) (0, 0, -1) (0, 0, 1) (0, 0, 1)
              (1, 0, 0) (0, 1, 0) 1 L) as [_ [_ H]].
  destruct (H demo_surface _ _ _ E) as [vs [vn [EV Hcalls]]].
  intros a b Hin. destruct (Hcalls a b Hin) as [Hraw _].
  vm_compute in EV. injection EV as <- <-.
  split; intros ->; eapply (Hraw 2); try reflexivity; auto; cbn; lia.
Defined.

End ClipSpec.

(** ** stile: the tile list of a surface without bounding-box vertices *)

Module StileSpec.
Import Mem MemFacts ListFacts Tiling TilingSpec.

Section Fill.

Variable F : FloatOps.
Variable sf : Surface F.

(** The tile-list element of the tile in row [i] and column [j]. *)
Definition tile_elem (h : gmap Z ELEM) (a : Z) (t : Z * Z) : Prop :=
  exists e, h !! a = Some e /\ data e = Z.lor (Z.shiftl (fst t) 16) (snd t)
            /\ simd e = s_srf F sf /\ temp e = srf F sf.

(** The list under construction at the variable [c]: its elements [l]
    so far, with [ptr] the place where the next link goes. *)
Definition open_list (s : state) (c : var) (l : list Z) (ptr : loc) : Prop :=
  (l = [] /\ ptr = Slot c /\ is_Some (slots s !! c))
  \/ (exists l' a q, l = l' ++ [a] /\ ptr = NextOf a /\ slots s !! c = Some (hd a l')
                     /\ lseg (elems s) (hd a l') l q /\ ~ In a l').

Definition below_brk (s : state) (l : list Z) : Prop := forall x, In x l -> 0 < x < brk s.

(** One more element at the end of the list under construction. *)
Lemma append_elem (s : state) (c : var) (l : list Z) (ptr : loc) (d sm t : Z) :
  open_list s c l ptr -> below_brk s l -> 0 < brk s ->
  exists s',
    (forall A (k : Z -> M A),
        (elm ← alloc; wr set_data elm d;; wr set_simd elm sm;; wr set_temp elm t;;
         store ptr elm;; k elm) s = k (brk s) s')
    /\ open_list s' c (l ++ [brk s]) (NextOf (brk s))
    /\ below_brk s' (l ++ [brk s])
    /\ brk s' = brk s + sizeof_ELEM
    /\ elems s' !! brk s = Some (mkELEM 0 d sm t)
    /\ (forall x e, In x l -> elems s !! x = Some e ->
          exists e', elems s' !! x = Some e'
                     /\ data e' = data e /\ simd e' = simd e /\ temp e' = temp e).
Proof.
  intros Ho Hb Hbrk.
  assert (Hfresh : ~ In (brk s) l) by (intros Hin; apply Hb in Hin; lia).
  destruct Ho as [[-> [-> Hs]] | [l' [a [q [-> [-> [Hc [Hl Hn]]]]]]]].
  - eexists. split; [|split; [|split; [|split; [|split]]]].
    + intros A k. rewrite new_elem. rewrite bind_unfold.
      rewrite store_slot_eq by exact Hs. cbn [elems slots brk]. reflexivity.
    + right. exists [], (brk s), 0. cbn [app hd elems slots lseg].
      split; [reflexivity|]. split; [reflexivity|]. split; [apply lookup_insert_eq|].
      split; [|intros []]. split; [reflexivity|]. split; [lia|].
      eexists. rewrite lookup_insert_eq. split; reflexivity.
    + intros x [<- | []]. cbn [brk]. unfold sizeof_ELEM. lia.
    + reflexivity.
    + cbn [elems]. apply lookup_insert_eq.
    + intros x e [].
  - assert (Ha : In a (l' ++ [a])) by (apply in_or_app; right; left; reflexivity).
    assert (Hane : a <> brk s) by (intros ->; contradiction).
    destruct (lseg_dom _ _ _ _ a Hl Ha) as [ea Hea].
    eexists. split; [|split; [|split; [|split; [|split]]]].
    + intros A k. rewrite new_elem. rewrite bind_unfold.
      cbn [store]. erewrite wr_eq by (cbn [elems]; rewrite lookup_insert_ne by congruence; exact Hea).
      cbn [elems slots brk]. reflexivity.
    + right. exists (l' ++ [a]), (brk s), 0. cbn [elems slots].
      split; [reflexivity|]. split; [reflexivity|].
      rewrite hd_app_snoc. split; [exact Hc|]. split; [|exact Hfresh].
      apply lseg_app. exists (brk s). split.
      * apply lseg_set_last with (q := q); [|exact Hn|].
        -- apply lseg_insert_notin; [exact Hfresh | exact Hl].
        -- rewrite lookup_insert_ne by congruence. exact Hea.
      * cbn [lseg]. split; [reflexivity|]. split; [lia|].
        eexists. rewrite lookup_insert_ne by congruence. rewrite lookup_insert_eq.
        split; reflexivity.
    + intros x Hx. cbn [brk]. unfold sizeof_ELEM.
      apply in_app_or in Hx. destruct Hx as [Hx | [<- | []]]; [apply Hb in Hx; lia | lia].
    + reflexivity.
    + cbn [elems]. rewrite lookup_insert_ne by congruence. apply lookup_insert_eq.
    + intros x e Hx He. cbn [elems].
      destruct (decide (x = a)) as [-> | Hxa].
      * rewrite lookup_insert_eq. eexists. split; [reflexivity|].
        rewrite Hea in He. injection He as <-. repeat split; reflexivity.
      * rewrite lookup_insert_ne by congruence.
        rewrite lookup_insert_ne by (intros <-; contradiction).
        exists e. repeat split; try reflexivity. exact He.
Qed.

Variable tiles_in_row tiles_in_col : Z.
Variable c : var.

Lemma tile_elems_keep (h h' : gmap Z ELEM) (l : list Z) (ts : list (Z * Z)) :
  (forall x e, In x l -> h !! x = Some e ->
     exists e', h' !! x = Some e' /\ data e' = data e /\ simd e' = simd e /\ temp e' = temp e) ->
  Forall2 (tile_elem h) l ts -> Forall2 (tile_elem h') l ts.
Proof.
  intros Hk H. induction H as [|a t l ts Ha H IH]; [constructor|].
  constructor.
  - destruct Ha as [e [He [Hd [Hs Ht]]]].
    destruct (Hk a e (or_introl eq_refl) He) as [e' [He' [Hd' [Hs' Ht']]]].
    exists e'. split; [exact He'|]. rewrite Hd', Hs', Ht'. repeat split; assumption.
  - apply IH. intros x e Hx. apply Hk. right. exact Hx.
Qed.

Lemma fill_row_spec (cnt : nat) (i j : Z) (s : state) (l : list Z) (ts : list (Z * Z))
      (ptr : loc) :
  open_list s c l ptr -> below_brk s l -> 0 < brk s ->
  Forall2 (tile_elem (elems s)) l ts ->
  exists s' l' ptr',
    fill_row F cnt sf i j ptr s = Ok ptr' s'
    /\ open_list s' c l' ptr' /\ below_brk s' l' /\ 0 < brk s'
    /\ Forall2 (tile_elem (elems s')) l'
               (ts ++ map (fun j' => (i, j')) (seqZ j (Z.of_nat cnt))).
Proof.
  revert j s l ts ptr. induction cnt as [|n IH]; intros j s l ts ptr Ho Hb Hbrk Hc.
  - exists s, l, ptr. split; [reflexivity|]. split; [exact Ho|]. split; [exact Hb|].
    split; [exact Hbrk|].
    cbn [Z.of_nat]. rewrite seqZ_nil by lia. cbn [map]. rewrite app_nil_r. exact Hc.
  - cbn [fill_row].
    destruct (append_elem s c l ptr (Z.lor (Z.shiftl i 16) j) (s_srf F sf) (srf F sf) Ho Hb Hbrk)
      as [s1 [Hrun [Ho1 [Hb1 [Hbrk1 [Hnew Hkeep]]]]]].
    rewrite Hrun.
    destruct (IH (j + 1) s1 (l ++ [brk s]) (ts ++ [(i, j)]) (NextOf (brk s)) Ho1 Hb1)
      as [s' [l' [ptr' [E [Ho' [Hb' [Hbrk' Hc']]]]]]].
    + unfold sizeof_ELEM in Hbrk1. lia.
    + apply Forall2_app.
      * eapply tile_elems_keep; [exact Hkeep | exact Hc].
      * constructor; [|constructor]. eexists. split; [exact Hnew|]. repeat split; reflexivity.
    + exists s', l', ptr'. split; [exact E|]. split; [exact Ho'|]. split; [exact Hb'|].
      split; [exact Hbrk'|].
      rewrite seqZ_cons by lia. cbn [map].
      replace (Z.succ j) with (j + 1) by lia.
      replace (Z.pred (Z.of_nat (S n))) with (Z.of_nat n) by lia.
      rewrite <- app_assoc in Hc'. exact Hc'.
Qed.

(** The tiles of the grid in row-major order: rows [0 .. tiles_in_col-1],
    in each the columns [0 .. tiles_in_row-1]. *)
Definition all_tiles : list (Z * Z) :=
  flat_map (fun i => map (fun j => (i, j)) (seqZ 0 tiles_in_row)) (seqZ 0 tiles_in_col).

Lemma get_replicate (n : nat) (v i : Z) :
  0 <= i < Z.of_nat n -> get (replicate n v) i = Some v.
Proof.
  intros Hi. unfold get. destruct (i <? 0) eqn:E; [lia|].
  apply lookup_replicate. split; [reflexivity | lia].
Qed.

Lemma fill_rows_spec (cnt : nat) (i : Z) (n : nat) (s : state) (l : list Z)
      (ts : list (Z * Z)) (ptr : loc) :
  0 <= i -> i + Z.of_nat cnt <= Z.of_nat n -> 0 <= tiles_in_row ->
  open_list s c l ptr -> below_brk s l -> 0 < brk s ->
  Forall2 (tile_elem (elems s)) l ts ->
  exists s' l' ptr',
    fill_rows F cnt sf i (mkBounds (replicate n 0) (replicate n (tiles_in_row - 1))) ptr s
    = Ok ptr' s'
    /\ open_list s' c l' ptr' /\ below_brk s' l' /\ 0 < brk s'
    /\ Forall2 (tile_elem (elems s')) l'
               (ts ++ flat_map (fun i' => map (fun j => (i', j)) (seqZ 0 tiles_in_row))
                               (seqZ i (Z.of_nat cnt))).
Proof.
  revert i s l ts ptr. induction cnt as [|m IH]; intros i s l ts ptr Hi Hn Hrow Ho Hb Hbrk Hc.
  - exists s, l, ptr. split; [reflexivity|]. split; [exact Ho|]. split; [exact Hb|].
    split; [exact Hbrk|].
    change (Z.of_nat 0) with 0. rewrite (seqZ_nil i 0) by lia. cbn [flat_map]. rewrite app_nil_r. exact Hc.
  - cbn [fill_rows txmin txmax].
    assert (Hin : 0 <= i < Z.of_nat n) by lia.
    rewrite bind_unfold. unfold lift at 1. rewrite (get_replicate n 0 i Hin).
    rewrite bind_unfold. unfold lift at 1. rewrite (get_replicate n (tiles_in_row - 1) i Hin).
    rewrite bind_unfold.
    destruct (fill_row_spec (Z.to_nat (tiles_in_row - 1 - 0 + 1)) i 0 s l ts ptr Ho Hb Hbrk Hc)
      as [s1 [l1 [ptr1 [E1 [Ho1 [Hb1 [Hbrk1 Hc1]]]]]]].
    rewrite E1.
    destruct (IH (i + 1) s1 l1 _ ptr1 ltac:(lia) ltac:(lia) Hrow Ho1 Hb1 Hbrk1 Hc1)
      as [s' [l' [ptr' [E [Ho' [Hb' [Hbrk' Hc']]]]]]].
    exists s', l', ptr'. split; [exact E|]. split; [exact Ho'|]. split; [exact Hb'|].
    split; [exact Hbrk'|].
    rewrite (seqZ_cons i) by lia. cbn [flat_map].
    replace (Z.succ i) with (i + 1) by lia.
    replace (Z.pred (Z.of_nat (S m))) with (Z.of_nat m) by lia.
    replace (Z.of_nat (Z.to_nat (tiles_in_row - 1 - 0 + 1))) with tiles_in_row in Hc' by lia.
    rewrite <- app_assoc in Hc'. exact Hc'.
Qed.

End Fill.

Section Stile.

Variable F : FloatOps.
Variable tiles_in_row tiles_in_col : Z.
Variable opt_tiling_ext1 : bool.
Variable org pos nrm dir htl vtl : vec3 F.
Variable pov : real F.

Local Abbreviation stile :=
  (Tiling.stile F tiles_in_row tiles_in_col opt_tiling_ext1 org pos nrm dir htl vtl pov true).

(** C5: with tiling on, [stile] for a surface without bounding-box
    vertices sets the column interval of every row to
    [0, tiles_in_row - 1] and leaves at [msc_p[0]] a null-terminated
    list with exactly one element per tile of the grid, in row-major
    order, each holding the packed row and column, the surface's
    descriptor and the surface. *)
Theorem stile_no_vertices (sf : Surface F) (tb : bounds) (s : state) :
  verts F sf = [] ->
  0 <= tiles_in_row -> 0 <= tiles_in_col ->
  rows_ok tiles_in_col tb ->
  is_Some (slots s !! MscP (srf F sf) 0) -> 0 < brk s ->
  exists s' l,
    stile sf tb s =
    Ok (mkBounds (replicate (Z.to_nat tiles_in_col) 0)
                 (replicate (Z.to_nat tiles_in_col) (tiles_in_row - 1))) s'
    /\ slots s' !! MscP (srf F sf) 0 = Some (hd 0 l)
    /\ lseg (elems s') (hd 0 l) l 0
    /\ Forall2 (tile_elem F sf (elems s')) l (all_tiles tiles_in_row tiles_in_col).
Proof.
  intros Hv Hrow Hcol [L1 L2] Hslot Hbrk.
  unfold Tiling.stile. rewrite Hv.
  change (negb (Z.of_nat (length (@nil (vec3 F))) =? 0)) with false. cbv iota.
  rewrite bind_unfold. rewrite store_slot_eq by exact Hslot.
  change (negb true) with false. cbv iota. rewrite bind_unfold.
  destruct (set_rows_spec (Z.to_nat tiles_in_col) 0 0 (tiles_in_row - 1) tb)
    as [tb' [E [E1 E2]]]; [lia | lia | congruence |].
  change (Z.to_nat 0) with 0%nat in E1, E2. rewrite take_0 in E1, E2. cbn [app] in E1, E2.
  unfold mark_all. rewrite E. unfold lift at 1.
  assert (Etb : tb' = mkBounds (replicate (Z.to_nat tiles_in_col) 0)
                               (replicate (Z.to_nat tiles_in_col) (tiles_in_row - 1))).
  { destruct tb'. cbn [txmin txmax] in E1, E2. subst. reflexivity. }
  rewrite Etb. clear E E1 E2 Etb tb'.
  set (s1 := mkState (elems s) (<[MscP (srf F sf) 0 := 0]> (slots s)) (brk s)).
  destruct (fill_rows_spec F sf tiles_in_row (MscP (srf F sf) 0) (Z.to_nat tiles_in_col) 0
              (Z.to_nat tiles_in_col) s1 [] [] (Slot (MscP (srf F sf) 0)))
    as [s2 [l [ptr [E [Ho [Hb [Hbrk2 Hc]]]]]]].
  - lia.
  - lia.
  - exact Hrow.
  - left. split; [reflexivity|]. split; [reflexivity|].
    cbn [s1 slots]. rewrite lookup_insert_eq. eexists. reflexivity.
  - intros x [].
  - exact Hbrk.
  - constructor.
  - rewrite bind_unfold, E. cbn [app] in Hc.
    replace (Z.of_nat (Z.to_nat tiles_in_col)) with tiles_in_col in Hc by lia.
    fold (all_tiles tiles_in_row tiles_in_col) in Hc.
    destruct Ho as [[-> [-> Hs]] | [l' [a [q [-> [-> [Hhd [Hl Hn]]]]]]]].
    + rewrite bind_unfold. rewrite store_slot_eq by exact Hs.
      eexists. exists []. split; [reflexivity|]. cbn [slots elems hd lseg].
      split; [apply lookup_insert_eq|]. split; [reflexivity|]. exact Hc.
    + assert (Ha : In a (l' ++ [a])) by (apply in_or_app; right; left; reflexivity).
      destruct (lseg_dom _ _ _ _ a Hl Ha) as [ea Hea].
      rewrite bind_unfold. cbn [store]. rewrite (wr_eq _ _ _ _ ea Hea).
      eexists. exists (l' ++ [a]). split; [reflexivity|]. cbn [slots elems].
      rewrite hd_app_snoc. split; [exact Hhd|]. split.
      * eapply lseg_set_last; eassumption.
      * eapply tile_elems_keep; [|exact Hc].
        intros x e Hx He. destruct (decide (x = a)) as [-> | Hxa].
        -- rewrite lookup_insert_eq. eexists. split; [reflexivity|].
           rewrite Hea in He. injection He as <-. repeat split; reflexivity.
        -- rewrite lookup_insert_ne by congruence. exists e. repeat split; try reflexivity.
           exact He.
Qed.

End Stile.

Lemma stile_no_vertices_witness :
  let sf := mkSurface int_float 64 640 [] [] in
  let s := mkState ∅ {[ MscP 64 0 := 0 ]} 4096 in
  let tb := mkBounds [7; 7] [7; 7] in
  exists s' l,
    Tiling.stile int_float 3 2 false (0, 0, 0) (0, 0, 0) (0, 0, 0) (0, 0, 0) (0, 0, 0) (0, 0, 0)
                 1 true sf tb s
    = Ok (mkBounds (replicate (Z.to_nat 2) 0) (replicate (Z.to_nat 2) (3 - 1))) s'
    /\ slots s' !! MscP (srf int_float sf) 0 = Some (hd 0 l)
    /\ lseg (elems s') (hd 0 l) l 0
    /\ Forall2 (tile_elem int_float sf (elems s')) l (all_tiles 3 2).
Proof.
  intros sf s tb.
  apply (stile_no_vertices int_float 3 2 false (0, 0, 0) (0, 0, 0) (0, 0, 0) (0, 0, 0)
           (0, 0, 0) (0, 0, 0) 1 sf tb s).
  - reflexivity.
  - lia.
  - lia.
  - split; reflexivity.
  - exists 0. reflexivity.
  - cbn. lia.
Defined.

End StileSpec.

(** ** insert: the advance phase of the sort *)

Module SortSpec.
Import Mem Engine MemFacts ListFacts.

(** A field of the element at [a], 0 when there is none. *)
Definition fld (f : ELEM -> Z) (h : gmap Z ELEM) (a : Z) : Z :=
  match h !! a with Some e => f e | None => 0 end.

(** The value stored at a location, when it can be read. *)
Definition hval (s : state) (p : loc) : option Z :=
  match load p s with Ok v _ => Some v | _ => None end.

(** The location [p] is readable and no field of an element of [l]. *)
Definition outside (s : state) (p : loc) (l : list Z) : Prop :=
  match p with
  | Slot c => is_Some (slots s !! c)
  | NextOf a | DataOf a | SimdOf a => ~ In a l /\ is_Some (elems s !! a)
  end.

(** Two stores agree on everything a list of [l] is made of, and on
    the [temp] of every element. *)
Definition same_temps (h h' : gmap Z ELEM) : Prop :=
  forall a, fld temp h' a = fld temp h a.

Lemma lseg_NoDup (h : gmap Z ELEM) (p : Z) (l : list Z) : lseg h p l 0 -> List.NoDup l.
Proof.
  revert p. induction l as [|a l IH]; intros p H; [constructor|].
  cbn [lseg] in H. destruct H as [-> [Ha [e [He H]]]].
  constructor; [|eapply IH; exact H].
  intros Hin. apply in_split in Hin. destruct Hin as [l1 [l2 ->]].
  assert (H1 : lseg h a (a :: l2) 0).
  { apply lseg_app in H. destruct H as [m [_ H2]].
    cbn [lseg] in H2. destruct H2 as [-> H2]. cbn [lseg]. split; [reflexivity|]. exact H2. }
  assert (H2 : lseg h a (a :: l1 ++ a :: l2) 0).
  { cbn [lseg]. split; [reflexivity|]. split; [exact Ha|]. exists e. split; assumption. }
  pose proof (lseg_functional h a _ _ H1 H2) as Heq.
  apply (f_equal (@length Z)) in Heq. cbn [length] in Heq.
  rewrite length_app in Heq. cbn [length] in Heq. lia.
Qed.

Definition dom_kept (h h' : gmap Z ELEM) : Prop :=
  forall a, is_Some (h !! a) -> is_Some (h' !! a).

Lemma dom_kept_refl (h : gmap Z ELEM) : dom_kept h h.
Proof. intros a H. exact H. Qed.

Lemma dom_kept_trans (h1 h2 h3 : gmap Z ELEM) :
  dom_kept h1 h2 -> dom_kept h2 h3 -> dom_kept h1 h3.
Proof. intros H1 H2 a H. apply H2, H1, H. Qed.

Lemma dom_kept_insert (h : gmap Z ELEM) (a : Z) (e : ELEM) : dom_kept h (<[a := e]> h).
Proof.
  intros b H. destruct (decide (a = b)) as [->|Hne].
  - rewrite lookup_insert_eq. eexists. reflexivity.
  - rewrite lookup_insert_ne by exact Hne. exact H.
Qed.

Lemma store_field_outside (s : state) (l : list Z) (a v : Z) (e : ELEM)
      (g : ELEM -> Z) (f : Z -> ELEM -> ELEM) :
  (forall x y, g (f x y) = x) -> (forall x y, temp (f x y) = temp y) ->
  ~ In a l -> elems s !! a = Some e ->
  exists s1, wr f a v s = Ok tt s1
             /\ rd g a s1 = Ok v s1
             /\ (forall b, In b l -> elems s1 !! b = elems s !! b)
             /\ same_temps (elems s) (elems s1)
             /\ is_Some (elems s1 !! a)
             /\ brk s1 = brk s /\ slots s1 = slots s
             /\ dom_kept (elems s) (elems s1).
Proof.
  intros Hg Ht Hn He. rewrite (wr_eq _ _ _ _ e He). eexists. split; [reflexivity|].
  split.
  { erewrite rd_eq by (simpl; apply lookup_insert_eq). rewrite Hg. reflexivity. }
  simpl. split.
  { intros b Hb. rewrite lookup_insert_ne; [reflexivity|]. intros ->. contradiction. }
  split.
  { intros b. unfold fld. destruct (decide (a = b)) as [->|Hne].
    - rewrite lookup_insert_eq, He. apply Ht.
    - rewrite lookup_insert_ne by exact Hne. reflexivity. }
  split; [rewrite lookup_insert_eq; eexists; reflexivity|].
  split; [reflexivity|]. split; [reflexivity|]. apply dom_kept_insert.
Qed.

Lemma store_outside (s : state) (p : loc) (l : list Z) (v : Z) :
  outside s p l ->
  exists s1, store p v s = Ok tt s1
             /\ hval s1 p = Some v
             /\ (forall a, In a l -> elems s1 !! a = elems s !! a)
             /\ same_temps (elems s) (elems s1)
             /\ (forall l', outside s p l' -> outside s1 p l')
             /\ brk s1 = brk s
             /\ dom_kept (elems s) (elems s1).
Proof.
  destruct p as [c | a | a | a]; simpl.
  - intros [w Hw]. rewrite Hw. eexists. split; [reflexivity|].
    unfold hval. simpl. rewrite lookup_insert_eq.
    split; [reflexivity|]. split; [reflexivity|]. split; [intros a; reflexivity|].
    split; [|split; [reflexivity | apply dom_kept_refl]]. intros l' _. eexists. reflexivity.
  - intros [Hn [e He]].
    destruct (store_field_outside s l a v e next set_next) as [s1 [E [R [Hl [Ht [Hs [Hb [_ Hd]]]]]]]];
      try assumption; try reflexivity.
    exists s1. split; [exact E|]. unfold hval. simpl. rewrite R.
    repeat split; try assumption. apply H.
  - intros [Hn [e He]].
    destruct (store_field_outside s l a v e data set_data) as [s1 [E [R [Hl [Ht [Hs [Hb [_ Hd]]]]]]]];
      try assumption; try reflexivity.
    exists s1. split; [exact E|]. unfold hval. simpl. rewrite R.
    repeat split; try assumption. apply H.
  - intros [Hn [e He]].
    destruct (store_field_outside s l a v e simd set_simd) as [s1 [E [R [Hl [Ht [Hs [Hb [_ Hd]]]]]]]];
      try assumption; try reflexivity.
    exists s1. split; [exact E|]. unfold hval. simpl. rewrite R.
    repeat split; try assumption. apply H.
Qed.

(** A write into an element of the list leaves the location alone. *)
Lemma wr_outside (s : state) (p : loc) (l : list Z) (f : Z -> ELEM -> ELEM) (a v : Z) (e : ELEM) :
  outside s p l -> In a l -> elems s !! a = Some e ->
  let s1 := mkState (<[a := f v e]> (elems s)) (slots s) (brk s) in
  hval s1 p = hval s p /\ outside s1 p l.
Proof.
  intros Ho Ha He s1. unfold hval.
  destruct p as [c | b | b | b]; cbn [outside load] in *.
  - split; [|exact Ho]. subst s1. simpl. destruct (slots s !! c); reflexivity.
  - destruct Ho as [Hn Hs]. assert (a <> b) by (intros ->; contradiction).
    unfold rd. cbn [elems s1]. rewrite lookup_insert_ne by assumption.
    split; [destruct (elems s !! b); reflexivity | split; assumption].
  - destruct Ho as [Hn Hs]. assert (a <> b) by (intros ->; contradiction).
    unfold rd. cbn [elems s1]. rewrite lookup_insert_ne by assumption.
    split; [destruct (elems s !! b); reflexivity | split; assumption].
  - destruct Ho as [Hn Hs]. assert (a <> b) by (intros ->; contradiction).
    unfold rd. cbn [elems s1]. rewrite lookup_insert_ne by assumption.
    split; [destruct (elems s !! b); reflexivity | split; assumption].
Qed.

Lemma hval_load (s : state) (p : loc) (v : Z) : hval s p = Some v -> load p s = Ok v s.
Proof.
  unfold hval. destruct p as [c | a | a | a]; cbn [load]; unfold rd.
  - destruct (slots s !! c); [|discriminate]. intros H. injection H as ->. reflexivity.
  - destruct (elems s !! a); [|discriminate]. intros H. injection H as ->. reflexivity.
  - destruct (elems s !! a); [|discriminate]. intros H. injection H as ->. reflexivity.
  - destruct (elems s !! a); [|discriminate]. intros H. injection H as ->. reflexivity.
Qed.

Lemma outside_readable (s : state) (p : loc) (l : list Z) :
  outside s p l -> exists v, hval s p = Some v.
Proof.
  unfold hval. destruct p as [c | a | a | a]; simpl; unfold rd.
  - intros [v ->]. eexists. reflexivity.
  - intros [_ [e ->]]. eexists. reflexivity.
  - intros [_ [e ->]]. eexists. reflexivity.
  - intros [_ [e ->]]. eexists. reflexivity.
Qed.

Lemma same_temps_refl (h : gmap Z ELEM) : same_temps h h.
Proof. intros a. reflexivity. Qed.

Lemma same_temps_trans (h1 h2 h3 : gmap Z ELEM) :
  same_temps h1 h2 -> same_temps h2 h3 -> same_temps h1 h3.
Proof. intros H1 H2 a. rewrite H2. apply H1. Qed.

Lemma same_temps_insert (h : gmap Z ELEM) (a : Z) (e e' : ELEM) :
  h !! a = Some e -> temp e' = temp e -> same_temps h (<[a := e']> h).
Proof.
  intros He Ht b. unfold fld. destruct (decide (a = b)) as [->|Hne].
  - rewrite lookup_insert_eq, He. exact Ht.
  - rewrite lookup_insert_ne by exact Hne. reflexivity.
Qed.

Section Phase1.

Variable bbox_sort : Z -> Z -> Z -> Z.
Variable obj : Z.
Variable ptr : loc.
Variable E : Z.

Local Abbreviation phase1 := (Engine.phase1 bbox_sort).

(** The order value between the new element and the element at [a]. *)
Definition opv (h : gmap Z ELEM) (a : Z) : Z := bbox_sort obj (fld temp h E) (fld temp h a).
(** "do swap" (2) or "neutral" (3): the new element moves past [a]. *)
Definition movable (h : gmap Z ELEM) (a : Z) : bool := (opv h a =? 2) || (opv h a =? 3).
(** The order value left on a moved-past element: "don't swap" after a swap. *)
Definition stored (op : Z) : Z := if op =? 2 then 1 else op.

Lemma order_of_eq (s : state) (a b : Z) (ea eb : ELEM) :
  elems s !! a = Some ea -> elems s !! b = Some eb ->
  order_of bbox_sort obj a b s = Ok (bbox_sort obj (temp ea) (temp eb)) s.
Proof.
  intros Ha Hb. unfold order_of.
  rewrite bind_unfold, (rd_eq _ _ _ _ Ha). rewrite bind_unfold, (rd_eq _ _ _ _ Hb). reflexivity.
Qed.

Lemma phase1_stop (f : nat) (s : state) (prv st n : Z) (eE eN : ELEM) :
  elems s !! E = Some eE -> n <> 0 -> elems s !! n = Some eN ->
  movable (elems s) n = false ->
  phase1 (S f) obj ptr E prv st n s =
  Ok (prv, 0) (mkState (<[E := set_data (opv (elems s) n) eE]> (elems s)) (slots s) (brk s)).
Proof.
  intros HE Hn HN Hm. cbn [Engine.phase1].
  destruct (n =? 0) eqn:E0; [lia|].
  rewrite bind_unfold, (order_of_eq s E n eE eN HE HN).
  unfold movable, opv, fld in Hm. rewrite HE, HN in Hm. rewrite Hm.
  rewrite bind_unfold, (wr_eq _ _ _ _ eE HE).
  unfold opv, fld. rewrite HE, HN. reflexivity.
Qed.

Lemma phase1_move_first (f : nat) (s : state) (st n : Z) (eE eN : ELEM) (L : list Z) :
  elems s !! E = Some eE -> next eE = n -> n <> 0 -> elems s !! n = Some eN -> E <> n ->
  movable (elems s) n = true ->
  In E L -> In n L -> outside s ptr L ->
  exists s1 v0,
    phase1 (S f) obj ptr E 0 st n s = phase1 f obj ptr E n (data eN) (next eN) s1
    /\ elems s1 !! E = Some (set_next (next eN) eE)
    /\ elems s1 !! n = Some (set_next E (set_data (stored (opv (elems s) n)) eN))
    /\ (forall a, In a L -> a <> E -> a <> n -> elems s1 !! a = elems s !! a)
    /\ hval s ptr = Some v0 /\ hval s1 ptr = Some (Z.lor n (tagof v0))
    /\ outside s1 ptr L
    /\ same_temps (elems s) (elems s1)
    /\ brk s1 = brk s
    /\ dom_kept (elems s) (elems s1).
Proof.
  intros HE Hnx Hn HN Hne Hm InE InN Ho.
  cbn [Engine.phase1].
  destruct (n =? 0) eqn:E0; [lia|].
  rewrite bind_unfold, (order_of_eq s E n eE eN HE HN).
  assert (Hop : opv (elems s) n = bbox_sort obj (temp eE) (temp eN)).
  { unfold opv, fld. rewrite HE, HN. reflexivity. }
  unfold movable in Hm. rewrite Hop in Hm. rewrite Hm.
  rewrite bind_unfold, (rd_eq _ _ _ _ HN).
  rewrite bind_unfold, (wr_eq _ _ _ _ eE HE).
  cbn [Z.eqb negb].
  set (s1 := mkState (<[E := set_next (next eN) eE]> (elems s)) (slots s) (brk s)).
  destruct (wr_outside s ptr L set_next E (next eN) eE Ho InE HE) as [Hv1 Ho1]. fold s1 in Hv1, Ho1.
  destruct (outside_readable s ptr L Ho) as [v0 Hv0].
  rewrite bind_unfold. rewrite bind_unfold.
  rewrite (hval_load s1 ptr v0) by (rewrite Hv1; exact Hv0).
  destruct (store_outside s1 ptr L (Z.lor n (tagof v0)) Ho1) as [s2 [Est [Hv2 [Hl2 [Ht2 [Ho2 [Hb2 Hd2]]]]]]].
  rewrite Est.
  assert (HN2 : elems s2 !! n = Some eN).
  { rewrite Hl2 by exact InN. subst s1. simpl. rewrite lookup_insert_ne by exact Hne. exact HN. }
  assert (HE2 : elems s2 !! E = Some (set_next (next eN) eE)).
  { rewrite Hl2 by exact InE. subst s1. simpl. apply lookup_insert_eq. }
  rewrite bind_unfold, (rd_eq _ _ _ _ HN2).
  rewrite bind_unfold, (wr_eq _ _ _ _ eN HN2).
  rewrite bind_unfold. erewrite wr_eq by (simpl; apply lookup_insert_eq).
  simpl. rewrite insert_insert_eq.
  rewrite bind_unfold. erewrite rd_eq
    by (simpl; rewrite lookup_insert_ne by congruence; exact HE2).
  simpl.
  eexists. exists v0. split; [reflexivity|]. simpl.
  split; [rewrite lookup_insert_ne by congruence; exact HE2|].
  split; [rewrite lookup_insert_eq; unfold stored; rewrite Hop; reflexivity|].
  split.
  { intros a Ha HaE HaN. rewrite lookup_insert_ne by congruence. rewrite Hl2 by exact Ha.
    subst s1. simpl. rewrite lookup_insert_ne by congruence. reflexivity. }
  split; [exact Hv0|].
  pose proof (Ho2 L Ho1) as Ho2'.
  destruct (wr_outside s2 ptr L (fun v e => set_next E (set_data v e)) n
              (if bbox_sort obj (temp eE) (temp eN) =? 2 then 1 else bbox_sort obj (temp eE) (temp eN))
              eN Ho2' InN HN2) as [Hv3 Ho3].
  simpl in Hv3, Ho3.
  split; [rewrite Hv3; exact Hv2|]. split; [exact Ho3|].
  split.
  { eapply same_temps_trans; [|apply same_temps_insert with (e := eN); [exact HN2 | reflexivity]].
    eapply same_temps_trans; [|exact Ht2].
    subst s1. simpl. apply same_temps_insert with (e := eE); [exact HE | reflexivity]. }
  split; [exact Hb2|].
  eapply dom_kept_trans; [|apply dom_kept_insert].
  eapply dom_kept_trans; [|exact Hd2]. subst s1. simpl. apply dom_kept_insert.
Qed.

Lemma phase1_move_next (f : nat) (s : state) (prv st n : Z) (eE eN eP : ELEM) (L : list Z) :
  elems s !! E = Some eE -> next eE = n -> n <> 0 -> elems s !! n = Some eN -> E <> n ->
  movable (elems s) n = true ->
  In E L -> In n L -> outside s ptr L ->
  prv <> 0 -> prv <> E -> prv <> n -> elems s !! prv = Some eP -> In prv L ->
  exists s1,
    phase1 (S f) obj ptr E prv st n s = phase1 f obj ptr E n (data eN) (next eN) s1
    /\ elems s1 !! E = Some (set_next (next eN) eE)
    /\ elems s1 !! n = Some (set_next E (set_data (stored (opv (elems s) n)) eN))
    /\ elems s1 !! prv =
       Some (set_next n (set_data (if st =? 0 then bbox_sort obj (temp eP) (temp eN) else st) eP))
    /\ (forall a, a <> E -> a <> n -> a <> prv -> elems s1 !! a = elems s !! a)
    /\ hval s1 ptr = hval s ptr
    /\ outside s1 ptr L
    /\ same_temps (elems s) (elems s1)
    /\ brk s1 = brk s
    /\ dom_kept (elems s) (elems s1).
Proof.
  intros HE Hnx Hn HN Hne Hm InE InN Ho Hp0 HpE HpN HP InP.
  cbn [Engine.phase1].
  destruct (n =? 0) eqn:E0; [lia|].
  rewrite bind_unfold, (order_of_eq s E n eE eN HE HN).
  assert (Hop : opv (elems s) n = bbox_sort obj (temp eE) (temp eN)).
  { unfold opv, fld. rewrite HE, HN. reflexivity. }
  unfold movable in Hm. rewrite Hop in Hm. rewrite Hm.
  rewrite bind_unfold, (rd_eq _ _ _ _ HN).
  rewrite bind_unfold, (wr_eq _ _ _ _ eE HE).
  destruct (prv =? 0) eqn:Ep0; [lia|]. cbn [negb].
  set (s1 := mkState (<[E := set_next (next eN) eE]> (elems s)) (slots s) (brk s)).
  destruct (wr_outside s ptr L set_next E (next eN) eE Ho InE HE) as [Hv1 Ho1]. fold s1 in Hv1, Ho1.
  assert (HP1 : elems s1 !! prv = Some eP).
  { subst s1. simpl. rewrite lookup_insert_ne by congruence. exact HP. }
  assert (HN1 : elems s1 !! n = Some eN).
  { subst s1. simpl. rewrite lookup_insert_ne by congruence. exact HN. }
  set (d := if st =? 0 then bbox_sort obj (temp eP) (temp eN) else st).
  set (s2 := mkState (<[prv := set_data d eP]> (elems s1)) (slots s1) (brk s1)).
  assert (Hd : forall A (k : unit -> M A),
    ((if negb (st =? 0) then wr set_data prv st
      else d0 ← order_of bbox_sort obj prv n; wr set_data prv d0) ≫= k) s1 = k tt s2).
  { intros A k. rewrite bind_unfold. subst d s2. destruct (st =? 0); cbn [negb].
    - rewrite bind_unfold, (order_of_eq s1 prv n eP eN HP1 HN1).
      rewrite (wr_eq _ _ _ _ eP HP1). reflexivity.
    - rewrite (wr_eq _ _ _ _ eP HP1). reflexivity. }
  rewrite bind_unfold. rewrite Hd.
  erewrite wr_eq by (subst s2; simpl; apply lookup_insert_eq).
  subst s2. simpl. rewrite insert_insert_eq.
  rewrite bind_unfold. erewrite rd_eq
    by (simpl; rewrite lookup_insert_ne by congruence; rewrite lookup_insert_ne by congruence; exact HN).
  rewrite bind_unfold. erewrite wr_eq
    by (simpl; rewrite lookup_insert_ne by congruence; rewrite lookup_insert_ne by congruence; exact HN).
  rewrite bind_unfold. erewrite wr_eq by (simpl; apply lookup_insert_eq).
  simpl. rewrite insert_insert_eq.
  rewrite bind_unfold. erewrite rd_eq
    by (simpl; rewrite lookup_insert_ne by congruence; rewrite lookup_insert_ne by congruence;
        apply lookup_insert_eq).
  simpl.
  eexists. split; [reflexivity|]. simpl.
  split; [rewrite lookup_insert_ne by congruence; rewrite lookup_insert_ne by congruence;
          apply lookup_insert_eq|].
  split; [rewrite lookup_insert_eq; unfold stored; rewrite Hop; reflexivity|].
  split; [rewrite lookup_insert_ne by congruence; rewrite lookup_insert_eq; reflexivity|].
  split.
  { intros a HaE HaN HaP. rewrite !lookup_insert_ne by congruence. reflexivity. }
  destruct (wr_outside s1 ptr L (fun v e => set_next n (set_data v e)) prv d eP Ho1 InP HP1)
    as [Hv2 Ho2].
  simpl in Hv2, Ho2.
  match type of Ho2 with outside ?s2 _ _ =>
    destruct (wr_outside s2 ptr L (fun v e => set_next E (set_data v e)) n
                (if bbox_sort obj (temp eE) (temp eN) =? 2 then 1
                 else bbox_sort obj (temp eE) (temp eN)) eN Ho2 InN) as [Hv3 Ho3]
  end.
  { simpl. rewrite lookup_insert_ne by congruence. rewrite lookup_insert_ne by congruence. exact HN. }
  simpl in Hv3, Ho3.
  split; [rewrite Hv3, Hv2, Hv1; reflexivity|]. split; [exact Ho3|].
  split.
  { eapply same_temps_trans; [|apply same_temps_insert with (e := eN); [|reflexivity]].
    2:{ rewrite lookup_insert_ne by congruence. rewrite lookup_insert_ne by congruence. exact HN. }
    eapply same_temps_trans; [|apply same_temps_insert with (e := eP); [|reflexivity]].
    2:{ rewrite lookup_insert_ne by congruence. exact HP. }
    apply same_temps_insert with (e := eE); [exact HE | reflexivity]. }
  split; [reflexivity|].
  eapply dom_kept_trans; [|apply dom_kept_insert].
  eapply dom_kept_trans; [|apply dom_kept_insert]. apply dom_kept_insert.
Qed.

(** The elements the new element moves past, and the rest. *)
Fixpoint advance (h : gmap Z ELEM) (l : list Z) : list Z * list Z :=
  match l with
  | [] => ([], [])
  | a :: l' => if movable h a then (a :: fst (advance h l'), snd (advance h l'))
               else ([], l)
  end.

(** A stored order value is kept when set, computed otherwise. *)
Definition keep (d c : Z) : Z := if d =? 0 then c else d.

Lemma movable_same (h h' : gmap Z ELEM) (a : Z) :
  same_temps h h' -> movable h' a = movable h a.
Proof. intros H. unfold movable, opv. rewrite !H. reflexivity. Qed.

Lemma advance_same (h h' : gmap Z ELEM) (l : list Z) :
  same_temps h h' -> advance h' l = advance h l.
Proof.
  intros H. induction l as [|a l IH]; [reflexivity|].
  cbn [advance]. rewrite (movable_same h h' a H), IH. reflexivity.
Qed.

Lemma advance_app (h : gmap Z ELEM) (l : list Z) :
  l = fst (advance h l) ++ snd (advance h l).
Proof.
  induction l as [|a l IH]; [reflexivity|].
  cbn [advance]. destruct (movable h a); cbn [fst snd app]; [f_equal; exact IH | reflexivity].
Qed.

Lemma fld_eq (f : ELEM -> Z) (h : gmap Z ELEM) (a : Z) (e : ELEM) :
  h !! a = Some e -> fld f h a = f e.
Proof. intros H. unfold fld. rewrite H. reflexivity. Qed.

(** What a run of phase 1 leaves behind, from a state [s] where the
    new element [E] heads the elements [ns] (and, after earlier moves,
    follows [prv]). *)
Definition phase1_post (L ns : list Z) (s : state) (prv st : Z) (s' : state) : Prop :=
  let pre := fst (advance (elems s) ns) in
  let post := snd (advance (elems s) ns) in
  lseg (elems s') (hd E pre) (pre ++ [E]) (hd 0 post)
  /\ lseg (elems s') (hd 0 post) post 0
  /\ fld data (elems s') E
     = match post with m :: _ => opv (elems s) m | [] => fld data (elems s) E end
  /\ (forall i n, pre !! i = Some n ->
        fld data (elems s') n
        = match pre !! S i with
          | Some n' => keep (fld data (elems s) n)
                            (bbox_sort obj (fld temp (elems s) n) (fld temp (elems s) n'))
          | None => stored (opv (elems s) n)
          end)
  /\ (prv <> 0 ->
      fld next (elems s') prv = hd E pre
      /\ fld data (elems s') prv
         = match pre with
           | n1 :: _ => keep st (bbox_sort obj (fld temp (elems s) prv) (fld temp (elems s) n1))
           | [] => fld data (elems s) prv
           end)
  /\ (forall a, In a L -> ~ In a pre -> a <> E -> a <> prv -> elems s' !! a = elems s !! a)
  /\ (exists v0, hval s ptr = Some v0
                 /\ hval s' ptr = match pre with
                                  | n1 :: _ => if prv =? 0 then Some (Z.lor n1 (tagof v0))
                                               else Some v0
                                  | [] => Some v0
                                  end)
  /\ outside s' ptr L
  /\ same_temps (elems s) (elems s')
  /\ dom_kept (elems s) (elems s')
  /\ brk s' = brk s.

Lemma phase1_run (L : list Z) (ns : list Z) :
  forall (s : state) (prv st : Z) (fuel : nat),
    (length ns <= fuel)%nat ->
    lseg (elems s) E (E :: ns) 0 ->
    incl (E :: ns) L ->
    outside s ptr L ->
    (prv = 0 \/ (prv <> 0 /\ In prv L /\ ~ In prv (E :: ns)
                 /\ exists eP, elems s !! prv = Some eP /\ next eP = E)) ->
    exists s' prv' st',
      phase1 fuel obj ptr E prv st (fld next (elems s) E) s = Ok (prv', st') s'
      /\ phase1_post L ns s prv st s'.
Proof.
  induction ns as [|n ns' IH]; intros s prv st fuel Hfuel Hl Hincl Ho Hprv.
  - cbn [lseg] in Hl. destruct Hl as [_ [HE0 [eE [HE HnE]]]].
    rewrite (fld_eq next _ _ _ HE), HnE.
    exists s, prv, st. split; [destruct fuel; reflexivity|].
    unfold phase1_post. cbn [advance fst snd hd app lseg].
    split; [split; [reflexivity|]; split; [exact HE0|]; exists eE; split; assumption|].
    split; [reflexivity|]. split; [reflexivity|].
    split; [intros i n Hi; rewrite lookup_nil in Hi; discriminate|].
    split; [intros Hp; destruct Hprv as [->|[_ [_ [_ [eP [HP HnP]]]]]]; [congruence|];
            rewrite (fld_eq next _ _ _ HP); split; [exact HnP | reflexivity]|].
    split; [reflexivity|].
    destruct (outside_readable s ptr L Ho) as [v0 Hv0].
    split; [exists v0; split; assumption|].
    split; [exact Ho|]. split; [apply same_temps_refl|]. split; [apply dom_kept_refl | reflexivity].
  - pose proof (lseg_NoDup _ _ _ Hl) as Hnd.
    cbn [lseg] in Hl. destruct Hl as [_ [HE0 [eE [HE Hl]]]].
    destruct Hl as [HnE [Hn0 [eN [HN Hl]]]].
    rewrite (fld_eq next _ _ _ HE), HnE.
    assert (HneEn : E <> n).
    { intros ->. inversion Hnd as [|? ? Hnin _]. apply Hnin. left. reflexivity. }
    assert (InE : In E L) by (apply Hincl; left; reflexivity).
    assert (InN : In n L) by (apply Hincl; right; left; reflexivity).
    destruct fuel as [|f]; [cbn [length] in Hfuel; lia|].
    destruct (movable (elems s) n) eqn:Hm.
    + (* the element moves past n *)
      assert (Hstep : exists s1 v0,
        phase1 (S f) obj ptr E prv st n s = phase1 f obj ptr E n (data eN) (next eN) s1
        /\ elems s1 !! E = Some (set_next (next eN) eE)
        /\ elems s1 !! n = Some (set_next E (set_data (stored (opv (elems s) n)) eN))
        /\ (forall eP, prv <> 0 -> elems s !! prv = Some eP ->
              elems s1 !! prv =
              Some (set_next n (set_data (keep st (bbox_sort obj (temp eP) (temp eN))) eP)))
        /\ (forall a, In a L -> a <> E -> a <> n -> a <> prv -> elems s1 !! a = elems s !! a)
        /\ hval s ptr = Some v0
        /\ hval s1 ptr = (if prv =? 0 then Some (Z.lor n (tagof v0)) else Some v0)
        /\ outside s1 ptr L
        /\ same_temps (elems s) (elems s1)
        /\ brk s1 = brk s
        /\ dom_kept (elems s) (elems s1)).
      { destruct Hprv as [-> | [Hp0 [InP [HnP [eP [HP HnxP]]]]]].
        - destruct (phase1_move_first f s st n eE eN L HE HnE Hn0 HN HneEn Hm InE InN Ho)
            as [s1 [v0 [E1 [A1 [A2 [A3 [A4 [A5 [A6 [A7 [A8 A9]]]]]]]]]]].
          exists s1, v0. split; [exact E1|]. split; [exact A1|]. split; [exact A2|].
          split; [intros eP Hp; congruence|].
          split; [intros a Ha HaE HaN _; apply A3; assumption|].
          split; [exact A4|]. split; [exact A5|]. repeat split; assumption.
        - assert (HpE : prv <> E) by (intros ->; apply HnP; left; reflexivity).
          assert (HpN : prv <> n) by (intros ->; apply HnP; right; left; reflexivity).
          destruct (phase1_move_next f s prv st n eE eN eP L HE HnE Hn0 HN HneEn Hm InE InN Ho
                      Hp0 HpE HpN HP InP)
            as [s1 [E1 [A1 [A2 [A3 [A4 [A5 [A6 [A7 [A8 A9]]]]]]]]]].
          destruct (outside_readable s ptr L Ho) as [v0 Hv0].
          exists s1, v0. split; [exact E1|]. split; [exact A1|]. split; [exact A2|].
          split.
          { intros eP' _ HP'. rewrite HP in HP'. injection HP' as <-. exact A3. }
          split; [intros a _ HaE HaN HaP; apply A4; assumption|].
          split; [exact Hv0|].
          destruct (prv =? 0) eqn:Ep; [lia|].
          split; [rewrite A5; exact Hv0|]. repeat split; assumption. }
      destruct Hstep as [s1 [v0 [E1 [A1 [A2 [A3 [A4 [Hv0 [Hv1 [Ho1 [Ht1 [Hb1 Hd1]]]]]]]]]]]].
      assert (HnotE : ~ In E (n :: ns')) by (inversion Hnd; assumption).
      assert (Hnd' : List.NoDup (n :: ns')) by (inversion Hnd; assumption).
      assert (HnotN : ~ In n ns') by (inversion Hnd'; assumption).
      assert (Hns1 : forall a, In a ns' -> elems s1 !! a = elems s !! a).
      { intros a Ha. apply A4.
        - apply Hincl. right. right. exact Ha.
        - intros ->. apply HnotE. right. exact Ha.
        - intros ->. contradiction.
        - destruct Hprv as [-> | [_ [_ [HnP _]]]].
          + intros ->. eapply (lseg_nonzero _ _ _ _ 0 Hl); [exact Ha | reflexivity].
          + intros ->. apply HnP. right. right. exact Ha. }
      destruct (IH s1 n (data eN) f) as [s' [prv' [st' [Erun Hpost]]]].
      * cbn [length] in Hfuel. lia.
      * cbn [lseg]. split; [reflexivity|]. split; [exact HE0|].
        eexists. split; [exact A1|]. cbn [next set_next].
        eapply lseg_frame; [|exact Hl].
        intros a e Ha He. exists e. split; [|reflexivity]. rewrite Hns1 by exact Ha. exact He.
      * intros a [<- | Ha]; [exact InE | apply Hincl; right; right; exact Ha].
      * exact Ho1.
      * right. split; [exact Hn0|]. split; [exact InN|]. split.
        { intros [-> | Ha]; [congruence | contradiction]. }
        eexists. split; [exact A2 | reflexivity].
      * rewrite (fld_eq next _ _ _ A1) in Erun. cbn [next set_next] in Erun.
        exists s', prv', st'. split; [rewrite E1; exact Erun|].
        unfold phase1_post in *. cbn [advance]. rewrite Hm. cbn [fst snd hd app].
        rewrite (advance_same _ _ ns' Ht1) in Hpost.
        set (pre := fst (advance (elems s) ns')) in *.
        set (post := snd (advance (elems s) ns')) in *.
        destruct Hpost as [C1 [C2 [C3 [C4 [C5 [C6 [C7 [C8 [C9 [C10 C11]]]]]]]]]].
        destruct (C5 Hn0) as [C5n C5d].
        assert (Hpre_in : forall a, In a pre -> In a ns').
        { intros a Ha. rewrite (advance_app (elems s) ns'). apply in_or_app. left. exact Ha. }
        assert (HN' : is_Some (elems s' !! n)).
        { apply C10. eexists. exact A2. }
        destruct HN' as [eN' HN'].
        split.
        { cbn [lseg]. split; [reflexivity|]. split; [exact Hn0|].
          exists eN'. split; [exact HN'|].
          rewrite (fld_eq next _ _ _ HN') in C5n. rewrite C5n. exact C1. }
        split; [exact C2|].
        split.
        { rewrite C3. destruct post as [|m post'].
          - rewrite (fld_eq data _ _ _ A1), (fld_eq data _ _ _ HE). reflexivity.
          - unfold opv. rewrite !Ht1. reflexivity. }
        split.
        { intros i a Hi. destruct i as [|i].
          - cbn in Hi. injection Hi as <-.
            rewrite C5d. change ((n :: pre) !! 1%nat) with (pre !! 0%nat).
            destruct pre as [|n1 pre']; cbn.
            + rewrite (fld_eq data _ _ _ A2). reflexivity.
            + rewrite !Ht1. rewrite (fld_eq data _ _ _ HN). reflexivity.
          - change ((n :: pre) !! S i) with (pre !! i) in Hi.
            change ((n :: pre) !! S (S i)) with (pre !! S i).
            rewrite (C4 i a Hi).
            assert (Ha : In a ns').
            { apply Hpre_in. apply list_elem_of_In. eapply list_elem_of_lookup_2. exact Hi. }
            assert (Hda : fld data (elems s1) a = fld data (elems s) a).
            { unfold fld. rewrite (Hns1 a Ha). reflexivity. }
            rewrite Hda. destruct (pre !! S i); unfold opv; rewrite !Ht1; reflexivity. }
        split.
        { intros Hp0. destruct Hprv as [-> | [_ [InP [HnP [eP [HP HnxP]]]]]]; [congruence|].
          assert (Hs'P : elems s' !! prv = elems s1 !! prv).
          { apply C6; [exact InP | | | ].
            - intros Ha. apply HnP. right. right. apply Hpre_in. exact Ha.
            - intros ->. apply HnP. left. reflexivity.
            - intros ->. apply HnP. right. left. reflexivity. }
          rewrite (A3 eP Hp0 HP) in Hs'P.
          rewrite (fld_eq next _ _ _ Hs'P), (fld_eq data _ _ _ Hs'P).
          rewrite (fld_eq temp _ _ _ HP), (fld_eq temp _ _ _ HN).
          split; reflexivity. }
        split.
        { intros a InA HnA HaE HaP.
          assert (HaN : a <> n) by (intros ->; apply HnA; left; reflexivity).
          rewrite C6; [apply A4; assumption | exact InA | | exact HaE | exact HaN].
          intros Ha. apply HnA. right. exact Ha. }
        split.
        { exists v0. split; [exact Hv0|].
          destruct C7 as [v1 [Hv1' Hv']].
          rewrite Hv1 in Hv1'.
          assert (Hv'' : hval s' ptr = Some v1).
          { rewrite Hv'. destruct pre; [reflexivity|].
            destruct (n =? 0) eqn:En; [lia | reflexivity]. }
          rewrite Hv''. destruct (prv =? 0); congruence. }
        split; [exact C8|].
        split; [eapply same_temps_trans; eassumption|].
        split; [eapply dom_kept_trans; eassumption|].
        congruence.
    + (* the element stops in front of n *)
      rewrite (phase1_stop f s prv st n eE eN HE Hn0 HN Hm).
      eexists. exists prv, 0. split; [reflexivity|].
      unfold phase1_post. cbn [advance]. rewrite Hm. cbn [fst snd hd app elems brk].
      assert (HnotE : ~ In E (n :: ns')) by (inversion Hnd; assumption).
      split.
      { cbn [lseg]. split; [reflexivity|]. split; [exact HE0|].
        eexists. rewrite lookup_insert_eq. split; [reflexivity|]. exact HnE. }
      split.
      { apply lseg_insert_notin; [exact HnotE|].
        cbn [lseg]. split; [reflexivity|]. split; [exact Hn0|]. exists eN. split; assumption. }
      split; [unfold fld; rewrite lookup_insert_eq; reflexivity|].
      split; [intros i a Hi; rewrite lookup_nil in Hi; discriminate|].
      split.
      { intros Hp0. destruct Hprv as [-> | [_ [InP [HnP [eP [HP HnxP]]]]]]; [congruence|].
        assert (HpE : E <> prv) by (intros <-; apply HnP; left; reflexivity).
        unfold fld. rewrite lookup_insert_ne by exact HpE. rewrite HP.
        split; [exact HnxP | reflexivity]. }
      split; [intros a _ _ HaE _; rewrite lookup_insert_ne by congruence; reflexivity|].
      destruct (outside_readable s ptr L Ho) as [v0 Hv0].
      destruct (wr_outside s ptr L set_data E (opv (elems s) n) eE Ho InE HE) as [Hv1 Ho1].
      split; [exists v0; split; [exact Hv0 | rewrite Hv1; exact Hv0]|].
      split; [exact Ho1|].
      split; [apply same_temps_insert with (e := eE); [exact HE | reflexivity]|].
      split; [apply dom_kept_insert | reflexivity].
Qed.

End Phase1.

Section Phase1Theorem.

Variable bbox_sort : Z -> Z -> Z -> Z.

Lemma advance_movable (obj E : Z) (h : gmap Z ELEM) (l : list Z) :
  Forall (fun n => opv bbox_sort obj E h n = 2 \/ opv bbox_sort obj E h n = 3)
         (fst (advance bbox_sort obj E h l))
  /\ (forall m rest, snd (advance bbox_sort obj E h l) = m :: rest ->
        opv bbox_sort obj E h m <> 2 /\ opv bbox_sort obj E h m <> 3).
Proof.
  induction l as [|a l [IH1 IH2]]; cbn [advance fst snd].
  - split; [constructor | discriminate].
  - destruct (movable bbox_sort obj E h a) eqn:Hm; cbn [fst snd].
    + split; [|exact IH2]. constructor; [|exact IH1].
      unfold movable in Hm. apply orb_true_iff in Hm. lia.
    + split; [constructor|]. intros m rest H. injection H as <- <-.
      unfold movable in Hm. apply orb_false_iff in Hm. lia.
Qed.

(** C1: the advance phase of [insert].  From a state where the new
    element [E] heads the elements [ns] of the list at [ptr], phase 1
    returns with [E] moved past the longest run [pre] of elements whose
    comparison with [E] gave "do swap" (2) or "neutral" (3), in front
    of the first element [m] whose comparison gave "don't swap" (1) or
    "unsortable" (4); that order value is stored in [E]'s [data].  The
    element moved past last holds 1 after a "do swap" and 3 after a
    "neutral"; one moved past earlier holds its order value against
    its new successor (the one it had stored, or a newly computed one). *)
Theorem phase1_advance (obj : Z) (ptr : loc) (E : Z) (ns : list Z) (s : state)
        (fuel : nat) (v0 : Z) :
  (forall a b, 1 <= bbox_sort obj a b <= 4) ->
  (length ns <= fuel)%nat ->
  lseg (elems s) E (E :: ns) 0 ->
  outside s ptr (E :: ns) ->
  hval s ptr = Some v0 -> untag v0 = E -> Forall aligned ns ->
  exists s' prv' st',
    phase1 bbox_sort fuel obj ptr E 0 0 (fld next (elems s) E) s = Ok (prv', st') s'
    /\ let op := opv bbox_sort obj E (elems s) in
       let pre := fst (advance bbox_sort obj E (elems s) ns) in
       let post := snd (advance bbox_sort obj E (elems s) ns) in
       ns = pre ++ post
       /\ Forall (fun n => op n = 2 \/ op n = 3) pre
       /\ (forall m rest, post = m :: rest ->
             (op m = 1 \/ op m = 4) /\ fld data (elems s') E = op m)
       /\ (post = [] -> fld data (elems s') E = fld data (elems s) E)
       /\ lseg (elems s') (hd E pre) (pre ++ E :: post) 0
       /\ (exists v', hval s' ptr = Some v' /\ untag v' = hd E pre /\ tagof v' = tagof v0)
       /\ (forall i n, pre !! i = Some n ->
             fld data (elems s') n
             = match pre !! S i with
               | Some n' => keep (fld data (elems s) n)
                                 (bbox_sort obj (fld temp (elems s) n) (fld temp (elems s) n'))
               | None => if op n =? 2 then 1 else 3
               end)
       /\ same_temps (elems s) (elems s').
Proof.
  intros Hrange Hfuel Hl Ho Hv0 Hu Hal.
  destruct (phase1_run bbox_sort obj ptr E (E :: ns) ns s 0 0 fuel Hfuel Hl
              (fun a H => H) Ho (or_introl eq_refl))
    as [s' [prv' [st' [Erun Hpost]]]].
  exists s', prv', st'. split; [exact Erun|].
  unfold phase1_post in Hpost. cbv zeta.
  set (pre := fst (advance bbox_sort obj E (elems s) ns)) in *.
  set (post := snd (advance bbox_sort obj E (elems s) ns)) in *.
  destruct Hpost as [C1 [C2 [C3 [C4 [_ [_ [C7 [_ [C9 _]]]]]]]]].
  destruct (advance_movable obj E (elems s) ns) as [M1 M2]. fold pre in M1. fold post in M2.
  assert (Happ : ns = pre ++ post) by apply advance_app.
  split; [exact Happ|]. split; [exact M1|].
  split.
  { intros m rest Hp. destruct (M2 m rest Hp) as [N2 N3].
    split; [|rewrite C3, Hp; reflexivity].
    unfold opv in *. specialize (Hrange (fld temp (elems s) E) (fld temp (elems s) m)). lia. }
  split; [intros Hp; rewrite C3, Hp; reflexivity|].
  split.
  { replace (pre ++ E :: post) with ((pre ++ [E]) ++ post) by (rewrite <- app_assoc; reflexivity).
    apply lseg_app. exists (hd 0 post). split; assumption. }
  split.
  { destruct C7 as [v0' [Hv0' Hv']]. rewrite Hv0 in Hv0'. injection Hv0' as <-.
    destruct pre as [|n1 pre'] eqn:Epre.
    - exists v0. split; [exact Hv'|]. split; [exact Hu | reflexivity].
    - cbn [Z.eqb] in Hv'. exists (Z.lor n1 (tagof v0)). split; [exact Hv'|].
      assert (Han : aligned n1).
      { rewrite Forall_forall in Hal. apply Hal. apply list_elem_of_In. rewrite Happ.
        left. reflexivity. }
      split; [apply untag_lor; exact Han | apply tagof_lor; exact Han]. }
  split; [|exact C9].
  intros i n Hi. rewrite (C4 i n Hi). destruct (pre !! S i); [reflexivity|].
  unfold stored. rewrite Forall_forall in M1.
  assert (Hn : opv bbox_sort obj E (elems s) n = 2 \/ opv bbox_sort obj E (elems s) n = 3).
  { apply M1. eapply list_elem_of_lookup_2. exact Hi. }
  destruct Hn as [-> | ->]; reflexivity.
Qed.

End Phase1Theorem.

(** Three linked elements for the objects 1, 2, 3; the new element (for
    1) swaps with 2 and has to stay in front of 3. *)
Definition chain_state : state :=
  mkState (list_to_map [(16, mkELEM 32 0 0 1); (32, mkELEM 48 0 0 2); (48, mkELEM 0 0 0 3)])
          {[ Local 0 := 16 ]} 64.
Definition chain_sort (obj a b : Z) : Z := if b =? 2 then 2 else 1.

Lemma phase1_advance_witness :
  exists s' prv' st',
    phase1 chain_sort 2 100 (Slot (Local 0)) 16 0 0 (fld next (elems chain_state) 16) chain_state
    = Ok (prv', st') s'
    /\ let op := opv chain_sort 100 16 (elems chain_state) in
       let pre := fst (advance chain_sort 100 16 (elems chain_state) [32; 48]) in
       let post := snd (advance chain_sort 100 16 (elems chain_state) [32; 48]) in
       [32; 48] = pre ++ post
       /\ Forall (fun n => op n = 2 \/ op n = 3) pre
       /\ (forall m rest, post = m :: rest ->
             (op m = 1 \/ op m = 4) /\ fld data (elems s') 16 = op m)
       /\ (post = [] -> fld data (elems s') 16 = fld data (elems chain_state) 16)
       /\ lseg (elems s') (hd 16 pre) (pre ++ 16 :: post) 0
       /\ (exists v', hval s' (Slot (Local 0)) = Some v' /\ untag v' = hd 16 pre
                      /\ tagof v' = tagof 16)
       /\ (forall i n, pre !! i = Some n ->
             fld data (elems s') n
             = match pre !! S i with
               | Some n' => keep (fld data (elems chain_state) n)
                                 (chain_sort 100 (fld temp (elems chain_state) n)
                                             (fld temp (elems chain_state) n'))
               | None => if op n =? 2 then 1 else 3
               end)
       /\ same_temps (elems chain_state) (elems s').
Proof.
  apply (phase1_advance chain_sort 100 (Slot (Local 0)) 16 [32; 48] chain_state 2 16).
  - intros a b. unfold chain_sort. destruct (b =? 2); lia.
  - cbn. lia.
  - cbn [lseg]. split; [reflexivity|]. split; [lia|].
    exists (mkELEM 32 0 0 1). split; [reflexivity|]. cbn [next].
    split; [reflexivity|]. split; [lia|].
    exists (mkELEM 48 0 0 2). split; [reflexivity|]. cbn [next].
    split; [reflexivity|]. split; [lia|].
    exists (mkELEM 0 0 0 3). split; reflexivity.
  - exists 16. reflexivity.
  - reflexivity.
  - reflexivity.
  - repeat constructor.
Defined.

End SortSpec.

(** ** insert: the order of arrival *)

Module StableSpec.
Import Mem Engine MemFacts ListFacts SortSpec.

(** The position of the first [x] in [l]. *)
Fixpoint index_of (x : Z) (l : list Z) : option nat :=
  match l with
  | [] => None
  | a :: l' => if a =? x then Some O else S <$> index_of x l'
  end.

(** [x] comes before [y] in [l]. *)
Definition before (l : list Z) (x y : Z) : Prop :=
  match index_of x l, index_of y l with
  | Some i, Some j => (i < j)%nat
  | _, _ => False
  end.

Definition strict (op : Z) : Prop := op = 1 \/ op = 4.

(** The objects of the list at [ptr], in list order, after the
    candidates [cs] were inserted one by one with the sorting on. *)
Definition final_order (objs : gmap Z Object) (slist : Z) (bbox_sort : Z -> Z -> Z -> Z)
           (fuel : nat) (obj : Z) (ptr : loc) (cs : list Z) (s : state) : option (list Z) :=
  match insert_each objs slist true bbox_sort fuel obj ptr cs s with
  | Ok _ s' => match load ptr s' with
               | Ok v _ => read_temps fuel (elems s') (untag v)
               | _ => None
               end
  | _ => None
  end.

(** Stability: two candidates that compare neutral both ways, with no
    element between them in the final list that is strictly ordered
    against either, are in the final list in the order they arrived in. *)
Definition stable (cmp : Z -> Z -> Z) (arrival final : list Z) : Prop :=
  forall x y, before arrival x y -> cmp x y = 3 -> cmp y x = 3 ->
    (forall z, (before final x z /\ before final z y) \/ (before final y z /\ before final z x) ->
       ~ strict (cmp x z) /\ ~ strict (cmp z x) /\ ~ strict (cmp y z) /\ ~ strict (cmp z y)) ->
    before final x y.

Lemma read_temps_lseg (h : gmap Z ELEM) (l : list Z) :
  forall (p : Z) (fuel : nat),
    lseg h p l 0 -> (length l <= fuel)%nat ->
    read_temps fuel h p = Some (map (fld temp h) l).
Proof.
  induction l as [|a l IH]; intros p fuel H Hf.
  - cbn [lseg] in H. subst p. destruct fuel; reflexivity.
  - cbn [lseg] in H. destruct H as [-> [Ha [e [He H]]]].
    destruct fuel as [|f]; [cbn in Hf; lia|].
    cbn [read_temps]. destruct (a =? 0) eqn:E; [lia|].
    rewrite He. cbn [mbind option_bind]. rewrite (IH (next e) f H) by (cbn in Hf; lia).
    cbn [map]. rewrite (fld_eq temp h a e He). reflexivity.
Qed.

Lemma before_trans (l : list Z) (x y z : Z) : before l x z /\ before l z y -> before l x y.
Proof.
  unfold before. destruct (index_of x l), (index_of z l), (index_of y l); lia.
Qed.

Lemma no_between (l : list Z) (x y z : Z) (i : nat) :
  index_of x l = Some i -> index_of y l = Some (S i) -> ~ (before l x z /\ before l z y).
Proof.
  unfold before. intros -> ->. destruct (index_of z l); lia.
Qed.

Section Arrival.

Variable objs : gmap Z Object.
Variable slist : Z.
Variable bbox_sort : Z -> Z -> Z -> Z.
Variable obj : Z.
Variable c : var.

(** A candidate without a node of its own in the list: no trnode other
    than itself and no bvnode that [insert] takes into account. *)
Definition ungrouped (x : Z) : Prop :=
  x <> 0
  /\ exists o, objs !! x = Some o
               /\ (trnode o = 0 \/ trnode o = x)
               /\ (bvnode o = 0 \/ exists ob, objs !! obj = Some ob /\ RT_IS_SURFACE ob = false).

(** The list [l] at the variable [c] holds elements for [done]. *)
Definition holds (s : state) (l : list Z) (done : list Z) : Prop :=
  slots s !! c = Some (hd 0 l)
  /\ lseg (elems s) (hd 0 l) l 0
  /\ Forall (fun a => aligned a /\ a < brk s) l
  /\ aligned (brk s) /\ 0 < brk s
  /\ map (fld temp (elems s)) l = done.

Lemma nodes_of_ungrouped (x : Z) (s : state) :
  ungrouped x -> nodes_of objs obj x s = Ok (0, 0) s.
Proof.
  intros [Hx [o [Ho [Ht Hb]]]]. unfold nodes_of.
  rewrite bind_unfold. unfold deref at 1. rewrite Ho.
  assert (H0 : (if negb (trnode o =? 0) && negb (trnode o =? x) then trnode o else 0) = 0).
  { destruct Ht as [-> | ->]; [reflexivity|]. rewrite Z.eqb_refl, andb_false_r. reflexivity. }
  rewrite H0. rewrite bind_unfold.
  destruct Hb as [-> | [ob [Hob Hs]]]; [reflexivity|].
  destruct (negb (bvnode o =? 0)); [|reflexivity].
  rewrite bind_unfold. unfold deref. rewrite Hob, ret_unfold, Hs. reflexivity.
Qed.

Lemma advance_all (E : Z) (h : gmap Z ELEM) (l : list Z) :
  Forall (fun n => movable bbox_sort obj E h n = true) l ->
  advance bbox_sort obj E h l = (l, []).
Proof.
  induction 1 as [|a l Ha _ IH]; [reflexivity|].
  cbn [advance]. rewrite Ha, IH. reflexivity.
Qed.

Lemma insert_step (fuel : nat) (x : Z) (s : state) (l done : list Z) :
  holds s l done -> ungrouped x ->
  (forall y, In y done -> bbox_sort obj x y = 2 \/ bbox_sort obj x y = 3) ->
  (length l <= fuel)%nat ->
  exists s', insert objs slist true bbox_sort fuel obj (Slot c) x s = Ok (brk s) s'
             /\ holds s' (l ++ [brk s]) (done ++ [x]).
Proof.
  intros [Hs [Hl [Hal [Hab [Hb0 Hmap]]]]] Hu Hcmp Hfuel.
  pose proof Hu as [Hx _].
  set (E := brk s).
  assert (HEl : ~ In E l).
  { intros Hin. rewrite Forall_forall in Hal. apply list_elem_of_In in Hin.
    apply Hal in Hin. unfold E in Hin. lia. }
  assert (Hh : aligned (hd 0 l)).
  { destruct l as [|a l']; [apply aligned_0|]. inversion Hal as [|? ? [Ha _] _]. exact Ha. }
  unfold insert.
  destruct (x =? 0) eqn:Ex; [lia|].
  rewrite bind_unfold, ret_unfold.
  rewrite new_elem. fold E.
  rewrite bind_unfold, nodes_of_ungrouped by exact Hu.
  cbv beta iota zeta. change (count_nodes (0, 0)) with 0.
  rewrite bind_unfold. change (outer_most objs fuel (0, 0)) with (mret (-1) : M Z).
  rewrite ret_unfold.
  rewrite bind_unfold, (load_slot_eq c _ (hd 0 l)) by exact Hs.
  rewrite bind_unfold.
  assert (Hsn : forall v st, search_nodes fuel (0, 0) 0 0 (-1) (Slot c) v st = Ok (0, -1, Slot c) st).
  { intros v st. destruct fuel; cbn [search_nodes]; rewrite orb_true_r; reflexivity. }
  rewrite Hsn. cbv beta iota zeta.
  change (Z.to_nat (0 - 0)) with 0%nat. cbn [alloc_nodes].
  rewrite bind_unfold, ret_unfold. cbv beta iota zeta.
  rewrite bind_unfold, (load_slot_eq c _ (hd 0 l)) by exact Hs.
  rewrite bind_unfold.
  erewrite wr_eq by (cbn [elems]; apply lookup_insert_eq).
  cbn [elems slots brk]. rewrite insert_insert_eq.
  rewrite bind_unfold, (load_slot_eq c _ (hd 0 l)) by exact Hs.
  rewrite bind_unfold, store_slot_eq by (cbn [slots]; eexists; exact Hs).
  cbn [elems slots brk].
  rewrite bind_unfold, ret_unfold. cbv beta iota zeta.
  rewrite (untag_aligned _ Hh), (tagof_aligned _ Hh), Z.lor_0_r.
  unfold set_next. cbn [next data simd temp].
  set (s2 := mkState _ _ _).
  assert (HE2 : elems s2 !! E = Some (mkELEM (hd 0 l) 0 0 x)) by apply lookup_insert_eq.
  assert (Hl2 : lseg (elems s2) E (E :: l) 0).
  { cbn [lseg]. split; [reflexivity|]. split; [unfold E; lia|].
    eexists. split; [exact HE2|]. cbn [next]. apply lseg_insert_notin; assumption. }
  assert (Hold : forall a, In a l -> fld temp (elems s2) a = fld temp (elems s) a).
  { intros a Ha. unfold fld. cbn [elems s2]. rewrite lookup_insert_ne; [reflexivity|].
    intros <-. contradiction. }
  assert (Hmov : Forall (fun n => movable bbox_sort obj E (elems s2) n = true) l).
  { rewrite Forall_forall. intros n Hn. apply list_elem_of_In in Hn.
    unfold movable, opv. rewrite (fld_eq temp _ _ _ HE2), (Hold n Hn). cbn [temp].
    assert (Hd : In (fld temp (elems s) n) done) by (rewrite <- Hmap; apply in_map; exact Hn).
    destruct (Hcmp _ Hd) as [-> | ->]; reflexivity. }
  destruct (phase1_run bbox_sort obj (Slot c) E (E :: l) l s2 0 0 fuel Hfuel Hl2
              (fun a H => H)) as [s' [prv' [st' [Erun Hpost]]]].
  { cbn [outside slots s2]. rewrite lookup_insert_eq. eexists. reflexivity. }
  { left. reflexivity. }
  unfold phase1_post in Hpost. rewrite (advance_all E _ l Hmov) in Hpost.
  cbn [fst snd hd] in Hpost.
  destruct Hpost as [C1 [_ [C3 [_ [_ [_ [C7 [_ [C9 [C10 C11]]]]]]]]]].
  rewrite (fld_eq data _ _ _ HE2) in C3. cbn [data] in C3.
  assert (HE' : exists e', elems s' !! E = Some e' /\ data e' = 0 /\ next e' = 0).
  { assert (H1 := C1). apply lseg_app in H1. destruct H1 as [m [_ H1]].
    cbn [lseg] in H1. destruct H1 as [_ [_ [e' [He' Hn']]]].
    exists e'. split; [exact He'|]. split; [|exact Hn'].
    rewrite (fld_eq data _ _ _ He') in C3. exact C3. }
  destruct HE' as [e' [He' [Hd' Hn']]].
  exists s'. split.
  - unfold sort. rewrite bind_unfold, (rd_eq next E s2 _ HE2). cbn [next].
    rewrite (fld_eq next _ _ _ HE2) in Erun. cbn [next] in Erun.
    rewrite bind_unfold, Erun. cbv beta iota zeta.
    rewrite bind_unfold.
    assert (Hp2 : phase2 fuel E s' = Ok E s').
    { destruct fuel; cbn [phase2]; rewrite bind_unfold, (rd_eq data E s' e' He'), Hd'; reflexivity. }
    rewrite Hp2.
    rewrite bind_unfold, (rd_eq next E s' e' He'), Hn'.
    rewrite bind_unfold.
    assert (Hp3 : phase3 bbox_sort fuel obj (Slot c) E E prv' st' E 0 s' = Ok E s').
    { destruct fuel; reflexivity. }
    rewrite Hp3.
    rewrite bind_unfold, (rd_eq next E s' e' He'), Hn'.
    rewrite bind_unfold, (rd_eq data E s' e' He'), Hd'.
    reflexivity.
  - unfold holds. rewrite hd_app_snoc.
    split.
    { destruct C7 as [v0 [Hv0 Hv']]. unfold hval in Hv0, Hv'.
      cbn [load slots s2] in Hv0. rewrite lookup_insert_eq in Hv0. injection Hv0 as <-.
      cbn [load] in Hv'. destruct (slots s' !! c) as [w|]; [|destruct l; discriminate].
      destruct l as [|n1 l']; cbn [hd] in *; [congruence|].
      change (0 =? 0) with true in Hv'. cbv iota in Hv'.
      rewrite (tagof_aligned E Hab), Z.lor_0_r in Hv'. congruence. }
    split.
    { replace (hd E l) with (hd 0 (l ++ [E])) at 1 by apply hd_app_snoc.
      rewrite hd_app_snoc. exact C1. }
    rewrite C11. cbn [brk s2]. unfold sizeof_ELEM.
    split.
    { apply Forall_app. split.
      - eapply Forall_impl; [exact Hal|]. intros a [Ha1 Ha2]. split; [exact Ha1 | fold E in Ha2; lia].
      - constructor; [|constructor]. split; [exact Hab | lia]. }
    split; [apply (aligned_add16 E Hab)|]. split; [unfold E; lia|].
    rewrite map_app. cbn [map]. f_equal.
    + rewrite <- Hmap. apply map_ext_in. intros a Ha. rewrite C9. apply Hold. exact Ha.
    + rewrite C9, (fld_eq temp _ _ _ HE2). reflexivity.
Qed.

Fixpoint arrives_ok (done cs : list Z) : Prop :=
  match cs with
  | [] => True
  | y :: cs' => (forall x, In x done -> bbox_sort obj y x = 2 \/ bbox_sort obj y x = 3)
                /\ arrives_ok (done ++ [y]) cs'
  end.

Lemma arrives_ok_pairs (cs : list Z) :
  forall done,
    (forall (i j : nat) x y, (done ++ cs) !! i = Some x -> (done ++ cs) !! j = Some y ->
                             (i < j)%nat -> bbox_sort obj y x = 2 \/ bbox_sort obj y x = 3) ->
    arrives_ok done cs.
Proof.
  induction cs as [|y cs IH]; intros done H; [exact I|].
  cbn [arrives_ok]. split.
  - intros x Hx. apply list_elem_of_In, list_elem_of_lookup_1 in Hx. destruct Hx as [i Hi].
    apply (H i (length done)).
    + rewrite lookup_app_l; [exact Hi|]. eapply lookup_lt_Some. exact Hi.
    + rewrite lookup_app_r by lia. rewrite Nat.sub_diag. reflexivity.
    + eapply lookup_lt_Some. exact Hi.
  - apply IH. intros i j x0 y0. rewrite <- app_assoc. apply H.
Qed.

Lemma insert_each_holds (fuel : nat) (cs : list Z) :
  forall (s : state) (l done : list Z),
    holds s l done -> Forall ungrouped cs -> arrives_ok done cs ->
    (length l + length cs <= fuel)%nat ->
    exists s' l', insert_each objs slist true bbox_sort fuel obj (Slot c) cs s = Ok tt s'
                  /\ holds s' l' (done ++ cs).
Proof.
  induction cs as [|x cs IH]; intros s l done Hh Hu Ha Hf.
  - exists s, l. split; [reflexivity|]. rewrite app_nil_r. exact Hh.
  - inversion Hu as [|? ? Hux Hucs]; subst. destruct Ha as [Hax Hacs].
    cbn [length] in Hf.
    destruct (insert_step fuel x s l done Hh Hux Hax) as [s1 [E1 H1]]; [lia|].
    destruct (IH s1 (l ++ [brk s]) (done ++ [x]) H1 Hucs Hacs) as [s' [l' [E' H']]].
    { rewrite length_app. cbn [length]. lia. }
    exists s', l'. split.
    + cbn [insert_each]. rewrite bind_unfold, E1. exact E'.
    + rewrite <- app_assoc in H'. exact H'.
Qed.

(** Candidates without nodes of their own, inserted one
    by one into the same empty list slot for the same requester with
    the sorting on, come out in their arrival order when every
    candidate's comparison against each candidate that arrived before
    it is "do swap" (2) or "neutral" (3); in particular when all of
    them compare neutral to each other. *)
Theorem insert_arrival_order (fuel : nat) (cs : list Z) (s : state) :
  slots s !! c = Some 0 -> aligned (brk s) -> 0 < brk s ->
  Forall ungrouped cs ->
  (forall (i j : nat) x y, cs !! i = Some x -> cs !! j = Some y -> (i < j)%nat ->
                           bbox_sort obj y x = 2 \/ bbox_sort obj y x = 3) ->
  (length cs <= fuel)%nat ->
  final_order objs slist bbox_sort fuel obj (Slot c) cs s = Some cs.
Proof.
  intros Hs Hab Hb0 Hu Hp Hf.
  assert (Hh : holds s [] []).
  { unfold holds. cbn [hd lseg map]. repeat split; try assumption. constructor. }
  destruct (insert_each_holds fuel cs s [] [] Hh Hu (arrives_ok_pairs cs [] Hp))
    as [s' [l' [E' [Hs' [Hl' [Hal' [_ [_ Hmap']]]]]]]]; [cbn [length]; lia|].
  cbn [app] in Hmap'.
  unfold final_order. rewrite E'. rewrite (load_slot_eq c s' _ Hs').
  assert (Hh' : aligned (hd 0 l')).
  { destruct l' as [|a l'']; [apply aligned_0|]. inversion Hal' as [|? ? [Ha _] _]. exact Ha. }
  rewrite (untag_aligned _ Hh').
  rewrite (read_temps_lseg (elems s') l' (hd 0 l') fuel Hl').
  - rewrite Hmap'. reflexivity.
  - rewrite <- (length_map (fld temp (elems s'))), Hmap'. exact Hf.
Qed.

End Arrival.

(** A camera and five surfaces without nodes. *)
Definition five_objs : gmap Z Object :=
  list_to_map
    [ (100, mkObject CAMERA 0 0 0 0 0);
      (1, mkObject SURFACE 0 0 0 1100 0);
      (2, mkObject SURFACE 0 0 0 1200 0);
      (3, mkObject SURFACE 0 0 0 1300 0);
      (4, mkObject SURFACE 0 0 0 1400 0);
      (5, mkObject SURFACE 0 0 0 1500 0) ].

(** An order of the five surfaces as the camera sees them: 3 in front
    of 4 and 5, 2 in front of 5, 5 in front of 4, 4 and 5 in front of
    1; every other pair neutral. *)
Definition five_sort (obj a b : Z) : Z :=
  match a, b with
  | 1, 4 => 2 | 4, 1 => 1
  | 1, 5 => 2 | 5, 1 => 1
  | 2, 5 => 1 | 5, 2 => 2
  | 3, 4 => 1 | 4, 3 => 2
  | 3, 5 => 1 | 5, 3 => 2
  | 4, 5 => 2 | 5, 4 => 1
  | _, _ => 3
  end.

Definition neutral_sort (obj a b : Z) : Z := 3.

Definition empty_list : state := mkState ∅ {[ Local 0 := 0 ]} 4096.

Lemma insert_arrival_order_witness :
  final_order five_objs 0 neutral_sort 8 100 (Slot (Local 0)) [1; 2; 3] empty_list
  = Some [1; 2; 3].
Proof.
  apply (insert_arrival_order five_objs 0 neutral_sort 100 (Local 0) 8 [1; 2; 3] empty_list).
  - reflexivity.
  - reflexivity.
  - reflexivity.
  - repeat constructor; try lia; eexists; (split; [reflexivity|]); split; left; reflexivity.
  - intros i j x y _ _ _. right. reflexivity.
  - cbn. lia.
Defined.

(** C9 as claimed fails: the surfaces 2 and 3 compare neutral both
    ways and 2 arrives first, yet the final list has 3 directly in
    front of 2. *)
Lemma insert_sort_unstable :
  final_order five_objs 0 five_sort 8 100 (Slot (Local 0)) [1; 2; 3; 4; 5] empty_list
  = Some [3; 2; 5; 4; 1]
  /\ ~ stable (five_sort 100) [1; 2; 3; 4; 5] [3; 2; 5; 4; 1].
Proof.
  split; [vm_compute; reflexivity|].
  intros H. specialize (H 2 3).
  assert (Hb : before [3; 2; 5; 4; 1] 2 3).
  { apply H.
    - cbn. lia.
    - reflexivity.
    - reflexivity.
    - intros z [B | B]; exfalso.
      + apply before_trans in B. cbn in B. lia.
      + revert B. apply (no_between _ 3 2 z 0); reflexivity. }
  cbn in Hb. lia.
Qed.

End StableSpec.

(** ** insert: when the third phase moves nothing *)

Module QuietSpec.
Import Mem Engine MemFacts ListFacts SortSpec StableSpec.

(** *** Positions in a list *)

Lemma index_of_In (x : Z) (l : list Z) : In x l -> exists i, index_of x l = Some i.
Proof.
  induction l as [|a l IH]; [intros []|]. intros H. cbn [index_of].
  destruct (a =? x) eqn:E; [eexists; reflexivity|].
  destruct H as [->|H]; [lia|]. destruct (IH H) as [i ->]. eexists. reflexivity.
Qed.

Lemma index_of_notin (x : Z) (l : list Z) : ~ In x l -> index_of x l = None.
Proof.
  induction l as [|a l IH]; [reflexivity|]. intros H. cbn [index_of].
  destruct (a =? x) eqn:E; [exfalso; apply H; left; lia|].
  rewrite IH; [reflexivity|]. intros Hin. apply H. right. exact Hin.
Qed.

Lemma index_of_Some_In (x : Z) (l : list Z) (i : nat) : index_of x l = Some i -> In x l.
Proof.
  revert i. induction l as [|a l IH]; intros i; [discriminate|]. cbn [index_of].
  destruct (a =? x) eqn:E; [intros _; left; lia|].
  destruct (index_of x l) as [j|]; [|discriminate]. intros _. right. eapply IH. reflexivity.
Qed.

Lemma index_of_app (x : Z) (l1 l2 : list Z) :
  index_of x (l1 ++ l2)
  = match index_of x l1 with
    | Some i => Some i
    | None => (fun j => (length l1 + j)%nat) <$> index_of x l2
    end.
Proof.
  induction l1 as [|a l1 IH]; cbn [app index_of length].
  - destruct (index_of x l2); reflexivity.
  - destruct (a =? x); [reflexivity|]. rewrite IH.
    destruct (index_of x l1); [reflexivity|]. destruct (index_of x l2); reflexivity.
Qed.

Lemma index_of_lt (x : Z) (l : list Z) (i : nat) : index_of x l = Some i -> (i < length l)%nat.
Proof.
  revert i. induction l as [|a l IH]; intros i; [discriminate|]. cbn [index_of length].
  destruct (a =? x); [intros H; injection H as <-; lia|].
  destruct (index_of x l) as [j|]; [|discriminate]. intros H. injection H as <-.
  specialize (IH j eq_refl). lia.
Qed.

Lemma index_of_inj (x y : Z) (l : list Z) (i : nat) :
  index_of x l = Some i -> index_of y l = Some i -> x = y.
Proof.
  revert i. induction l as [|a l IH]; intros i; [discriminate|]. cbn [index_of].
  destruct (a =? x) eqn:Ex, (a =? y) eqn:Ey.
  - intros _ _. lia.
  - intros H1 H2. destruct (index_of y l); [|discriminate]. cbn in H2. congruence.
  - intros H1 H2. destruct (index_of x l); [|discriminate]. cbn in H1. congruence.
  - destruct (index_of x l) as [j|]; [|discriminate].
    destruct (index_of y l) as [k|]; [|discriminate].
    intros H1 H2. cbn in H1, H2. apply (IH j); [reflexivity|]. f_equal. congruence.
Qed.

(** Two distinct members of a list are one before the other. *)
Lemma before_total (l : list Z) (x y : Z) :
  In x l -> In y l -> x <> y -> before l x y \/ before l y x.
Proof.
  intros Hx Hy Hne. unfold before.
  destruct (index_of_In x l Hx) as [i Hi]. destruct (index_of_In y l Hy) as [j Hj].
  rewrite Hi, Hj. destruct (Nat.lt_trichotomy i j) as [H | [H | H]]; [left; exact H | | right; exact H].
  subst j. exfalso. apply Hne. eapply index_of_inj; eassumption.
Qed.

Lemma NoDup_app_disjoint (l1 l2 : list Z) (a : Z) :
  List.NoDup (l1 ++ l2) -> In a l1 -> In a l2 -> False.
Proof.
  induction l1 as [|b l1 IH]; [intros _ []|]. cbn [app]. intros Hnd [->|H1] H2.
  - inversion Hnd as [|? ? Hn _]. apply Hn. apply in_or_app. right. exact H2.
  - inversion Hnd. apply IH; assumption.
Qed.

Lemma index_of_cons_ne (x a : Z) (l : list Z) :
  a <> x -> index_of x (a :: l) = S <$> index_of x l.
Proof. intros H. cbn [index_of]. destruct (a =? x) eqn:E; [lia | reflexivity]. Qed.

Lemma index_of_cons_eq (x : Z) (l : list Z) : index_of x (x :: l) = Some O.
Proof. cbn [index_of]. rewrite Z.eqb_refl. reflexivity. Qed.

(** A new member does not change the order of the others. *)
Lemma before_insert (pre post : list Z) (y a b : Z) :
  a <> y -> b <> y -> (before (pre ++ y :: post) a b <-> before (pre ++ post) a b).
Proof.
  intros Ha Hb. unfold before. rewrite !index_of_app.
  rewrite !index_of_cons_ne by congruence.
  destruct (index_of a pre) as [i|] eqn:E1, (index_of b pre) as [j|] eqn:E2,
           (index_of a post) as [k|] eqn:E3, (index_of b post) as [m|] eqn:E4;
    cbn [fmap option_fmap option_map]; try tauto;
    try (apply index_of_lt in E1); try (apply index_of_lt in E2); lia.
Qed.

Lemma before_new_post (pre post : list Z) (y b : Z) :
  ~ In y pre -> ~ In b pre -> b <> y -> In b post -> before (pre ++ y :: post) y b.
Proof.
  intros Hy Hb Hne Hin. unfold before. rewrite !index_of_app.
  rewrite (index_of_notin y pre Hy), (index_of_notin b pre Hb).
  rewrite index_of_cons_eq, index_of_cons_ne by congruence.
  destruct (index_of_In b post Hin) as [j ->]. cbn [fmap option_fmap option_map]. lia.
Qed.

Lemma before_head (pre post : list Z) (p a : Z) :
  ~ In p pre -> ~ In a pre -> a <> p -> In a post -> before (pre ++ p :: post) p a.
Proof. intros. apply before_new_post; assumption. Qed.

Lemma not_before_last (done : list Z) (y b : Z) :
  ~ In y done -> ~ before (done ++ [y]) y b.
Proof.
  intros Hy. unfold before. rewrite !index_of_app, (index_of_notin y done Hy).
  rewrite index_of_cons_eq. cbn [fmap option_fmap option_map].
  destruct (index_of b done) as [j|] eqn:E.
  - apply index_of_lt in E. lia.
  - cbn [index_of]. destruct (y =? b); cbn [fmap option_fmap option_map]; lia.
Qed.

Lemma before_snoc_old (done : list Z) (y a b : Z) :
  a <> y -> b <> y -> before (done ++ [y]) a b -> before done a b.
Proof.
  intros Ha Hb. unfold before. rewrite !index_of_app.
  rewrite !index_of_cons_ne by congruence. cbn [index_of].
  destruct (index_of a done), (index_of b done); cbn [fmap option_fmap option_map]; tauto.
Qed.

Lemma before_In (l : list Z) (x y : Z) : before l x y -> In x l /\ In y l.
Proof.
  unfold before. destruct (index_of x l) as [i|] eqn:E1; [|tauto].
  destruct (index_of y l) as [j|] eqn:E2; [|tauto].
  intros _. split; eapply index_of_Some_In; eassumption.
Qed.

Lemma before_irrefl (l : list Z) (x : Z) : ~ before l x x.
Proof. unfold before. destruct (index_of x l); lia. Qed.

(** *** The place a new candidate takes *)

Section Place.

(** [cmp y x] is [bbox_sort obj y x] for the requester at hand. *)
Variable cmp : Z -> Z -> Z.

(** The new candidate [y] moves past [x]: "do swap" or "neutral". *)
Definition passes (y x : Z) : bool := (cmp y x =? 2) || (cmp y x =? 3).

(** The candidates of the list that [y] moves past in the advance
    phase, and the rest. *)
Fixpoint split_at (y : Z) (L : list Z) : list Z * list Z :=
  match L with
  | [] => ([], [])
  | x :: L' => if passes y x then (x :: fst (split_at y L'), snd (split_at y L'))
               else ([], L)
  end.

(** The list after the advance phase alone. *)
Definition place (y : Z) (L : list Z) : list Z :=
  fst (split_at y L) ++ y :: snd (split_at y L).

Fixpoint placed (L cs : list Z) : list Z :=
  match cs with
  | [] => L
  | y :: cs' => placed (place y L) cs'
  end.

(** No candidate behind the place of [y] is one that [y] has to be
    swapped with: the third phase finds nothing to move. *)
Definition quiet (y : Z) (L : list Z) : Prop :=
  Forall (fun x => cmp y x <> 2) (snd (split_at y L)).

Fixpoint all_quiet (L cs : list Z) : Prop :=
  match cs with
  | [] => True
  | y :: cs' => quiet y L /\ all_quiet (place y L) cs'
  end.

Lemma split_at_app (y : Z) (L : list Z) : L = fst (split_at y L) ++ snd (split_at y L).
Proof.
  induction L as [|x L IH]; [reflexivity|]. cbn [split_at].
  destruct (passes y x); cbn [fst snd app]; [f_equal; exact IH | reflexivity].
Qed.

Lemma split_at_pre (y : Z) (L : list Z) :
  Forall (fun x => passes y x = true) (fst (split_at y L)).
Proof.
  induction L as [|x L IH]; [constructor|]. cbn [split_at].
  destruct (passes y x) eqn:E; cbn [fst]; [constructor; assumption | constructor].
Qed.

Lemma split_at_post (y : Z) (L : list Z) :
  match snd (split_at y L) with
  | [] => True
  | p :: _ => passes y p = false
  end.
Proof.
  induction L as [|x L IH]; [exact I|]. cbn [split_at].
  destruct (passes y x) eqn:E; cbn [snd]; [exact IH | exact E].
Qed.

Lemma place_In (y : Z) (L : list Z) (x : Z) : In x (place y L) <-> x = y \/ In x L.
Proof.
  unfold place. rewrite in_app_iff. cbn [In]. rewrite (split_at_app y L) at 3.
  rewrite in_app_iff. split; intros H; repeat destruct H as [H|H]; auto.
Qed.

Lemma place_NoDup (y : Z) (L : list Z) : List.NoDup L -> ~ In y L -> List.NoDup (place y L).
Proof.
  intros Hnd Hy. unfold place. rewrite (split_at_app y L) in Hnd, Hy.
  assert (H : List.NoDup (y :: fst (split_at y L) ++ snd (split_at y L))).
  { constructor; assumption. }
  eapply Permutation.Permutation_NoDup; [|exact H].
  apply Permutation.Permutation_middle.
Qed.

Lemma place_length (y : Z) (L : list Z) : length (place y L) = S (length L).
Proof.
  unfold place. rewrite (split_at_app y L) at 3. rewrite !length_app. cbn [length]. lia.
Qed.

Lemma placed_length (cs : list Z) :
  forall L, length (placed L cs) = (length L + length cs)%nat.
Proof.
  induction cs as [|y cs IH]; intros L; cbn [placed length]; [lia|].
  rewrite IH, place_length. lia.
Qed.

Lemma split_at_all (y : Z) (L : list Z) :
  Forall (fun x => cmp y x = 2 \/ cmp y x = 3) L -> split_at y L = (L, []).
Proof.
  induction 1 as [|x L Hx _ IH]; [reflexivity|]. cbn [split_at]. unfold passes.
  assert (E : (cmp y x =? 2) || (cmp y x =? 3) = true).
  { destruct Hx as [-> | ->]; reflexivity. }
  rewrite E, IH. reflexivity.
Qed.

(** The order values are the four of rtgeom. *)
Definition in_range (cs : list Z) : Prop :=
  forall x y, In x cs -> In y cs -> 1 <= cmp x y <= 4.

(** What the advance phase alone keeps: wherever a later arrival [y]
    stands in front of an earlier one [x], some candidate between them
    is strictly behind [y]. *)
Definition overtakes_only_strict (done L : list Z) : Prop :=
  forall x y, before done x y -> before L y x ->
    exists z, before L y z /\ (z = x \/ before L z x) /\ strict (cmp y z).

Lemma place_keeps (done L : list Z) (y : Z) (cs : list Z) :
  in_range cs -> incl (done ++ [y]) cs ->
  List.NoDup L -> (forall x, In x L <-> In x done) -> ~ In y done ->
  overtakes_only_strict done L ->
  overtakes_only_strict (done ++ [y]) (place y L).
Proof.
  intros Hr Hincl Hnd Hmem Hy Hinv a b Hab Hba.
  assert (HyL : ~ In y L) by (rewrite Hmem; exact Hy).
  pose proof (split_at_app y L) as HL.
  pose proof (split_at_post y L) as Hpost.
  unfold place in *. set (pre := fst (split_at y L)) in *. set (post := snd (split_at y L)) in *.
  assert (Hypre : ~ In y pre) by (intros H; apply HyL; rewrite HL; apply in_or_app; left; exact H).
  assert (Hnd' : List.NoDup (pre ++ post)) by (rewrite <- HL; exact Hnd).
  destruct (Z.eq_dec a y) as [->|Hay].
  { exfalso. exact (not_before_last done y b Hy Hab). }
  destruct (Z.eq_dec b y) as [->|Hby].
  - (* the new candidate stands in front of the earlier [a] *)
    destruct (before_In _ _ _ Hba) as [_ Ha].
    apply in_app_or in Ha. destruct Ha as [Ha | [Ha | Ha]]; [| congruence |].
    + exfalso. revert Hba. unfold before. rewrite !index_of_app.
      rewrite (index_of_notin y pre Hypre), index_of_cons_eq.
      destruct (index_of_In a pre Ha) as [i Hi]. rewrite Hi.
      cbn [fmap option_fmap option_map]. apply index_of_lt in Hi. lia.
    + destruct post as [|p post'] eqn:Ep; [destruct Ha|].
      assert (Hp : In p cs).
      { apply Hincl. apply in_or_app. left. apply Hmem. rewrite HL.
        apply in_or_app. right. left. reflexivity. }
      assert (Hycs : In y cs) by (apply Hincl; apply in_or_app; right; left; reflexivity).
      assert (Hppre : ~ In p pre).
      { intros H. apply (NoDup_app_disjoint _ _ p Hnd' H). left. reflexivity. }
      assert (Hpy : p <> y).
      { intros ->. apply HyL. rewrite HL. apply in_or_app. right. left. reflexivity. }
      exists p. split; [|split].
      * apply before_new_post; [assumption | assumption | assumption | left; reflexivity].
      * destruct Ha as [->|Ha]; [left; reflexivity|]. right.
        assert (Hap : a <> p).
        { intros ->. apply List.NoDup_app_remove_l in Hnd'. inversion Hnd'. contradiction. }
        assert (Hapre : ~ In a pre).
        { intros H. apply (NoDup_app_disjoint _ _ a Hnd' H). right. exact Ha. }
        replace (pre ++ y :: p :: post') with ((pre ++ [y]) ++ p :: post')
          by (rewrite <- app_assoc; reflexivity).
        apply before_head; try assumption.
        -- intros H. apply in_app_or in H. destruct H as [H | [H | []]]; [contradiction | congruence].
        -- intros H. apply in_app_or in H. destruct H as [H | [H | []]]; [contradiction | congruence].
      * specialize (Hr y p Hycs Hp). unfold passes in Hpost. unfold strict.
        apply orb_false_iff in Hpost. destruct Hpost as [H2 H3].
        apply Z.eqb_neq in H2. apply Z.eqb_neq in H3. lia.
  - (* two earlier candidates *)
    apply before_snoc_old in Hab; try assumption.
    apply before_insert in Hba; try assumption.
    rewrite <- HL in Hba.
    destruct (Hinv a b Hab Hba) as [z [Hz1 [Hz2 Hz3]]].
    assert (Hzy : z <> y).
    { intros ->. apply before_In in Hz1. destruct Hz1 as [_ Hz1]. contradiction. }
    exists z. split; [|split; [|exact Hz3]].
    + apply before_insert; try assumption. rewrite <- HL. exact Hz1.
    + destruct Hz2 as [->|Hz2]; [left; reflexivity|]. right.
      apply before_insert; try assumption. rewrite <- HL. exact Hz2.
Qed.

Lemma placed_keeps (cs0 cs : list Z) :
  forall (done L : list Z),
    in_range cs0 -> incl (done ++ cs) cs0 -> List.NoDup (done ++ cs) ->
    List.NoDup L -> (forall x, In x L <-> In x done) ->
    overtakes_only_strict done L ->
    List.NoDup (placed L cs)
    /\ (forall x, In x (placed L cs) <-> In x (done ++ cs))
    /\ overtakes_only_strict (done ++ cs) (placed L cs).
Proof.
  induction cs as [|y cs IH]; intros done L Hr Hincl Hnd HndL Hmem Hinv.
  - cbn [placed]. rewrite app_nil_r. split; [exact HndL|]. split; assumption.
  - cbn [placed].
    assert (Hy : ~ In y done).
    { intros H. apply (NoDup_app_disjoint _ _ y Hnd H). left. reflexivity. }
    replace (done ++ y :: cs) with ((done ++ [y]) ++ cs) in *
      by (rewrite <- app_assoc; reflexivity).
    apply IH; try assumption.
    + apply place_NoDup; [exact HndL|]. rewrite Hmem. exact Hy.
    + intros x. rewrite place_In, in_app_iff, Hmem. cbn [In].
      split; intros H; repeat destruct H as [H|H]; subst; auto; destruct H.
    + apply (place_keeps done L y cs0); try assumption.
      intros x Hx. apply Hincl. apply in_or_app. left. exact Hx.
Qed.

(** The list that the advance phase alone builds is stable. *)
Lemma placed_stable (cs : list Z) :
  in_range cs -> List.NoDup cs -> stable cmp cs (placed [] cs).
Proof.
  intros Hr Hnd.
  destruct (placed_keeps cs cs [] [] Hr) as [HndF [Hmem Hinv]].
  - cbn [app]. intros x Hx. exact Hx.
  - exact Hnd.
  - constructor.
  - intros x. tauto.
  - intros x y Hxy. unfold before in Hxy. cbn in Hxy. destruct Hxy.
  - cbn [app] in Hmem, Hinv.
    intros x y Hxy Hn1 Hn2 Hfree.
    destruct (before_In _ _ _ Hxy) as [Hx Hy].
    assert (Hne : x <> y) by (intros ->; eapply before_irrefl; exact Hxy).
    destruct (before_total (placed [] cs) x y) as [H | H];
      [apply Hmem; exact Hx | apply Hmem; exact Hy | exact Hne | exact H |].
    exfalso. destruct (Hinv x y Hxy H) as [z [Hz1 [Hz2 Hz3]]].
    destruct Hz2 as [->|Hz2].
    + unfold strict in Hz3. lia.
    + destruct (Hfree z) as [_ [_ [Hs _]]]; [right; split; assumption|].
      apply Hs. exact Hz3.
Qed.

End Place.

(** *** The third phase when it finds nothing to move *)

(** From [h] to [h']: the same elements with the same links and
    objects; only stored order values of elements that have a successor
    may differ. *)
Definition same_links (h h' : gmap Z ELEM) : Prop :=
  forall a, match h !! a with
            | Some e => exists e', h' !! a = Some e' /\ next e' = next e /\ temp e' = temp e
                                   /\ (next e = 0 -> data e' = data e)
            | None => h' !! a = None
            end.

Lemma same_links_refl (h : gmap Z ELEM) : same_links h h.
Proof.
  intros a. destruct (h !! a) as [e|] eqn:E; [|reflexivity].
  exists e. repeat split; reflexivity.
Qed.

Lemma same_links_trans (h1 h2 h3 : gmap Z ELEM) :
  same_links h1 h2 -> same_links h2 h3 -> same_links h1 h3.
Proof.
  intros H1 H2 a. specialize (H1 a). specialize (H2 a).
  destruct (h1 !! a) as [e|].
  - destruct H1 as [e2 [E2 [N2 [T2 D2]]]]. rewrite E2 in H2.
    destruct H2 as [e3 [E3 [N3 [T3 D3]]]]. exists e3.
    split; [exact E3|]. split; [congruence|]. split; [congruence|].
    intros H0. rewrite D3 by congruence. apply D2. exact H0.
  - rewrite H1 in H2. exact H2.
Qed.

Lemma same_links_set_data (h : gmap Z ELEM) (a d : Z) (e : ELEM) :
  h !! a = Some e -> next e <> 0 -> same_links h (<[a := set_data d e]> h).
Proof.
  intros He Hn b. destruct (decide (a = b)) as [<-|Hne].
  - rewrite He. exists (set_data d e). rewrite lookup_insert_eq.
    split; [reflexivity|]. split; [reflexivity|]. split; [reflexivity|]. intros H. contradiction.
  - rewrite lookup_insert_ne by exact Hne. destruct (h !! b) as [eb|]; [|reflexivity].
    exists eb. repeat split; reflexivity.
Qed.

Lemma same_links_lookup (h h' : gmap Z ELEM) (a : Z) (e : ELEM) :
  same_links h h' -> h !! a = Some e ->
  exists e', h' !! a = Some e' /\ next e' = next e /\ temp e' = temp e
             /\ (next e = 0 -> data e' = data e).
Proof. intros H He. specialize (H a). rewrite He in H. exact H. Qed.

Lemma same_links_lseg (h h' : gmap Z ELEM) (p : Z) (l : list Z) (q : Z) :
  same_links h h' -> lseg h p l q -> lseg h' p l q.
Proof.
  intros H. apply lseg_frame. intros a e _ He.
  destruct (same_links_lookup h h' a e H He) as [e' [He' [Hn _]]].
  exists e'. split; assumption.
Qed.

Lemma same_links_temp (h h' : gmap Z ELEM) (a : Z) :
  same_links h h' -> fld temp h' a = fld temp h a.
Proof.
  intros H. specialize (H a). unfold fld. destruct (h !! a) as [e|].
  - destruct H as [e' [-> [_ [T _]]]]. exact T.
  - rewrite H. reflexivity.
Qed.

Lemma same_links_dom (h h' : gmap Z ELEM) (a : Z) :
  same_links h h' -> is_Some (h !! a) -> is_Some (h' !! a).
Proof.
  intros H [e He]. destruct (same_links_lookup h h' a e H He) as [e' [He' _]].
  eexists. exact He'.
Qed.

(** The last element of a list holds no strict order value. *)
Definition tail_ok (h : gmap Z ELEM) (l : list Z) : Prop :=
  forall a, last l = Some a -> fld data h a <> 1 /\ fld data h a <> 4.

Lemma lseg_last_next (h : gmap Z ELEM) (l : list Z) :
  forall p a e, lseg h p l 0 -> last l = Some a -> h !! a = Some e -> next e = 0.
Proof.
  induction l as [|b l IH]; intros p a e Hl Ha He; [discriminate|].
  cbn [lseg] in Hl. destruct Hl as [-> [Hb [eb [Heb Hl]]]].
  destruct l as [|b' l'].
  - cbn in Ha. injection Ha as <-. cbn [lseg] in Hl. congruence.
  - apply (IH (next eb) a e Hl); [exact Ha | exact He].
Qed.

Lemma same_links_tail_ok (h h' : gmap Z ELEM) (p : Z) (l : list Z) :
  same_links h h' -> lseg h p l 0 -> tail_ok h l -> tail_ok h' l.
Proof.
  intros H Hl Ht a Ha. specialize (Ht a Ha).
  assert (Hin : In a l) by (apply list_elem_of_In; eapply last_Some_elem_of; exact Ha).
  destruct (lseg_dom _ _ _ _ a Hl Hin) as [e He].
  destruct (same_links_lookup h h' a e H He) as [e' [He' [_ [_ Hd]]]].
  rewrite (fld_eq data h a e He) in Ht. rewrite (fld_eq data h' a e' He').
  rewrite Hd; [exact Ht|]. eapply lseg_last_next; eassumption.
Qed.

Section Quiet.

Variable objs : gmap Z Object.
Variable slist : Z.
Variable bbox_sort : Z -> Z -> Z -> Z.
Variable obj : Z.
Variable c : var.

Local Abbreviation cmp := (bbox_sort obj).

(** The second phase walks along the strict order values from the new
    element and stops within the list. *)
Lemma phase2_walk (l : list Z) :
  forall (p : Z) (fuel : nat) (s : state),
    lseg (elems s) p l 0 -> l <> [] -> tail_ok (elems s) l -> (length l <= S fuel)%nat ->
    exists end_ l1 l2, phase2 fuel p s = Ok end_ s /\ l = l1 ++ end_ :: l2.
Proof.
  induction l as [|a l IH]; intros p fuel s Hl Hne Ht Hf; [congruence|].
  cbn [lseg] in Hl. destruct Hl as [-> [Ha [e [He Hl]]]].
  destruct ((data e =? 1) || (data e =? 4)) eqn:Es.
  - destruct l as [|b l'].
    + exfalso. destruct (Ht a eq_refl) as [H1 H4].
      rewrite (fld_eq data _ a e He) in H1, H4.
      apply orb_true_iff in Es. destruct Es as [Es|Es]; apply Z.eqb_eq in Es; contradiction.
    + destruct fuel as [|f]; [cbn [length] in Hf; lia|].
      destruct (IH (next e) f s Hl ltac:(discriminate)) as [end_ [l1 [l2 [E El]]]].
      * intros x Hx. apply Ht. exact Hx.
      * cbn [length] in Hf |- *. lia.
      * exists end_, (a :: l1), l2. split; [|cbn [app]; f_equal; exact El].
        cbn [phase2]. rewrite bind_unfold, (rd_eq data a s e He), Es.
        rewrite bind_unfold, (rd_eq next a s e He). exact E.
  - exists a, [], l. split; [|reflexivity].
    destruct fuel; cbn [phase2]; rewrite bind_unfold, (rd_eq data a s e He), Es; reflexivity.
Qed.

(** [repair] on an element with a successor writes an order value at
    most. *)
Lemma repair_links (s : state) (p : Z) (ep : ELEM) :
  elems s !! p = Some ep -> next ep <> 0 -> is_Some (elems s !! next ep) ->
  exists s', repair bbox_sort obj p s = Ok tt s'
             /\ same_links (elems s) (elems s') /\ slots s' = slots s /\ brk s' = brk s.
Proof.
  intros Hp Hn [en Hen]. unfold repair.
  rewrite bind_unfold, (rd_eq data p s ep Hp).
  destruct (data ep =? 0).
  - rewrite bind_unfold, (rd_eq next p s ep Hp).
    rewrite bind_unfold. unfold order_of.
    rewrite bind_unfold, (rd_eq temp p s ep Hp).
    rewrite bind_unfold, (rd_eq temp (next ep) s en Hen). rewrite ret_unfold.
    rewrite (wr_eq set_data p _ s ep Hp).
    eexists. split; [reflexivity|]. cbn [elems slots brk].
    split; [apply same_links_set_data; assumption|]. split; reflexivity.
  - exists s. split; [reflexivity|]. split; [apply same_links_refl|]. split; reflexivity.
Qed.

(** The third phase over elements none of which has to be swapped with
    the new element [E]: it walks to the end of the list, and writes
    order values at most. *)
Lemma phase3_quiet (ptr : loc) (E end_ tE : Z) (rest : list Z) :
  forall (fuel : nat) (s : state) (prv st tlp nxt : Z) (et : ELEM),
    lseg (elems s) nxt rest 0 -> (length rest <= fuel)%nat ->
    is_Some (elems s !! E) -> fld temp (elems s) E = tE ->
    Forall (fun a => cmp tE (fld temp (elems s) a) <> 2) rest ->
    elems s !! tlp = Some et ->
    (next et <> 0 -> is_Some (elems s !! next et)) ->
    (rest <> [] -> next et <> 0) ->
    exists tlp' s' et',
      phase3 bbox_sort fuel obj ptr E end_ prv st tlp nxt s = Ok tlp' s'
      /\ same_links (elems s) (elems s') /\ slots s' = slots s /\ brk s' = brk s
      /\ elems s' !! tlp' = Some et'
      /\ (next et' <> 0 -> is_Some (elems s' !! next et')).
Proof.
  induction rest as [|a rest IH]; intros fuel s prv st tlp nxt et Hl Hf HE HtE Hq Ht Htn Htr.
  - cbn [lseg] in Hl. subst nxt. exists tlp, s, et.
    split; [destruct fuel; reflexivity|]. split; [apply same_links_refl|].
    split; [reflexivity|]. split; [reflexivity|]. split; assumption.
  - cbn [lseg] in Hl. destruct Hl as [-> [Ha [ea [Hea Hl]]]].
    destruct fuel as [|f]; [cbn [length] in Hf; lia|]. cbn [length] in Hf.
    destruct HE as [eE HeE].
    apply Forall_cons in Hq. destruct Hq as [Hqa Hq'].
    rewrite <- HtE in Hqa.
    rewrite (fld_eq temp _ E eE HeE), (fld_eq temp _ a ea Hea) in Hqa.
    cbn [phase3]. destruct (a =? 0) eqn:Ea0; [lia|].
    rewrite bind_unfold. unfold order_of at 1.
    rewrite bind_unfold, (rd_eq temp E s eE HeE).
    rewrite bind_unfold, (rd_eq temp a s ea Hea). rewrite ret_unfold.
    destruct (bbox_sort obj (temp eE) (temp ea) =? 2) eqn:E2; [lia|].
    rewrite bind_unfold, (rd_eq data a s ea Hea).
    assert (Hnext_a : next ea <> 0 -> is_Some (elems s !! next ea)).
    { intros Hn0. destruct rest as [|b rest']; cbn [lseg] in Hl; [congruence|].
      destruct Hl as [-> [_ [eb [Heb _]]]]. eexists. exact Heb. }
    assert (Hrest_a : rest <> [] -> next ea <> 0).
    { intros Hr. destruct rest as [|b rest']; [congruence|]. cbn [lseg] in Hl.
      destruct Hl as [-> [Hb _]]. exact Hb. }
    destruct (negb (data ea =? 1) && negb (data ea =? 4)).
    + destruct (repair_links s tlp et Ht (Htr ltac:(discriminate)) (Htn (Htr ltac:(discriminate))))
        as [s1 [E1 [L1 [S1 B1]]]].
      rewrite bind_unfold, bind_unfold, E1. rewrite ret_unfold.
      destruct (same_links_lookup _ _ a ea L1 Hea) as [ea1 [Hea1 [Hn1 [Ht1 _]]]].
      rewrite bind_unfold, (rd_eq next a s1 ea1 Hea1), Hn1.
      destruct (IH f s1 prv 0 a (next ea) ea1) as [tlp' [s' [et' [E' [L' [S' [B' [T' N']]]]]]]].
      * eapply same_links_lseg; eassumption.
      * lia.
      * eapply same_links_dom; [exact L1 | eexists; exact HeE].
      * rewrite (same_links_temp _ _ E L1). exact HtE.
      * eapply Forall_impl; [exact Hq'|]. intros b Hb. cbn beta in *.
        rewrite (same_links_temp _ _ b L1). exact Hb.
      * exact Hea1.
      * rewrite Hn1. intros H. eapply same_links_dom; [exact L1 | apply Hnext_a; exact H].
      * rewrite Hn1. exact Hrest_a.
      * exists tlp', s', et'. split; [exact E'|].
        split; [eapply same_links_trans; eassumption|].
        split; [congruence|]. split; [congruence|]. split; assumption.
    + rewrite bind_unfold, ret_unfold.
      rewrite bind_unfold, (rd_eq next a s ea Hea).
      destruct (IH f s prv st tlp (next ea) et) as [tlp' [s' [et' [E' R']]]].
      * exact Hl.
      * lia.
      * eexists. exact HeE.
      * exact HtE.
      * exact Hq'.
      * exact Ht.
      * exact Htn.
      * intros _. apply Htr. discriminate.
      * exists tlp', s', et'. split; [exact E' | exact R'].
Qed.

Local Abbreviation holds := (StableSpec.holds c).
Local Abbreviation ungrouped := (StableSpec.ungrouped objs obj).

Lemma advance_split (E x : Z) (h : gmap Z ELEM) (l : list Z) :
  fld temp h E = x ->
  map (fld temp h) (fst (advance bbox_sort obj E h l))
  = fst (split_at cmp x (map (fld temp h) l))
  /\ map (fld temp h) (snd (advance bbox_sort obj E h l))
     = snd (split_at cmp x (map (fld temp h) l)).
Proof.
  intros HE. induction l as [|a l [IH1 IH2]]; [split; reflexivity|].
  cbn [advance map split_at]. unfold movable, opv, passes. rewrite HE.
  destruct ((cmp x (fld temp h a) =? 2) || (cmp x (fld temp h a) =? 3)); cbn [fst snd map].
  - rewrite IH1, IH2. split; reflexivity.
  - split; reflexivity.
Qed.

Lemma last_app_cons (l1 l2 : list Z) (a : Z) : last (l1 ++ a :: l2) = last (a :: l2).
Proof.
  rewrite last_app. destruct (last (a :: l2)) eqn:E; [reflexivity|].
  apply last_None in E. discriminate.
Qed.

(** One insertion whose third phase finds nothing to move: the new
    element ends up where the advance phase left it. *)
Lemma insert_quiet_step (fuel : nat) (x : Z) (s : state) (l done : list Z) :
  holds s l done -> tail_ok (elems s) l -> ungrouped x ->
  quiet cmp x done -> (length l <= fuel)%nat ->
  exists s' l',
    Engine.insert objs slist true bbox_sort fuel obj (Slot c) x s = Ok (brk s) s'
    /\ holds s' l' (place cmp x done) /\ tail_ok (elems s') l'.
Proof.
  intros [Hs [Hl [Hal [Hab [Hb0 Hmap]]]]] Htail Hu Hq Hfuel.
  pose proof Hu as [Hx _].
  set (E := brk s).
  assert (HEl : ~ In E l).
  { intros Hin. rewrite Forall_forall in Hal. apply list_elem_of_In in Hin.
    apply Hal in Hin. unfold E in Hin. lia. }
  assert (Hh : aligned (hd 0 l)).
  { destruct l as [|a l']; [apply aligned_0|]. inversion Hal as [|? ? [Ha _] _]. exact Ha. }
  unfold Engine.insert.
  destruct (x =? 0) eqn:Ex; [lia|].
  rewrite bind_unfold, ret_unfold.
  rewrite new_elem. fold E.
  rewrite bind_unfold, StableSpec.nodes_of_ungrouped by exact Hu.
  cbv beta iota zeta. change (count_nodes (0, 0)) with 0.
  rewrite bind_unfold. change (outer_most objs fuel (0, 0)) with (mret (-1) : M Z).
  rewrite ret_unfold.
  rewrite bind_unfold, (load_slot_eq c _ (hd 0 l)) by exact Hs.
  rewrite bind_unfold.
  assert (Hsn : forall v st, search_nodes fuel (0, 0) 0 0 (-1) (Slot c) v st = Ok (0, -1, Slot c) st).
  { intros v st. destruct fuel; cbn [search_nodes]; rewrite orb_true_r; reflexivity. }
  rewrite Hsn. cbv beta iota zeta.
  change (Z.to_nat (0 - 0)) with 0%nat. cbn [alloc_nodes].
  rewrite bind_unfold, ret_unfold. cbv beta iota zeta.
  rewrite bind_unfold, (load_slot_eq c _ (hd 0 l)) by exact Hs.
  rewrite bind_unfold.
  erewrite wr_eq by (cbn [elems]; apply lookup_insert_eq).
  cbn [elems slots brk]. rewrite insert_insert_eq.
  rewrite bind_unfold, (load_slot_eq c _ (hd 0 l)) by exact Hs.
  rewrite bind_unfold, store_slot_eq by (cbn [slots]; eexists; exact Hs).
  cbn [elems slots brk].
  rewrite bind_unfold, ret_unfold. cbv beta iota zeta.
  rewrite (untag_aligned _ Hh), (tagof_aligned _ Hh), Z.lor_0_r.
  unfold set_next. cbn [next data simd temp].
  set (s2 := mkState _ _ _).
  assert (HE2 : elems s2 !! E = Some (mkELEM (hd 0 l) 0 0 x)) by apply lookup_insert_eq.
  assert (Hl2 : lseg (elems s2) E (E :: l) 0).
  { cbn [lseg]. split; [reflexivity|]. split; [unfold E; lia|].
    eexists. split; [exact HE2|]. cbn [next]. apply lseg_insert_notin; assumption. }
  assert (Hold : forall f a, In a l -> fld f (elems s2) a = fld f (elems s) a).
  { intros f a Ha. unfold fld. cbn [elems s2]. rewrite lookup_insert_ne; [reflexivity|].
    intros <-. contradiction. }
  destruct (phase1_run bbox_sort obj (Slot c) E (E :: l) l s2 0 0 fuel Hfuel Hl2
              (fun a H => H)) as [s' [prv' [st' [Erun Hpost]]]].
  { cbn [outside slots s2]. rewrite lookup_insert_eq. eexists. reflexivity. }
  { left. reflexivity. }
  unfold phase1_post in Hpost. cbv zeta in Hpost.
  destruct (advance_split E x (elems s2) l (fld_eq temp _ _ _ HE2)) as [Mpre Mpost].
  pose proof (advance_app bbox_sort obj E (elems s2) l) as Happ.
  remember (fst (advance bbox_sort obj E (elems s2) l)) as pre eqn:Hpre.
  remember (snd (advance bbox_sort obj E (elems s2) l)) as post eqn:Hpst.
  clear Hpre Hpst.
  destruct Hpost as [C1 [C2 [C3 [_ [_ [C6 [C7 [_ [C9 [C10 C11]]]]]]]]]].
  assert (Mem : map (fld temp (elems s2)) l = done).
  { rewrite <- Hmap. apply map_ext_in. intros a Ha. apply Hold. exact Ha. }
  rewrite Mem in Mpre, Mpost.
  assert (Hndl : List.NoDup (pre ++ post)) by (rewrite <- Happ; eapply lseg_NoDup; exact Hl).
  assert (Hinpre : forall a, In a pre -> In a l)
    by (intros a Ha; rewrite Happ; apply in_or_app; left; exact Ha).
  assert (Hinpost : forall a, In a post -> In a l)
    by (intros a Ha; rewrite Happ; apply in_or_app; right; exact Ha).
  (* the list after the advance phase *)
  assert (L1 : lseg (elems s') (hd E pre) (pre ++ E :: post) 0).
  { replace (pre ++ E :: post) with ((pre ++ [E]) ++ post)
      by (rewrite <- app_assoc; reflexivity).
    apply lseg_app. exists (hd 0 post). split; assumption. }
  assert (LE : lseg (elems s') E (E :: post) 0).
  { apply lseg_app in C1. destruct C1 as [m [_ C1]]. cbn [lseg] in C1.
    destruct C1 as [_ [HE0 [eE [HeE Hn]]]]. cbn [lseg].
    split; [reflexivity|]. split; [exact HE0|]. exists eE. split; [exact HeE|].
    rewrite Hn. exact C2. }
  assert (TE : tail_ok (elems s') (E :: post)).
  { intros a Ha. destruct post as [|p post'].
    - cbn in Ha. injection Ha as <-. rewrite C3, (fld_eq data _ _ _ HE2). cbn [data]. lia.
    - change (last (E :: p :: post')) with (last (p :: post')) in Ha.
      assert (Hla : last l = Some a) by (rewrite Happ, last_app_cons; exact Ha).
      assert (Hap : In a (p :: post')).
      { apply list_elem_of_In. eapply last_Some_elem_of. exact Ha. }
      assert (Hal' : In a l) by (apply Hinpost; exact Hap).
      assert (Hnp : ~ In a pre) by (intros H; exact (NoDup_app_disjoint _ _ a Hndl H Hap)).
      assert (Ha0 : a <> 0) by exact (lseg_nonzero _ _ _ _ a Hl Hal').
      assert (HaE : a <> E) by (intros ->; contradiction).
      assert (Hsame : fld data (elems s') a = fld data (elems s) a).
      { rewrite <- (Hold data a Hal'). unfold fld.
        rewrite (C6 a (or_intror Hal') Hnp HaE Ha0). reflexivity. }
      rewrite Hsame. apply Htail. exact Hla. }
  assert (Hlen : (length post <= fuel)%nat).
  { rewrite Happ, length_app in Hfuel. lia. }
  destruct (phase2_walk (E :: post) E fuel s' LE ltac:(discriminate) TE)
    as [end_ [k1 [k2 [E2 Hk]]]]; [cbn [length]; lia|].
  assert (Hk2 : forall a, In a k2 -> In a post).
  { intros a Ha. destruct k1 as [|b k1']; cbn [app] in Hk; injection Hk as _ Hk.
    - rewrite Hk. exact Ha.
    - rewrite Hk. apply in_or_app. right. right. exact Ha. }
  assert (Hlk : (length k2 <= fuel)%nat).
  { assert (H : (length (E :: post) = length (k1 ++ end_ :: k2))%nat) by (rewrite Hk; reflexivity).
    rewrite length_app in H. cbn [length] in H. lia. }
  assert (Lend : exists ee, elems s' !! end_ = Some ee /\ lseg (elems s') (next ee) k2 0).
  { rewrite Hk in LE. apply lseg_app in LE. destruct LE as [m [_ LE]].
    cbn [lseg] in LE. destruct LE as [_ [_ [ee [Hee Hr]]]]. exists ee. split; assumption. }
  destruct Lend as [ee [Hee Lk2]].
  assert (HEs' : exists eE, elems s' !! E = Some eE).
  { cbn [lseg] in LE. destruct LE as [_ [_ [eE [HeE _]]]]. exists eE. exact HeE. }
  assert (HtE : fld temp (elems s') E = x).
  { rewrite C9, (fld_eq temp _ _ _ HE2). reflexivity. }
  assert (Hq2 : Forall (fun a => cmp x (fld temp (elems s') a) <> 2) k2).
  { apply Forall_forall. intros a Ha. apply list_elem_of_In in Ha. rewrite C9.
    unfold quiet in Hq. rewrite <- Mpost in Hq. rewrite Forall_forall in Hq.
    apply Hq. apply list_elem_of_In. apply in_map. apply Hk2. exact Ha. }
  destruct (phase3_quiet (Slot c) E end_ x k2 fuel s' prv' st' end_ (next ee) ee Lk2 Hlk
              HEs' HtE Hq2 Hee)
    as [tlp' [s3 [et' [E3 [L3 [S3 [B3 [T3 N3]]]]]]]].
  { intros Hn. destruct k2 as [|b k2']; cbn [lseg] in Lk2; [congruence|].
    destruct Lk2 as [-> [_ [eb [Heb _]]]]. eexists. exact Heb. }
  { intros Hn. destruct k2 as [|b k2']; [congruence|]. cbn [lseg] in Lk2.
    destruct Lk2 as [-> [Hb _]]. exact Hb. }
  (* the end of the sorting *)
  assert (Hfix : exists sF,
             (cur ← rd next tlp';
              td ← rd data tlp';
              (if (td =? 0) && negb (cur =? 0)
               then o ← order_of bbox_sort obj tlp' cur; wr set_data tlp' o
               else mret tt);;
              (mret E : M Z)) s3 = Ok E sF
             /\ same_links (elems s3) (elems sF) /\ slots sF = slots s3 /\ brk sF = brk s3).
  { rewrite bind_unfold, (rd_eq next tlp' s3 et' T3).
    rewrite bind_unfold, (rd_eq data tlp' s3 et' T3).
    destruct ((data et' =? 0) && negb (next et' =? 0)) eqn:Efix.
    - apply andb_true_iff in Efix. destruct Efix as [_ Hn].
      apply negb_true_iff, Z.eqb_neq in Hn.
      destruct (N3 Hn) as [en Hen].
      rewrite bind_unfold, bind_unfold. unfold order_of.
      rewrite bind_unfold, (rd_eq temp tlp' s3 et' T3).
      rewrite bind_unfold, (rd_eq temp (next et') s3 en Hen). rewrite ret_unfold.
      rewrite (wr_eq set_data tlp' _ s3 et' T3). rewrite ret_unfold.
      eexists. split; [reflexivity|]. cbn [elems slots brk].
      split; [apply same_links_set_data; assumption|]. split; reflexivity.
    - rewrite bind_unfold, ret_unfold, ret_unfold.
      exists s3. split; [reflexivity|]. split; [apply same_links_refl|]. split; reflexivity. }
  destruct Hfix as [sF [EF [LF [SF BF]]]].
  assert (Hlinks : same_links (elems s') (elems sF)) by (eapply same_links_trans; eassumption).
  exists sF, (pre ++ E :: post). split; [|split].
  - unfold sort. rewrite bind_unfold, (rd_eq next E s2 _ HE2). cbn [next].
    rewrite (fld_eq next _ _ _ HE2) in Erun. cbn [next] in Erun.
    rewrite bind_unfold, Erun. cbv beta iota zeta.
    rewrite bind_unfold, E2.
    rewrite bind_unfold, (rd_eq next end_ s' ee Hee).
    rewrite bind_unfold, E3. exact EF.
  - assert (Hhd : hd 0 (pre ++ E :: post) = hd E pre) by (destruct pre; reflexivity).
    unfold StableSpec.holds. rewrite Hhd.
    split.
    { rewrite SF, S3. destruct C7 as [v0 [Hv0 Hv']]. unfold hval in Hv0, Hv'.
      cbn [load slots s2] in Hv0. rewrite lookup_insert_eq in Hv0. injection Hv0 as <-.
      cbn [load] in Hv'. destruct (slots s' !! c) as [w|]; [|destruct pre; discriminate].
      destruct pre as [|n1 pre']; cbn [hd] in *; [congruence|].
      change (0 =? 0) with true in Hv'. cbv iota in Hv'.
      rewrite (tagof_aligned E Hab), Z.lor_0_r in Hv'. congruence. }
    split; [eapply same_links_lseg; eassumption|].
    rewrite BF, B3, C11. cbn [brk s2]. unfold sizeof_ELEM.
    assert (Hold_al : forall a, In a l -> aligned a /\ a < E + 16).
    { intros a Ha. rewrite Forall_forall in Hal. apply list_elem_of_In in Ha.
      destruct (Hal a Ha) as [H1 H2]. split; [exact H1 | fold E in H2; lia]. }
    split.
    { apply Forall_app. split.
      - apply Forall_forall. intros a Ha. apply list_elem_of_In in Ha. apply Hold_al, Hinpre, Ha.
      - constructor; [split; [exact Hab | lia]|].
        apply Forall_forall. intros a Ha. apply list_elem_of_In in Ha. apply Hold_al, Hinpost, Ha. }
    split; [apply (aligned_add16 E Hab)|]. split; [unfold E; lia|].
    assert (Htemps : forall a, fld temp (elems sF) a = fld temp (elems s2) a).
    { intros a. rewrite (same_links_temp _ _ a Hlinks). apply C9. }
    rewrite (map_ext _ _ Htemps). rewrite map_app. cbn [map].
    rewrite Mpre, Mpost, (fld_eq temp _ _ _ HE2). reflexivity.
  - eapply same_links_tail_ok; [exact Hlinks | |].
    + exact L1.
    + intros a Ha. rewrite last_app_cons in Ha. apply TE. exact Ha.
Qed.

Lemma insert_each_quiet (fuel : nat) (cs : list Z) :
  forall (s : state) (l done : list Z),
    holds s l done -> tail_ok (elems s) l -> Forall ungrouped cs ->
    all_quiet cmp done cs -> (length done + length cs <= fuel)%nat ->
    exists s' l',
      insert_each objs slist true bbox_sort fuel obj (Slot c) cs s = Ok tt s'
      /\ holds s' l' (placed cmp done cs) /\ tail_ok (elems s') l'.
Proof.
  induction cs as [|x cs IH]; intros s l done Hh Ht Hu Hq Hf.
  - exists s, l. split; [reflexivity|]. split; assumption.
  - inversion Hu as [|? ? Hux Hucs]; subst. destruct Hq as [Hqx Hqcs].
    cbn [length] in Hf.
    assert (Hlen : length l = length done).
    { destruct Hh as [_ [_ [_ [_ [_ Hm]]]]]. rewrite <- Hm, length_map. reflexivity. }
    destruct (insert_quiet_step fuel x s l done Hh Ht Hux Hqx) as [s1 [l1 [E1 [H1 T1]]]];
      [lia|].
    destruct (IH s1 l1 (place cmp x done) H1 T1 Hucs Hqcs) as [s' [l' [E' [H' T']]]].
    { rewrite place_length. lia. }
    exists s', l'. split; [|split; assumption].
    cbn [insert_each]. rewrite bind_unfold, E1. exact E'.
Qed.

Lemma arrives_quiet (cs : list Z) :
  forall done, StableSpec.arrives_ok bbox_sort obj done cs ->
               all_quiet cmp done cs /\ placed cmp done cs = done ++ cs.
Proof.
  induction cs as [|y cs IH]; intros done H.
  - split; [exact I|]. cbn [placed]. rewrite app_nil_r. reflexivity.
  - cbn [StableSpec.arrives_ok] in H. destruct H as [Hy Hrest].
    assert (Hsp : split_at cmp y done = (done, [])).
    { apply split_at_all. apply Forall_forall. intros x Hx. apply Hy.
      apply list_elem_of_In. exact Hx. }
    assert (Hpl : place cmp y done = done ++ [y]).
    { unfold place. rewrite Hsp. reflexivity. }
    cbn [all_quiet placed]. rewrite Hpl.
    destruct (IH (done ++ [y]) Hrest) as [Hq Hp].
    split; [split; [|exact Hq]|].
    + unfold quiet. rewrite Hsp. constructor.
    + rewrite Hp, <- app_assoc. reflexivity.
Qed.

(** C9, amended.  Candidates without nodes of their own are inserted
    one by one into the same empty list slot for the same requester,
    with the sorting on.
    - When no insertion finds, behind the first candidate that the new
      one does not move past, a candidate it has to be swapped with
      (the third phase moves nothing), the final list is the one the
      advance phase alone builds: every candidate stands directly
      behind the longest run from the head of the list of candidates it
      compares "do swap" or "neutral" to.
    - That list is stable for distinct candidates and order values
      1 to 4: two candidates that compare neutral both ways, with no
      candidate between them strictly ordered against either, are in
      their arrival order.
    - In particular, when every candidate compares "do swap" or
      "neutral" to each candidate that arrived before it, the final
      list is the arrival order. *)
Theorem insert_stable_unless_moved (fuel : nat) (cs : list Z) (s : state) :
  slots s !! c = Some 0 -> aligned (brk s) -> 0 < brk s ->
  Forall ungrouped cs -> (length cs <= fuel)%nat ->
  (all_quiet cmp [] cs ->
   StableSpec.final_order objs slist bbox_sort fuel obj (Slot c) cs s
   = Some (placed cmp [] cs))
  /\ (List.NoDup cs -> in_range cmp cs -> stable cmp cs (placed cmp [] cs))
  /\ ((forall (i j : nat) x y, cs !! i = Some x -> cs !! j = Some y -> (i < j)%nat ->
                               cmp y x = 2 \/ cmp y x = 3) ->
      all_quiet cmp [] cs /\ placed cmp [] cs = cs).
Proof.
  intros Hs Hab Hb0 Hu Hf. split; [|split].
  - intros Hq.
    assert (Hh : holds s [] []).
    { unfold StableSpec.holds. cbn [hd lseg map]. repeat split; try assumption. constructor. }
    assert (Ht : tail_ok (elems s) []) by (intros a Ha; discriminate).
    destruct (insert_each_quiet fuel cs s [] [] Hh Ht Hu Hq) as [s' [l' [E' [H' _]]]];
      [cbn [length]; lia|].
    destruct H' as [Hs' [Hl' [Hal' [_ [_ Hmap']]]]].
    unfold StableSpec.final_order. rewrite E'. rewrite (load_slot_eq c s' _ Hs').
    assert (Hh' : aligned (hd 0 l')).
    { destruct l' as [|a l'']; [apply aligned_0|]. inversion Hal' as [|? ? [Ha _] _]. exact Ha. }
    rewrite (untag_aligned _ Hh').
    rewrite (StableSpec.read_temps_lseg (elems s') l' (hd 0 l') fuel Hl').
    + rewrite Hmap'. reflexivity.
    + rewrite <- (length_map (fld temp (elems s'))), Hmap', placed_length. cbn [length]. lia.
  - intros Hnd Hr. apply placed_stable; assumption.
  - intros Hp. apply (arrives_quiet cs []).
    apply StableSpec.arrives_ok_pairs. exact Hp.
Qed.

End Quiet.

(** Three surfaces of which the third is in front of the second, every
    other pair neutral. *)
Definition one_strict (obj a b : Z) : Z :=
  match a, b with
  | 3, 2 => 1
  | 2, 3 => 2
  | _, _ => 3
  end.

Lemma insert_stable_unless_moved_witness :
  StableSpec.final_order StableSpec.five_objs 0 one_strict 8 100 (Slot (Local 0)) [1; 2; 3]
                         StableSpec.empty_list
  = Some [1; 3; 2]
  /\ stable (one_strict 100) [1; 2; 3] [1; 3; 2].
Proof.
  destruct (insert_stable_unless_moved StableSpec.five_objs 0 one_strict 100 (Local 0) 8
              [1; 2; 3] StableSpec.empty_list) as [A [B _]].
  - reflexivity.
  - reflexivity.
  - reflexivity.
  - repeat (apply List.Forall_cons;
            [split; [lia | eexists; split; [reflexivity | split; left; reflexivity]]|]).
    apply List.Forall_nil.
  - cbn. lia.
  - split.
    + apply A. cbn. repeat split; repeat constructor; cbn; lia.
    + apply B.
      * repeat constructor; cbn; intuition lia.
      * intros x y Hx Hy. cbn in Hx, Hy.
        destruct Hx as [<-|[<-|[<-|[]]]], Hy as [<-|[<-|[<-|[]]]]; cbn; lia.
Defined.

End QuietSpec.

(** ** filter: a second call *)

Module FilterSpec.
Import Mem Engine MemFacts ListFacts SortSpec.

Section Flat.

Variable objs : gmap Z Object.

(** The element at [a] holds an object that is no array. *)
Definition flat_elem (h : gmap Z ELEM) (a : Z) : Prop :=
  exists e o, h !! a = Some e /\ objs !! temp e = Some o /\ RT_IS_ARRAY o = false.

(** The element at [a], if it holds a surface, is as [filter] leaves it. *)
Definition clean_elem (h : gmap Z ELEM) (a : Z) : Prop :=
  forall e o, h !! a = Some e -> objs !! temp e = Some o -> RT_IS_SURFACE o = true ->
              data e = 0 /\ simd e = s_srf o.

Definition is_surface (h : gmap Z ELEM) (a : Z) : bool :=
  match objs !! fld temp h a with Some o => RT_IS_SURFACE o | None => false end.

(** The last element of [l] that holds a surface, [elm] if there is none. *)
Fixpoint last_leaf (h : gmap Z ELEM) (l : list Z) (elm : Z) : Z :=
  match l with
  | [] => elm
  | a :: l' => last_leaf h l' (if is_surface h a then a else elm)
  end.

Lemma last_leaf_same (h h' : gmap Z ELEM) (l : list Z) (elm : Z) :
  same_temps h h' -> last_leaf h' l elm = last_leaf h l elm.
Proof.
  intros H. revert elm. induction l as [|a l IH]; intros elm; [reflexivity|].
  cbn [last_leaf]. unfold is_surface. rewrite H. apply IH.
Qed.

Lemma flat_elem_frame (h h' : gmap Z ELEM) (a : Z) :
  h' !! a = h !! a -> flat_elem h a -> flat_elem h' a.
Proof. intros E [e [o [He H]]]. exists e, o. rewrite E. split; assumption. Qed.

Lemma clean_elem_frame (h h' : gmap Z ELEM) (a : Z) :
  h' !! a = h !! a -> clean_elem h a -> clean_elem h' a.
Proof. intros E H e o He. apply H. rewrite <- E. exact He. Qed.

Lemma filter_loop_flat (l : list Z) :
  forall (p elm : Z) (s : state) (fuel : nat),
    lseg (elems s) p l 0 -> Forall (flat_elem (elems s)) l -> (length l <= fuel)%nat ->
    exists s', filter_loop objs fuel p elm s = Ok (last_leaf (elems s) l elm) s'
               /\ lseg (elems s') p l 0
               /\ Forall (flat_elem (elems s')) l
               /\ Forall (clean_elem (elems s')) l
               /\ same_temps (elems s) (elems s')
               /\ (forall b, ~ In b l -> elems s' !! b = elems s !! b)
               /\ slots s' = slots s /\ brk s' = brk s.
Proof.
  induction l as [|a l IH]; intros p elm s fuel Hl Hfl Hf.
  - cbn [lseg] in Hl. subst p. exists s. split; [destruct fuel; reflexivity|].
    cbn [lseg]. repeat split; try constructor.
  - pose proof (lseg_NoDup _ _ _ Hl) as Hnd. inversion Hnd as [|? ? Hna Hnd']; subst.
    cbn [lseg] in Hl. destruct Hl as [-> [Ha [e [He Hl]]]].
    inversion Hfl as [|? ? [e0 [o [He0 [Ho Harr]]]] Hfl']; subst.
    rewrite He in He0. injection He0 as <-.
    destruct fuel as [|f]; [cbn in Hf; lia|]. cbn [length] in Hf.
    cbn [filter_loop]. destruct (a =? 0) eqn:Ea; [lia|].
    rewrite bind_unfold, (rd_eq temp a s e He).
    rewrite bind_unfold. unfold deref at 1. rewrite Ho.
    cbn [last_leaf]. unfold is_surface at 1. rewrite (fld_eq temp _ _ _ He), Ho.
    destruct (RT_IS_SURFACE o) eqn:Hsf.
    + rewrite bind_unfold, (wr_eq set_data a 0 s e He).
      rewrite bind_unfold. erewrite wr_eq by (cbn [elems]; apply lookup_insert_eq).
      cbn [elems slots brk]. rewrite insert_insert_eq.
      set (e1 := set_simd (s_srf o) (set_data 0 e)).
      set (s1 := mkState _ _ _).
      assert (He1 : elems s1 !! a = Some e1) by apply lookup_insert_eq.
      rewrite bind_unfold, (rd_eq next a s1 e1 He1). change (next e1) with (next e).
      assert (Hl1 : lseg (elems s1) (next e) l 0) by (apply lseg_insert_notin; assumption).
      assert (Hfl1 : Forall (flat_elem (elems s1)) l).
      { rewrite Forall_forall in Hfl' |- *. intros b Hb. eapply flat_elem_frame; [|apply Hfl', Hb].
        cbn [elems s1]. apply lookup_insert_ne. intros <-. apply list_elem_of_In in Hb. contradiction. }
      destruct (IH (next e) a s1 f Hl1 Hfl1) as [s' [E' [L' [F' [C' [T' [R' [S' B']]]]]]]]; [lia|].
      assert (Ht1 : same_temps (elems s) (elems s1)).
      { apply (same_temps_insert _ _ e e1 He). reflexivity. }
      exists s'. split; [rewrite E'; f_equal; apply last_leaf_same; exact Ht1|].
      assert (Ha' : elems s' !! a = Some e1) by (rewrite (R' a Hna); exact He1).
      split; [cbn [lseg]; split; [reflexivity|]; split; [exact Ha|]; exists e1; split; assumption|].
      split; [constructor; [exists e1, o; repeat split; assumption | exact F']|].
      split.
      { constructor; [|exact C']. intros e2 o2 He2 Ho2 _. rewrite Ha' in He2. injection He2 as <-.
        change (temp e1) with (temp e) in Ho2. rewrite Ho in Ho2. injection Ho2 as <-.
        split; reflexivity. }
      split; [eapply same_temps_trans; eassumption|].
      split; [|split; [rewrite S'; reflexivity | rewrite B'; reflexivity]].
      intros b Hb. rewrite R' by (intros Hin; apply Hb; right; exact Hin).
      cbn [elems s1]. apply lookup_insert_ne. intros <-. apply Hb. left. reflexivity.
    + rewrite Harr.
      rewrite bind_unfold, (rd_eq next a s e He).
      destruct (IH (next e) elm s f Hl Hfl') as [s' [E' [L' [F' [C' [T' [R' [S' B']]]]]]]]; [lia|].
      exists s'. split; [exact E'|].
      assert (Ha' : elems s' !! a = Some e) by (rewrite (R' a Hna); exact He).
      split; [cbn [lseg]; split; [reflexivity|]; split; [exact Ha|]; exists e; split; assumption|].
      split; [constructor; [exists e, o; repeat split; assumption | exact F']|].
      split.
      { constructor; [|exact C']. intros e2 o2 He2 Ho2 Hs2. rewrite Ha' in He2. injection He2 as <-.
        rewrite Ho in Ho2. injection Ho2 as <-. congruence. }
      split; [exact T'|]. split; [|split; assumption].
      intros b Hb. apply R'. intros Hin. apply Hb. right. exact Hin.
Qed.

Lemma state_eta (s : state) : mkState (elems s) (slots s) (brk s) = s.
Proof. destruct s. reflexivity. Qed.

Lemma filter_loop_clean (l : list Z) :
  forall (p elm : Z) (s : state) (fuel : nat),
    lseg (elems s) p l 0 -> Forall (flat_elem (elems s)) l -> Forall (clean_elem (elems s)) l ->
    (length l <= fuel)%nat ->
    filter_loop objs fuel p elm s = Ok (last_leaf (elems s) l elm) s.
Proof.
  induction l as [|a l IH]; intros p elm s fuel Hl Hfl Hcl Hf.
  - cbn [lseg] in Hl. subst p. destruct fuel; reflexivity.
  - cbn [lseg] in Hl. destruct Hl as [-> [Ha [e [He Hl]]]].
    inversion Hfl as [|? ? [e0 [o [He0 [Ho Harr]]]] Hfl']; subst.
    inversion Hcl as [|? ? Hca Hcl']; subst.
    rewrite He in He0. injection He0 as <-.
    destruct fuel as [|f]; [cbn in Hf; lia|]. cbn [length] in Hf.
    cbn [filter_loop]. destruct (a =? 0) eqn:Ea; [lia|].
    rewrite bind_unfold, (rd_eq temp a s e He).
    rewrite bind_unfold. unfold deref at 1. rewrite Ho.
    cbn [last_leaf]. unfold is_surface at 1. rewrite (fld_eq temp _ _ _ He), Ho.
    destruct (RT_IS_SURFACE o) eqn:Hsf.
    + destruct (Hca e o He Ho Hsf) as [Hd Hs].
      assert (Hid : set_data 0 e = e).
      { rewrite <- Hd. destruct e; reflexivity. }
      assert (Hid2 : set_simd (s_srf o) e = e).
      { rewrite <- Hs. destruct e; reflexivity. }
      rewrite bind_unfold, (wr_eq set_data a 0 s e He), Hid, (insert_id _ _ _ He), state_eta.
      rewrite bind_unfold, (wr_eq set_simd a _ s e He), Hid2, (insert_id _ _ _ He), state_eta.
      rewrite bind_unfold, (rd_eq next a s e He).
      apply IH; try assumption. lia.
    + rewrite Harr. rewrite bind_unfold, (rd_eq next a s e He).
      apply IH; try assumption. lia.
Qed.

Lemma hval_frame (s s' : state) (p : loc) (l : list Z) :
  outside s p l -> slots s' = slots s ->
  (forall b, ~ In b l -> elems s' !! b = elems s !! b) ->
  hval s' p = hval s p.
Proof.
  intros Ho Hs Hr. unfold hval.
  destruct p as [c | a | a | a]; cbn [outside load] in *; unfold rd.
  - rewrite Hs. destruct (slots s !! c); reflexivity.
  - destruct Ho as [Hn _]. rewrite (Hr a Hn). destruct (elems s !! a); reflexivity.
  - destruct Ho as [Hn _]. rewrite (Hr a Hn). destruct (elems s !! a); reflexivity.
  - destruct Ho as [Hn _]. rewrite (Hr a Hn). destruct (elems s !! a); reflexivity.
Qed.

(** C2, amended: on a list without array nodes, [filter] called a
    second time returns what the first call returned and leaves the
    store exactly as the first call left it. *)
Theorem filter_idempotent_flat (fuel : nat) (obj : Z) (ptr : loc) (s : state)
        (l : list Z) (v : Z) :
  hval s ptr = Some v -> untag v = hd 0 l ->
  lseg (elems s) (hd 0 l) l 0 -> outside s ptr l ->
  Forall (flat_elem (elems s)) l -> (length l <= fuel)%nat ->
  exists r s1,
    filter objs fuel obj (Some ptr) s = Ok r s1
    /\ filter objs fuel obj (Some ptr) s1 = Ok r s1.
Proof.
  intros Hv Hu Hl Ho Hfl Hf.
  destruct (filter_loop_flat l (hd 0 l) 0 s fuel Hl Hfl Hf)
    as [s1 [E1 [L1 [F1 [C1 [T1 [R1 [S1 B1]]]]]]]].
  exists (last_leaf (elems s) l 0), s1. unfold filter.
  split.
  - rewrite bind_unfold, (hval_load s ptr v Hv), Hu. exact E1.
  - assert (Hv1 : hval s1 ptr = Some v) by (rewrite (hval_frame s s1 ptr l Ho S1 R1); exact Hv).
    rewrite bind_unfold, (hval_load s1 ptr v Hv1), Hu.
    rewrite (filter_loop_clean l (hd 0 l) 0 s1 fuel L1 F1 C1 Hf).
    f_equal. apply last_leaf_same. exact T1.
Qed.

End Flat.

(** The claim at one list: a second call changes nothing. *)
Definition filter_noop_after (objs : gmap Z Object) (fuel : nat) (obj : Z) (ptr : loc)
           (first : M Z) (s : state) : Prop :=
  forall r s1, first s = Ok r s1 -> filter objs fuel obj (Some ptr) s1 = Ok r s1.

(** A camera, an array and two surfaces, the first of which has the
    array as its trnode. *)
Definition node_objs : gmap Z Object :=
  list_to_map
    [ (100, mkObject CAMERA 0 0 0 0 0);
      (10, mkObject ARRAY 0 0 0 1000 0);
      (1, mkObject SURFACE 10 10 0 1100 0);
      (2, mkObject SURFACE 0 0 0 1200 0) ].
Definition any_sort (obj a b : Z) : Z := 3.
Definition no_list : state := mkState ∅ {[ Local 0 := 0 ]} 4096.

(** Two linked elements for the surfaces 2 and 1, with order values left
    by the sorting. *)
Definition flat_state : state :=
  mkState (list_to_map [(16, mkELEM 32 3 0 2); (32, mkELEM 0 1 0 1)]) {[ Local 0 := 16 ]} 64.

Lemma filter_idempotent_flat_witness :
  exists r s1,
    filter node_objs 4 100 (Some (Slot (Local 0))) flat_state = Ok r s1
    /\ filter node_objs 4 100 (Some (Slot (Local 0))) s1 = Ok r s1.
Proof.
  apply (filter_idempotent_flat node_objs 4 100 (Slot (Local 0)) flat_state [16; 32] 16).
  - reflexivity.
  - reflexivity.
  - cbn [hd lseg]. split; [reflexivity|]. split; [lia|].
    exists (mkELEM 32 3 0 2). split; [reflexivity|]. cbn [next].
    split; [reflexivity|]. split; [lia|].
    exists (mkELEM 0 1 0 1). split; reflexivity.
  - exists 16. reflexivity.
  - constructor; [|constructor; [|constructor]].
    + exists (mkELEM 32 3 0 2), (mkObject SURFACE 0 0 0 1200 0). repeat split.
    + exists (mkELEM 0 1 0 1), (mkObject SURFACE 10 10 0 1100 0). repeat split.
  - cbn. lia.
Defined.

(** C2 as claimed fails on a list with an array node: [insert] of the
    surface 1 for the camera makes an element for the array 10 with the
    surface's element as its sub-list; the first [filter] returns, and
    stores the array's backend descriptor in the node element's [simd];
    the second [filter] follows that field as if it still were the
    sub-list's head. *)
Lemma filter_not_idempotent :
  ~ filter_noop_after node_objs 8 100 (Slot (Local 0))
      (insert node_objs 0 true any_sort 8 100 (Slot (Local 0)) 1;;
       filter node_objs 8 100 (Some (Slot (Local 0))))
      no_list.
Proof.
  intros H.
  assert (E1 : match (insert node_objs 0 true any_sort 8 100 (Slot (Local 0)) 1;;
                      filter node_objs 8 100 (Some (Slot (Local 0)))) no_list with
               | Ok r s1 => match filter node_objs 8 100 (Some (Slot (Local 0))) s1 with
                            | Fault => true
                            | _ => false
                            end
               | _ => false
               end = true) by (vm_compute; reflexivity).
  destruct ((insert node_objs 0 true any_sort 8 100 (Slot (Local 0)) 1;;
             filter node_objs 8 100 (Some (Slot (Local 0)))) no_list) as [r s1 | | |] eqn:E.
  - rewrite (H r s1 E) in E1. discriminate E1.
  - discriminate E1.
  - discriminate E1.
  - discriminate E1.
Qed.

End FilterSpec.

(** ** render: the tile lists keep the order of the surface list *)

Module GridSpec.
Import Mem Engine Grid MemFacts ListFacts SortSpec.

Section Order.

Variable objs : gmap Z Object.
Variable tiles_in_row tiles_in_col : Z.

Local Abbreviation N := (tiles_in_row * tiles_in_col).

(** The tile an element of a surface's tile list stands for. *)
Definition tidx (h : gmap Z ELEM) (a : Z) : Z :=
  tile_row (fld data h a) * tiles_in_row + tile_col (fld data h a).

(** The object is known and no array. *)
Definition nonarr (x : Z) : bool :=
  match objs !! x with Some o => negb (RT_IS_ARRAY o) | None => false end.

(** The objects of the elements [l] that are no arrays, in list order. *)
Definition leaves (h : gmap Z ELEM) (l : list Z) : list Z :=
  List.filter nonarr (map (fld temp h) l).

Definition upd {A} (T : Z -> A) (t : Z) (v : A) : Z -> A :=
  fun t' => if t' =? t then v else T t'.

(** The grid while the surfaces are merged in: [P] are the elements
    not yet touched (they are as in [s0]), [T t] the elements of the
    list of the tile [t] and [E t] that list's objects other than
    arrays. *)
Definition tiles_inv (s0 s : state) (P : list Z) (T E : Z -> list Z) : Prop :=
  List.NoDup P
  /\ (forall a, In a P -> elems s !! a = elems s0 !! a /\ a < brk s)
  /\ (forall x i, slots s !! MscP x i = slots s0 !! MscP x i)
  /\ 0 < brk s
  /\ (forall t, 0 <= t < N ->
        slots s !! Tile t = Some (hd 0 (T t))
        /\ lseg (elems s) (hd 0 (T t)) (T t) 0
        /\ leaves (elems s) (T t) = E t
        /\ forall a, In a (T t) ->
             ~ In a P /\ a < brk s /\ forall t', 0 <= t' < N -> t' <> t -> ~ In a (T t')).

Lemma tiles_inv_sub (s0 s : state) (P P' : list Z) (T E : Z -> list Z) :
  List.NoDup P' -> incl P' P -> tiles_inv s0 s P T E -> tiles_inv s0 s P' T E.
Proof.
  intros Hnd Hi [_ [HF [HS [HB HT]]]].
  split; [exact Hnd|]. split; [intros a Ha; apply HF, Hi, Ha|].
  split; [exact HS|]. split; [exact HB|].
  intros t Ht. destruct (HT t Ht) as [H1 [H2 [H3 H4]]].
  split; [exact H1|]. split; [exact H2|]. split; [exact H3|].
  intros a Ha. destruct (H4 a Ha) as [H5 H6]. split; [|exact H6].
  intros Hin. apply H5, Hi, Hin.
Qed.

Lemma tiles_inv_ext (s0 s : state) (P : list Z) (T E E' : Z -> list Z) :
  (forall t, E t = E' t) -> tiles_inv s0 s P T E -> tiles_inv s0 s P T E'.
Proof.
  intros He [Hnd [HF [HS [HB HT]]]].
  split; [exact Hnd|]. split; [exact HF|]. split; [exact HS|]. split; [exact HB|].
  intros t Ht. destruct (HT t Ht) as [H1 [H2 [H3 H4]]].
  split; [exact H1|]. split; [exact H2|]. split; [rewrite <- He; exact H3 | exact H4].
Qed.

Lemma leaves_frame (h h' : gmap Z ELEM) (l : list Z) :
  (forall a, In a l -> h' !! a = h !! a) -> leaves h' l = leaves h l.
Proof.
  intros H. unfold leaves. f_equal. apply map_ext_in. intros a Ha.
  unfold fld. rewrite (H a Ha). reflexivity.
Qed.

Lemma lseg_same (h h' : gmap Z ELEM) (p : Z) (l : list Z) (q : Z) :
  (forall a, In a l -> h' !! a = h !! a) -> lseg h p l q -> lseg h' p l q.
Proof.
  intros H. apply lseg_frame. intros a e Ha He. exists e. rewrite (H a Ha).
  split; [exact He | reflexivity].
Qed.

(** The list of one tile is replaced by [l'], made of the element [a]
    taken from the untouched ones, elements the list had, and possibly
    the element just allocated. *)
Lemma tiles_inv_update (s0 s s' : state) (a : Z) (P : list Z) (T E : Z -> list Z)
      (t0 : Z) (l' E' : list Z) :
  tiles_inv s0 s (a :: P) T E ->
  0 <= t0 < N ->
  (forall b, b <> a -> ~ In b (T t0) -> b <> brk s -> elems s' !! b = elems s !! b) ->
  slots s' = <[Tile t0 := hd 0 l']> (slots s) ->
  brk s <= brk s' ->
  lseg (elems s') (hd 0 l') l' 0 ->
  leaves (elems s') l' = E' ->
  (forall b, In b l' -> b = a \/ In b (T t0) \/ (b = brk s /\ brk s < brk s')) ->
  tiles_inv s0 s' P (upd T t0 l') (upd E t0 E').
Proof.
  intros [Hnd [HF [HS [HB HT]]]] Ht0 Hfr Hsl Hbrk Hl' HE' Hin'.
  apply List.NoDup_cons_iff in Hnd. destruct Hnd as [HaP HndP].
  destruct (HT t0 Ht0) as [_ [_ [_ H40]]].
  assert (HPfr : forall b, In b P -> elems s' !! b = elems s !! b).
  { intros b Hb. destruct (HF b (or_intror Hb)) as [_ Hlt]. apply Hfr.
    - intros ->. contradiction.
    - intros Hc. destruct (H40 b Hc) as [Hn _]. apply Hn. right. exact Hb.
    - lia. }
  split; [exact HndP|].
  split.
  { intros b Hb. rewrite (HPfr b Hb). destruct (HF b (or_intror Hb)) as [H1 H2].
    split; [exact H1 | lia]. }
  split; [intros x i; rewrite Hsl, lookup_insert_ne by discriminate; apply HS|].
  split; [lia|].
  intros t Ht. unfold upd. destruct (t =? t0) eqn:Et.
  - apply Z.eqb_eq in Et. subst t.
    split; [rewrite Hsl; apply lookup_insert_eq|]. split; [exact Hl'|]. split; [exact HE'|].
    intros b Hb. destruct (Hin' b Hb) as [-> | [Hb0 | [-> Hlt]]].
    + split; [exact HaP|]. destruct (HF a (or_introl eq_refl)) as [_ Hlt].
      split; [lia|]. intros t' Ht' Hne. destruct (t' =? t0) eqn:Et'; [lia|].
      intros Hc. destruct (HT t' Ht') as [_ [_ [_ H4]]]. destruct (H4 a Hc) as [Hn _].
      apply Hn. left. reflexivity.
    + destruct (H40 b Hb0) as [Hn [Hlt Hd]].
      split; [intros Hc; apply Hn; right; exact Hc|]. split; [lia|].
      intros t' Ht' Hne. destruct (t' =? t0) eqn:Et'; [lia|]. apply Hd; assumption.
    + split; [intros Hc; destruct (HF _ (or_intror Hc)); lia|]. split; [lia|].
      intros t' Ht' Hne. destruct (t' =? t0) eqn:Et'; [lia|].
      intros Hc. destruct (HT t' Ht') as [_ [_ [_ H4]]]. destruct (H4 _ Hc) as [_ [Hlt' _]]. lia.
  - apply Z.eqb_neq in Et. destruct (HT t Ht) as [H1 [H2 [H3 H4]]].
    assert (Hsame : forall b, In b (T t) -> elems s' !! b = elems s !! b).
    { intros b Hb. destruct (H4 b Hb) as [Hn [Hlt Hd]]. apply Hfr.
      - intros ->. apply Hn. left. reflexivity.
      - apply Hd; [exact Ht0 | lia].
      - lia. }
    split; [rewrite Hsl, lookup_insert_ne by congruence; exact H1|].
    split; [eapply lseg_same; eassumption|].
    split; [rewrite (leaves_frame _ _ _ Hsame); exact H3|].
    intros b Hb. destruct (H4 b Hb) as [Hn [Hlt Hd]].
    split; [intros Hc; apply Hn; right; exact Hc|]. split; [lia|].
    intros t' Ht' Hne. destruct (t' =? t0) eqn:Et'.
    + apply Z.eqb_eq in Et'. subst t'. intros Hc.
      destruct (Hin' b Hc) as [-> | [Hb0 | [-> _]]].
      * apply Hn. left. reflexivity.
      * destruct (H40 b Hb0) as [_ [_ Hd0]]. apply (Hd0 t Ht); [lia | exact Hb].
      * lia.
    + apply Hd; assumption.
Qed.

(** The body of the loops over a surface's tile list, from the point
    where the element's place in the grid is known. *)
Definition link_block (trnode : Z) (tile : loc) (tls : Z) : M unit :=
  if negb (trnode =? 0) then
    trn ← load tile;
    same ← (if trn =? 0 then mret false
            else t ← rd temp trn; mret (t =? trnode));
    if same : bool then
      tn ← rd next trn;
      wr set_next tls tn;;
      wr set_next trn tls
    else
      h ← load tile;
      wr set_next tls h;;
      store tile tls;;
      arr ← Grid.deref objs trnode;
      trn ← alloc;
      wr set_data trn tls;;
      wr set_simd trn (s_srf arr);;
      wr set_temp trn trnode;;
      h' ← load tile;
      wr set_next trn h';;
      store tile trn
  else
    h ← load tile;
    wr set_next tls h;;
    store tile tls.

Lemma merge_tiles_S (f : nat) (tr tls : Z) :
  merge_tiles objs tiles_in_row (S f) tr tls
  = if tls =? 0 then mret tt
    else d ← rd data tls;
         nxt ← rd next tls;
         wr set_data tls 0;;
         link_block tr (Slot (Tile (tile_row d * tiles_in_row + tile_col d))) tls;;
         merge_tiles objs tiles_in_row f tr nxt.
Proof. reflexivity. Qed.

Lemma lseg_hd (h : gmap Z ELEM) (p : Z) (l : list Z) : lseg h p l 0 -> p = hd 0 l.
Proof. destruct l; cbn [lseg hd]; [auto | intros [H _]; exact H]. Qed.

Lemma leaves_cons (h : gmap Z ELEM) (a : Z) (l : list Z) :
  leaves h (a :: l) = if nonarr (fld temp h a) then fld temp h a :: leaves h l else leaves h l.
Proof. reflexivity. Qed.

Lemma link_plain (s0 s : state) (a : Z) (e0 : ELEM) (P : list Z) (T E : Z -> list Z) (t0 : Z) :
  tiles_inv s0 s (a :: P) T E -> 0 <= t0 < N ->
  elems s !! a = Some e0 -> nonarr (temp e0) = true -> a <> 0 ->
  exists s3 l',
    link_block 0 (Slot (Tile t0)) a
               (mkState (<[a := set_data 0 e0]> (elems s)) (slots s) (brk s)) = Ok tt s3
    /\ tiles_inv s0 s3 P (upd T t0 l') (upd E t0 (temp e0 :: E t0)).
Proof.
  intros Hinv Ht0 He Hx Ha.
  pose proof Hinv as [Hnd [HF [HS [HB HT]]]].
  destruct (HT t0 Ht0) as [H1 [H2 [H3 H4]]].
  assert (HaT : ~ In a (T t0)).
  { intros Hc. destruct (H4 a Hc) as [Hn _]. apply Hn. left. reflexivity. }
  unfold link_block. change (negb (0 =? 0)) with false. cbv iota.
  rewrite bind_unfold, (load_slot_eq (Tile t0) _ (hd 0 (T t0))) by exact H1.
  rewrite bind_unfold. erewrite wr_eq by (cbn [elems]; apply lookup_insert_eq).
  cbn [elems slots brk]. rewrite insert_insert_eq.
  rewrite store_slot_eq by (cbn [slots]; eexists; exact H1).
  cbn [elems slots brk].
  set (e1 := set_next (hd 0 (T t0)) (set_data 0 e0)).
  eexists. exists (a :: T t0). split; [reflexivity|].
  apply (tiles_inv_update s0 s _ a P T E t0 (a :: T t0) (temp e0 :: E t0) Hinv Ht0).
  - intros b Hb _ _. cbn [elems]. apply lookup_insert_ne. congruence.
  - reflexivity.
  - cbn [brk]. lia.
  - cbn [hd lseg elems]. split; [reflexivity|]. split; [exact Ha|].
    exists e1. split; [apply lookup_insert_eq|]. cbn [next e1 set_next].
    apply lseg_insert_notin; assumption.
  - cbn [elems]. rewrite leaves_cons. rewrite (fld_eq temp _ a e1) by apply lookup_insert_eq.
    change (temp e1) with (temp e0). rewrite Hx. f_equal.
    rewrite <- H3. apply leaves_frame. intros b Hb. apply lookup_insert_ne. intros <-. contradiction.
  - intros b [<- | Hb]; [left; reflexivity | right; left; exact Hb].
Qed.

Lemma link_new_node (s0 s : state) (a tr : Z) (e0 : ELEM) (arr : Object) (P : list Z)
      (T E : Z -> list Z) (t0 : Z) :
  tiles_inv s0 s (a :: P) T E -> 0 <= t0 < N ->
  elems s !! a = Some e0 -> nonarr (temp e0) = true -> a <> 0 ->
  objs !! tr = Some arr -> RT_IS_ARRAY arr = true ->
  exists s3 l',
    (h ← load (Slot (Tile t0));
     wr set_next a h;;
     store (Slot (Tile t0)) a;;
     arr ← Grid.deref objs tr;
     trn ← alloc;
     wr set_data trn a;;
     wr set_simd trn (s_srf arr);;
     wr set_temp trn tr;;
     h' ← load (Slot (Tile t0));
     wr set_next trn h';;
     store (Slot (Tile t0)) trn)
      (mkState (<[a := set_data 0 e0]> (elems s)) (slots s) (brk s)) = Ok tt s3
    /\ tiles_inv s0 s3 P (upd T t0 l') (upd E t0 (temp e0 :: E t0)).
Proof.
  intros Hinv Ht0 He Hx Ha Harr Hisarr.
  pose proof Hinv as [Hnd [HF [HS [HB HT]]]].
  destruct (HT t0 Ht0) as [H1 [H2 [H3 H4]]].
  assert (HaT : ~ In a (T t0)).
  { intros Hc. destruct (H4 a Hc) as [Hn _]. apply Hn. left. reflexivity. }
  destruct (HF a (or_introl eq_refl)) as [_ Halt].
  rewrite bind_unfold, (load_slot_eq (Tile t0) _ (hd 0 (T t0))) by exact H1.
  rewrite bind_unfold. erewrite wr_eq by (cbn [elems]; apply lookup_insert_eq).
  cbn [elems slots brk]. rewrite insert_insert_eq.
  rewrite bind_unfold, store_slot_eq by (cbn [slots]; eexists; exact H1).
  cbn [elems slots brk].
  rewrite bind_unfold. unfold Grid.deref at 1. rewrite Harr.
  rewrite new_elem. cbn [elems slots brk].
  rewrite bind_unfold, (load_slot_eq (Tile t0) _ a) by (cbn [slots]; apply lookup_insert_eq).
  rewrite bind_unfold. erewrite wr_eq by (cbn [elems]; apply lookup_insert_eq).
  cbn [elems slots brk]. rewrite insert_insert_eq.
  rewrite store_slot_eq by (cbn [slots]; rewrite lookup_insert_eq; eexists; reflexivity).
  cbn [elems slots brk]. rewrite insert_insert_eq.
  set (e1 := set_next (hd 0 (T t0)) (set_data 0 e0)).
  set (en := set_next a (mkELEM 0 a (s_srf arr) tr)).
  eexists. exists (brk s :: a :: T t0). split; [reflexivity|].
  assert (Hab : a <> brk s) by lia.
  assert (Htail : forall b, In b (T t0) ->
            <[brk s := en]> (<[a := e1]> (elems s)) !! b = elems s !! b).
  { intros b Hb. destruct (H4 b Hb) as [_ [Hlt _]].
    rewrite lookup_insert_ne by lia. apply lookup_insert_ne. intros <-. contradiction. }
  apply (tiles_inv_update s0 s _ a P T E t0 (brk s :: a :: T t0) (temp e0 :: E t0) Hinv Ht0).
  - intros b Hb _ Hb'. cbn [elems]. rewrite lookup_insert_ne by congruence.
    apply lookup_insert_ne. congruence.
  - reflexivity.
  - cbn [brk]. unfold sizeof_ELEM. lia.
  - cbn [hd lseg elems]. split; [reflexivity|]. split; [lia|].
    exists en. split; [apply lookup_insert_eq|]. cbn [next en set_next].
    split; [reflexivity|]. split; [exact Ha|].
    exists e1. split; [rewrite lookup_insert_ne by congruence; apply lookup_insert_eq|].
    cbn [next e1 set_next]. eapply lseg_same; [exact Htail | exact H2].
  - cbn [elems]. rewrite !leaves_cons.
    rewrite (fld_eq temp _ (brk s) en) by apply lookup_insert_eq.
    change (temp en) with tr.
    assert (Hna : nonarr tr = false) by (unfold nonarr; rewrite Harr, Hisarr; reflexivity).
    rewrite Hna.
    rewrite (fld_eq temp _ a e1) by (rewrite lookup_insert_ne by congruence; apply lookup_insert_eq).
    change (temp e1) with (temp e0). rewrite Hx. f_equal.
    rewrite <- H3. apply leaves_frame. exact Htail.
  - intros b [<- | [<- | Hb]].
    + right. right. cbn [brk]. unfold sizeof_ELEM. split; [reflexivity | lia].
    + left. reflexivity.
    + right. left. exact Hb.
Qed.

Lemma link_node (s0 s : state) (a tr : Z) (e0 : ELEM) (arr : Object) (P : list Z)
      (T E : Z -> list Z) (t0 : Z) :
  tiles_inv s0 s (a :: P) T E -> 0 <= t0 < N ->
  elems s !! a = Some e0 -> nonarr (temp e0) = true -> a <> 0 ->
  tr <> 0 -> objs !! tr = Some arr -> RT_IS_ARRAY arr = true ->
  exists s3 l',
    link_block tr (Slot (Tile t0)) a
               (mkState (<[a := set_data 0 e0]> (elems s)) (slots s) (brk s)) = Ok tt s3
    /\ tiles_inv s0 s3 P (upd T t0 l') (upd E t0 (temp e0 :: E t0)).
Proof.
  intros Hinv Ht0 He Hx Ha Htr Harr Hisarr.
  pose proof Hinv as [Hnd [HF [HS [HB HT]]]].
  destruct (HT t0 Ht0) as [H1 [H2 [H3 H4]]].
  assert (HaT : ~ In a (T t0)).
  { intros Hc. destruct (H4 a Hc) as [Hn _]. apply Hn. left. reflexivity. }
  unfold link_block. destruct (tr =? 0) eqn:Etr; [lia|]. cbn [negb].
  rewrite bind_unfold, (load_slot_eq (Tile t0) _ (hd 0 (T t0))) by exact H1.
  rewrite bind_unfold.
  destruct (T t0) as [|h tail] eqn:ET.
  - cbn [hd]. change (0 =? 0) with true. cbv iota. rewrite ret_unfold.
    apply (link_new_node s0 s a tr e0 arr P T E t0); assumption.
  - cbn [hd]. pose proof (lseg_NoDup _ _ _ H2) as HndT.
    cbn [hd lseg] in H2. destruct H2 as [_ [Hh0 [eh [Heh H2]]]].
    destruct (h =? 0) eqn:Eh; [lia|].
    assert (Hha : h <> a) by (intros ->; apply HaT; left; reflexivity).
    rewrite bind_unfold. erewrite rd_eq by (cbn [elems]; rewrite lookup_insert_ne by congruence; exact Heh).
    rewrite ret_unfold.
    destruct (temp eh =? tr) eqn:Esame.
    + apply Z.eqb_eq in Esame.
      rewrite bind_unfold. erewrite rd_eq by (cbn [elems]; rewrite lookup_insert_ne by congruence; exact Heh).
      rewrite bind_unfold. erewrite wr_eq by (cbn [elems]; apply lookup_insert_eq).
      cbn [elems slots brk]. rewrite insert_insert_eq.
      erewrite wr_eq by (cbn [elems]; rewrite lookup_insert_ne by congruence; exact Heh).
      cbn [elems slots brk].
      set (e1 := set_next (next eh) (set_data 0 e0)).
      apply List.NoDup_cons_iff in HndT. destruct HndT as [Hht _].
      assert (Htail : forall b, In b tail ->
                <[h := set_next a eh]> (<[a := e1]> (elems s)) !! b = elems s !! b).
      { intros b Hb. rewrite lookup_insert_ne by (intros <-; contradiction).
        apply lookup_insert_ne. intros <-. apply HaT. right. exact Hb. }
      assert (Hna : nonarr tr = false) by (unfold nonarr; rewrite Harr, Hisarr; reflexivity).
      eexists. exists (h :: a :: tail). split; [reflexivity|].
      apply (tiles_inv_update s0 s _ a P T E t0 (h :: a :: tail) (temp e0 :: E t0) Hinv Ht0).
      * intros b Hb Hb' _. cbn [elems]. rewrite lookup_insert_ne.
        -- apply lookup_insert_ne. congruence.
        -- intros <-. apply Hb'. rewrite ET. left. reflexivity.
      * cbn [slots hd]. symmetry. apply insert_id. rewrite H1. reflexivity.
      * cbn [brk]. lia.
      * cbn [hd lseg elems]. split; [reflexivity|]. split; [exact Hh0|].
        eexists. split; [apply lookup_insert_eq|]. cbn [next set_next].
        split; [reflexivity|]. split; [exact Ha|].
        exists e1. split; [rewrite lookup_insert_ne by congruence; apply lookup_insert_eq|].
        cbn [next e1 set_next]. eapply lseg_same; [exact Htail | exact H2].
      * cbn [elems]. rewrite !leaves_cons.
        erewrite (fld_eq temp _ h) by apply lookup_insert_eq.
        cbn [temp set_next]. rewrite Esame, Hna.
        rewrite (fld_eq temp _ a e1) by (rewrite lookup_insert_ne by congruence; apply lookup_insert_eq).
        change (temp e1) with (temp e0). rewrite Hx. f_equal.
        rewrite <- H3, leaves_cons, (fld_eq temp _ h eh Heh), Esame, Hna.
        apply leaves_frame. exact Htail.
      * rewrite ET. intros b [<- | [<- | Hb]].
        -- right. left. left. reflexivity.
        -- left. reflexivity.
        -- right. left. right. exact Hb.
    + apply (link_new_node s0 s a tr e0 arr P T E t0); assumption.
Qed.

(** One entry [x] for every element of [tl] that stands for the tile [t]. *)
Definition hits (h0 : gmap Z ELEM) (x : Z) (tl : list Z) (t : Z) : list Z :=
  map (fun _ => x) (List.filter (fun a => tidx h0 a =? t) tl).

Lemma const_swap (x : Z) (l r : list Z) :
  map (fun _ : Z => x) l ++ x :: r = x :: map (fun _ : Z => x) l ++ r.
Proof. induction l as [|a l IH]; [reflexivity|]. cbn [map app]. rewrite IH. reflexivity. Qed.

Lemma merge_tiles_spec (s0 : state) (x tr : Z) :
  nonarr x = true ->
  (tr = 0 \/ (tr <> 0 /\ exists arr, objs !! tr = Some arr /\ RT_IS_ARRAY arr = true)) ->
  forall (tl : list Z) (s : state) (P : list Z) (T E : Z -> list Z) (fuel : nat),
    (length tl <= fuel)%nat ->
    lseg (elems s0) (hd 0 tl) tl 0 ->
    (forall a, In a tl -> fld temp (elems s0) a = x /\ 0 <= tidx (elems s0) a < N) ->
    tiles_inv s0 s (tl ++ P) T E ->
    exists s' T',
      merge_tiles objs tiles_in_row fuel tr (hd 0 tl) s = Ok tt s'
      /\ tiles_inv s0 s' P T' (fun t => hits (elems s0) x tl t ++ E t).
Proof.
  intros Hx Htr. induction tl as [|a tl IH]; intros s P T E fuel Hf Hl Hel Hinv.
  - exists s, T. split; [destruct fuel; reflexivity|].
    eapply tiles_inv_ext; [|exact Hinv]. reflexivity.
  - cbn [hd lseg] in Hl. destruct Hl as [_ [Ha [e0 [He0 Hl]]]].
    pose proof (lseg_hd _ _ _ Hl) as Hnx.
    destruct fuel as [|f]; [cbn in Hf; lia|]. cbn [length] in Hf.
    rewrite merge_tiles_S. cbn [hd]. destruct (a =? 0) eqn:Ea; [lia|].
    cbn [app] in Hinv.
    pose proof Hinv as [_ [HF _]]. destruct (HF a (or_introl eq_refl)) as [Hsa _].
    rewrite He0 in Hsa.
    rewrite bind_unfold, (rd_eq data a s e0 Hsa).
    rewrite bind_unfold, (rd_eq next a s e0 Hsa).
    rewrite bind_unfold, (wr_eq set_data a 0 s e0 Hsa).
    destruct (Hel a (or_introl eq_refl)) as [Hta Hra].
    assert (Et0 : tidx (elems s0) a = tile_row (data e0) * tiles_in_row + tile_col (data e0)).
    { unfold tidx. rewrite (fld_eq data _ _ _ He0). reflexivity. }
    rewrite <- Et0. set (t0 := tidx (elems s0) a) in *.
    rewrite (fld_eq temp _ _ _ He0) in Hta.
    assert (Hlink : exists s3 l',
               link_block tr (Slot (Tile t0)) a
                          (mkState (<[a := set_data 0 e0]> (elems s)) (slots s) (brk s)) = Ok tt s3
               /\ tiles_inv s0 s3 (tl ++ P) (upd T t0 l') (upd E t0 (temp e0 :: E t0))).
    { destruct Htr as [-> | [Htr0 [arr [Harr Hisarr]]]].
      - apply link_plain; try assumption. rewrite Hta. exact Hx.
      - apply (link_node s0 s a tr e0 arr); try assumption. rewrite Hta. exact Hx. }
    destruct Hlink as [s3 [l' [E3 Hinv3]]].
    rewrite bind_unfold, E3.
    destruct (IH s3 P _ _ f ltac:(lia) ltac:(rewrite <- Hnx; exact Hl)
                 (fun b Hb => Hel b (or_intror Hb)) Hinv3) as [s' [T' [E' Hinv']]].
    rewrite Hnx. exists s', T'. split; [exact E'|].
    eapply tiles_inv_ext; [|exact Hinv'].
    intros t. cbv beta. unfold hits, upd. cbn [List.filter]. fold t0.
    rewrite (Z.eqb_sym t t0). destruct (t0 =? t) eqn:Et.
    + apply Z.eqb_eq in Et. subst t. cbn [map]. rewrite Hta. apply const_swap.
    + reflexivity.
Qed.

(** What the assembler needs of the object [x] of a list element: it
    is known, and unless it is an array its tile list [TL x] is linked
    at [msc_p[0]], made of elements for [x] with a tile of the grid
    each, and its trnode (if it has one other than itself) is an array. *)
Definition tile_list_ok (s0 : state) (TL : Z -> list Z) (x : Z) : Prop :=
  exists o, objs !! x = Some o
    /\ (RT_IS_ARRAY o = false ->
         slots s0 !! MscP x 0 = Some (hd 0 (TL x))
         /\ lseg (elems s0) (hd 0 (TL x)) (TL x) 0
         /\ (forall a, In a (TL x) -> fld temp (elems s0) a = x /\ 0 <= tidx (elems s0) a < N)
         /\ (trnode o = 0 \/ trnode o = x
              \/ exists arr, objs !! trnode o = Some arr /\ RT_IS_ARRAY arr = true)).

Lemma assemble_loop_S (f : nat) (elm : Z) :
  assemble_loop objs tiles_in_row (S f) elm
  = if elm =? 0 then mret tt
    else t ← rd temp elm;
         obj ← Grid.deref objs t;
         (if RT_IS_ARRAY obj then mret tt
          else
            tls ← load (Slot (MscP t 0));
            if negb (trnode obj =? 0) && negb (trnode obj =? t)
            then merge_tiles objs tiles_in_row (S f) (trnode obj) tls
            else merge_tiles objs tiles_in_row (S f) 0 tls);;
         nn ← rd next elm;
         assemble_loop objs tiles_in_row f nn.
Proof. reflexivity. Qed.

Lemma assemble_loop_spec (s0 : state) (TL : Z -> list Z) :
  forall (C : list Z) (s : state) (T E : Z -> list Z) (fuel : nat),
    (length C <= fuel)%nat ->
    (forall c, In c C ->
       (length C + length (TL (fld temp (elems s0) c)) <= fuel)%nat
       /\ tile_list_ok s0 TL (fld temp (elems s0) c)) ->
    lseg (elems s0) (hd 0 C) C 0 ->
    tiles_inv s0 s (C ++ flat_map TL (leaves (elems s0) C)) T E ->
    exists s' T',
      assemble_loop objs tiles_in_row fuel (hd 0 C) s = Ok tt s'
      /\ tiles_inv s0 s' [] T'
           (fun t => flat_map (fun x => hits (elems s0) x (TL x) t) (rev (leaves (elems s0) C))
                     ++ E t).
Proof.
  induction C as [|c C IH]; intros s T E fuel Hf Hok Hl Hinv.
  - exists s, T. split; [destruct fuel; reflexivity|].
    eapply tiles_inv_ext; [|exact Hinv]. reflexivity.
  - cbn [hd lseg] in Hl. destruct Hl as [_ [Hc [ec [Hec Hl]]]].
    pose proof (lseg_hd _ _ _ Hl) as Hnx.
    destruct fuel as [|f]; [cbn in Hf; lia|]. cbn [length] in Hf.
    rewrite assemble_loop_S. cbn [hd]. destruct (c =? 0) eqn:Ec; [lia|].
    cbn [app] in Hinv.
    assert (Hsc : elems s !! c = Some ec).
    { destruct Hinv as [_ [HF _]]. destruct (HF c (or_introl eq_refl)) as [Hsc _].
      rewrite Hsc. exact Hec. }
    rewrite bind_unfold, (rd_eq temp c s ec Hsc).
    destruct (Hok c (or_introl eq_refl)) as [Hlen [o [Ho Hsurf]]].
    rewrite (fld_eq temp _ _ _ Hec) in Hlen, Ho, Hsurf.
    rewrite bind_unfold. unfold Grid.deref at 1. rewrite Ho.
    rewrite leaves_cons in Hinv |- *. rewrite (fld_eq temp _ _ _ Hec) in Hinv |- *.
    assert (Hrest : forall c', In c' C ->
              (length C + length (TL (fld temp (elems s0) c')) <= f)%nat
              /\ tile_list_ok s0 TL (fld temp (elems s0) c')).
    { intros c' Hc'. destruct (Hok c' (or_intror Hc')) as [H1 H2]. split; [|exact H2].
      cbn [length] in H1. lia. }
    unfold nonarr in Hinv |- *. rewrite Ho in Hinv |- *.
    destruct (RT_IS_ARRAY o) eqn:Harr; cbn [negb] in Hinv |- *.
    + rewrite bind_unfold, ret_unfold.
      rewrite bind_unfold, (rd_eq next c s ec Hsc), Hnx.
      apply (IH s T E f ltac:(lia) Hrest ltac:(rewrite <- Hnx; exact Hl)).
      pose proof Hinv as [Hnd _].
      apply List.NoDup_cons_iff in Hnd. destruct Hnd as [_ Hnd].
      eapply tiles_inv_sub; [exact Hnd | | exact Hinv].
      intros b Hb. right. exact Hb.
    + destruct (Hsurf eq_refl) as [Hslot [Htl [Hel Htr]]].
      set (x := temp ec) in *.
      cbn [flat_map] in Hinv.
      set (R := flat_map TL (leaves (elems s0) C)) in *.
      pose proof Hinv as [Hnd [_ [HS _]]].
      assert (Hx : nonarr x = true) by (unfold nonarr; rewrite Ho, Harr; reflexivity).
      assert (Hperm : Permutation (c :: C ++ TL x ++ R) (TL x ++ c :: C ++ R)).
      { apply (Permutation_app_swap_app (c :: C) (TL x) R). }
      assert (Hinv1 : tiles_inv s0 s (TL x ++ c :: C ++ R) T E).
      { eapply tiles_inv_sub; [| |exact Hinv].
        - eapply Permutation_NoDup; [exact Hperm | exact Hnd].
        - intros b Hb. eapply Permutation_in; [symmetry; exact Hperm | exact Hb]. }
      rewrite bind_unfold. rewrite bind_unfold.
      rewrite (load_slot_eq (MscP x 0) s (hd 0 (TL x))) by (rewrite HS; exact Hslot).
      assert (Hm : exists s1 T1,
                (if negb (trnode o =? 0) && negb (trnode o =? x)
                 then merge_tiles objs tiles_in_row (S f) (trnode o) (hd 0 (TL x))
                 else merge_tiles objs tiles_in_row (S f) 0 (hd 0 (TL x))) s = Ok tt s1
                /\ tiles_inv s0 s1 (c :: C ++ R) T1
                     (fun t => hits (elems s0) x (TL x) t ++ E t)).
      { destruct (negb (trnode o =? 0) && negb (trnode o =? x)) eqn:Eb.
        - apply andb_true_iff in Eb. destruct Eb as [E1 E2].
          apply negb_true_iff in E1, E2. apply Z.eqb_neq in E1, E2.
          assert (Htr' : trnode o = 0 \/ (trnode o <> 0 /\ exists arr,
                           objs !! trnode o = Some arr /\ RT_IS_ARRAY arr = true)).
          { right. split; [exact E1|].
            destruct Htr as [H|[H|H]]; [congruence | congruence | exact H]. }
          apply (merge_tiles_spec s0 x (trnode o) Hx Htr' (TL x) s (c :: C ++ R) T E (S f));
            try assumption. lia.
        - apply (merge_tiles_spec s0 x 0 Hx (or_introl eq_refl) (TL x) s (c :: C ++ R) T E (S f));
            try assumption. lia. }
      destruct Hm as [s1 [T1 [E1 Hinv2]]].
      rewrite E1.
      pose proof Hinv2 as [Hnd2 [HF2 _]]. destruct (HF2 c (or_introl eq_refl)) as [Hsc2 _].
      rewrite Hec in Hsc2.
      rewrite bind_unfold, (rd_eq next c s1 ec Hsc2), Hnx.
      destruct (IH s1 T1 (fun t => hits (elems s0) x (TL x) t ++ E t) f
                   ltac:(lia) Hrest ltac:(rewrite <- Hnx; exact Hl)) as [s' [T' [E' Hinv']]].
      { apply List.NoDup_cons_iff in Hnd2. destruct Hnd2 as [_ Hnd2].
        eapply tiles_inv_sub; [| |exact Hinv2].
        - apply (NoDup_app_remove_l (TL x)). apply (NoDup_app_remove_l [c]).
          eapply Permutation_NoDup; [|exact Hnd]. 
          change (c :: C ++ TL x ++ R) with ([c] ++ C ++ TL x ++ R).
          apply Permutation_app_head. apply Permutation_app_swap_app.
        - intros b Hb. apply in_app_or in Hb. destruct Hb as [Hb|Hb].
          + right. apply in_or_app. left. exact Hb.
          + right. apply in_or_app. right. exact Hb. }
      exists s', T'. split; [exact E'|].
      eapply tiles_inv_ext; [|exact Hinv'].
      intros t. cbv beta. cbn [rev]. rewrite flat_map_app. cbn [flat_map].
      rewrite app_nil_r, <- app_assoc. reflexivity.
Qed.

Lemma reverse_copy_spec (b0 : Z) :
  forall (L : list Z) (p stail : Z) (s : state) (acc : list Z) (fuel : nat),
    (length L <= fuel)%nat ->
    lseg (elems s) p L 0 -> (forall a, In a L -> a < b0) ->
    0 < b0 <= brk s ->
    lseg (elems s) stail acc 0 -> (forall a, In a acc -> b0 <= a < brk s) ->
    exists s' C,
      reverse_copy fuel p stail s = Ok (hd 0 C) s'
      /\ lseg (elems s') (hd 0 C) C 0
      /\ map (fld temp (elems s')) C
          = rev (map (fld temp (elems s)) L) ++ map (fld temp (elems s)) acc
      /\ (forall a, In a C -> b0 <= a < brk s')
      /\ (forall a, a < b0 -> elems s' !! a = elems s !! a)
      /\ slots s' = slots s /\ brk s <= brk s'.
Proof.
  induction L as [|a L IH]; intros p stail s acc fuel Hf Hl HL Hb Hacc Hin.
  - cbn [lseg] in Hl. subst p. exists s, acc.
    rewrite <- (lseg_hd _ _ _ Hacc).
    split; [destruct fuel; reflexivity|]. split; [exact Hacc|].
    split; [reflexivity|]. split; [exact Hin|]. split; [reflexivity|].
    split; [reflexivity | lia].
  - cbn [lseg] in Hl. destruct Hl as [-> [Ha [ea [Hea Hl]]]].
    destruct fuel as [|f]; [cbn in Hf; lia|]. cbn [length] in Hf.
    cbn [reverse_copy]. destruct (a =? 0) eqn:Ea; [lia|].
    pose proof (HL a (or_introl eq_refl)) as Hab.
    assert (Hne : brk s <> a) by lia.
    rewrite bind_unfold. unfold alloc at 1.
    rewrite bind_unfold. erewrite rd_eq by (cbn [elems]; rewrite lookup_insert_ne by exact Hne; exact Hea).
    rewrite bind_unfold. erewrite wr_eq by (cbn [elems]; apply lookup_insert_eq).
    cbn [elems slots brk]. rewrite insert_insert_eq.
    rewrite bind_unfold. erewrite rd_eq by (cbn [elems]; rewrite lookup_insert_ne by exact Hne; exact Hea).
    rewrite bind_unfold. erewrite wr_eq by (cbn [elems]; apply lookup_insert_eq).
    cbn [elems slots brk]. rewrite insert_insert_eq.
    rewrite bind_unfold. erewrite rd_eq by (cbn [elems]; rewrite lookup_insert_ne by exact Hne; exact Hea).
    rewrite bind_unfold. erewrite wr_eq by (cbn [elems]; apply lookup_insert_eq).
    cbn [elems slots brk]. rewrite insert_insert_eq.
    rewrite bind_unfold. erewrite wr_eq by (cbn [elems]; apply lookup_insert_eq).
    cbn [elems slots brk]. rewrite insert_insert_eq.
    rewrite bind_unfold. erewrite rd_eq by (cbn [elems]; rewrite lookup_insert_ne by exact Hne; exact Hea).
    unfold set_next, set_data, set_simd, set_temp. cbn [next data simd temp].
    set (en := mkELEM stail (data ea) (simd ea) (temp ea)).
    set (s1 := mkState _ _ _).
    assert (Hold : forall b, b <> brk s -> elems s1 !! b = elems s !! b).
    { intros b Hb'. cbn [elems s1]. apply lookup_insert_ne. congruence. }
    assert (HaccN : ~ In (brk s) acc) by (intros Hc; apply Hin in Hc; lia).
    destruct (IH (next ea) (brk s) s1 (brk s :: acc) f) as [s' [C [E' [L' [M' [I' [R' [S' B']]]]]]]].
    + lia.
    + eapply lseg_same; [|exact Hl]. intros b Hb'. apply Hold.
      pose proof (HL b (or_intror Hb')). lia.
    + intros b Hb'. apply HL. right. exact Hb'.
    + cbn [brk s1]. unfold sizeof_ELEM. lia.
    + cbn [lseg]. split; [reflexivity|]. split; [lia|].
      exists en. split; [apply lookup_insert_eq|]. cbn [next en].
      apply lseg_insert_notin; assumption.
    + cbn [brk s1]. unfold sizeof_ELEM. intros b [<- | Hb']; [lia|]. apply Hin in Hb'. lia.
    + exists s', C. split; [exact E'|]. split; [exact L'|].
      split.
      { rewrite M'. cbn [map rev]. rewrite <- app_assoc. cbn [app].
        f_equal.
        - f_equal. apply map_ext_in. intros b Hb'. unfold fld. rewrite Hold; [reflexivity|].
          pose proof (HL b (or_intror Hb')). lia.
        - f_equal.
          + rewrite (fld_eq temp _ _ en) by apply lookup_insert_eq.
            rewrite (fld_eq temp _ _ ea Hea). reflexivity.
          + apply map_ext_in. intros b Hb'. unfold fld. rewrite Hold; [reflexivity|].
            intros ->. contradiction. }
      split; [exact I'|].
      split; [intros b Hb'; rewrite R' by exact Hb'; apply Hold; lia|].
      split; [rewrite S'; reflexivity|]. cbn [brk s1] in B'. unfold sizeof_ELEM in B'. lia.
Qed.

Lemma clear_slots (ns : list nat) (m : gmap var Z) :
  (forall t, In t ns -> foldr (fun t m => <[Tile (Z.of_nat t) := 0]> m) m ns
                         !! Tile (Z.of_nat t) = Some 0)
  /\ (forall x i, foldr (fun t m => <[Tile (Z.of_nat t) := 0]> m) m ns !! MscP x i
                  = m !! MscP x i).
Proof.
  induction ns as [|n ns [IH1 IH2]]; cbn [foldr].
  - split; [intros t []|reflexivity].
  - split.
    + intros t [-> | Ht]; [apply lookup_insert_eq|].
      destruct (decide (n = t)) as [->|Hne]; [apply lookup_insert_eq|].
      rewrite lookup_insert_ne; [apply IH1, Ht|]. intros H. injection H as H. lia.
    + intros x i. rewrite lookup_insert_ne by discriminate. apply IH2.
Qed.

Lemma flat_map_ext_in (f g : Z -> list Z) (l : list Z) :
  (forall x, In x l -> f x = g x) -> flat_map f l = flat_map g l.
Proof.
  induction l as [|a l IH]; intros H; [reflexivity|].
  cbn [flat_map]. rewrite (H a (or_introl eq_refl)), IH; [reflexivity|].
  intros x Hx. apply H. right. exact Hx.
Qed.

(** C3: the assembler of [render] keeps the order of [slist].  For a
    list [L] at [slist] whose objects other than arrays have their tile
    lists [TL x] (as [stile] builds them) at [msc_p[0]], [assemble]
    returns, and the list of every tile [t] of the grid then holds,
    transform-node elements aside, one element for every element of a
    tile list that stands for [t]: those of the first surface of
    [slist] first, those of the last one last. *)
Theorem assemble_order (fuel : nat) (slist : Z) (s : state) (L : list Z) (TL : Z -> list Z) :
  0 < brk s ->
  lseg (elems s) slist L 0 ->
  (forall a, In a L -> a < brk s) ->
  (length L <= fuel)%nat ->
  (forall a, In a L ->
     let x := fld temp (elems s) a in
     (length L + length (TL x) <= fuel)%nat
     /\ exists o, objs !! x = Some o
        /\ (RT_IS_ARRAY o = false ->
            slots s !! MscP x 0 = Some (hd 0 (TL x))
            /\ lseg (elems s) (hd 0 (TL x)) (TL x) 0
            /\ (forall b, In b (TL x) ->
                  b < brk s /\ fld temp (elems s) b = x
                  /\ 0 <= tile_row (fld data (elems s) b) < tiles_in_col
                  /\ 0 <= tile_col (fld data (elems s) b) < tiles_in_row)
            /\ (trnode o = 0 \/ trnode o = x
                \/ exists arr, objs !! trnode o = Some arr /\ RT_IS_ARRAY arr = true))) ->
  List.NoDup (flat_map TL (leaves (elems s) L)) ->
  exists s',
    assemble objs tiles_in_row tiles_in_col fuel slist s = Ok tt s'
    /\ forall t, 0 <= t < N ->
         exists lt, slots s' !! Tile t = Some (hd 0 lt)
                    /\ lseg (elems s') (hd 0 lt) lt 0
                    /\ leaves (elems s') lt
                       = flat_map (fun x => hits (elems s) x (TL x) t) (leaves (elems s) L).
Proof.
  intros Hb Hl HL Hf Hok Hnd.
  unfold assemble. rewrite bind_unfold. unfold clear_tiles at 1.
  set (sc := mkState _ _ _).
  destruct (clear_slots (seq 0 (Z.to_nat N)) (slots s)) as [Hc1 Hc2].
  destruct (reverse_copy_spec (brk s) L slist 0 sc [] fuel Hf Hl HL ltac:(cbn [brk sc]; lia)
              eq_refl ltac:(intros a []))
    as [s0 [C [Erc [Lc [Mc [Ic [Rc [Sc Bc]]]]]]]].
  cbn [elems brk sc] in Mc, Rc, Bc. cbn [map] in Mc. rewrite app_nil_r in Mc.
  rewrite bind_unfold, Erc.
  assert (Hlv : leaves (elems s0) C = rev (leaves (elems s) L)).
  { unfold leaves. rewrite Mc. apply filter_rev. }
  assert (HTLlt : forall x b, In x (leaves (elems s) L) -> In b (TL x) ->
            b < brk s /\ fld temp (elems s) b = x
            /\ 0 <= tile_row (fld data (elems s) b) < tiles_in_col
            /\ 0 <= tile_col (fld data (elems s) b) < tiles_in_row).
  { intros x b Hx Hbx. unfold leaves in Hx. apply filter_In in Hx. destruct Hx as [Hx Hna].
    apply in_map_iff in Hx. destruct Hx as [a [<- Ha]].
    destruct (Hok a Ha) as [_ [o [Ho Hs]]]. unfold nonarr in Hna. rewrite Ho in Hna.
    apply negb_true_iff in Hna. destruct (Hs Hna) as [_ [_ [H _]]]. apply H. exact Hbx. }
  assert (Hfld : forall (g : ELEM -> Z) b, b < brk s -> fld g (elems s0) b = fld g (elems s) b).
  { intros g b Hlt. unfold fld. rewrite (Rc b Hlt). reflexivity. }
  assert (Hinv0 : tiles_inv s0 s0 (C ++ flat_map TL (leaves (elems s0) C))
                            (fun _ => []) (fun _ => [])).
  { split.
    { apply List.NoDup_app.
      - eapply lseg_NoDup. exact Lc.
      - rewrite Hlv. eapply Permutation_NoDup; [|exact Hnd].
        apply Permutation_flat_map. apply Permutation_rev.
      - intros a Ha Hc. apply Ic in Ha. rewrite Hlv in Hc.
        apply in_flat_map in Hc. destruct Hc as [x [Hx Hax]].
        apply in_rev in Hx. destruct (HTLlt x a Hx Hax) as [Hlt _]. lia. }
    split.
    { intros a Ha. split; [reflexivity|]. apply in_app_or in Ha. destruct Ha as [Ha|Ha].
      - apply Ic in Ha. lia.
      - rewrite Hlv in Ha. apply in_flat_map in Ha. destruct Ha as [x [Hx Hax]].
        apply in_rev in Hx. destruct (HTLlt x a Hx Hax) as [Hlt _]. lia. }
    split; [reflexivity|]. split; [lia|].
    intros t Ht. cbn [hd lseg]. split.
    { rewrite Sc. cbn [slots sc]. rewrite <- (Z2Nat.id t) by lia. apply Hc1.
      apply in_seq. lia. }
    split; [reflexivity|]. split; [reflexivity|]. intros a []. }
  destruct (assemble_loop_spec s0 TL C s0 (fun _ => []) (fun _ => []) fuel) as [s' [T' [El Hinv']]].
  - rewrite <- (length_map (fld temp (elems s0))), Mc, length_rev, length_map. exact Hf.
  - intros c Hc.
    assert (Hin : In (fld temp (elems s0) c) (map (fld temp (elems s)) L)).
    { apply in_rev. rewrite <- Mc. apply in_map. exact Hc. }
    apply in_map_iff in Hin. destruct Hin as [a [Hta Ha]].
    destruct (Hok a Ha) as [Hlen [o [Ho Hs]]]. cbv zeta in Hlen. rewrite Hta in Hlen, Ho, Hs.
    set (x := fld temp (elems s0) c) in *.
    split.
    { rewrite <- (length_map (fld temp (elems s0)) C), Mc, length_rev, length_map. exact Hlen. }
    exists o. split; [exact Ho|]. intros Harr.
    destruct (Hs Harr) as [H1 [H2 [H3 H4]]].
    split; [rewrite Sc; cbn [slots sc]; rewrite Hc2; exact H1|].
    split.
    { eapply lseg_same; [|exact H2]. intros b Hbx. apply Rc. apply (H3 b Hbx). }
    split; [|exact H4].
    intros b Hbx. destruct (H3 b Hbx) as [Hlt [Ht [Hr Hcl]]].
    split; [rewrite (Hfld temp b Hlt); exact Ht|].
    unfold tidx. rewrite (Hfld data b Hlt). nia.
  - exact Lc.
  - exact Hinv0.
  - exists s'. split; [exact El|].
    intros t Ht. destruct Hinv' as [_ [_ [_ [_ HT]]]].
    destruct (HT t Ht) as [H1 [H2 [H3 _]]].
    exists (T' t). split; [exact H1|]. split; [exact H2|].
    rewrite H3, app_nil_r, Hlv, rev_involutive.
    apply flat_map_ext_in. intros x Hx. unfold hits. f_equal.
    apply filter_ext_in. intros b Hbx. destruct (HTLlt x b Hx Hbx) as [Hlt _].
    unfold tidx. rewrite (Hfld data b Hlt). reflexivity.
Qed.

End Order.

(** Two surfaces, the second under the array 10, on a grid of one row
    of two tiles: the first surface covers the tile 0, the second one
    both tiles. *)
Definition grid_objs : gmap Z Object :=
  list_to_map
    [ (10, mkObject ARRAY 0 0 0 1000 0);
      (1, mkObject SURFACE 0 0 0 1100 0);
      (2, mkObject SURFACE 10 10 0 1200 0) ].
Definition grid_state : state :=
  mkState (list_to_map [ (16, mkELEM 32 0 1100 1); (32, mkELEM 0 0 1200 2);
                         (48, mkELEM 0 0 1100 1);
                         (64, mkELEM 80 0 1200 2); (80, mkELEM 0 1 1200 2) ])
          (list_to_map [ (MscP 1 0, 48); (MscP 2 0, 64) ])
          96.
Definition grid_lists (x : Z) : list Z :=
  if x =? 1 then [48] else if x =? 2 then [64; 80] else [].

Lemma assemble_order_witness :
  exists s',
    assemble grid_objs 2 1 8 16 grid_state = Ok tt s'
    /\ forall t, 0 <= t < 2 * 1 ->
         exists lt, slots s' !! Tile t = Some (hd 0 lt)
                    /\ lseg (elems s') (hd 0 lt) lt 0
                    /\ leaves grid_objs (elems s') lt
                       = flat_map (fun x => hits 2 (elems grid_state) x (grid_lists x) t)
                                  (leaves grid_objs (elems grid_state) [16; 32]).
Proof.
  apply (assemble_order grid_objs 2 1 8 16 grid_state [16; 32] grid_lists).
  - cbn. lia.
  - cbn [lseg]. split; [reflexivity|]. split; [lia|].
    exists (mkELEM 32 0 1100 1). split; [reflexivity|]. cbn [next].
    split; [reflexivity|]. split; [lia|].
    exists (mkELEM 0 0 1200 2). split; reflexivity.
  - intros a [<- | [<- | []]]; cbn; lia.
  - cbn. lia.
  - intros a [<- | [<- | []]]; cbv zeta.
    + change (fld temp (elems grid_state) 16) with 1.
      split; [cbn; lia|].
      exists (mkObject SURFACE 0 0 0 1100 0). split; [reflexivity|]. intros _.
      split; [reflexivity|]. split.
      { cbn [grid_lists Z.eqb Pos.eqb hd lseg]. split; [reflexivity|]. split; [lia|].
        exists (mkELEM 0 0 1100 1). split; reflexivity. }
      split; [|left; reflexivity].
      intros b [<- | []].
      change (fld temp (elems grid_state) 48) with 1.
      change (tile_row (fld data (elems grid_state) 48)) with 0.
      change (tile_col (fld data (elems grid_state) 48)) with 0.
      cbn [brk grid_state]. lia.
    + change (fld temp (elems grid_state) 32) with 2.
      split; [cbn; lia|].
      exists (mkObject SURFACE 10 10 0 1200 0). split; [reflexivity|]. intros _.
      split; [reflexivity|]. split.
      { cbn [grid_lists Z.eqb Pos.eqb hd lseg]. split; [reflexivity|]. split; [lia|].
        exists (mkELEM 80 0 1200 2). split; [reflexivity|]. cbn [next].
        split; [reflexivity|]. split; [lia|].
        exists (mkELEM 0 1 1200 2). split; reflexivity. }
      split.
      { intros b [<- | [<- | []]].
        - change (fld temp (elems grid_state) 64) with 2.
          change (tile_row (fld data (elems grid_state) 64)) with 0.
          change (tile_col (fld data (elems grid_state) 64)) with 0.
          cbn [brk grid_state]. lia.
        - change (fld temp (elems grid_state) 80) with 2.
          change (tile_row (fld data (elems grid_state) 80)) with 0.
          change (tile_col (fld data (elems grid_state) 80)) with 1.
          cbn [brk grid_state]. lia. }
      right. right. exists (mkObject ARRAY 0 0 0 1000 0). split; reflexivity.
  - change (flat_map grid_lists (leaves grid_objs (elems grid_state) [16; 32]))
      with [48; 64; 80].
    repeat constructor; cbn [In]; lia.
Defined.

End GridSpec.

(** ** tiling: what the marks cover *)

Module CoverSpec.
Import Mem Tiling TilingSpec.

(** The row [r] has marks and the column [x] lies within them. *)
Definition covers (tb : bounds) (r x : Z) : Prop :=
  exists mn mx, get (txmin tb) r = Some mn /\ get (txmax tb) r = Some mx /\ mn <= x <= mx.

(** No row's marks have shrunk from [tb] to [tb']. *)
Definition widens (tb tb' : bounds) : Prop :=
  (forall r mn, txmin tb !! r = Some mn -> exists mn', txmin tb' !! r = Some mn' /\ mn' <= mn)
  /\ (forall r mx, txmax tb !! r = Some mx -> exists mx', txmax tb' !! r = Some mx' /\ mx <= mx').

Lemma widens_refl (tb : bounds) : widens tb tb.
Proof. split; intros r v H; exists v; split; [exact H | lia | exact H | lia]. Qed.

Lemma widens_trans (tb1 tb2 tb3 : bounds) : widens tb1 tb2 -> widens tb2 tb3 -> widens tb1 tb3.
Proof.
  intros [A1 B1] [A2 B2]. split; intros r v H.
  - destruct (A1 r v H) as [v1 [H1 L1]]. destruct (A2 r v1 H1) as [v2 [H2 L2]].
    exists v2. split; [exact H2 | lia].
  - destruct (B1 r v H) as [v1 [H1 L1]]. destruct (B2 r v1 H1) as [v2 [H2 L2]].
    exists v2. split; [exact H2 | lia].
Qed.

Lemma covers_widens (tb tb' : bounds) (r x : Z) :
  widens tb tb' -> covers tb r x -> covers tb' r x.
Proof.
  intros [A B] [mn [mx [Hmn [Hmx Hx]]]]. unfold covers, get in *.
  destruct (r <? 0); [discriminate|].
  destruct (A _ _ Hmn) as [mn' [Hmn' L1]]. destruct (B _ _ Hmx) as [mx' [Hmx' L2]].
  exists mn', mx'. split; [exact Hmn'|]. split; [exact Hmx' | lia].
Qed.

Lemma insert_widens_min (l : list Z) (i : nat) (v w : Z) :
  l !! i = Some w -> v <= w ->
  forall r mn, l !! r = Some mn -> exists mn', <[i := v]> l !! r = Some mn' /\ mn' <= mn.
Proof.
  intros Hi Hv r mn Hr. destruct (decide (i = r)) as [->|Hne].
  - exists v. split; [apply list_lookup_insert_eq; eapply lookup_lt_Some; exact Hr|].
    rewrite Hi in Hr. injection Hr as <-. exact Hv.
  - exists mn. split; [rewrite list_lookup_insert_ne by exact Hne; exact Hr | lia].
Qed.

Lemma insert_widens_max (l : list Z) (i : nat) (v w : Z) :
  l !! i = Some w -> w <= v ->
  forall r mx, l !! r = Some mx -> exists mx', <[i := v]> l !! r = Some mx' /\ mx <= mx'.
Proof.
  intros Hi Hv r mx Hr. destruct (decide (i = r)) as [->|Hne].
  - exists v. split; [apply list_lookup_insert_eq; eapply lookup_lt_Some; exact Hr|].
    rewrite Hi in Hr. injection Hr as <-. exact Hv.
  - exists mx. split; [rewrite list_lookup_insert_ne by exact Hne; exact Hr | lia].
Qed.

Section Facts.

Variable F : FloatOps.
Variable tiles_in_row tiles_in_col : Z.
Hypothesis Hrow : 1 <= tiles_in_row.
Hypothesis Hcol : 0 <= tiles_in_col.

Local Abbreviation good := (TilingSpec.good tiles_in_row tiles_in_col).
Local Abbreviation UPDATE := (RT_UPDATE_TILES_BOUNDS 0 (tiles_in_row - 1)).

(** One use of the macro on a row of the grid: the marks of the row
    then span every column of the grid between [x1] and [x2], no mark
    of any row has shrunk, and the invariant of the reset is kept. *)
Lemma update_covers (cy x1 x2 : Z) (tb : bounds) :
  good tb -> 0 <= cy < tiles_in_col ->
  exists tb', UPDATE cy x1 x2 tb = Some tb'
              /\ good tb' /\ widens tb tb'
              /\ forall x, Z.min x1 x2 <= x <= Z.max x1 x2 -> 0 <= x <= tiles_in_row - 1 ->
                           covers tb' cy x.
Proof.
  intros [[L1 L2] [B1 B2]] Hcy. unfold RT_UPDATE_TILES_BOUNDS.
  set (lo := if x1 <? x2 then x1 else x2).
  set (hi := if x1 <? x2 then x2 else x1).
  assert (Hlo : lo = Z.min x1 x2) by (unfold lo; destruct (x1 <? x2) eqn:E; lia).
  assert (Hhi : hi = Z.max x1 x2) by (unfold hi; destruct (x1 <? x2) eqn:E; lia).
  destruct (get_in_range (txmin tb) cy) as [mn [Hmn Hin1]]; [lia|].
  destruct (get_in_range (txmax tb) cy) as [mx [Hmx Hin2]]; [lia|].
  rewrite Hmn. cbn [mbind option_bind].
  assert (Hmnb : 0 <= mn <= tiles_in_row).
  { rewrite Forall_forall in B1. apply B1. apply list_elem_of_In. exact Hin1. }
  assert (Hmxb : -1 <= mx <= tiles_in_row - 1).
  { rewrite Forall_forall in B2. apply B2. apply list_elem_of_In. exact Hin2. }
  assert (Hmn' : txmin tb !! Z.to_nat cy = Some mn).
  { unfold get in Hmn. destruct (cy <? 0); [discriminate | exact Hmn]. }
  assert (Hmx' : txmax tb !! Z.to_nat cy = Some mx).
  { unfold get in Hmx. destruct (cy <? 0); [discriminate | exact Hmx]. }
  assert (Hcy0 : (cy <? 0) = false) by lia.
  assert (Hmin : exists tmin mn1,
    (if mn >? lo then put (txmin tb) cy (RT_MAX lo 0) else Some (txmin tb)) = Some tmin
    /\ length tmin = Z.to_nat tiles_in_col
    /\ Forall (fun v => 0 <= v <= tiles_in_row) tmin
    /\ (forall r v, txmin tb !! r = Some v -> exists v', tmin !! r = Some v' /\ v' <= v)
    /\ tmin !! Z.to_nat cy = Some mn1 /\ mn1 <= Z.max lo 0).
  { destruct (mn >? lo) eqn:E.
    - rewrite put_in_range by lia.
      assert (Hv : RT_MAX lo 0 = Z.max lo 0) by (unfold RT_MAX; destruct (lo >? 0) eqn:E0; lia).
      eexists. exists (RT_MAX lo 0). split; [reflexivity|].
      split; [rewrite length_insert; exact L1|]. split.
      + apply Forall_insert_Z; [exact B1 | lia].
      + split; [apply (insert_widens_min _ _ _ mn Hmn'); lia|].
        split; [apply list_lookup_insert_eq; lia | lia].
    - exists (txmin tb), mn. split; [reflexivity|]. split; [exact L1|]. split; [exact B1|].
      split; [intros r v Hr; exists v; split; [exact Hr | lia]|].
      split; [exact Hmn' | lia]. }
  destruct Hmin as [tmin [mn1 [-> [Lm [Bm [Wm [Gm Cm]]]]]]]. cbn [mbind option_bind].
  rewrite Hmx. cbn [mbind option_bind].
  assert (Hmax : exists tmax mx1,
    (if mx <? hi then put (txmax tb) cy (RT_MIN hi (tiles_in_row - 1)) else Some (txmax tb)) = Some tmax
    /\ length tmax = Z.to_nat tiles_in_col
    /\ Forall (fun v => -1 <= v <= tiles_in_row - 1) tmax
    /\ (forall r v, txmax tb !! r = Some v -> exists v', tmax !! r = Some v' /\ v <= v')
    /\ tmax !! Z.to_nat cy = Some mx1 /\ Z.min hi (tiles_in_row - 1) <= mx1).
  { destruct (mx <? hi) eqn:E.
    - rewrite put_in_range by lia.
      assert (Hv : RT_MIN hi (tiles_in_row - 1) = Z.min hi (tiles_in_row - 1)).
      { unfold RT_MIN. destruct (hi <? tiles_in_row - 1) eqn:E0; lia. }
      eexists. exists (RT_MIN hi (tiles_in_row - 1)). split; [reflexivity|].
      split; [rewrite length_insert; exact L2|]. split.
      + apply Forall_insert_Z; [exact B2 | lia].
      + split; [apply (insert_widens_max _ _ _ mx Hmx'); lia|].
        split; [apply list_lookup_insert_eq; lia | lia].
    - exists (txmax tb), mx. split; [reflexivity|]. split; [exact L2|]. split; [exact B2|].
      split; [intros r v Hr; exists v; split; [exact Hr | lia]|].
      split; [exact Hmx' | lia]. }
  destruct Hmax as [tmax [mx1 [-> [LM [BM [WM [GM CM]]]]]]]. cbn [mbind option_bind].
  eexists. split; [reflexivity|].
  split; [split; split; assumption|]. split; [split; assumption|].
  intros x Hx Hg. exists mn1, mx1. unfold get. cbn [txmin txmax]. rewrite Hcy0.
  split; [exact Gm|]. split; [exact GM | lia].
Qed.

Lemma span_rows_covers (cnt : nat) (t x1 x2 : Z) (tb : bounds) :
  good tb -> 0 <= t -> t + Z.of_nat cnt <= tiles_in_col ->
  exists tb', span_rows tiles_in_row cnt t x1 x2 tb = Some tb'
              /\ good tb' /\ widens tb tb'
              /\ forall r x, t <= r < t + Z.of_nat cnt ->
                    Z.min x1 x2 <= x <= Z.max x1 x2 -> 0 <= x <= tiles_in_row - 1 ->
                    covers tb' r x.
Proof.
  revert t tb. induction cnt as [|c IH]; intros t tb Hg Ht Hc.
  - exists tb. split; [reflexivity|]. split; [exact Hg|]. split; [apply widens_refl|].
    intros r x Hr. lia.
  - cbn [span_rows].
    destruct (update_covers t x1 x2 tb Hg) as [tb1 [-> [Hg1 [Hw1 Hc1]]]]; [lia|].
    cbn [mbind option_bind].
    destruct (IH (t + 1) tb1 Hg1) as [tb2 [-> [Hg2 [Hw2 Hc2]]]]; [lia | lia |].
    exists tb2. split; [reflexivity|]. split; [exact Hg2|].
    split; [eapply widens_trans; eassumption|].
    intros r x Hr Hx Hgx. destruct (decide (r = t)) as [->|Hne].
    + eapply covers_widens; [exact Hw2|]. apply Hc1; assumption.
    + apply Hc2; [lia | assumption | assumption].
Qed.

Lemma walk_rows_widens (cnt : nat) (t : Z) (px rt : real F) (x1 : Z) (tb : bounds) :
  good tb -> 0 <= t -> t + Z.of_nat cnt <= tiles_in_col ->
  exists x tb', walk_rows F tiles_in_row cnt t px rt x1 tb = Some (x, tb')
                /\ good tb' /\ widens tb tb'.
Proof.
  revert t px x1 tb. induction cnt as [|c IH]; intros t px x1 tb Hg Ht Hc.
  - exists x1, tb. split; [reflexivity|]. split; [exact Hg | apply widens_refl].
  - cbn [walk_rows].
    destruct (update_covers t x1 (RT_FLOOR F (r_add F px rt)) tb Hg) as [tb1 [-> [Hg1 [Hw1 _]]]]; [lia|].
    cbn [mbind option_bind].
    destruct (IH (t + 1) (r_add F px rt) (RT_FLOOR F (r_add F px rt)) tb1 Hg1)
      as [x [tb2 [-> [Hg2 Hw2]]]]; [lia | lia |].
    exists x, tb2. split; [reflexivity|]. split; [exact Hg2|].
    eapply widens_trans; eassumption.
Qed.

(** One line of [tiling]: no mark shrinks, and when the floored rows of
    the two ends are in order the tile of each end that lies in the grid
    is marked. *)
Lemma tile_line_covers (rt : real F) (n1 n2 : real F * real F) (tb : bounds) :
  good tb ->
  exists tb', tile_line F tiles_in_row tiles_in_col rt n1 n2 tb = Some tb'
     /\ good tb' /\ widens tb tb'
     /\ (RT_FLOOR F (snd n1) <= RT_FLOOR F (snd n2) ->
         (0 <= RT_FLOOR F (snd n1) < tiles_in_col -> 0 <= RT_FLOOR F (fst n1) < tiles_in_row ->
          covers tb' (RT_FLOOR F (snd n1)) (RT_FLOOR F (fst n1)))
         /\ (0 <= RT_FLOOR F (snd n2) < tiles_in_col -> 0 <= RT_FLOOR F (fst n2) < tiles_in_row ->
             covers tb' (RT_FLOOR F (snd n2)) (RT_FLOOR F (fst n2)))).
Proof.
  intros Hg. unfold tile_line.
  set (x1 := RT_FLOOR F (fst n1)). set (y1 := RT_FLOOR F (snd n1)).
  set (x2 := RT_FLOOR F (fst n2)). set (y2 := RT_FLOOR F (snd n2)).
  destruct ((y1 >? tiles_in_col - 1) || (y2 <? 0)) eqn:Erej.
  { exists tb. split; [reflexivity|]. split; [exact Hg|]. split; [apply widens_refl|].
    intros Hord. apply orb_true_iff in Erej. split; intros; lia. }
  apply orb_false_iff in Erej. destruct Erej as [Ey1 Ey2].
  assert (Hy1 : y1 <= tiles_in_col - 1) by lia.
  assert (Hy2 : 0 <= y2) by lia.
  match goal with |- context [if ?c then _ else _] => destruct c eqn:Edeg end.
  - set (y1' := if y1 <? 0 then 0 else y1).
    set (y2' := if y2 >? tiles_in_col - 1 then tiles_in_col - 1 else y2).
    assert (Hy1' : 0 <= y1') by (unfold y1'; destruct (y1 <? 0) eqn:Ea; lia).
    assert (Hy2' : y2' <= tiles_in_col - 1) by (unfold y2'; destruct (y2 >? tiles_in_col - 1) eqn:Eb; lia).
    destruct (decide (y1' <= y2')) as [Hle|Hgt].
    + destruct (span_rows_covers (Z.to_nat (y2' - y1' + 1)) y1' x1 x2 tb Hg Hy1')
        as [tb' [E [Hg' [Hw' Hc']]]]; [lia|].
      exists tb'. split; [exact E|]. split; [exact Hg'|]. split; [exact Hw'|].
      intros Hord. split; intros Hr Hx.
      * apply Hc'; [|lia|lia]. unfold y1', y2' in *.
        destruct (y1 <? 0) eqn:Ea; destruct (y2 >? tiles_in_col - 1) eqn:Eb; lia.
      * apply Hc'; [|lia|lia]. unfold y1', y2' in *.
        destruct (y1 <? 0) eqn:Ea; destruct (y2 >? tiles_in_col - 1) eqn:Eb; lia.
    + replace (Z.to_nat (y2' - y1' + 1)) with 0%nat by lia. cbn [span_rows].
      exists tb. split; [reflexivity|]. split; [exact Hg|]. split; [apply widens_refl|].
      intros Hord. unfold y1', y2' in *.
      destruct (y1 <? 0) eqn:Ea; destruct (y2 >? tiles_in_col - 1) eqn:Eb; split; intros; lia.
  - assert (Hne : y1 <> y2).
    { intros Heq. rewrite !orb_false_iff in Edeg. destruct Edeg as [[[[_ E] _] _] _]. lia. }
    set (y1' := if y1 <? 0 then 0 else y1 + 1).
    set (y2' := if y2 >? tiles_in_col - 1 then tiles_in_col - 1 else y2 - 1).
    assert (Hy1' : 0 <= y1' <= tiles_in_col).
    { unfold y1'. destruct (y1 <? 0) eqn:Ea; lia. }
    assert (Hy2' : -1 <= y2' <= tiles_in_col - 1).
    { unfold y2'. destruct (y2 >? tiles_in_col - 1) eqn:Eb; lia. }
    set (px := r_add F (fst n1) (r_mul F (r_sub F (r_of_cell F y1') (snd n1)) rt)).
    assert (H1 : exists tb1,
      (if y1' >? 0 then UPDATE (y1' - 1) x1 (RT_FLOOR F px) tb else Some tb) = Some tb1
      /\ good tb1 /\ widens tb tb1
      /\ (0 <= y1 < tiles_in_col -> 0 <= x1 < tiles_in_row -> covers tb1 y1 x1)).
    { destruct (y1' >? 0) eqn:E.
      - destruct (update_covers (y1' - 1) x1 (RT_FLOOR F px) tb Hg) as [tb1 [E1 [Hg1 [Hw1 Hc1]]]]; [lia|].
        exists tb1. split; [exact E1|]. split; [exact Hg1|]. split; [exact Hw1|].
        intros Hr Hx. replace y1 with (y1' - 1).
        + apply Hc1; lia.
        + unfold y1'. destruct (y1 <? 0) eqn:Ea; lia.
      - exists tb. split; [reflexivity|]. split; [exact Hg|]. split; [apply widens_refl|].
        intros Hr Hx. unfold y1' in E. destruct (y1 <? 0) eqn:Ea; lia. }
    destruct H1 as [tb1 [-> [Hg1 [Hw1 Hc1]]]]. cbn [mbind option_bind].
    destruct (walk_rows_widens (Z.to_nat (y2' - y1' + 1)) y1' px rt (RT_FLOOR F px) tb1 Hg1)
      as [x [tb2 [-> [Hg2 Hw2]]]]; [lia | lia |].
    cbn [mbind option_bind].
    destruct (y2' <? tiles_in_col - 1) eqn:E.
    + destruct (update_covers (y2' + 1) x x2 tb2 Hg2) as [tb3 [-> [Hg3 [Hw3 Hc3]]]]; [lia|].
      exists tb3. split; [reflexivity|]. split; [exact Hg3|].
      split; [eapply widens_trans; [|exact Hw3]; eapply widens_trans; eassumption|].
      intros Hord. split; intros Hr Hx.
      * eapply covers_widens; [exact Hw3|]. eapply covers_widens; [exact Hw2|].
        apply Hc1; assumption.
      * replace y2 with (y2' + 1).
        -- apply Hc3; lia.
        -- unfold y2'. destruct (y2 >? tiles_in_col - 1) eqn:Eb; lia.
    + exists tb2. split; [reflexivity|]. split; [exact Hg2|].
      split; [eapply widens_trans; eassumption|].
      intros Hord. split; intros Hr Hx.
      * eapply covers_widens; [exact Hw2|]. apply Hc1; assumption.
      * unfold y2' in E. destruct (y2 >? tiles_in_col - 1) eqn:Eb; lia.
Qed.

Lemma tile_lines_widens (rt : real F) (ls : list ((real F * real F) * (real F * real F)))
      (tb : bounds) :
  good tb ->
  exists tb', tile_lines F tiles_in_row tiles_in_col rt ls tb = Some tb'
              /\ good tb' /\ widens tb tb'.
Proof.
  revert tb. induction ls as [|[n1 n2] ls IH]; intros tb Hg.
  - exists tb. split; [reflexivity|]. split; [exact Hg | apply widens_refl].
  - cbn [tile_lines].
    destruct (tile_line_covers rt n1 n2 tb Hg) as [tb1 [-> [Hg1 [Hw1 _]]]].
    cbn [mbind option_bind].
    destruct (IH tb1 Hg1) as [tb2 [-> [Hg2 Hw2]]].
    exists tb2. split; [reflexivity|]. split; [exact Hg2|].
    eapply widens_trans; eassumption.
Qed.

(** [RT_UPDATE_TILES_BOUNDS] on a row of the grid, under the invariant
    of the reset: afterwards the row's marks span every column of the
    grid between the two given columns, no row's marks have shrunk and
    the invariant holds again.  On a row outside the arrays the access
    is a fault. *)
Theorem update_tiles_bounds_row (cy x1 x2 : Z) (tb : bounds) :
  good tb ->
  (0 <= cy < tiles_in_col ->
   exists tb', UPDATE cy x1 x2 tb = Some tb'
               /\ good tb' /\ widens tb tb'
               /\ forall x, Z.min x1 x2 <= x <= Z.max x1 x2 -> 0 <= x <= tiles_in_row - 1 ->
                            covers tb' cy x)
  /\ (cy < 0 \/ tiles_in_col <= cy -> UPDATE cy x1 x2 tb = None).
Proof.
  intros Hg. split; [apply update_covers; exact Hg|].
  intros Hout. destruct Hg as [[L1 _] _]. unfold RT_UPDATE_TILES_BOUNDS, get.
  destruct (cy <? 0) eqn:E; [reflexivity|].
  rewrite (proj2 (lookup_ge_None (txmin tb) (Z.to_nat cy))) by lia. reflexivity.
Qed.

(** A call of [tiling], whatever the two points and the arithmetic:
    under the invariant of the reset it returns, keeps the invariant,
    and no row's marks are narrower afterwards than before. *)
Theorem tiling_only_widens (opt_tiling_ext1 : bool) (p1 p2 : real F * real F) (tb : bounds) :
  good tb ->
  exists tb', tiling F tiles_in_row tiles_in_col opt_tiling_ext1 p1 p2 tb = Some tb'
              /\ good tb' /\ widens tb tb'.
Proof.
  intros Hg. unfold tiling.
  destruct (if r_ltb F (snd p2) (snd p1) then (p2, p1) else (p1, p2)) as [q1 q2].
  destruct (slope F (r_sub F (fst q2) (fst q1)) (r_sub F (snd q2) (snd q1))) as [[rt xx] yy].
  apply tile_lines_widens. exact Hg.
Qed.

(** One line of [tiling] whose ends' floored rows are in order marks
    the tile of each end that lies in the grid: the row of the end then
    has marks that include the end's column. *)
Theorem tile_line_marks_ends (rt : real F) (n1 n2 : real F * real F) (tb : bounds) :
  good tb ->
  RT_FLOOR F (snd n1) <= RT_FLOOR F (snd n2) ->
  exists tb', tile_line F tiles_in_row tiles_in_col rt n1 n2 tb = Some tb'
     /\ (0 <= RT_FLOOR F (snd n1) < tiles_in_col -> 0 <= RT_FLOOR F (fst n1) < tiles_in_row ->
         covers tb' (RT_FLOOR F (snd n1)) (RT_FLOOR F (fst n1)))
     /\ (0 <= RT_FLOOR F (snd n2) < tiles_in_col -> 0 <= RT_FLOOR F (fst n2) < tiles_in_row ->
         covers tb' (RT_FLOOR F (snd n2)) (RT_FLOOR F (fst n2))).
Proof.
  intros Hg Hord.
  destruct (tile_line_covers rt n1 n2 tb Hg) as [tb' [E [_ [_ Hc]]]].
  exists tb'. split; [exact E|]. apply Hc. exact Hord.
Qed.

End Facts.

(** [RT_UPDATE_TILES_BOUNDS] does not depend on the order of its two
    columns, and a second use with the same arguments changes nothing. *)
Theorem update_tiles_bounds_again (xmin xmax cy x1 x2 : Z) (tb tb' : bounds) :
  RT_UPDATE_TILES_BOUNDS xmin xmax cy x2 x1 tb = RT_UPDATE_TILES_BOUNDS xmin xmax cy x1 x2 tb
  /\ (RT_UPDATE_TILES_BOUNDS xmin xmax cy x1 x2 tb = Some tb' ->
      RT_UPDATE_TILES_BOUNDS xmin xmax cy x1 x2 tb' = Some tb').
Proof.
  split.
  - unfold RT_UPDATE_TILES_BOUNDS.
    destruct (x1 <? x2) eqn:E1; destruct (x2 <? x1) eqn:E2; try reflexivity; try lia.
    assert (x1 = x2) by lia. subst. reflexivity.
  - unfold RT_UPDATE_TILES_BOUNDS.
    set (lo := if x1 <? x2 then x1 else x2).
    set (hi := if x1 <? x2 then x2 else x1).
    destruct (get (txmin tb) cy) as [mn|] eqn:Hmn; [|discriminate]. cbn [mbind option_bind].
    assert (Hcy : (cy <? 0) = false).
    { unfold get in Hmn. destruct (cy <? 0); [discriminate | reflexivity]. }
    assert (Hputget : forall l v l', put l cy v = Some l' ->
              get l' cy = Some v /\ put l' cy v = Some l').
    { intros l v l' H. unfold put in H. rewrite Hcy in H.
      destruct (Nat.ltb (Z.to_nat cy) (length l)) eqn:El; [|discriminate].
      injection H as <-. apply Nat.ltb_lt in El. unfold get, put. rewrite Hcy.
      rewrite list_lookup_insert_eq by exact El. split; [reflexivity|].
      rewrite length_insert. rewrite (proj2 (Nat.ltb_lt _ _) El).
      rewrite list_insert_insert_eq. reflexivity. }
    destruct (if mn >? lo then put (txmin tb) cy (RT_MAX lo xmin) else Some (txmin tb))
      as [tmin|] eqn:Hmin; [|discriminate]. cbn [mbind option_bind].
    destruct (get (txmax tb) cy) as [mx|] eqn:Hmx; [|discriminate]. cbn [mbind option_bind].
    destruct (if mx <? hi then put (txmax tb) cy (RT_MIN hi xmax) else Some (txmax tb))
      as [tmax|] eqn:Hmax; [|discriminate]. cbn [mbind option_bind].
    intros H. injection H as <-. cbn [txmin txmax].
    assert (H1 : exists mn', get tmin cy = Some mn'
               /\ (if mn' >? lo then put tmin cy (RT_MAX lo xmin) else Some tmin) = Some tmin).
    { destruct (mn >? lo) eqn:E.
      - destruct (Hputget _ _ _ Hmin) as [G P]. exists (RT_MAX lo xmin). split; [exact G|].
        destruct (RT_MAX lo xmin >? lo); [exact P | reflexivity].
      - injection Hmin as <-. exists mn. split; [exact Hmn|]. rewrite E. reflexivity. }
    destruct H1 as [mn' [G1 P1]]. rewrite G1. cbn [mbind option_bind]. rewrite P1.
    cbn [mbind option_bind].
    assert (H2 : exists mx', get tmax cy = Some mx'
               /\ (if mx' <? hi then put tmax cy (RT_MIN hi xmax) else Some tmax) = Some tmax).
    { destruct (mx <? hi) eqn:E.
      - destruct (Hputget _ _ _ Hmax) as [G P]. exists (RT_MIN hi xmax). split; [exact G|].
        destruct (RT_MIN hi xmax <? hi); [exact P | reflexivity].
      - injection Hmax as <-. exists mx. split; [exact Hmx|]. rewrite E. reflexivity. }
    destruct H2 as [mx' [G2 P2]]. rewrite G2. cbn [mbind option_bind]. rewrite P2. reflexivity.
Qed.

(** A grid of three rows of four tiles, as the reset leaves the arrays. *)
Definition reset_bounds : bounds := mkBounds [4; 4; 4] [-1; -1; -1].

Lemma reset_bounds_good : TilingSpec.good 4 3 reset_bounds.
Proof.
  split; [split; reflexivity|]. split; repeat constructor; lia.
Qed.

Lemma update_tiles_bounds_row_witness :
  exists tb', RT_UPDATE_TILES_BOUNDS 0 (4 - 1) 1 5 2 reset_bounds = Some tb'
              /\ TilingSpec.good 4 3 tb' /\ widens reset_bounds tb'
              /\ forall x, Z.min 5 2 <= x <= Z.max 5 2 -> 0 <= x <= 4 - 1 -> covers tb' 1 x.
Proof.
  apply (proj1 (update_tiles_bounds_row 4 3 ltac:(lia) 1 5 2 reset_bounds reset_bounds_good)).
  lia.
Defined.

Lemma tiling_only_widens_witness :
  exists tb', tiling int_float 4 3 false (1, 0) (3, 2) reset_bounds = Some tb'
              /\ TilingSpec.good 4 3 tb' /\ widens reset_bounds tb'.
Proof.
  apply (tiling_only_widens int_float 4 3 ltac:(lia) ltac:(lia) false (1, 0) (3, 2)
           reset_bounds reset_bounds_good).
Defined.

Lemma tile_line_marks_ends_witness :
  exists tb', tile_line int_float 4 3 1 (1, 0) (3, 2) reset_bounds = Some tb'
              /\ covers tb' 0 1 /\ covers tb' 2 3.
Proof.
  destruct (tile_line_marks_ends int_float 4 3 ltac:(lia) ltac:(lia) 1 (1, 0) (3, 2)
              reset_bounds reset_bounds_good) as [tb' [E [H1 H2]]].
  - cbn. lia.
  - exists tb'. split; [exact E|]. split; [apply H1; cbn; lia | apply H2; cbn; lia].
Defined.

Lemma update_tiles_bounds_again_witness :
  RT_UPDATE_TILES_BOUNDS 0 3 1 5 2 (mkBounds [4; 2; 4] [-1; 3; -1])
  = Some (mkBounds [4; 2; 4] [-1; 3; -1]).
Proof.
  apply (proj2 (update_tiles_bounds_again 0 3 1 5 2 reset_bounds (mkBounds [4; 2; 4] [-1; 3; -1]))).
  reflexivity.
Defined.

End CoverSpec.

(** ** update_scene: every surface once *)

Module PoolSpec.
Import Sched SchedSpec Pool.

(** The passes of a sequential update: worker by worker, each worker's
    positions of the surface list in list order. *)
Definition schedule (thnum : Z) (n : nat) : list (Z * nat) :=
  flat_map (fun k => map (pair (Z.of_nat k)) (positions thnum (Z.of_nat k) n))
           (seq 0 (Z.to_nat thnum)).

Section Facts.

Variable thnum : Z.
Variable world : Type.
Variable update_stile sort_update0 : Z -> Z -> world -> world.
Variable srf_head : list Z.

Local Abbreviation slice := (update_slice thnum world update_stile sort_update0 srf_head).

Lemma fold_left_pairs (body : Z -> Z -> world -> world) (index : Z) (ps : list nat) (w : world) :
  fold_left (fun w p => body index (nth p srf_head 0) w) ps w
  = fold_left (fun w (ip : Z * nat) => body (fst ip) (nth (snd ip) srf_head 0) w)
              (map (pair index) ps) w.
Proof.
  revert w. induction ps as [|p ps IH]; intros w; [reflexivity|].
  cbn [fold_left map fst snd]. apply IH.
Qed.

Lemma slice_fold (phase index : Z) (w : world) :
  0 < thnum -> phase = 1 \/ phase = 2 ->
  slice index phase w
  = fold_left (fun w p => (if phase =? 1 then update_stile else sort_update0)
                            index (nth p srf_head 0) w)
              (positions thnum index (length srf_head)) w.
Proof.
  intros Hth Hph. unfold update_slice, positions.
  destruct Hph as [-> | ->]; cbn [Z.eqb Pos.eqb].
  - change 0 with (Z.of_nat 0).
    rewrite (slice_loop_from thnum world update_stile index srf_head 0 w) by lia.
    apply fold_left_ext_in. intros x p _. rewrite Nat.sub_0_r. reflexivity.
  - change 0 with (Z.of_nat 0).
    rewrite (slice_loop_from thnum world sort_update0 index srf_head 0 w) by lia.
    apply fold_left_ext_in. intros x p _. rewrite Nat.sub_0_r. reflexivity.
Qed.

Lemma run_slices_fold (phase : Z) (cnt k : nat) (w : world) :
  0 < thnum -> phase = 1 \/ phase = 2 ->
  run_slices world slice cnt (Z.of_nat k) phase w
  = fold_left (fun w (ip : Z * nat) =>
                 (if phase =? 1 then update_stile else sort_update0)
                   (fst ip) (nth (snd ip) srf_head 0) w)
              (flat_map (fun k => map (pair (Z.of_nat k))
                                      (positions thnum (Z.of_nat k) (length srf_head)))
                        (seq k cnt)) w.
Proof.
  intros Hth Hph. revert k w. induction cnt as [|c IH]; intros k w; [reflexivity|].
  cbn [run_slices seq flat_map]. rewrite fold_left_app.
  replace (Z.of_nat k + 1) with (Z.of_nat (S k)) by lia.
  rewrite IH. f_equal.
  rewrite (slice_fold phase (Z.of_nat k) w Hth Hph).
  apply fold_left_pairs.
Qed.

Lemma schedule_positions (n : nat) (k c : nat) :
  map snd (flat_map (fun k => map (pair (Z.of_nat k)) (positions thnum (Z.of_nat k) n)) (seq k c))
  = flat_map (fun k => positions thnum (Z.of_nat k) n) (seq k c).
Proof.
  revert k. induction c as [|c IH]; intros k; [reflexivity|].
  cbn [seq flat_map]. rewrite map_app, IH. f_equal.
  rewrite map_map. cbn [snd]. apply map_id.
Qed.

Lemma positions_all_NoDup (n : nat) (c k : nat) :
  0 < thnum -> (k + c <= Z.to_nat thnum)%nat ->
  List.NoDup (flat_map (fun k => positions thnum (Z.of_nat k) n) (seq k c)).
Proof.
  intros Hth. revert k. induction c as [|c IH]; intros k Hk; [constructor|].
  cbn [seq flat_map]. apply List.NoDup_app.
  - apply positions_NoDup.
  - apply IH. lia.
  - intros p Hp Hc. apply positions_in in Hp. destruct Hp as [_ Hp].
    apply in_flat_map in Hc. destruct Hc as [k' [Hk' Hc]].
    apply in_seq in Hk'. apply positions_in in Hc. destruct Hc as [_ Hc]. lia.
Qed.

End Facts.

(** The sequential stub [update_scene] with [update_slice] as its
    slices, for [thnum >= 1] and either update phase: the per-surface
    work of the phase is run worker by worker along [schedule], which
    visits every position of the surface list exactly once, each under
    the worker that owns it. *)
Theorem update_scene_once (thnum : Z) (world : Type)
        (update_stile sort_update0 : Z -> Z -> world -> world)
        (srf_head : list Z) (phase : Z) (w : world) :
  1 <= thnum -> phase = 1 \/ phase = 2 ->
  update_scene world (update_slice thnum world update_stile sort_update0 srf_head)
               thnum phase w
  = fold_left (fun w (ip : Z * nat) =>
                 (if phase =? 1 then update_stile else sort_update0)
                   (fst ip) (nth (snd ip) srf_head 0) w)
              (schedule thnum (length srf_head)) w
  /\ Permutation (map snd (schedule thnum (length srf_head))) (seq 0 (length srf_head))
  /\ (forall index p, In (index, p) (schedule thnum (length srf_head)) ->
        0 <= index < thnum /\ Z.of_nat p mod thnum = index).
Proof.
  intros Hth Hph. split; [|split].
  - unfold update_scene, schedule. change 0 with (Z.of_nat 0).
    apply run_slices_fold; [lia | exact Hph].
  - unfold schedule. rewrite schedule_positions.
    apply Stdlib.Sorting.Permutation.NoDup_Permutation.
    + apply positions_all_NoDup; lia.
    + apply seq_NoDup.
    + intros p. rewrite in_flat_map, in_seq. split.
      * intros [k [_ Hp]]. apply positions_in in Hp. lia.
      * intros Hp. exists (Z.to_nat (Z.of_nat p mod thnum)).
        assert (Hm := Z.mod_pos_bound (Z.of_nat p) thnum ltac:(lia)).
        split; [apply in_seq; lia|].
        apply positions_in. split; [lia|]. lia.
  - intros index p Hin. unfold schedule in Hin. apply in_flat_map in Hin.
    destruct Hin as [k [Hk Hin]]. apply in_seq in Hk.
    apply in_map_iff in Hin. destruct Hin as [p' [Heq Hp']].
    injection Heq as <- <-. apply positions_in in Hp'. lia.
Qed.

(** Two workers over three surfaces, each pass logging its worker and
    its surface. *)
Lemma update_scene_once_witness :
  let log := fun (index srf : Z) (w : list (Z * Z)) => w ++ [(index, srf)] in
  update_scene (list (Z * Z)) (update_slice 2 (list (Z * Z)) log log [10; 20; 30]) 2 1 []
  = fold_left (fun w (ip : Z * nat) =>
                 (if 1 =? 1 then log else log) (fst ip) (nth (snd ip) [10; 20; 30] 0) w)
              (schedule 2 3) []
  /\ Permutation (map snd (schedule 2 3)) (seq 0 3)
  /\ (forall index p, In (index, p) (schedule 2 3) ->
        0 <= index < 2 /\ Z.of_nat p mod 2 = index).
Proof.
  intros log.
  apply (update_scene_once 2 (list (Z * Z)) log log [10; 20; 30] 1 []); [lia | left; reflexivity].
Defined.

End PoolSpec.

(** ** stile: the scratch buffer of the projection is large enough *)

Module BufferSpec.
Import Mem Tiling TilingSpec ClipSpec.

Section Buffer.

Variable F : FloatOps.
Variable tiles_in_row tiles_in_col : Z.
Variable opt_tiling_ext1 : bool.
Variable org pos nrm dir htl vtl : vec3 F.
Variable pov : real F.
Hypothesis Hrow : 1 <= tiles_in_row.
Hypothesis Hcol : 0 <= tiles_in_col.
Hypothesis Htag : tag_order F.

Local Abbreviation good := (TilingSpec.good tiles_in_row tiles_in_col).
Local Abbreviation project_vertex := (Tiling.project_vertex F org pos nrm dir htl vtl pov).
Local Abbreviation project_vertices := (Tiling.project_vertices F org pos nrm dir htl vtl pov).
Local Abbreviation clip_end := (Tiling.clip_end F org htl vtl).
Local Abbreviation clip_edge := (Tiling.clip_edge F org htl vtl).
Local Abbreviation tiling_at := (Tiling.tiling_at F tiles_in_row tiles_in_col opt_tiling_ext1).
Local Abbreviation tile_edges :=
  (Tiling.tile_edges F tiles_in_row tiles_in_col opt_tiling_ext1 org htl vtl).
Local Abbreviation tile_pairs_from :=
  (Tiling.tile_pairs_from F tiles_in_row tiles_in_col opt_tiling_ext1).
Local Abbreviation tile_pairs := (Tiling.tile_pairs F tiles_in_row tiles_in_col opt_tiling_ext1).
Local Abbreviation project_bbox :=
  (Tiling.project_bbox F tiles_in_row tiles_in_col opt_tiling_ext1 org pos nrm dir htl vtl pov).

(** The tag of a vertex is one of the three constants. *)
Definition tagged (v : VERT F) : Prop :=
  pos_W F v = r_mone F \/ pos_W F v = r_zero F \/ pos_W F v = r_one F.

(** The scratch buffer has its [cap] entries, and the first [n] of
    them (the surface's own vertices) carry a tag. *)
Definition buffer_ok (cap n : Z) (vs : gmap Z (VERT F)) : Prop :=
  (forall x, 0 <= x < cap -> is_Some (vs !! x))
  /\ (forall x v, 0 <= x < n -> vs !! x = Some v -> tagged v).

Lemma upd_ok (cap n : Z) (vs : gmap Z (VERT F)) (k : Z) (f : VERT F -> VERT F) :
  buffer_ok cap n vs -> 0 <= k < cap ->
  (forall v, tagged v -> tagged (f v)) ->
  exists v, vs !! k = Some v
            /\ upd F vs k f = Some (<[k := f v]> vs)
            /\ buffer_ok cap n (<[k := f v]> vs).
Proof.
  intros [Hd Ht] Hk Hf. destruct (Hd k Hk) as [v Hv]. exists v.
  split; [exact Hv|]. split; [apply upd_some; exact Hv|].
  split.
  - intros x Hx. destruct (decide (k = x)) as [->|Hne].
    + rewrite lookup_insert_eq. eexists. reflexivity.
    + rewrite lookup_insert_ne by exact Hne. apply Hd. exact Hx.
  - intros x w Hx Hw. destruct (decide (k = x)) as [->|Hne].
    + rewrite lookup_insert_eq in Hw. injection Hw as <-. apply Hf. eapply Ht; eassumption.
    + rewrite lookup_insert_ne in Hw by exact Hne. eapply Ht; eassumption.
Qed.

(** A write to an entry past the surface's own vertices. *)
Lemma upd_fresh (cap n : Z) (vs : gmap Z (VERT F)) (k : Z) (f : VERT F -> VERT F) :
  buffer_ok cap n vs -> n <= k < cap -> 0 <= n ->
  exists v, vs !! k = Some v
            /\ upd F vs k f = Some (<[k := f v]> vs)
            /\ buffer_ok cap n (<[k := f v]> vs).
Proof.
  intros [Hd Ht] Hk Hn. destruct (Hd k ltac:(lia)) as [v Hv]. exists v.
  split; [exact Hv|]. split; [apply upd_some; exact Hv|].
  split.
  - intros x Hx. destruct (decide (k = x)) as [->|Hne].
    + rewrite lookup_insert_eq. eexists. reflexivity.
    + rewrite lookup_insert_ne by exact Hne. apply Hd. exact Hx.
  - intros x w Hx Hw. rewrite lookup_insert_ne in Hw by lia. eapply Ht; eassumption.
Qed.

Lemma tagged_X (x : real F) (v : VERT F) : tagged v -> tagged (set_X F x v).
Proof. intros H. exact H. Qed.
Lemma tagged_Y (x : real F) (v : VERT F) : tagged v -> tagged (set_Y F x v).
Proof. intros H. exact H. Qed.
Lemma tagged_Z (x : real F) (v : VERT F) : tagged v -> tagged (set_Z F x v).
Proof. intros H. exact H. Qed.
Lemma tagged_mone (v : VERT F) : tagged v -> tagged (set_W F (r_mone F) v).
Proof. intros _. left. reflexivity. Qed.
Lemma tagged_zero (v : VERT F) : tagged v -> tagged (set_W F (r_zero F) v).
Proof. intros _. right. left. reflexivity. Qed.
Lemma tagged_one (v : VERT F) : tagged v -> tagged (set_W F (r_one F) v).
Proof. intros _. right. right. reflexivity. Qed.

(** The next write to the buffer in the goal, with the fact that keeps
    the invariant. *)
Ltac own_write Hk Hf :=
  match goal with
  | Hb : buffer_ok ?cap ?n ?vs |- context [upd F ?vs ?k ?f] =>
    let v := fresh "v" in let E := fresh "E" in let Hb' := fresh "Hb" in
    destruct (upd_ok cap n vs k f Hb Hk Hf) as [v [_ [E Hb']]];
    rewrite E; cbn [mbind option_bind]; clear E Hb
  end.
Ltac fresh_write Hk Hn :=
  match goal with
  | Hb : buffer_ok ?cap ?n ?vs |- context [upd F ?vs ?k ?f] =>
    let v := fresh "v" in let E := fresh "E" in let Hb' := fresh "Hb" in
    destruct (upd_fresh cap n vs k f Hb Hk Hn) as [v [_ [E Hb']]];
    rewrite E; cbn [mbind option_bind]; clear E Hb
  end.

Lemma project_vertex_total (cap n k vn : Z) (p : vec3 F) (vs : gmap Z (VERT F)) :
  buffer_ok cap n vs -> 0 <= k < n -> n <= vn < cap ->
  exists vs' vn', project_vertex k p (vs, vn) = Some (vs', vn')
                  /\ buffer_ok cap n vs' /\ vn <= vn' <= vn + 1.
Proof.
  intros Hb Hk Hvn. unfold Tiling.project_vertex.
  assert (Hk' : 0 <= k < cap) by lia.
  assert (Hn : 0 <= n) by lia.
  own_write Hk' (tagged_Z (RT_VECTOR_DOT F (vsub F p org) nrm)).
  own_write Hk' tagged_mone.
  match goal with |- context [if ?c then _ else _] => destruct c end.
  - own_write Hk' (tagged_X (RT_VECTOR_DOT F (vsub F (vdivs F (vsub F p pos)
               (r_div F (RT_VECTOR_DOT F (vsub F p pos) nrm) pov)) dir) htl)).
    own_write Hk' (tagged_Y (RT_VECTOR_DOT F (vsub F (vdivs F (vsub F p pos)
               (r_div F (RT_VECTOR_DOT F (vsub F p pos) nrm) pov)) dir) vtl)).
    own_write Hk' tagged_one.
    rewrite lookup_insert_eq. cbn [mbind option_bind].
    match goal with |- context [if ?c then _ else _] => destruct c end.
    + fresh_write Hvn Hn. fresh_write Hvn Hn.
      own_write Hk' tagged_zero.
      eexists. eexists. split; [reflexivity|]. split; [eassumption | lia].
    + eexists. eexists. split; [reflexivity|]. split; [eassumption | lia].
  - eexists. eexists. split; [reflexivity|]. split; [eassumption | lia].
Qed.

Lemma project_vertices_total (cap n : Z) (vrt : list (vec3 F)) :
  forall (k vn : Z) (vs : gmap Z (VERT F)),
    buffer_ok cap n vs -> 0 <= k -> k + Z.of_nat (length vrt) <= n ->
    n <= vn -> vn + Z.of_nat (length vrt) <= cap ->
    exists vs' vn', project_vertices k vrt (vs, vn) = Some (vs', vn')
                    /\ buffer_ok cap n vs' /\ vn <= vn' <= vn + Z.of_nat (length vrt).
Proof.
  induction vrt as [|p vrt IH]; intros k vn vs Hb Hk Hkn Hvn Hcap.
  - exists vs, vn. split; [reflexivity|]. split; [exact Hb | cbn; lia].
  - cbn [length] in Hkn, Hcap. cbn [Tiling.project_vertices].
    destruct (project_vertex_total cap n k vn p vs Hb) as [vs1 [vn1 [E1 [Hb1 Hn1]]]]; [lia | lia |].
    rewrite E1. cbn [mbind option_bind].
    destruct (IH (k + 1) vn1 vs1 Hb1) as [vs2 [vn2 [E2 [Hb2 Hn2]]]]; [lia | lia | lia | lia |].
    exists vs2, vn2. split; [exact E2|]. split; [exact Hb2 | cbn [length]; lia].
Qed.

Lemma buffer_ok_insert (cap n k : Z) (v : VERT F) (vs : gmap Z (VERT F)) :
  buffer_ok cap n vs -> n <= k -> buffer_ok cap n (<[k := v]> vs).
Proof.
  intros [Hd Ht] Hk. split.
  - intros x Hx. destruct (decide (k = x)) as [->|Hne].
    + rewrite lookup_insert_eq. eexists. reflexivity.
    + rewrite lookup_insert_ne by exact Hne. apply Hd. exact Hx.
  - intros x w Hx Hw. rewrite lookup_insert_ne in Hw by lia. eapply Ht; eassumption.
Qed.

Lemma vrt_at_some (vrt : list (vec3 F)) (k : Z) :
  0 <= k < Z.of_nat (length vrt) -> exists p, vrt_at F vrt k = Some p.
Proof.
  intros Hk. unfold vrt_at. destruct (k <? 0) eqn:E; [lia|].
  destruct (vrt !! Z.to_nat k) as [p|] eqn:E1; [exists p; reflexivity|].
  apply lookup_ge_None in E1. lia.
Qed.

(** An edge between two of the surface's vertices: at most one new
    vertex is written, at [vn], and both indices handed on are entries
    of the buffer. *)
Lemma clip_edge_total (cap n vn : Z) (vrt : list (vec3 F)) (e : Z * Z) (vs : gmap Z (VERT F)) :
  buffer_ok cap n vs -> Z.of_nat (length vrt) = n -> n <= vn < cap ->
  0 <= fst e < n -> 0 <= snd e < n ->
  exists vs' vn' call,
    clip_edge vrt e (vs, vn) = Some (vs', vn', call)
    /\ buffer_ok cap n vs' /\ vn <= vn' <= vn + 1
    /\ (forall a b, call = Some (a, b) -> 0 <= a < cap /\ 0 <= b < cap).
Proof.
  intros Hb Hlen Hvn Ha Hbd. pose proof Hb as [Hd Ht].
  destruct (Hd (fst e) ltac:(lia)) as [v0 H0]. destruct (Hd (snd e) ltac:(lia)) as [v1 H1].
  destruct (Hd vn ltac:(lia)) as [vnew Hnew].
  destruct (vrt_at_some vrt (fst e) ltac:(lia)) as [p0 Hp0].
  destruct (vrt_at_some vrt (snd e) ltac:(lia)) as [p1 Hp1].
  pose proof (Ht _ _ Ha H0) as T0. pose proof (Ht _ _ Hbd H1) as T1.
  pose proof Htag as [L1 [L2 [L3 [L4 L5]]]].
  assert (Hkeep : r_leb F (r_zero F) (pos_W F v0) = true ->
                  r_leb F (r_zero F) (pos_W F v1) = true ->
                  r_leb F (pos_W F v0) (r_zero F) && r_leb F (pos_W F v1) (r_zero F) = false ->
                  clip_edge vrt e (vs, vn) = Some (vs, vn, Some e)).
  { intros E0 E1 Es. unfold Tiling.clip_edge. rewrite H0, H1. cbn [mbind option_bind fst snd].
    rewrite Es. unfold Tiling.clip_end. cbn [Z.eqb fst snd]. rewrite E0.
    cbn [mbind option_bind]. change (1 =? 0) with false. cbv iota. rewrite E1. reflexivity. }
  destruct T0 as [T0 | [T0 | T0]]; destruct T1 as [T1 | [T1 | T1]].
  - exists vs, vn, None. split; [apply (clip_edge_skip F org htl vtl vrt e vs vn v0 v1 Htag H0 H1); tauto|].
    split; [exact Hb|]. split; [lia | discriminate].
  - exists vs, vn, None. split; [apply (clip_edge_skip F org htl vtl vrt e vs vn v0 v1 Htag H0 H1); tauto|].
    split; [exact Hb|]. split; [lia | discriminate].
  - eexists. eexists. eexists.
    split; [apply (clip_edge_first F org htl vtl vrt e vs vn v0 v1 vnew p0 p1 Htag H0 H1 T0 T1 Hp0 Hp1 Hnew)|].
    split; [apply buffer_ok_insert; [exact Hb | lia]|]. split; [lia|].
    intros a b H. injection H as <- <-. lia.
  - exists vs, vn, None. split; [apply (clip_edge_skip F org htl vtl vrt e vs vn v0 v1 Htag H0 H1); tauto|].
    split; [exact Hb|]. split; [lia | discriminate].
  - exists vs, vn, None. split; [apply (clip_edge_skip F org htl vtl vrt e vs vn v0 v1 Htag H0 H1); tauto|].
    split; [exact Hb|]. split; [lia | discriminate].
  - exists vs, vn, (Some e). split; [apply Hkeep; rewrite ?T0, ?T1, ?L2, ?L3, ?L4; reflexivity|].
    split; [exact Hb|]. split; [lia|]. intros a b H. injection H as ->. cbn [fst snd] in *. lia.
  - eexists. eexists. eexists.
    split; [apply (clip_edge_second F org htl vtl vrt e vs vn v0 v1 vnew p0 p1 Htag H0 H1 T0 T1 Hp0 Hp1 Hnew)|].
    split; [apply buffer_ok_insert; [exact Hb | lia]|]. split; [lia|].
    intros a b H. injection H as <- <-. lia.
  - exists vs, vn, (Some e). split; [apply Hkeep; rewrite ?T0, ?T1, ?L2, ?L3, ?L4; reflexivity|].
    split; [exact Hb|]. split; [lia|]. intros a b H. injection H as ->. cbn [fst snd] in *. lia.
  - exists vs, vn, (Some e). split; [apply Hkeep; rewrite ?T0, ?T1, ?L2, ?L3, ?L4; reflexivity|].
    split; [exact Hb|]. split; [lia|]. intros a b H. injection H as ->. cbn [fst snd] in *. lia.
Qed.

Lemma tiling_at_total (cap n a b : Z) (vs : gmap Z (VERT F)) (tb : bounds) :
  buffer_ok cap n vs -> 0 <= a < cap -> 0 <= b < cap -> good tb ->
  exists tb', tiling_at vs a b tb = Some tb' /\ good tb'.
Proof.
  intros [Hd _] Ha Hb Hg. unfold Tiling.tiling_at.
  destruct (Hd a Ha) as [va ->]. destruct (Hd b Hb) as [vb ->]. cbn [mbind option_bind].
  destruct (tiling_good F tiles_in_row tiles_in_col opt_tiling_ext1 Hrow Hcol
              (pos_X F va, pos_Y F va) (pos_X F vb, pos_Y F vb) tb Hg) as [tb' [E [Hg' _]]].
  exists tb'. split; assumption.
Qed.

Lemma tile_edges_total (cap n : Z) (vrt : list (vec3 F)) (es : list (Z * Z)) :
  forall (vs : gmap Z (VERT F)) (vn : Z) (tb : bounds) (calls : list (Z * Z)),
    buffer_ok cap n vs -> Z.of_nat (length vrt) = n ->
    n <= vn -> vn + Z.of_nat (length es) <= cap ->
    Forall (fun e => 0 <= fst e < n /\ 0 <= snd e < n) es -> good tb ->
    exists vs' vn' tb' calls',
      tile_edges vrt es (vs, vn, tb, calls) = Some (vs', vn', tb', calls')
      /\ buffer_ok cap n vs' /\ vn <= vn' <= vn + Z.of_nat (length es) /\ good tb'.
Proof.
  induction es as [|e es IH]; intros vs vn tb calls Hb Hlen Hvn Hcap Hes Hg.
  - exists vs, vn, tb, calls. split; [reflexivity|]. split; [exact Hb|]. split; [cbn; lia | exact Hg].
  - cbn [length] in Hcap. inversion Hes as [|? ? [He1 He2] Hes']; subst.
    cbn [Tiling.tile_edges].
    destruct (clip_edge_total cap (Z.of_nat (length vrt)) vn vrt e vs Hb eq_refl ltac:(lia) He1 He2)
      as [vs1 [vn1 [call [E1 [Hb1 [Hn1 Hc1]]]]]].
    rewrite E1. cbn [mbind option_bind].
    destruct call as [[a b]|].
    + destruct (Hc1 a b eq_refl) as [Ha Hbb].
      destruct (tiling_at_total cap _ a b vs1 tb Hb1 Ha Hbb Hg) as [tb1 [E2 Hg1]].
      rewrite E2. cbn [mbind option_bind].
      destruct (IH vs1 vn1 tb1 (calls ++ [(a, b)]) Hb1 eq_refl ltac:(lia) ltac:(lia) Hes' Hg1)
        as [vs2 [vn2 [tb2 [calls2 [E3 [Hb2 [Hn2 Hg2]]]]]]].
      exists vs2, vn2, tb2, calls2. split; [exact E3|]. split; [exact Hb2|].
      split; [cbn [length]; lia | exact Hg2].
    + destruct (IH vs1 vn1 tb calls Hb1 eq_refl ltac:(lia) ltac:(lia) Hes' Hg)
        as [vs2 [vn2 [tb2 [calls2 [E3 [Hb2 [Hn2 Hg2]]]]]]].
      exists vs2, vn2, tb2, calls2. split; [exact E3|]. split; [exact Hb2|].
      split; [cbn [length]; lia | exact Hg2].
Qed.

Lemma tile_pairs_from_total (cap n : Z) (vs : gmap Z (VERT F)) (cnt : nat) :
  forall (i j : Z) (st : bounds * list (Z * Z)),
    buffer_ok cap n vs -> 0 <= i < cap -> 0 <= j -> j + Z.of_nat cnt <= cap -> good (fst st) ->
    exists st', tile_pairs_from cnt vs i j st = Some st' /\ good (fst st').
Proof.
  induction cnt as [|c IH]; intros i j st Hb Hi Hj Hc Hg.
  - exists st. split; [reflexivity | exact Hg].
  - cbn [Tiling.tile_pairs_from].
    destruct (tiling_at_total cap n i j vs (fst st) Hb Hi ltac:(lia) Hg) as [tb1 [E1 Hg1]].
    rewrite E1. cbn [mbind option_bind].
    apply (IH i (j + 1) (tb1, snd st ++ [(i, j)]) Hb Hi); [lia | lia | exact Hg1].
Qed.

Lemma tile_pairs_total (cap n vn : Z) (vs : gmap Z (VERT F)) (cnt : nat) :
  forall (i : Z) (st : bounds * list (Z * Z)),
    buffer_ok cap n vs -> 0 <= i -> vn <= cap -> i + Z.of_nat cnt <= vn ->
    good (fst st) ->
    exists st', tile_pairs cnt vs vn i st = Some st' /\ good (fst st').
Proof.
  induction cnt as [|c IH]; intros i st Hb Hi Hvn Hc Hg.
  - exists st. split; [reflexivity | exact Hg].
  - cbn [Tiling.tile_pairs].
    destruct (tile_pairs_from_total cap n vs (Z.to_nat (vn - (i + 1))) i (i + 1) st Hb)
      as [st1 [E1 Hg1]]; [lia | lia | lia | exact Hg |].
    rewrite E1. cbn [mbind option_bind].
    apply (IH (i + 1) st1 Hb); [lia | lia | lia | exact Hg1].
Qed.

Lemma memset_verts_lookup (cnt k : Z) :
  0 <= k < cnt -> memset_verts F cnt !! k = Some (zero_VERT F).
Proof.
  intros Hk. unfold memset_verts. apply elem_of_list_to_map_1.
  - rewrite <- list_fmap_compose.
    apply NoDup_fmap_2; [intros a b H; cbn in H; lia | apply NoDup_seq].
  - apply list_elem_of_fmap. exists (Z.to_nat k). split; [f_equal; lia|].
    apply elem_of_seq. lia.
Qed.

Lemma memset_verts_ok (cap n : Z) : buffer_ok cap n (memset_verts F cap).
Proof.
  split.
  - intros x Hx. rewrite memset_verts_lookup by exact Hx. eexists. reflexivity.
  - intros x v Hx Hv. destruct (decide (x < cap)) as [Hlt|Hge].
    + rewrite memset_verts_lookup in Hv by lia. injection Hv as <-. right. left. reflexivity.
    + unfold memset_verts in Hv. apply elem_of_list_to_map_2 in Hv.
      apply list_elem_of_fmap in Hv. destruct Hv as [y [Hy _]]. cbn in Hy. injection Hy as _ Hv'. subst v.
      right. left. reflexivity.
Qed.

(** The projection of a bounding box whose edges join vertices of the
    surface completes: every access to the scratch buffer [verts] falls
    within the [2 * verts_num + edges_num] entries that the [memset]
    covers, every read of [srf->verts] within its [verts_num] entries,
    every access to [txmin]/[txmax] within the tile rows; the bounds it
    leaves are within the tile grid. *)
Theorem project_bbox_within_buffer (sf : Surface F) (tb : bounds) :
  Forall (fun e => 0 <= fst e < Z.of_nat (length (verts F sf))
                   /\ 0 <= snd e < Z.of_nat (length (verts F sf))) (edges F sf) ->
  rows_ok tiles_in_col tb ->
  exists tb' calls, project_bbox sf tb = Some (tb', calls) /\ good tb'.
Proof.
  intros Hes Hrows. unfold Tiling.project_bbox.
  destruct (reset_good tiles_in_row tiles_in_col Hrow tb Hrows) as [tb0 [E0 Hg0]].
  rewrite E0. cbn [mbind option_bind].
  set (n := Z.of_nat (length (verts F sf))) in *.
  set (cap := 2 * n + Z.of_nat (length (edges F sf))).
  destruct (project_vertices_total cap n (verts F sf) 0 n (memset_verts F cap))
    as [vs1 [vn1 [E1 [Hb1 Hn1]]]];
    [apply memset_verts_ok | lia | lia | lia | unfold cap; lia |].
  rewrite E1. cbn [mbind option_bind].
  destruct (tile_edges_total cap n (verts F sf) (edges F sf) vs1 vn1 tb0 [] Hb1 eq_refl)
    as [vs2 [vn2 [tb2 [calls2 [E2 [Hb2 [Hn2 Hg2]]]]]]];
    [lia | unfold cap; lia | exact Hes | exact Hg0 |].
  rewrite E2. cbn [mbind option_bind].
  destruct (tile_pairs_total cap n vn2 vs2 (Z.to_nat (vn2 - 1 - n)) n (tb2, calls2) Hb2)
    as [[tb3 calls3] [E3 Hg3]]; [lia | unfold cap; lia | lia | exact Hg2 |].
  exists tb3, calls3. split; [exact E3 | exact Hg3].
Qed.

End Buffer.

Lemma project_bbox_within_buffer_witness :
  exists tb' calls,
    Tiling.project_bbox int_float 4 4 false (0, 0, 0) (0, 0, -1) (0, 0, 1) (0, 0, 1)
      (1, 0, 0) (0, 1, 0) 1 demo_surface (mkBounds [0; 0; 0; 0] [0; 0; 0; 0])
    = Some (tb', calls)
    /\ TilingSpec.good 4 4 tb'.
Proof.
  apply (project_bbox_within_buffer int_float 4 4 false (0, 0, 0) (0, 0, -1) (0, 0, 1) (0, 0, 1)
           (1, 0, 0) (0, 1, 0) 1 ltac:(lia) ltac:(lia) ltac:(repeat split; reflexivity) demo_surface).
  - repeat constructor; cbn; lia.
  - split; reflexivity.
Defined.

End BufferSpec.

(** ** stile: the tile list of any surface *)

Module TileListSpec.
Import Mem MemFacts ListFacts Tiling TilingSpec StileSpec.

(** [i << 16 | j] read back by [data >> 16] and [data & 0xFFFF]. *)
Lemma pack_sum (i j : Z) :
  0 <= i -> 0 <= j < 65536 -> Z.lor (Z.shiftl i 16) j = i * 65536 + j.
Proof.
  intros Hi Hj.
  assert (Hd : Z.land (Z.shiftl i 16) j = 0).
  { apply Z.bits_inj'. intros n Hn. rewrite Z.land_spec, Z.bits_0.
    destruct (Z_lt_le_dec n 16) as [Hlt|Hge].
    - rewrite Z.shiftl_spec_low by lia. reflexivity.
    - rewrite (Z.bits_above_log2 j n); [apply andb_false_r | lia |].
      destruct (Z.eq_dec j 0) as [->|Hne]; [cbn; lia|].
      apply Z.log2_lt_pow2; [lia|].
      apply Z.lt_le_trans with (2 ^ 16); [lia|]. apply Z.pow_le_mono_r; lia. }
  rewrite <- Z.lxor_lor by exact Hd. rewrite <- Z.add_nocarry_lxor by exact Hd.
  rewrite Z.shiftl_mul_pow2 by lia. reflexivity.
Qed.

Lemma unpack_tile (i j : Z) :
  0 <= i < 32768 -> 0 <= j < 65536 ->
  Grid.tile_row (Z.lor (Z.shiftl i 16) j) = i /\ Grid.tile_col (Z.lor (Z.shiftl i 16) j) = j.
Proof.
  intros Hi Hj. unfold Grid.tile_row, Grid.tile_col. rewrite pack_sum by lia.
  rewrite (Z.mod_small (i * 65536 + j)) by lia.
  split.
  - rewrite Z.shiftr_div_pow2 by lia. change (2 ^ 16) with 65536.
    rewrite Z.div_add_l by lia. rewrite Z.div_small by lia. lia.
  - change 65535 with (Z.ones 16). rewrite Z.land_ones by lia. change (2 ^ 16) with 65536.
    rewrite Z.add_comm, Z.mod_add by lia. apply Z.mod_small. lia.
Qed.

Section Marked.

Variable F : FloatOps.
Variable tiles_in_row tiles_in_col : Z.

(** The tiles that the loop [for (j = txmin[i]; j <= txmax[i]; j++)]
    visits in the row [i], and those of all rows in row-major order. *)
Definition row_tiles (tb : bounds) (i : Z) : list (Z * Z) :=
  match get (txmin tb) i, get (txmax tb) i with
  | Some lo, Some hi => map (fun j => (i, j)) (seqZ lo (hi - lo + 1))
  | _, _ => []
  end.

Definition marked (tb : bounds) : list (Z * Z) :=
  flat_map (row_tiles tb) (seqZ 0 tiles_in_col).

Lemma seqZ_to_nat (m len : Z) : seqZ m (Z.of_nat (Z.to_nat len)) = seqZ m len.
Proof. unfold seqZ. rewrite Nat2Z.id. reflexivity. Qed.

Lemma marked_in_grid (tb : bounds) (t : Z * Z) :
  good tiles_in_row tiles_in_col tb -> In t (marked tb) ->
  0 <= fst t < tiles_in_col /\ 0 <= snd t < tiles_in_row.
Proof.
  intros [[L1 L2] [B1 B2]] Hin. unfold marked in Hin. apply in_flat_map in Hin.
  destruct Hin as [i [Hi Ht]]. apply list_elem_of_In, elem_of_seqZ in Hi.
  unfold row_tiles in Ht.
  destruct (get (txmin tb) i) as [lo|] eqn:E1; [|destruct Ht].
  destruct (get (txmax tb) i) as [hi|] eqn:E2; [|destruct Ht].
  apply in_map_iff in Ht. destruct Ht as [j [<- Hj]].
  apply list_elem_of_In, elem_of_seqZ in Hj. cbn [fst snd].
  unfold get in E1, E2. destruct (i <? 0); [discriminate|].
  rewrite Forall_forall in B1, B2.
  apply list_elem_of_lookup_2 in E1, E2. apply B1 in E1. apply B2 in E2. lia.
Qed.

Variable sf : Surface F.
Variable c : var.

Lemma fill_rows_marked (tb : bounds) (cnt : nat) :
  forall (i : Z) (s : state) (l : list Z) (ts : list (Z * Z)) (ptr : loc),
    0 <= i -> i + Z.of_nat cnt <= tiles_in_col -> rows_ok tiles_in_col tb ->
    open_list s c l ptr -> below_brk s l -> 0 < brk s ->
    Forall2 (tile_elem F sf (elems s)) l ts ->
    exists s' l' ptr',
      fill_rows F cnt sf i tb ptr s = Ok ptr' s'
      /\ open_list s' c l' ptr' /\ below_brk s' l' /\ 0 < brk s'
      /\ Forall2 (tile_elem F sf (elems s')) l'
                 (ts ++ flat_map (row_tiles tb) (seqZ i (Z.of_nat cnt))).
Proof.
  induction cnt as [|m IH]; intros i s l ts ptr Hi Hn Hrows Ho Hb Hbrk Hc.
  - exists s, l, ptr. split; [reflexivity|]. split; [exact Ho|]. split; [exact Hb|].
    split; [exact Hbrk|].
    change (Z.of_nat 0) with 0. rewrite (seqZ_nil i 0) by lia. cbn [flat_map].
    rewrite app_nil_r. exact Hc.
  - cbn [fill_rows]. pose proof Hrows as [L1 L2].
    destruct (get_in_range (txmin tb) i ltac:(lia)) as [lo [Elo _]].
    destruct (get_in_range (txmax tb) i ltac:(lia)) as [hi [Ehi _]].
    rewrite bind_unfold. unfold lift at 1. rewrite Elo.
    rewrite bind_unfold. unfold lift at 1. rewrite Ehi.
    rewrite bind_unfold.
    destruct (fill_row_spec F sf c (Z.to_nat (hi - lo + 1)) i lo s l ts ptr Ho Hb Hbrk Hc)
      as [s1 [l1 [ptr1 [E1 [Ho1 [Hb1 [Hbrk1 Hc1]]]]]]].
    rewrite E1.
    destruct (IH (i + 1) s1 l1 _ ptr1 ltac:(lia) ltac:(lia) Hrows Ho1 Hb1 Hbrk1 Hc1)
      as [s' [l' [ptr' [E [Ho' [Hb' [Hbrk' Hc']]]]]]].
    exists s', l', ptr'. split; [exact E|]. split; [exact Ho'|]. split; [exact Hb'|].
    split; [exact Hbrk'|].
    rewrite (seqZ_cons i) by lia. cbn [flat_map].
    replace (Z.succ i) with (i + 1) by lia.
    replace (Z.pred (Z.of_nat (S m))) with (Z.of_nat m) by lia.
    unfold row_tiles at 1. rewrite Elo, Ehi.
    rewrite seqZ_to_nat in Hc'. rewrite <- app_assoc in Hc'. exact Hc'.
Qed.

(** [*ptr = RT_NULL] closes the list under construction. *)
Lemma close_list (s : state) (l : list Z) (ts : list (Z * Z)) (ptr : loc) :
  open_list s c l ptr -> Forall2 (tile_elem F sf (elems s)) l ts ->
  exists s', store ptr 0 s = Ok tt s'
    /\ slots s' !! c = Some (hd 0 l)
    /\ lseg (elems s') (hd 0 l) l 0
    /\ Forall2 (tile_elem F sf (elems s')) l ts.
Proof.
  intros Ho Hc.
  destruct Ho as [[-> [-> Hs]] | [l' [a [q [-> [-> [Hhd [Hl Hn]]]]]]]].
  - rewrite store_slot_eq by exact Hs.
    eexists. split; [reflexivity|]. cbn [slots elems hd lseg].
    split; [apply lookup_insert_eq|]. split; [reflexivity|]. exact Hc.
  - assert (Ha : In a (l' ++ [a])) by (apply in_or_app; right; left; reflexivity).
    destruct (lseg_dom _ _ _ _ a Hl Ha) as [ea Hea].
    cbn [store]. rewrite (wr_eq _ _ _ _ ea Hea).
    eexists. split; [reflexivity|]. cbn [slots elems].
    rewrite hd_app_snoc. split; [exact Hhd|]. split.
    + eapply lseg_set_last; eassumption.
    + eapply tile_elems_keep; [|exact Hc].
      intros x e Hx He. destruct (decide (x = a)) as [-> | Hxa].
      * rewrite lookup_insert_eq. eexists. split; [reflexivity|].
        rewrite Hea in He. injection He as <-. repeat split; reflexivity.
      * rewrite lookup_insert_ne by congruence. exists e. repeat split; try reflexivity.
        exact He.
Qed.

End Marked.

Section Stile.

Variable F : FloatOps.
Variable tiles_in_row tiles_in_col : Z.
Variable opt_tiling_ext1 : bool.
Variable org pos nrm dir htl vtl : vec3 F.
Variable pov : real F.
Hypothesis Hrow : 1 <= tiles_in_row <= 65536.
Hypothesis Hcol : 0 <= tiles_in_col <= 32768.
Hypothesis Htag : ClipSpec.tag_order F.

Local Abbreviation good := (TilingSpec.good tiles_in_row tiles_in_col).
Local Abbreviation project_bbox :=
  (Tiling.project_bbox F tiles_in_row tiles_in_col opt_tiling_ext1 org pos nrm dir htl vtl pov).
Local Abbreviation stile :=
  (Tiling.stile F tiles_in_row tiles_in_col opt_tiling_ext1 org pos nrm dir htl vtl pov true).

Lemma decode_tiles (sf : Surface F) (h : gmap Z ELEM) (l : list Z) (ts : list (Z * Z)) :
  Forall2 (tile_elem F sf h) l ts ->
  Forall (fun t => 0 <= fst t < tiles_in_col /\ 0 <= snd t < tiles_in_row) ts ->
  Forall2 (fun a t =>
             tile_elem F sf h a t
             /\ Grid.tile_row (SortSpec.fld data h a) = fst t
             /\ Grid.tile_col (SortSpec.fld data h a) = snd t
             /\ 0 <= fst t < tiles_in_col /\ 0 <= snd t < tiles_in_row) l ts.
Proof.
  intros Hc. induction Hc as [|a t l0 ts0 Ha Hc IH]; intros Hin; [constructor|].
  apply Forall_cons in Hin. destruct Hin as [[Ht1 Ht2] Hin].
  constructor; [|apply IH; exact Hin].
  split; [exact Ha|].
  destruct Ha as [e [He [Hd _]]]. unfold SortSpec.fld. rewrite He, Hd.
  destruct (unpack_tile (fst t) (snd t) ltac:(lia) ltac:(lia)) as [U1 U2].
  rewrite U1, U2. repeat split; lia.
Qed.

(** Both ways of setting the bounds in [stile] complete and leave them
    within the grid. *)
Lemma stile_bounds (sf : Surface F) (tb : bounds) (s : state) :
  Forall (fun e => 0 <= fst e < Z.of_nat (length (verts F sf))
                   /\ 0 <= snd e < Z.of_nat (length (verts F sf))) (edges F sf) ->
  rows_ok tiles_in_col tb ->
  exists tb',
    (if negb (Z.of_nat (length (verts F sf)) =? 0)
     then r ← lift (project_bbox sf tb); mret (fst r)
     else lift (mark_all tiles_in_row tiles_in_col tb)) s = Ok tb' s
    /\ good tb'.
Proof.
  intros Hes Hrows.
  destruct (Z.of_nat (length (verts F sf)) =? 0) eqn:En; cbn [negb].
  - pose proof Hrows as [L1 L2].
    destruct (set_rows_spec (Z.to_nat tiles_in_col) 0 0 (tiles_in_row - 1) tb)
      as [tb' [E [E1 E2]]]; [lia | lia | congruence |].
    change (Z.to_nat 0) with 0%nat in E1, E2. rewrite take_0 in E1, E2. cbn [app] in E1, E2.
    exists tb'. unfold mark_all. rewrite E. split; [reflexivity|].
    unfold TilingSpec.good, rows_ok, bounded. rewrite E1, E2, !length_replicate.
    split; [split; reflexivity|]. split; apply Forall_replicate; lia.
  - unfold Tiling.project_bbox.
    destruct (reset_good tiles_in_row tiles_in_col ltac:(lia) tb Hrows) as [tb0 [E0 Hg0]].
    rewrite E0. cbn [mbind option_bind].
    set (n := Z.of_nat (length (verts F sf))) in *.
    set (cap := 2 * n + Z.of_nat (length (edges F sf))).
    destruct (BufferSpec.project_vertices_total F org pos nrm dir htl vtl pov cap n (verts F sf)
                0 n (memset_verts F cap))
      as [vs1 [vn1 [E1 [Hb1 Hn1]]]];
      [apply BufferSpec.memset_verts_ok | lia | lia | lia | unfold cap; lia |].
    rewrite E1. cbn [mbind option_bind].
    destruct (BufferSpec.tile_edges_total F tiles_in_row tiles_in_col opt_tiling_ext1 org htl vtl
                ltac:(lia) ltac:(lia) Htag cap n (verts F sf) (edges F sf) vs1 vn1 tb0 []
                Hb1 eq_refl)
      as [vs2 [vn2 [tb2 [calls2 [E2 [Hb2 [Hn2 Hg2]]]]]]];
      [lia | unfold cap; lia | exact Hes | exact Hg0 |].
    rewrite E2. cbn [mbind option_bind].
    destruct (BufferSpec.tile_pairs_total F tiles_in_row tiles_in_col opt_tiling_ext1
                ltac:(lia) ltac:(lia) cap n vn2 vs2 (Z.to_nat (vn2 - 1 - n)) n (tb2, calls2) Hb2)
      as [[tb3 calls3] [E3 Hg3]]; [lia | unfold cap; lia | lia | exact Hg2 |].
    rewrite E3. exists tb3. split; [reflexivity | exact Hg3].
Qed.

(** With tiling on, [stile] leaves at [msc_p[0]] a null-terminated list
    with exactly one element per marked tile, rows in ascending order
    and within a row the columns [txmin[i] .. txmax[i]] in ascending
    order; each element holds the surface and its descriptor, and its
    [data] read back as [render] does ([data >> 16], [data & 0xFFFF])
    gives the row and the column of its tile, a tile of the grid. *)
Theorem stile_tile_list (sf : Surface F) (tb : bounds) (s : state) :
  Forall (fun e => 0 <= fst e < Z.of_nat (length (verts F sf))
                   /\ 0 <= snd e < Z.of_nat (length (verts F sf))) (edges F sf) ->
  rows_ok tiles_in_col tb ->
  is_Some (slots s !! MscP (srf F sf) 0) -> 0 < brk s ->
  exists tb' s' l,
    stile sf tb s = Ok tb' s'
    /\ good tb'
    /\ slots s' !! MscP (srf F sf) 0 = Some (hd 0 l)
    /\ lseg (elems s') (hd 0 l) l 0
    /\ Forall2 (fun a t =>
                  tile_elem F sf (elems s') a t
                  /\ Grid.tile_row (SortSpec.fld data (elems s') a) = fst t
                  /\ Grid.tile_col (SortSpec.fld data (elems s') a) = snd t
                  /\ 0 <= fst t < tiles_in_col /\ 0 <= snd t < tiles_in_row)
               l (marked tiles_in_col tb').
Proof.
  intros Hes Hrows Hslot Hbrk.
  unfold Tiling.stile.
  rewrite bind_unfold. rewrite store_slot_eq by exact Hslot.
  change (negb true) with false. cbv iota. rewrite bind_unfold.
  set (s1 := mkState (elems s) (<[MscP (srf F sf) 0 := 0]> (slots s)) (brk s)).
  destruct (stile_bounds sf tb s1 Hes Hrows) as [tb' [Eb Hg]].
  rewrite Eb.
  destruct (fill_rows_marked F tiles_in_col sf (MscP (srf F sf) 0) tb' (Z.to_nat tiles_in_col)
              0 s1 [] [] (Slot (MscP (srf F sf) 0)))
    as [s2 [l [ptr [E [Ho [Hb [Hbrk2 Hc]]]]]]].
  - lia.
  - lia.
  - exact (proj1 Hg).
  - left. split; [reflexivity|]. split; [reflexivity|].
    cbn [s1 slots]. rewrite lookup_insert_eq. eexists. reflexivity.
  - intros x [].
  - exact Hbrk.
  - constructor.
  - rewrite bind_unfold, E. cbn [app] in Hc.
    replace (Z.of_nat (Z.to_nat tiles_in_col)) with tiles_in_col in Hc by lia.
    fold (marked tiles_in_col tb') in Hc.
    destruct (close_list F sf (MscP (srf F sf) 0) s2 l _ ptr Ho Hc) as [s3 [E3 [Hhd [Hl Hc3]]]].
    rewrite bind_unfold, E3.
    exists tb', s3, l. split; [reflexivity|]. split; [exact Hg|].
    split; [exact Hhd|]. split; [exact Hl|].
    assert (Hin : Forall (fun t => 0 <= fst t < tiles_in_col /\ 0 <= snd t < tiles_in_row)
                         (marked tiles_in_col tb')).
    { apply Forall_forall. intros t Ht. apply list_elem_of_In in Ht.
      eapply marked_in_grid; eassumption. }
    apply decode_tiles; assumption.
Qed.

End Stile.

Lemma stile_tile_list_witness :
  let s := mkState ∅ {[ MscP 64 0 := 0 ]} 4096 in
  exists tb' s' l,
    Tiling.stile int_float 4 4 false (0, 0, 0) (0, 0, -1) (0, 0, 1) (0, 0, 1)
      (1, 0, 0) (0, 1, 0) 1 true ClipSpec.demo_surface (mkBounds [0; 0; 0; 0] [0; 0; 0; 0]) s
    = Ok tb' s'
    /\ TilingSpec.good 4 4 tb'
    /\ slots s' !! MscP 64 0 = Some (hd 0 l)
    /\ lseg (elems s') (hd 0 l) l 0
    /\ Forall2 (fun a t =>
                  tile_elem int_float ClipSpec.demo_surface (elems s') a t
                  /\ Grid.tile_row (SortSpec.fld data (elems s') a) = fst t
                  /\ Grid.tile_col (SortSpec.fld data (elems s') a) = snd t
                  /\ 0 <= fst t < 4 /\ 0 <= snd t < 4)
               l (marked 4 tb').
Proof.
  intros s.
  apply (stile_tile_list int_float 4 4 false (0, 0, 0) (0, 0, -1) (0, 0, 1) (0, 0, 1)
           (1, 0, 0) (0, 1, 0) 1 ltac:(lia) ltac:(lia) ltac:(repeat split; reflexivity)
           ClipSpec.demo_surface (mkBounds [0; 0; 0; 0] [0; 0; 0; 0]) s).
  - repeat constructor; cbn; lia.
  - split; reflexivity.
  - exists 0. reflexivity.
  - cbn. lia.
Defined.

End TileListSpec.

(** ** insert: what a call leaves alone *)

Module FrameSpec.
Import Mem Engine MemFacts.

(** From [s] to [s']: [n] elements were allocated, no variable other
    than the one at [p] changed, and every element below the allocation
    pointer of [s] is still there and stands for the same object. *)
Definition grows (n : Z) (p : loc) (s s' : state) : Prop :=
  0 <= n
  /\ brk s' = brk s + n * sizeof_ELEM
  /\ (forall c, Slot c <> p -> slots s' !! c = slots s !! c)
  /\ (forall a e, a < brk s -> elems s !! a = Some e ->
        exists e', elems s' !! a = Some e' /\ temp e' = temp e).

Definition keeps {A} (n : Z) (p : loc) (m : M A) : Prop :=
  forall s r s', m s = Ok r s' -> grows n p s s'.

(** [p'] is [p] or a field of an element. *)
Definition within (p p' : loc) : Prop := p' = p \/ forall c, p' <> Slot c.

Lemma grows_refl (p : loc) (s : state) : grows 0 p s s.
Proof.
  split; [lia|]. split; [lia|]. split; [reflexivity|].
  intros a e _ He. exists e. split; [exact He | reflexivity].
Qed.

Lemma grows_trans (n k : Z) (p : loc) (s s1 s2 : state) :
  grows n p s s1 -> grows k p s1 s2 -> grows (n + k) p s s2.
Proof.
  intros [Hn [Hb [Hs He]]] [Hk [Hb' [Hs' He']]].
  split; [lia|]. split; [unfold sizeof_ELEM in *; lia|].
  split; [intros c Hc; rewrite Hs', Hs by exact Hc; reflexivity|].
  intros a e Ha Hae. destruct (He a e Ha Hae) as [e1 [H1 T1]].
  destruct (He' a e1) as [e2 [H2 T2]]; [unfold sizeof_ELEM in *; lia | exact H1 |].
  exists e2. split; [exact H2 | congruence].
Qed.

Lemma keeps_ret {A} (p : loc) (a : A) : keeps 0 p (mret a : M A).
Proof. intros s r s' H. injection H as _ <-. apply grows_refl. Qed.

Lemma keeps_bind {A B} (n k : Z) (p : loc) (m : M A) (f : A -> M B) :
  keeps n p m -> (forall a, keeps k p (f a)) -> keeps (n + k) p (m ≫= f).
Proof.
  intros Hm Hf s r s' H. rewrite bind_unfold in H.
  destruct (m s) as [a s1| | |] eqn:E; try discriminate.
  eapply grows_trans; [eapply Hm; exact E | eapply Hf; exact H].
Qed.

Lemma keeps_bind0 {A B} (p : loc) (m : M A) (f : A -> M B) :
  keeps 0 p m -> (forall a, keeps 0 p (f a)) -> keeps 0 p (m ≫= f).
Proof. intros Hm Hf. change 0 with (0 + 0). apply keeps_bind; assumption. Qed.

Lemma keeps_rd (p : loc) f a : keeps 0 p (rd f a).
Proof.
  intros s r s' H. unfold rd in H. destruct (elems s !! a); [|discriminate].
  injection H as _ <-. apply grows_refl.
Qed.

Lemma keeps_wr (p : loc) (f : Z -> ELEM -> ELEM) a v :
  (forall v e, temp (f v e) = temp e) -> keeps 0 p (wr f a v).
Proof.
  intros Hf s r s' H. unfold wr in H. destruct (elems s !! a) as [e|] eqn:E; [|discriminate].
  injection H as _ <-. split; [lia|]. split; [cbn [brk]; lia|]. split; [reflexivity|].
  intros b eb _ Hb. cbn [elems]. destruct (decide (a = b)) as [->|Hne].
  - rewrite lookup_insert_eq. eexists. split; [reflexivity|]. rewrite Hf. congruence.
  - rewrite lookup_insert_ne by exact Hne. exists eb. split; [exact Hb | reflexivity].
Qed.

Lemma keeps_load (p p' : loc) : keeps 0 p (load p').
Proof.
  destruct p'; cbn [load]; try apply keeps_rd.
  intros s r s' H. destruct (slots s !! c); [|discriminate].
  injection H as _ <-. apply grows_refl.
Qed.

Lemma keeps_store (p p' : loc) (v : Z) : within p p' -> keeps 0 p (store p' v).
Proof.
  intros Hw. destruct p' as [c| | |]; cbn [store]; try (apply keeps_wr; reflexivity).
  destruct Hw as [<- | Hw]; [|exfalso; exact (Hw c eq_refl)].
  intros s r s' H. destruct (slots s !! c); [|discriminate].
  injection H as _ <-. split; [lia|]. split; [cbn [brk]; lia|]. split.
  - intros c' Hc'. cbn [slots]. apply lookup_insert_ne. congruence.
  - intros a e _ He. exists e. split; [exact He | reflexivity].
Qed.

Lemma keeps_timeout {A} (p : loc) : keeps 0 p (@timeout A).
Proof. intros s r s' H. discriminate. Qed.

Lemma keeps_throw {A} (p : loc) msg : keeps 0 p (@throw A msg).
Proof. intros s r s' H. discriminate. Qed.

Lemma within_refl (p : loc) : within p p.
Proof. left. reflexivity. Qed.

Lemma within_simd (p : loc) (a : Z) : within p (SimdOf a).
Proof. right. discriminate. Qed.

Section Frame.

Variable objs : gmap Z Object.
Variable slist : Z.
Variable opt_insert : bool.
Variable bbox_sort : Z -> Z -> Z -> Z.

Ltac keeps_step :=
  match goal with
  | |- keeps 0 _ (mbind _ _) => apply keeps_bind0; [|intros]
  | |- keeps 0 _ (_ ≫= _) => apply keeps_bind0; [|intros]
  | |- keeps 0 _ (mret _) => apply keeps_ret
  | |- keeps 0 _ (rd _ _) => apply keeps_rd
  | |- keeps 0 _ (wr set_next _ _) => apply keeps_wr; reflexivity
  | |- keeps 0 _ (wr set_data _ _) => apply keeps_wr; reflexivity
  | |- keeps 0 _ (wr set_simd _ _) => apply keeps_wr; reflexivity
  | |- keeps 0 _ (load _) => apply keeps_load
  | |- keeps 0 ?p (store ?p _) => apply keeps_store, within_refl
  | |- keeps 0 _ timeout => apply keeps_timeout
  | |- keeps 0 _ (throw _) => apply keeps_throw
  | |- keeps 0 _ (if ?b then _ else _) => destruct b
  | |- keeps 0 _ (match ?x with (_, _) => _ end) => destruct x
  | |- keeps 0 _ (let '(_, _) := ?x in _) => destruct x
  | H : _ |- _ => apply H
  end.

Lemma keeps_deref (p : loc) (x : Z) : keeps 0 p (deref objs x).
Proof.
  intros s r s' H. unfold deref in H. destruct (objs !! x); [|discriminate].
  injection H as _ <-. apply grows_refl.
Qed.

Lemma keeps_order_of p obj a b : keeps 0 p (order_of bbox_sort obj a b).
Proof. unfold order_of. repeat keeps_step. Qed.

Lemma keeps_repair p obj a : keeps 0 p (repair bbox_sort obj a).
Proof. unfold repair. repeat first [apply keeps_order_of | keeps_step]. Qed.

Lemma keeps_search_parent p fuel par target : keeps 0 p (search_parent objs fuel par target).
Proof.
  revert par. induction fuel as [|f IH]; intros par; cbn [search_parent];
    repeat first [apply keeps_deref | keeps_step].
Qed.

Lemma keeps_outer_most p fuel arr : keeps 0 p (outer_most objs fuel arr).
Proof.
  unfold outer_most, branch_order.
  repeat first [apply keeps_deref | apply keeps_search_parent | keeps_step].
Qed.

Lemma keeps_nodes_of p obj srf : keeps 0 p (nodes_of objs obj srf).
Proof. unfold nodes_of. repeat first [apply keeps_deref | keeps_step]. Qed.

Lemma keeps_phase1 fuel obj ptr elm prv state nxt :
  keeps 0 ptr (phase1 bbox_sort fuel obj ptr elm prv state nxt).
Proof.
  revert prv state nxt. induction fuel as [|f IH]; intros prv state nxt; cbn [phase1];
    repeat first [apply keeps_order_of | keeps_step].
Qed.

Lemma keeps_phase2 p fuel end_ : keeps 0 p (phase2 fuel end_).
Proof.
  revert end_. induction fuel as [|f IH]; intros end_; cbn [phase2]; repeat keeps_step.
Qed.

Lemma keeps_find_prev p fuel ipt cur : keeps 0 p (find_prev fuel ipt cur).
Proof.
  revert ipt. induction fuel as [|f IH]; intros ipt; cbn [find_prev]; repeat keeps_step.
Qed.

Lemma keeps_comb_scan p fuel obj tlp nxt cur state jpt :
  keeps 0 p (comb_scan bbox_sort fuel obj tlp nxt cur state jpt).
Proof.
  revert state jpt. induction fuel as [|f IH]; intros state jpt; cbn [comb_scan];
    repeat first [apply keeps_order_of | keeps_step].
Qed.

Lemma keeps_comb_tail p fuel obj end_ nxt tlp cur state gr ipt0 :
  keeps 0 p (comb_tail bbox_sort fuel obj end_ nxt tlp cur state gr ipt0).
Proof.
  revert tlp cur state gr ipt0.
  induction fuel as [|f IH]; intros tlp cur state gr ipt0; cbn [comb_tail];
    repeat first [apply keeps_find_prev | apply keeps_comb_scan
                 | apply keeps_repair | keeps_step].
Qed.

Lemma keeps_phase3 fuel obj ptr elm end_ prv state tlp nxt :
  keeps 0 ptr (phase3 bbox_sort fuel obj ptr elm end_ prv state tlp nxt).
Proof.
  revert prv state tlp nxt.
  induction fuel as [|f IH]; intros prv state tlp nxt; cbn [phase3];
    repeat first [apply keeps_order_of | apply keeps_comb_tail
                 | apply keeps_repair | keeps_step].
Qed.

Lemma keeps_sort fuel obj ptr elm : keeps 0 ptr (sort bbox_sort fuel obj ptr elm).
Proof.
  unfold sort.
  repeat first [apply keeps_order_of | apply keeps_phase1 | apply keeps_phase2
               | apply keeps_phase3 | keeps_step].
Qed.

Lemma grows_within (n : Z) (p p' : loc) (s s' : state) :
  within p p' -> grows n p' s s' -> grows n p s s'.
Proof.
  intros [-> | Hw] H; [exact H|].
  destruct H as [Hn [Hb [Hs He]]]. split; [exact Hn|]. split; [exact Hb|].
  split; [|exact He]. intros c _. apply Hs. intros E. exact (Hw c (eq_sym E)).
Qed.

(** The search for existing nodes reads only; the insertion point it
    returns is the one given or the [simd] field of a node. *)
Lemma search_nodes_reads (fuel : nat) (arr : Z * Z) (n : Z) :
  forall (i k : Z) (ptr : loc) (nxt : Z) (s : state) (i' k' : Z) (ptr' : loc) (s' : state),
    search_nodes fuel arr n i k ptr nxt s = Ok (i', k', ptr') s' ->
    s' = s /\ within ptr ptr' /\ i <= i' /\ (i' <= n \/ i' = i).
Proof.
  induction fuel as [|f IH]; intros i k ptr nxt s i' k' ptr' s' H; cbn [search_nodes] in H.
  - destruct ((nxt =? 0) || negb (i <? n)); [|discriminate].
    injection H as <- <- <- <-. split; [reflexivity|]. split; [apply within_refl|]. lia.
  - destruct ((nxt =? 0) || negb (i <? n)) eqn:Ec.
    + injection H as <- <- <- <-. split; [reflexivity|]. split; [apply within_refl|]. lia.
    + rewrite bind_unfold in H. unfold rd at 1 in H.
      destruct (elems s !! nxt) as [e|] eqn:Ee; [|discriminate].
      rewrite bind_unfold in H. unfold rd at 1 in H. rewrite Ee in H.
      destruct ((sel arr k =? temp e) && (tagof (simd e) =? k)).
      * rewrite bind_unfold in H. cbn [load] in H. unfold rd at 1 in H. rewrite Ee in H.
        rewrite bind_unfold in H. unfold rd at 1 in H.
        destruct (elems s !! untag (simd e)) as [e2|]; [|discriminate].
        apply IH in H. destruct H as [-> [Hw [Hi Hn]]].
        split; [reflexivity|]. split.
        { destruct Hw as [-> | Hw]; [apply within_simd | right; exact Hw]. }
        apply orb_false_iff in Ec. destruct Ec as [_ Ec]. apply negb_false_iff in Ec.
        lia.
      * rewrite bind_unfold in H. unfold rd at 1 in H. rewrite Ee in H.
        apply IH in H. exact H.
Qed.

(** The loop that allocates the missing nodes allocates [cnt] elements
    and writes to its insertion point and to the new nodes only. *)
Lemma alloc_nodes_grows (cnt : nat) (arr : Z * Z) (p : loc) :
  forall (k : Z) (ptr : loc) (org : option loc) (s : state) (ptr' : loc) (org' : option loc)
         (s' : state),
    within p ptr -> (forall o, org = Some o -> within p o) ->
    alloc_nodes cnt arr k ptr org s = Ok (ptr', org') s' ->
    grows (Z.of_nat cnt) p s s' /\ within p ptr' /\ (forall o, org' = Some o -> within p o).
Proof.
  induction cnt as [|c IH]; intros k ptr org s ptr' org' s' Hw Ho H; cbn [alloc_nodes] in H.
  - injection H as <- <- <-. split; [apply grows_refl|]. split; assumption.
  - rewrite new_elem in H.
    set (s1 := mkState _ _ _) in H.
    assert (G1 : grows 1 p s s1).
    { split; [lia|]. split; [reflexivity|]. split; [reflexivity|].
      intros a e Ha He. exists e. split; [|reflexivity].
      cbn [s1 elems]. rewrite lookup_insert_ne by lia. exact He. }
    match type of H with ?m s1 = _ =>
      assert (K : keeps 0 p (v ← load ptr; wr set_next (brk s) (untag v);;
                             v' ← load ptr; store ptr (Z.lor (brk s) (tagof v'));;
                             (mret tt : M unit)))
    end.
    { apply keeps_bind0; [apply keeps_load|]. intros v.
      apply keeps_bind0; [apply keeps_wr; reflexivity|]. intros _.
      apply keeps_bind0; [apply keeps_load|]. intros v'.
      apply keeps_bind0; [|intros; apply keeps_ret].
      intros s0 r0 s0' H0. eapply grows_within; [exact Hw|].
      eapply keeps_store; [apply within_refl | exact H0]. }
    rewrite bind_unfold in H.
    destruct (load ptr s1) as [v s2| | |] eqn:E1; try discriminate.
    rewrite bind_unfold in H.
    destruct (wr set_next (brk s) (untag v) s2) as [[] s3| | |] eqn:E2; try discriminate.
    rewrite bind_unfold in H.
    destruct (load ptr s3) as [v' s4| | |] eqn:E3; try discriminate.
    rewrite bind_unfold in H.
    destruct (store ptr (Z.lor (brk s) (tagof v')) s4) as [[] s5| | |] eqn:E4; try discriminate.
    assert (G2 : grows 0 p s1 s5).
    { apply (K s1 tt s5). rewrite bind_unfold, E1, bind_unfold, E2, bind_unfold, E3.
      rewrite bind_unfold, E4. reflexivity. }
    apply IH in H.
    + destruct H as [G3 [Hw' Ho']]. split; [|split; assumption].
      replace (Z.of_nat (S c)) with (1 + 0 + Z.of_nat c) by lia.
      eapply grows_trans; [eapply grows_trans; eassumption | exact G3].
    + apply within_simd.
    + intros o. destruct org as [o0|]; intros E; injection E as <-; [apply Ho; reflexivity | exact Hw].
Qed.

Lemma insert_grows (fuel : nat) (obj : Z) (ptr : loc) (srf : Z) (s : state) (r : Z) (s' : state) :
  Engine.insert objs slist opt_insert bbox_sort fuel obj ptr srf s = Ok r s' ->
  exists n, n <= 3 /\ grows n ptr s s'.
Proof.
  intros H. unfold Engine.insert in H.
  destruct (srf =? 0) eqn:Es.
  - rewrite bind_unfold in H. rewrite bind_unfold in H.
    unfold deref at 1 in H. destruct (objs !! obj) as [o|]; [|discriminate].
    destruct (RT_IS_LIGHT o).
    + rewrite new_elem in H. set (s1 := mkState _ _ _) in H.
      assert (G1 : grows 1 ptr s s1).
      { split; [lia|]. split; [reflexivity|]. split; [reflexivity|].
        intros a e Ha He. exists e. split; [|reflexivity].
        cbn [s1 elems]. rewrite lookup_insert_ne by lia. exact He. }
      exists (1 + 0). split; [lia|]. eapply grows_trans; [exact G1|].
      assert (K : keeps 0 ptr (v ← load ptr; wr set_next (brk s) v;; store ptr (brk s);;
                               (mret (brk s) : M Z))).
      { repeat keeps_step. }
      destruct ((v ← load ptr; wr set_next (brk s) v;; store ptr (brk s);; (mret (brk s) : M Z)) s1)
        as [r1 s2| | |] eqn:E1; try discriminate.
      change (Ok r1 s2 = Ok r s') in H. injection H as _ <-.
      eapply K. exact E1.
    + injection H as _ <-. exists 0. split; [lia | apply grows_refl].
  - rewrite bind_unfold, ret_unfold in H.
    rewrite new_elem in H. set (s1 := mkState _ _ _) in H.
    assert (G1 : grows 1 ptr s s1).
    { split; [lia|]. split; [reflexivity|]. split; [reflexivity|].
      intros a e Ha He. exists e. split; [|reflexivity].
      cbn [s1 elems]. rewrite lookup_insert_ne by lia. exact He. }
    rewrite bind_unfold in H.
    destruct (nodes_of objs obj srf s1) as [arr s2| | |] eqn:E2; try discriminate.
    pose proof (keeps_nodes_of ptr obj srf _ _ _ E2) as G2.
    rewrite bind_unfold in H.
    destruct (outer_most objs fuel arr s2) as [k s3| | |] eqn:E3; try discriminate.
    pose proof (keeps_outer_most ptr fuel arr _ _ _ E3) as G3.
    rewrite bind_unfold in H.
    destruct (load ptr s3) as [v s4| | |] eqn:E4; try discriminate.
    pose proof (keeps_load ptr ptr _ _ _ E4) as G4.
    rewrite bind_unfold in H.
    destruct (search_nodes fuel arr (count_nodes arr) 0 k ptr (untag v) s4)
      as [[[i' k'] ptr1] s5| | |] eqn:E5; try discriminate.
    destruct (search_nodes_reads _ _ _ _ _ _ _ _ _ _ _ _ E5) as [-> [Hw1 [Hi1 Hi2]]].
    rewrite bind_unfold in H.
    destruct (alloc_nodes (Z.to_nat (count_nodes arr - i')) arr k' ptr1 None s4)
      as [[ptr2 org] s6| | |] eqn:E6; try discriminate.
    destruct (alloc_nodes_grows _ _ ptr _ _ None _ _ _ _ Hw1 ltac:(intros ? ?; discriminate) E6)
      as [G6 [Hw2 Ho]].
    assert (K : keeps 0 ptr (v ← load ptr2; wr set_next (brk s) (untag v);;
                             v' ← load ptr2; store ptr2 (Z.lor (brk s) (tagof v'));;
                             (mret tt : M unit))).
    { apply keeps_bind0; [apply keeps_load|]. intros v0.
      apply keeps_bind0; [apply keeps_wr; reflexivity|]. intros _.
      apply keeps_bind0; [apply keeps_load|]. intros v'.
      apply keeps_bind0; [|intros; apply keeps_ret].
      intros s0 r0 s0' H0. eapply grows_within; [exact Hw2|].
      eapply keeps_store; [apply within_refl | exact H0]. }
    rewrite bind_unfold in H.
    destruct (load ptr2 s6) as [v1 s7| | |] eqn:E7; try discriminate.
    rewrite bind_unfold in H.
    destruct (wr set_next (brk s) (untag v1) s7) as [[] s8| | |] eqn:E8; try discriminate.
    rewrite bind_unfold in H.
    destruct (load ptr2 s8) as [v2 s9| | |] eqn:E9; try discriminate.
    rewrite bind_unfold in H.
    destruct (store ptr2 (Z.lor (brk s) (tagof v2)) s9) as [[] s10| | |] eqn:E10; try discriminate.
    assert (G7 : grows 0 ptr s6 s10).
    { apply (K s6 tt s10). rewrite bind_unfold, E7, bind_unfold, E8, bind_unfold, E9.
      rewrite bind_unfold, E10. reflexivity. }
    assert (Hcnt : 0 <= count_nodes arr <= 2).
    { unfold count_nodes. destruct (fst arr =? 0), (snd arr =? 0); lia. }
    assert (G : grows (1 + 0 + 0 + 0 + Z.of_nat (Z.to_nat (count_nodes arr - i')) + 0) ptr s s10).
    { repeat (eapply grows_trans; [|eassumption]). exact G1. }
    rewrite bind_unfold in H.
    destruct org as [o|].
    + rewrite bind_unfold in H.
      destruct (load o s10) as [v3 s11| | |] eqn:E11; try discriminate.
      pose proof (keeps_load ptr o _ _ _ E11) as G11.
      rewrite ret_unfold in H.
      destruct opt_insert.
      * pose proof (keeps_sort fuel obj o _ _ _ _ H) as G12.
        apply (grows_within _ ptr o _ _ (Ho o eq_refl)) in G12.
        eexists. split; [|eapply grows_trans; [eapply grows_trans; [exact G | exact G11] | exact G12]].
        lia.
      * injection H as _ <-.
        eexists. split; [|eapply grows_trans; [exact G | exact G11]]. lia.
    + rewrite ret_unfold in H.
      destruct opt_insert.
      * pose proof (keeps_sort fuel obj ptr2 _ _ _ _ H) as G12.
        apply (grows_within _ ptr ptr2 _ _ Hw2) in G12.
        eexists. split; [|eapply grows_trans; [exact G | exact G12]]. lia.
      * injection H as _ <-. eexists. split; [|exact G]. lia.
Qed.

(** Whatever [insert] is given, when it returns it has allocated at
    most three elements (the surface's and up to two nodes), has
    changed no variable other than the list head [*ptr] it was given,
    and every element that existed below the allocation pointer is
    still there and stands for the same object. *)
Theorem insert_footprint (fuel : nat) (obj : Z) (ptr : loc) (srf : Z) (s : state)
        (r : Z) (s' : state) :
  Engine.insert objs slist opt_insert bbox_sort fuel obj ptr srf s = Ok r s' ->
  brk s <= brk s' <= brk s + 3 * sizeof_ELEM
  /\ (forall c, Slot c <> ptr -> slots s' !! c = slots s !! c)
  /\ (forall a e, a < brk s -> elems s !! a = Some e ->
         exists e', elems s' !! a = Some e' /\ temp e' = temp e).
Proof.
  intros H. apply insert_grows in H. destruct H as [n [Hn [H0 [Hb [Hs He]]]]].
  split; [unfold sizeof_ELEM in *; lia|]. split; assumption.
Qed.

(** The surface loop: the same for a whole run of insertions. *)
Lemma insert_each_grows (fuel : nat) (obj : Z) (ptr : loc) (srfs : list Z) :
  forall (s : state) (r : unit) (s' : state),
    insert_each objs slist opt_insert bbox_sort fuel obj ptr srfs s = Ok r s' ->
    exists n, grows n ptr s s'.
Proof.
  induction srfs as [|x srfs IH]; intros s r s' H; cbn [insert_each] in H.
  - injection H as _ <-. exists 0. apply grows_refl.
  - rewrite bind_unfold in H.
    destruct (Engine.insert objs slist opt_insert bbox_sort fuel obj ptr x s)
      as [r1 s1| | |] eqn:E1; try discriminate.
    apply insert_grows in E1. destruct E1 as [n1 [_ G1]].
    apply IH in H. destruct H as [n2 G2].
    exists (n1 + n2). eapply grows_trans; eassumption.
Qed.

End Frame.

(** A list with one element, a second variable, and the insertion of
    the surface 1 of [five_objs] in front of the surface 2. *)
Definition busy_state : state :=
  mkState {[ 16 := mkELEM 0 0 0 2 ]} {[ Local 0 := 16; Local 1 := 7 ]} 4096.

Lemma insert_footprint_witness :
  exists r s',
    Engine.insert StableSpec.five_objs 0 true StableSpec.five_sort 8 100 (Slot (Local 0)) 1
                  busy_state = Ok r s'
    /\ brk busy_state <= brk s' <= brk busy_state + 3 * sizeof_ELEM
    /\ (forall c, Slot c <> Slot (Local 0) -> slots s' !! c = slots busy_state !! c)
    /\ (forall a e, a < brk busy_state -> elems busy_state !! a = Some e ->
           exists e', elems s' !! a = Some e' /\ temp e' = temp e).
Proof.
  destruct (Engine.insert StableSpec.five_objs 0 true StableSpec.five_sort 8 100
              (Slot (Local 0)) 1 busy_state) as [r s'| | |] eqn:E;
    try (vm_compute in E; discriminate).
  exists r, s'. split; [reflexivity|].
  exact (insert_footprint StableSpec.five_objs 0 true StableSpec.five_sort 8 100
           (Slot (Local 0)) 1 busy_state r s' E).
Defined.

End FrameSpec.

(** ** ssort and lsort: the lists of the camera and of a one-sided surface *)

Module ListsSpec.
Import Mem Engine MemFacts ListFacts SortSpec FrameSpec Lists.

Section Facts.

Variable objs : gmap Z Object.
Variable slist llist : Z.
Variable opts : Z.
Variable RT_OPTS_INSERT RT_OPTS_2SIDED RT_OPTS_RENDER RT_OPTS_SHADOW : Z.
Variable RT_PROP_REFLECT RT_PROP_OPAQUE : Z.
Variable mat_p : Z -> Z -> Z.
Variable bbox_sort : Z -> Z -> Z -> Z.
Variable bbox_side : Z -> Z -> Z.
Variable cbox_side : Z -> Z -> Z.
Variable bbox_shad : Z -> Z -> Z -> Z.
Variable srf_head lgt_head : list Z.

Local Abbreviation insert := (Lists.insert objs slist opts RT_OPTS_INSERT bbox_sort).
Local Abbreviation lsort_light :=
  (Lists.lsort_light objs slist opts RT_OPTS_INSERT RT_OPTS_2SIDED RT_OPTS_SHADOW
                     bbox_sort bbox_side cbox_side bbox_shad srf_head).
Local Abbreviation lsort_loop :=
  (Lists.lsort_loop objs slist opts RT_OPTS_INSERT RT_OPTS_2SIDED RT_OPTS_SHADOW
                    bbox_sort bbox_side cbox_side bbox_shad srf_head).
Local Abbreviation lsort :=
  (Lists.lsort objs slist llist opts RT_OPTS_INSERT RT_OPTS_2SIDED RT_OPTS_SHADOW
               bbox_sort bbox_side cbox_side bbox_shad srf_head lgt_head).

(** The element at [a] is the one [insert] makes for the light [lgt]. *)
Definition light_elem (h : gmap Z ELEM) (a lgt : Z) : Prop :=
  exists e o, h !! a = Some e /\ objs !! lgt = Some o
              /\ temp e = lgt /\ simd e = s_lgt o /\ data e = slist.

Definition is_light (x : Z) : Prop :=
  exists o, objs !! x = Some o /\ RT_IS_LIGHT o = true.

(** The list [l] at the variable [c] holds the lights [done]. *)
Definition lights (c : var) (s : state) (l done : list Z) : Prop :=
  slots s !! c = Some (hd 0 l)
  /\ lseg (elems s) (hd 0 l) l 0
  /\ Forall (fun a => a < brk s) l
  /\ 0 < brk s
  /\ Forall2 (light_elem (elems s)) l done.

Lemma light_elem_frame (h h' : gmap Z ELEM) (a x : Z) :
  h' !! a = h !! a -> light_elem h a x -> light_elem h' a x.
Proof. intros E [e [o [He H]]]. exists e, o. rewrite E. split; assumption. Qed.

(** A light is linked in as the new head of the list. *)
Lemma insert_light (fuel : nat) (c : var) (lgt : Z) (s : state) (l done : list Z) :
  lights c s l done -> is_light lgt ->
  exists s', insert fuel lgt (Slot c) 0 s = Ok (brk s) s'
             /\ lights c s' (brk s :: l) (lgt :: done)
             /\ (forall a, a < brk s -> elems s' !! a = elems s !! a)
             /\ (forall c', c' <> c -> slots s' !! c' = slots s !! c').
Proof.
  intros [Hs [Hl [Hlt [Hb Hd]]]] [o [Ho Hlg]].
  assert (Hn : ~ In (brk s) l).
  { intros Hin. rewrite Forall_forall in Hlt. apply list_elem_of_In, Hlt in Hin. lia. }
  unfold Lists.insert, Engine.insert. cbn [Z.eqb].
  rewrite bind_unfold. rewrite bind_unfold. unfold deref at 1. rewrite Ho, Hlg.
  rewrite new_elem.
  rewrite bind_unfold, (load_slot_eq c _ (hd 0 l)) by exact Hs.
  rewrite bind_unfold. erewrite wr_eq by (cbn [elems]; apply lookup_insert_eq).
  cbn [elems slots brk]. rewrite insert_insert_eq.
  rewrite bind_unfold, store_slot_eq by (cbn [slots]; eexists; exact Hs).
  cbn [elems slots brk]. unfold set_next. cbn [next data simd temp].
  eexists. split; [reflexivity|]. split; [|split].
  - unfold lights. cbn [hd elems slots brk]. split; [apply lookup_insert_eq|].
    split.
    { cbn [lseg]. split; [reflexivity|]. split; [lia|]. eexists.
      split; [apply lookup_insert_eq|]. cbn [next]. apply lseg_insert_notin; assumption. }
    split.
    { constructor; [unfold sizeof_ELEM; lia|].
      eapply Forall_impl; [exact Hlt|]. intros a Ha. cbn beta in *. unfold sizeof_ELEM. lia. }
    split; [unfold sizeof_ELEM; lia|].
    constructor.
    + eexists. exists o. split; [apply lookup_insert_eq|]. cbn [temp simd data].
      repeat split; try reflexivity. exact Ho.
    + clear Hl Hs. generalize (mkELEM (hd 0 l) slist (s_lgt o) lgt) as e0. intros e0.
      induction Hd as [|a x l0 d0 Ha Hd IH]; [constructor|].
      inversion Hlt; subst.
      constructor.
      * eapply light_elem_frame; [|exact Ha]. apply lookup_insert_ne.
        intros E. apply Hn. left. symmetry. exact E.
      * apply IH; [assumption|]. intros Hin. apply Hn. right. exact Hin.
  - intros a Ha. cbn [elems]. apply lookup_insert_ne. lia.
  - intros c' Hc'. cbn [slots]. apply lookup_insert_ne. congruence.
Qed.

Lemma lsort_loop_camera (fuel : nat) (obj : Z) (pto pti : loc) (lgts : list Z) :
  forall (s : state) (l done : list Z),
    lights (Local 0) s l done -> Forall is_light lgts ->
    exists s' l',
      lsort_loop fuel obj false pto pti (Slot (Local 0)) lgts s = Ok tt s'
      /\ lights (Local 0) s' l' (rev lgts ++ done)
      /\ (forall a, a < brk s -> elems s' !! a = elems s !! a)
      /\ (forall c', c' <> Local 0 -> slots s' !! c' = slots s !! c').
Proof.
  induction lgts as [|x lgts IH]; intros s l done Hl Hlg.
  - exists s, l. split; [reflexivity|]. split; [exact Hl|]. split; reflexivity.
  - inversion Hlg as [|? ? Hx Hrest]; subst.
    destruct (insert_light fuel (Local 0) x s l done Hl Hx) as [s1 [E1 [H1 [F1 S1]]]].
    destruct (IH s1 (brk s :: l) (x :: done) H1 Hrest) as [s' [l' [E' [H' [F' S']]]]].
    exists s', l'. split; [|split; [|split]].
    + cbn [Lists.lsort_loop]. rewrite bind_unfold.
      unfold Lists.lsort_light. rewrite andb_false_r.
      rewrite bind_unfold, bind_unfold. fold insert. rewrite E1.
      destruct H1 as [Hs1 _]. cbn [hd] in Hs1.
      rewrite bind_unfold, (load_slot_eq _ _ _ Hs1). rewrite ret_unfold.
      cbn [negb]. rewrite orb_true_r. rewrite ret_unfold. exact E'.
    + cbn [rev]. rewrite <- app_assoc. exact H'.
    + intros a Ha. rewrite F'; [apply F1; exact Ha|].
      assert (brk s < brk s1)
        by (destruct H1 as [_ [_ [Hlt1 _]]]; inversion Hlt1; assumption).
      lia.
    + intros c' Hc'. rewrite S', S1 by exact Hc'. reflexivity.
Qed.

(** For an object that is no surface (the camera), [lsort] returns a
    null-terminated list with one element per light of the scene, in
    the reverse of the order of [lgt_head]; each element holds the
    light, its descriptor and, as [data], the scene's surface list.
    The elements that existed before and the other variables are
    untouched. *)
Theorem lsort_camera (fuel : nat) (obj : Z) (o : Object) (s : state) :
  objs !! obj = Some o -> RT_IS_SURFACE o = false ->
  Forall is_light lgt_head -> 0 < brk s ->
  exists s' l,
    lsort fuel obj s = Ok (hd 0 l) s'
    /\ lseg (elems s') (hd 0 l) l 0
    /\ Forall2 (light_elem (elems s')) l (rev lgt_head)
    /\ (forall a, a < brk s -> elems s' !! a = elems s !! a)
    /\ (forall c, c <> Local 0 -> slots s' !! c = slots s !! c).
Proof.
  intros Ho Hsf Hlg Hb.
  unfold Lists.lsort. rewrite bind_unfold. unfold deref at 1. rewrite Ho, Hsf.
  rewrite bind_unfold, ret_unfold. cbv iota. rewrite bind_unfold.
  unfold local at 1.
  set (s1 := mkState (elems s) (<[Local 0 := 0]> (slots s)) (brk s)).
  assert (H1 : lights (Local 0) s1 [] []).
  { unfold lights. cbn [hd lseg s1 slots elems brk]. split; [apply lookup_insert_eq|].
    split; [reflexivity|]. split; [constructor|]. split; [exact Hb | constructor]. }
  destruct (lsort_loop_camera fuel obj (Slot (LstP obj 0)) (Slot (LstP obj 2)) lgt_head
              s1 [] [] H1 Hlg) as [s' [l [E [H' [F' S']]]]].
  rewrite bind_unfold, E.
  destruct H' as [Hs' [Hl' [_ [_ Hd']]]].
  unfold hand_over. rewrite bind_unfold, (load_slot_eq _ _ _ Hs'). cbn [negb].
  rewrite ret_unfold. rewrite app_nil_r in Hd'.
  exists s', l. split; [reflexivity|]. split; [exact Hl'|]. split; [exact Hd'|].
  split; [exact F'|].
  intros c Hc. rewrite S' by exact Hc. cbn [s1 slots]. apply lookup_insert_ne. congruence.
Qed.

Local Abbreviation ssort_loop :=
  (Lists.ssort_loop objs slist opts RT_OPTS_INSERT RT_OPTS_2SIDED bbox_sort bbox_side).
Local Abbreviation filter_all := (Lists.filter_all objs opts RT_OPTS_INSERT RT_OPTS_2SIDED).
Local Abbreviation hand_over := (Lists.hand_over opts RT_OPTS_2SIDED).
Local Abbreviation ssort :=
  (Lists.ssort objs slist opts RT_OPTS_INSERT RT_OPTS_2SIDED RT_OPTS_RENDER
               RT_PROP_REFLECT RT_PROP_OPAQUE mat_p bbox_sort bbox_side srf_head).
Local Abbreviation sorting := (Lists.sorting opts RT_OPTS_INSERT).
Local Abbreviation opt := (Lists.opt opts).
Local Abbreviation holds := StableSpec.holds.
Local Abbreviation ungrouped := (StableSpec.ungrouped objs).

(** When the sides are not told apart the loop of [ssort] is the plain
    run of insertions. *)
Lemma ssort_loop_one_sided (fuel : nat) (obj : Z) (srf : bool) (pto pti ptr : loc)
      (refs : list Z) (s : state) :
  opt RT_OPTS_2SIDED && srf = false ->
  ssort_loop fuel obj srf pto pti ptr refs s
  = insert_each objs slist sorting bbox_sort fuel obj ptr refs s.
Proof.
  intros H1. revert s. induction refs as [|x refs IH]; intros s; [reflexivity|].
  cbn [Lists.ssort_loop insert_each]. unfold Lists.ssort_ref. rewrite H1.
  rewrite !bind_unfold. unfold Lists.insert.
  destruct (Engine.insert objs slist sorting bbox_sort fuel obj ptr x s); try reflexivity.
  rewrite ret_unfold. apply IH.
Qed.

Lemma bind_assoc_M {A B C} (m : M A) (f : A -> M B) (g : B -> M C) (s : state) :
  ((m ≫= f) ≫= g) s = (m ≫= (fun a => f a ≫= g)) s.
Proof. rewrite !bind_unfold. destruct (m s); reflexivity. Qed.

(** The elements of [l] are as [insert] makes them for a surface. *)
Definition raw (h : gmap Z ELEM) (l : list Z) : Prop :=
  Forall (fun a => fld data h a = 0 /\ fld simd h a = 0) l.

(** Without the sorting a surface without nodes is linked in as the
    new head of the list. *)
Lemma insert_unsorted (fuel : nat) (obj : Z) (c : var) (x : Z) (s : state) (l done : list Z) :
  holds c s l done -> raw (elems s) l -> ungrouped obj x ->
  exists s', Engine.insert objs slist false bbox_sort fuel obj (Slot c) x s = Ok (brk s) s'
             /\ holds c s' (brk s :: l) (x :: done)
             /\ raw (elems s') (brk s :: l).
Proof.
  intros [Hs [Hl [Hal [Hab [Hb0 Hmap]]]]] Hraw Hu.
  pose proof Hu as [Hx _].
  set (E := brk s).
  assert (HEl : ~ In E l).
  { intros Hin. rewrite Forall_forall in Hal. apply list_elem_of_In in Hin.
    apply Hal in Hin. unfold E in Hin. lia. }
  assert (Hh : aligned (hd 0 l)).
  { destruct l as [|a l']; [apply aligned_0|]. inversion Hal as [|? ? [Ha _] _]. exact Ha. }
  unfold Engine.insert.
  destruct (x =? 0) eqn:Ex; [lia|].
  rewrite bind_unfold, ret_unfold.
  rewrite new_elem. fold E.
  rewrite bind_unfold, StableSpec.nodes_of_ungrouped by exact Hu.
  cbv beta iota zeta. change (count_nodes (0, 0)) with 0.
  rewrite bind_unfold. change (outer_most objs fuel (0, 0)) with (mret (-1) : M Z).
  rewrite ret_unfold.
  rewrite bind_unfold, (load_slot_eq c _ (hd 0 l)) by exact Hs.
  rewrite bind_unfold.
  assert (Hsn : forall v st, search_nodes fuel (0, 0) 0 0 (-1) (Slot c) v st = Ok (0, -1, Slot c) st).
  { intros v st. destruct fuel; cbn [search_nodes]; rewrite orb_true_r; reflexivity. }
  rewrite Hsn. cbv beta iota zeta.
  change (Z.to_nat (0 - 0)) with 0%nat. cbn [alloc_nodes].
  rewrite bind_unfold, ret_unfold. cbv beta iota zeta.
  rewrite bind_unfold, (load_slot_eq c _ (hd 0 l)) by exact Hs.
  rewrite bind_unfold.
  erewrite wr_eq by (cbn [elems]; apply lookup_insert_eq).
  cbn [elems slots brk]. rewrite insert_insert_eq.
  rewrite bind_unfold, (load_slot_eq c _ (hd 0 l)) by exact Hs.
  rewrite bind_unfold, store_slot_eq by (cbn [slots]; eexists; exact Hs).
  cbn [elems slots brk].
  rewrite bind_unfold, ret_unfold. cbv beta iota zeta.
  rewrite (untag_aligned _ Hh), (tagof_aligned _ Hh), Z.lor_0_r.
  unfold set_next. cbn [next data simd temp].
  set (s2 := mkState _ _ _).
  assert (HE2 : elems s2 !! E = Some (mkELEM (hd 0 l) 0 0 x)) by apply lookup_insert_eq.
  assert (Hold : forall f a, In a l -> fld f (elems s2) a = fld f (elems s) a).
  { intros f a Ha. unfold fld. cbn [elems s2]. rewrite lookup_insert_ne; [reflexivity|].
    intros <-. contradiction. }
  exists s2. split; [reflexivity|]. split.
  - unfold StableSpec.holds. cbn [hd]. split; [cbn [s2 slots]; apply lookup_insert_eq|].
    split.
    { cbn [lseg]. split; [reflexivity|]. split; [unfold E; lia|].
      eexists. split; [exact HE2|]. cbn [next]. apply lseg_insert_notin; assumption. }
    cbn [s2 brk]. unfold sizeof_ELEM. split.
    { constructor; [split; [exact Hab | fold E; lia]|].
      eapply Forall_impl; [exact Hal|]. intros a [Ha1 Ha2]. split; [exact Ha1 | lia]. }
    split; [apply (aligned_add16 E Hab)|]. split; [unfold E; lia|].
    cbn [map]. f_equal.
    + rewrite (fld_eq temp _ _ _ HE2). reflexivity.
    + rewrite <- Hmap. apply map_ext_in. intros a Ha. apply Hold. exact Ha.
  - constructor.
    + rewrite !(fld_eq _ _ _ _ HE2). split; reflexivity.
    + unfold raw in Hraw. rewrite Forall_forall in Hraw |- *. intros a Ha.
      pose proof Ha as Ha'. apply list_elem_of_In in Ha'.
      rewrite !(Hold _ a Ha'). apply Hraw. exact Ha.
Qed.

Lemma insert_each_unsorted (fuel : nat) (obj : Z) (c : var) (cs : list Z) :
  forall (s : state) (l done : list Z),
    holds c s l done -> raw (elems s) l -> Forall (ungrouped obj) cs ->
    exists s' l', insert_each objs slist false bbox_sort fuel obj (Slot c) cs s = Ok tt s'
                  /\ holds c s' l' (rev cs ++ done)
                  /\ raw (elems s') l'.
Proof.
  induction cs as [|x cs IH]; intros s l done Hh Hr Hu.
  - exists s, l. split; [reflexivity|]. split; assumption.
  - inversion Hu as [|? ? Hux Hucs]; subst.
    destruct (insert_unsorted fuel obj c x s l done Hh Hr Hux) as [s1 [E1 [H1 R1]]].
    destruct (IH s1 (brk s :: l) (x :: done) H1 R1 Hucs) as [s' [l' [E' [H' R']]]].
    exists s', l'. split; [|split; [|exact R']].
    + cbn [insert_each]. rewrite bind_unfold, E1. exact E'.
    + cbn [rev]. rewrite <- app_assoc. exact H'.
Qed.

(** A surface of the scene without nodes of its own in the list. *)
Definition candidate (obj x : Z) : Prop :=
  ungrouped obj x /\ exists o, objs !! x = Some o /\ RT_IS_SURFACE o = true.

(** The element at [a] as [ssort] leaves it for the surface [x]: with
    the descriptor set by [filter] when that runs. *)
Definition surf_elem (h : gmap Z ELEM) (a x : Z) : Prop :=
  exists e o, h !! a = Some e /\ objs !! x = Some o /\ temp e = x /\ data e = 0
              /\ simd e = if opt RT_OPTS_INSERT then s_srf o else 0.

Lemma filter_null (fuel : nat) (obj : Z) (c : var) (s : state) :
  slots s !! c = Some 0 -> Engine.filter objs fuel obj (Some (Slot c)) s = Ok 0 s.
Proof.
  intros H. unfold Engine.filter. rewrite bind_unfold, (load_slot_eq c s 0 H).
  change (untag 0) with 0. destruct fuel; reflexivity.
Qed.

Lemma surf_elems (h : gmap Z ELEM) (l : list Z) :
  forall (p : Z) (order : list Z),
    lseg h p l 0 -> map (fld temp h) l = order ->
    Forall (fun x => exists o, objs !! x = Some o /\ RT_IS_SURFACE o = true) order ->
    (if opt RT_OPTS_INSERT then Forall (FilterSpec.clean_elem objs h) l else raw h l) ->
    Forall2 (surf_elem h) l order.
Proof.
  induction l as [|a l IH]; intros p order Hl Hm Ho Hc.
  - cbn [map] in Hm. subst order. constructor.
  - cbn [map] in Hm. subst order. cbn [lseg] in Hl. destruct Hl as [-> [Ha [e [He Hl]]]].
    inversion Ho as [|? ? [o [Hoa Hsf]] Ho']; subst.
    rewrite (fld_eq temp h a e He) in Hoa.
    constructor.
    + exists e, o. split; [exact He|]. rewrite (fld_eq temp h a e He).
      split; [exact Hoa|]. split; [reflexivity|].
      destruct (opt RT_OPTS_INSERT).
      * inversion Hc as [|? ? Hca _]; subst. exact (Hca e o He Hoa Hsf).
      * inversion Hc as [|? ? [Hd Hs] _]; subst.
        rewrite (fld_eq data h a e He) in Hd. rewrite (fld_eq simd h a e He) in Hs.
        split; assumption.
    + apply (IH (next e)); [exact Hl | reflexivity | exact Ho' |].
      destruct (opt RT_OPTS_INSERT); inversion Hc; assumption.
Qed.

Lemma flat_elems (h : gmap Z ELEM) (l : list Z) :
  forall (p : Z),
    lseg h p l 0 ->
    Forall (fun x => exists o, objs !! x = Some o /\ RT_IS_SURFACE o = true)
           (map (fld temp h) l) ->
    Forall (FilterSpec.flat_elem objs h) l.
Proof.
  induction l as [|a l IH]; intros p Hl Ho; [constructor|].
  cbn [lseg] in Hl. destruct Hl as [-> [Ha [e [He Hl]]]].
  cbn [map] in Ho. inversion Ho as [|? ? [o [Hoa Hsf]] Ho']; subst.
  rewrite (fld_eq temp _ a e He) in Hoa.
  constructor; [|eapply IH; [exact Hl | exact Ho']].
  exists e, o. split; [exact He|]. split; [exact Hoa|].
  unfold RT_IS_SURFACE in Hsf. unfold RT_IS_ARRAY. destruct (tag o); congruence.
Qed.

(** The list of [ssort] when the sides are not told apart: the loop
    over the scene's surfaces followed by the filter calls. *)
Lemma build_one_sided (fuel : nat) (obj : Z) (srf : bool) (s : state) :
  opt RT_OPTS_2SIDED && srf = false ->
  slots s !! Local 0 = Some 0 -> aligned (brk s) -> 0 < brk s ->
  Forall (candidate obj) srf_head ->
  (sorting = true ->
   forall (i j : nat) x y, srf_head !! i = Some x -> srf_head !! j = Some y -> (i < j)%nat ->
                           bbox_sort obj y x = 2 \/ bbox_sort obj y x = 3) ->
  (length srf_head <= fuel)%nat ->
  (srf = true -> slots s !! LstP obj 1 = Some 0 /\ slots s !! LstP obj 3 = Some 0) ->
  exists s' l,
    (ssort_loop fuel obj srf (Slot (LstP obj 1)) (Slot (LstP obj 3)) (Slot (Local 0)) srf_head;;
     filter_all fuel obj (if srf then Some (Slot (LstP obj 1)) else None)
                (if srf then Some (Slot (LstP obj 3)) else None) (Some (Slot (Local 0)))) s
    = Ok tt s'
    /\ slots s' !! Local 0 = Some (hd 0 l)
    /\ (forall c, c <> Local 0 -> slots s' !! c = slots s !! c)
    /\ lseg (elems s') (hd 0 l) l 0
    /\ Forall2 (surf_elem (elems s')) l (if sorting then srf_head else rev srf_head).
Proof.
  intros Hone Hs Hab Hb Hc Hcmp Hf Hsides.
  assert (Hu : Forall (ungrouped obj) srf_head).
  { eapply Forall_impl; [exact Hc|]. intros x [H _]. exact H. }
  assert (Hsurf : Forall (fun x => exists o, objs !! x = Some o /\ RT_IS_SURFACE o = true)
                         srf_head).
  { eapply Forall_impl; [exact Hc|]. intros x [_ H]. exact H. }
  assert (Hh : holds (Local 0) s [] []).
  { unfold StableSpec.holds. cbn [hd lseg map]. repeat split; try assumption. constructor. }
  set (order := if sorting then srf_head else rev srf_head).
  assert (Hbuild : exists s1 l,
             insert_each objs slist sorting bbox_sort fuel obj (Slot (Local 0)) srf_head s
             = Ok tt s1
             /\ holds (Local 0) s1 l order
             /\ (opt RT_OPTS_INSERT = false -> raw (elems s1) l)).
  { unfold order. destruct sorting eqn:Esort.
    - destruct (StableSpec.insert_each_holds objs slist bbox_sort obj (Local 0) fuel srf_head
                  s [] [] Hh Hu (StableSpec.arrives_ok_pairs bbox_sort obj srf_head []
                                   (Hcmp eq_refl)))
        as [s1 [l [E1 H1]]]; [cbn [length]; lia|].
      exists s1, l. split; [exact E1|]. split; [exact H1|].
      intros Hopt. unfold Lists.sorting in Esort. fold opt in Esort.
      rewrite Hopt, andb_false_r in Esort. discriminate.
    - destruct (insert_each_unsorted fuel obj (Local 0) srf_head s [] [] Hh ltac:(constructor) Hu)
        as [s1 [l [E1 [H1 R1]]]].
      exists s1, l. split; [exact E1|]. rewrite app_nil_r in H1. split; [exact H1|].
      intros _. exact R1. }
  destruct Hbuild as [s1 [l [E1 [H1 R1]]]].
  assert (Hfr : forall c, c <> Local 0 -> slots s1 !! c = slots s !! c).
  { destruct (insert_each_grows objs slist sorting bbox_sort fuel obj (Slot (Local 0)) srf_head
                s tt s1 E1) as [n [_ [_ [Hsl _]]]].
    intros c Hc'. apply Hsl. congruence. }
  destruct H1 as [Hs1 [Hl1 [Hal1 [_ [_ Hmap1]]]]].
  assert (Horder : Forall (fun x => exists o, objs !! x = Some o /\ RT_IS_SURFACE o = true) order).
  { unfold order. destruct sorting; [exact Hsurf|].
    apply Forall_forall. intros x Hx. rewrite Forall_forall in Hsurf. apply Hsurf.
    apply list_elem_of_In. apply list_elem_of_In in Hx. apply in_rev. exact Hx. }
  rewrite bind_unfold, (ssort_loop_one_sided _ _ _ _ _ _ _ _ Hone), E1.
  unfold Lists.filter_all. fold opt.
  destruct (opt RT_OPTS_INSERT) eqn:Eopt.
  - assert (Hsides1 : ((if negb (RT_OPTS_2SIDED =? 0)
                        then Lists.filter objs fuel obj (if srf then Some (Slot (LstP obj 1)) else None);;
                             Lists.filter objs fuel obj (if srf then Some (Slot (LstP obj 3)) else None);;
                             mret tt
                        else mret tt) : M unit) s1 = Ok tt s1).
    { destruct (negb (RT_OPTS_2SIDED =? 0)); [|reflexivity].
      unfold Lists.filter. destruct srf.
      - destruct (Hsides eq_refl) as [Ho Hi].
        rewrite bind_unfold, filter_null by (rewrite Hfr by discriminate; exact Ho).
        rewrite bind_unfold, filter_null by (rewrite Hfr by discriminate; exact Hi).
        reflexivity.
      - reflexivity. }
    rewrite bind_unfold, Hsides1.
    assert (Hh1 : aligned (hd 0 l)).
    { destruct l as [|a l']; [apply aligned_0|]. inversion Hal1 as [|? ? [Ha _] _]. exact Ha. }
    assert (Hflat : Forall (FilterSpec.flat_elem objs (elems s1)) l).
    { apply (flat_elems (elems s1) l (hd 0 l) Hl1). rewrite Hmap1. exact Horder. }
    destruct (FilterSpec.filter_loop_flat objs l (hd 0 l) 0 s1 fuel Hl1 Hflat)
      as [s2 [E2 [L2 [_ [C2 [T2 [_ [S2 _]]]]]]]].
    { rewrite <- (length_map (fld temp (elems s1))), Hmap1. unfold order.
      destruct sorting; [|rewrite length_rev]; exact Hf. }
    unfold Lists.filter, Engine.filter.
    rewrite bind_unfold, bind_unfold, (load_slot_eq _ _ _ Hs1), (untag_aligned _ Hh1), E2.
    rewrite ret_unfold.
    exists s2, l. split; [reflexivity|]. rewrite S2.
    split; [exact Hs1|]. split; [exact Hfr|]. split; [exact L2|].
    apply (surf_elems (elems s2) l (hd 0 l) order L2).
    + rewrite <- Hmap1. apply map_ext. intros a. apply T2.
    + exact Horder.
    + rewrite Eopt. exact C2.
  - rewrite ret_unfold.
    exists s1, l. split; [reflexivity|]. split; [exact Hs1|]. split; [exact Hfr|].
    split; [exact Hl1|].
    apply (surf_elems (elems s1) l (hd 0 l) order Hl1 Hmap1 Horder).
    rewrite Eopt. apply R1. reflexivity.
Qed.

(** A surface that is its own transform node or has none. *)
Definition plain_surface (x : Z) : Prop :=
  x <> 0 /\ exists o, objs !! x = Some o /\ RT_IS_SURFACE o = true
                      /\ (trnode o = 0 \/ trnode o = x).

(** The same, outside every bounding-volume node. *)
Definition free_surface (x : Z) : Prop :=
  x <> 0 /\ exists o, objs !! x = Some o /\ RT_IS_SURFACE o = true
                      /\ (trnode o = 0 \/ trnode o = x) /\ bvnode o = 0.

(** Every surface that arrives later compares "do swap" or "neutral"
    to each one that arrived before it. *)
Definition arrival_sorted (obj : Z) : Prop :=
  forall (i j : nat) x y, srf_head !! i = Some x -> srf_head !! j = Some y -> (i < j)%nat ->
                          bbox_sort obj y x = 2 \/ bbox_sort obj y x = 3.

(** For an object that is no surface (the camera) and a scene whose
    surfaces have no nodes of their own, [ssort] returns a
    null-terminated list with one element per surface of the scene:
    with the sorting on and every surface "do swap" or "neutral"
    against those before it, in the order of [srf_head]; with the
    sorting off, in the reverse of that order.  Each element has
    [data] 0 and, when the filter runs, the surface's descriptor as
    [simd]; when it does not (the option is off), [simd] stays null.
    No variable other than the local list head changes. *)
Theorem ssort_camera (fuel : nat) (obj : Z) (o : Object) (s : state) :
  objs !! obj = Some o -> RT_IS_SURFACE o = false ->
  Forall plain_surface srf_head ->
  (sorting = true -> arrival_sorted obj) ->
  (length srf_head <= fuel)%nat ->
  aligned (brk s) -> 0 < brk s ->
  exists s' l,
    ssort fuel obj s = Ok (hd 0 l) s'
    /\ lseg (elems s') (hd 0 l) l 0
    /\ Forall2 (surf_elem (elems s')) l (if sorting then srf_head else rev srf_head)
    /\ (forall c, c <> Local 0 -> slots s' !! c = slots s !! c).
Proof.
  intros Ho Hsf Hp Hcmp Hf Hab Hb.
  assert (Hc : Forall (candidate obj) srf_head).
  { eapply Forall_impl; [exact Hp|]. intros x [Hx [ox [Hox [Hs Ht]]]].
    split; [|exists ox; split; assumption].
    split; [exact Hx|]. exists ox. split; [exact Hox|]. split; [exact Ht|].
    right. exists o. split; assumption. }
  unfold Lists.ssort. rewrite bind_unfold. unfold deref at 1. rewrite Ho, Hsf.
  rewrite bind_unfold, ret_unfold. cbv iota. rewrite bind_unfold.
  unfold local at 1.
  set (s1 := mkState (elems s) (<[Local 0 := 0]> (slots s)) (brk s)).
  destruct (build_one_sided fuel obj false s1) as [s' [l [E [Hs' [Hfr [Hl Hd]]]]]].
  - apply andb_false_r.
  - cbn [s1 slots]. apply lookup_insert_eq.
  - exact Hab.
  - exact Hb.
  - exact Hc.
  - exact Hcmp.
  - exact Hf.
  - discriminate.
  - rewrite <- bind_assoc_M, bind_unfold, E.
    unfold Lists.hand_over. rewrite bind_unfold, (load_slot_eq _ _ _ Hs'). cbn [negb].
    rewrite ret_unfold.
    exists s', l. split; [reflexivity|]. split; [exact Hl|]. split; [exact Hd|].
    intros c Hc'. rewrite Hfr by exact Hc'. cbn [s1 slots]. apply lookup_insert_ne. congruence.
Qed.

(** The test of [ssort] for a surface that needs lists of its own:
    rendering is on and either side reflects or is not opaque. *)
Definition own_lists (obj : Z) : bool :=
  opt RT_OPTS_RENDER
  && (negb (Z.land (mat_p obj 1) RT_PROP_REFLECT =? 0)
      || negb (Z.land (mat_p obj 3) RT_PROP_REFLECT =? 0)
      || (Z.land (mat_p obj 1) RT_PROP_OPAQUE =? 0)
      || (Z.land (mat_p obj 3) RT_PROP_OPAQUE =? 0)).

(** For a surface, with the two-sided option off:
    - whatever the scene, when [ssort] returns it returns null and has
      left one and the same list head in [lst_p[1]] and [lst_p[3]];
    - when the surface needs no lists of its own, [ssort] returns with
      both set to the scene's [slist] itself and nothing allocated;
    - otherwise, for a scene whose surfaces have no transform node
      other than themselves and no bounding-volume node, [ssort]
      returns with both set to the head of a new null-terminated list
      with one element per surface of the scene, in the order of
      [srf_head] when the sorting is on (every surface "do swap" or
      "neutral" against those before it), in the reverse order when it
      is off. *)
Theorem ssort_surface_shared (fuel : nat) (obj : Z) (o : Object) (s : state) :
  objs !! obj = Some o -> RT_IS_SURFACE o = true ->
  opt RT_OPTS_2SIDED = false ->
  is_Some (slots s !! LstP obj 1) -> is_Some (slots s !! LstP obj 3) ->
  (forall r s', ssort fuel obj s = Ok r s' ->
     r = 0 /\ exists v, slots s' !! LstP obj 1 = Some v /\ slots s' !! LstP obj 3 = Some v)
  /\ (own_lists obj = false ->
      ssort fuel obj s
      = Ok 0 (mkState (elems s) (<[LstP obj 3 := slist]> (<[LstP obj 1 := slist]> (slots s)))
                      (brk s)))
  /\ (own_lists obj = true ->
      Forall free_surface srf_head ->
      (sorting = true -> arrival_sorted obj) ->
      (length srf_head <= fuel)%nat ->
      aligned (brk s) -> 0 < brk s ->
      exists s' l,
        ssort fuel obj s = Ok 0 s'
        /\ slots s' !! LstP obj 1 = Some (hd 0 l)
        /\ slots s' !! LstP obj 3 = Some (hd 0 l)
        /\ lseg (elems s') (hd 0 l) l 0
        /\ Forall2 (surf_elem (elems s')) l (if sorting then srf_head else rev srf_head)).
Proof.
  intros Ho Hsf H2 Hso Hsi.
  assert (Hsi' : forall v, is_Some (<[LstP obj 1 := v]> (slots s) !! LstP obj 3)).
  { intros v. rewrite lookup_insert_ne by discriminate. exact Hsi. }
  assert (Hearly : own_lists obj = false ->
            ssort fuel obj s
            = Ok 0 (mkState (elems s)
                            (<[LstP obj 3 := slist]> (<[LstP obj 1 := slist]> (slots s)))
                            (brk s))).
  { intros Hown. unfold Lists.ssort. rewrite bind_unfold. unfold deref at 1. rewrite Ho, Hsf.
    fold opt. fold (own_lists obj). rewrite Hown.
    rewrite bind_unfold, bind_unfold, store_slot_eq by exact Hso.
    rewrite bind_unfold, store_slot_eq by (cbn [slots]; apply Hsi').
    reflexivity. }
  split; [|split].
  - intros r s' H. destruct (own_lists obj) eqn:Hown.
    + unfold Lists.ssort in H. rewrite bind_unfold in H. unfold deref at 1 in H.
      rewrite Ho, Hsf in H. fold opt in H. fold (own_lists obj) in H. rewrite Hown in H.
      rewrite bind_unfold, bind_unfold, store_slot_eq in H by exact Hso.
      rewrite bind_unfold, store_slot_eq in H by (cbn [slots]; apply Hsi').
      rewrite ret_unfold in H. cbv iota in H.
      rewrite bind_unfold in H. unfold local at 1 in H.
      rewrite bind_unfold in H.
      match type of H with
      | match ?m with _ => _ end = _ => destruct m as [[] s2| | |]; try discriminate H
      end.
      rewrite bind_unfold in H.
      match type of H with
      | match ?m with _ => _ end = _ => destruct m as [[] s3| | |]; try discriminate H
      end.
      unfold Lists.hand_over in H. rewrite bind_unfold in H. cbn [load] in H.
      destruct (slots s3 !! Local 0) as [lst|]; [|discriminate H].
      fold opt in H. rewrite H2 in H. cbn [negb] in H.
      rewrite bind_unfold in H. cbn [store] in H.
      destruct (slots s3 !! LstP obj 1); [|discriminate H].
      rewrite bind_unfold in H. cbn [store slots] in H.
      destruct (<[LstP obj 1 := lst]> (slots s3) !! LstP obj 3); [|discriminate H].
      rewrite ret_unfold in H. injection H as <- <-.
      split; [reflexivity|]. exists lst. cbn [slots]. split.
      * rewrite lookup_insert_ne by discriminate. apply lookup_insert_eq.
      * apply lookup_insert_eq.
    + rewrite (Hearly eq_refl) in H. injection H as <- <-.
      split; [reflexivity|]. exists slist. cbn [slots]. split.
      * rewrite lookup_insert_ne by discriminate. apply lookup_insert_eq.
      * apply lookup_insert_eq.
  - exact Hearly.
  - intros Hown Hp Hcmp Hf Hab Hb.
    assert (Hc : Forall (candidate obj) srf_head).
    { eapply Forall_impl; [exact Hp|]. intros x [Hx [ox [Hox [Hs [Ht Hbv]]]]].
      split; [|exists ox; split; assumption].
      split; [exact Hx|]. exists ox. split; [exact Hox|]. split; [exact Ht|].
      left. exact Hbv. }
    unfold Lists.ssort. rewrite bind_unfold. unfold deref at 1. rewrite Ho, Hsf.
    fold opt. fold (own_lists obj). rewrite Hown.
    rewrite bind_unfold, bind_unfold, store_slot_eq by exact Hso.
    rewrite bind_unfold, store_slot_eq by (cbn [slots]; apply Hsi').
    rewrite ret_unfold. cbv iota. cbn [elems slots brk].
    rewrite bind_unfold. unfold local at 1. cbn [elems slots brk].
    set (s1 := mkState _ _ _).
    destruct (build_one_sided fuel obj true s1) as [s' [l [E [Hs' [Hfr [Hl Hd]]]]]].
    + fold opt. rewrite H2. reflexivity.
    + cbn [s1 slots]. apply lookup_insert_eq.
    + exact Hab.
    + exact Hb.
    + exact Hc.
    + exact Hcmp.
    + exact Hf.
    + intros _. cbn [s1 slots]. split.
      * rewrite lookup_insert_ne by discriminate. rewrite lookup_insert_ne by discriminate.
        apply lookup_insert_eq.
      * rewrite lookup_insert_ne by discriminate. apply lookup_insert_eq.
    + rewrite <- bind_assoc_M, bind_unfold, E.
      unfold Lists.hand_over. rewrite bind_unfold, (load_slot_eq _ _ _ Hs'). cbn [negb].
      fold opt. rewrite H2. cbn [negb].
      assert (Ho1 : is_Some (slots s' !! LstP obj 1)).
      { rewrite Hfr by discriminate. cbn [s1 slots].
        rewrite lookup_insert_ne by discriminate. rewrite lookup_insert_ne by discriminate.
        rewrite lookup_insert_eq. eexists. reflexivity. }
      assert (Ho3 : is_Some (slots s' !! LstP obj 3)).
      { rewrite Hfr by discriminate. cbn [s1 slots].
        rewrite lookup_insert_ne by discriminate. rewrite lookup_insert_eq.
        eexists. reflexivity. }
      rewrite bind_unfold, store_slot_eq by exact Ho1.
      rewrite bind_unfold, store_slot_eq
        by (cbn [slots]; rewrite lookup_insert_ne by discriminate; exact Ho3).
      rewrite ret_unfold. cbn [elems slots brk].
      eexists. exists l. split; [reflexivity|]. cbn [slots elems].
      split; [rewrite lookup_insert_ne by discriminate; apply lookup_insert_eq|].
      split; [apply lookup_insert_eq|]. split; [exact Hl | exact Hd].
Qed.

End Facts.

(** A camera, two lights and three surfaces. *)
Definition lit_objs : gmap Z Object :=
  list_to_map
    [ (100, mkObject CAMERA 0 0 0 0 0);
      (200, mkObject LIGHT 0 0 0 0 2200);
      (201, mkObject LIGHT 0 0 0 0 2210);
      (1, mkObject SURFACE 0 0 0 1100 0);
      (2, mkObject SURFACE 0 0 0 1200 0);
      (3, mkObject SURFACE 0 0 0 1300 0) ].

Definition no_side (a b : Z) : Z := 3.
Definition no_shad (a b c : Z) : Z := 1.
Definition no_mat (srf i : Z) : Z := 0.

Definition fresh_arena : state := mkState ∅ ∅ 4096.

Lemma lsort_camera_witness :
  exists s' l,
    Lists.lsort lit_objs 7 9 0 1 2 8 StableSpec.neutral_sort no_side no_side no_shad
                [1; 2; 3] [200; 201] 8 100 fresh_arena = Ok (hd 0 l) s'
    /\ lseg (elems s') (hd 0 l) l 0
    /\ Forall2 (light_elem lit_objs 7 (elems s')) l (rev [200; 201])
    /\ (forall a, a < brk fresh_arena -> elems s' !! a = elems fresh_arena !! a)
    /\ (forall c, c <> Local 0 -> slots s' !! c = slots fresh_arena !! c).
Proof.
  apply (lsort_camera lit_objs 7 9 0 1 2 8 StableSpec.neutral_sort no_side no_side no_shad
           [1; 2; 3] [200; 201] 8 100 (mkObject CAMERA 0 0 0 0 0) fresh_arena).
  - reflexivity.
  - reflexivity.
  - repeat constructor; eexists; split; reflexivity.
  - cbn. lia.
Defined.

Lemma ssort_camera_witness :
  exists s' l,
    Lists.ssort lit_objs 7 1 1 2 4 16 32 no_mat StableSpec.neutral_sort no_side
                [1; 2; 3] 8 100 fresh_arena = Ok (hd 0 l) s'
    /\ lseg (elems s') (hd 0 l) l 0
    /\ Forall2 (surf_elem lit_objs 1 1 (elems s')) l
               (if Lists.sorting 1 1 then [1; 2; 3] else rev [1; 2; 3])
    /\ (forall c, c <> Local 0 -> slots s' !! c = slots fresh_arena !! c).
Proof.
  apply (ssort_camera lit_objs 7 1 1 2 4 16 32 no_mat StableSpec.neutral_sort no_side
           [1; 2; 3] 8 100 (mkObject CAMERA 0 0 0 0 0) fresh_arena).
  - reflexivity.
  - reflexivity.
  - repeat (apply List.Forall_cons;
            [split; [lia | eexists; split; [reflexivity | split; [reflexivity | left; reflexivity]]]|]).
    apply List.Forall_nil.
  - intros _ i j x y _ _ _. right. reflexivity.
  - cbn. lia.
  - reflexivity.
  - cbn. lia.
Defined.

(** The surface 1 with its two list heads; rendering is on (flag 4),
    two-sidedness (flag 2) is off, and no material is opaque. *)
Definition surface_arena : state := mkState ∅ {[ LstP 1 1 := 5; LstP 1 3 := 6 ]} 4096.

Lemma ssort_surface_shared_witness :
  exists s' l,
    Lists.ssort lit_objs 7 5 1 2 4 16 32 no_mat StableSpec.neutral_sort no_side
                [1; 2; 3] 8 1 surface_arena = Ok 0 s'
    /\ slots s' !! LstP 1 1 = Some (hd 0 l)
    /\ slots s' !! LstP 1 3 = Some (hd 0 l)
    /\ lseg (elems s') (hd 0 l) l 0
    /\ Forall2 (surf_elem lit_objs 5 1 (elems s')) l
               (if Lists.sorting 5 1 then [1; 2; 3] else rev [1; 2; 3]).
Proof.
  apply (proj2 (proj2 (ssort_surface_shared lit_objs 7 5 1 2 4 16 32 no_mat StableSpec.neutral_sort
                  no_side [1; 2; 3] 8 1 (mkObject SURFACE 0 0 0 1100 0) surface_arena
                  eq_refl eq_refl eq_refl ltac:(eexists; reflexivity)
                  ltac:(eexists; reflexivity)))).
  - reflexivity.
  - repeat (apply List.Forall_cons;
            [split; [lia | eexists; split; [reflexivity | split; [reflexivity |
                     split; [left; reflexivity | reflexivity]]]]|]).
    apply List.Forall_nil.
  - intros _ i j x y _ _ _. right. reflexivity.
  - cbn. lia.
  - reflexivity.
  - cbn. lia.
Defined.

End ListsSpec.
